(* ===== verification/_CoqProject ===== *)
-Q . S2P
Prelude.v
GoBase.v
GoStrings.v
GoFloat.v
GoFormat.v
GoParse.v
FloatFacts.v
GoFlag.v
GoPath.v
GoNet.v
Event.v
Proto.v
Store.v
StoreSpec.v
Plan.v
PlanProofs.v
PlanTheorems.v
SQLite.v
SQLiteProofs.v
StoreExample.v
SQLiteRefines.v
SQLiteTheorems.v
Scheduler.v
SchedulerProofs.v
SchedulerTheorems.v
SchedulerProgress.v
World.v
Collector.v
CollectorTheorems.v
Convert.v
Config.v
ConfigTheorems.v
Notify.v
EngineFacts.v
NotifyTheorems.v
Transport.v
TransportTheorems.v
Tunnel.v
TunnelTheorems.v
Agent.v
AgentTheorems.v
JobLog.v
JobLogTheorems.v
Server.v
ServerTheorems.v
Reap.v
ReapTheorems.v
ServerClock.v
Web.v
WebTheorems.v
Skctl.v
SkctlTheorems.v
Prometheus.v
PrometheusTheorems.v
Main.v
Cluster.v
ClusterTheorems.v
ServerInterleaved.v
ClusterLiveness.v
ClusterProgress.v
ClusterHeartbeat.v
MainTheorems.v
Startup.v
