(* ===== verification/Prelude.v ===== *)
(** * Skipper: a verification library of the cluster control plane

    Skipper is a scheduler for GPU and NPU clusters: a control plane (src/cmd/skipper-server,
    src/internal/server) keeps nodes and jobs in a SQLite store, plans jobs onto nodes, answers the
    agents and the clients over gRPC and HTTP, and watches the nodes; an agent on every node
    (src/cmd/skipper-agent, src/internal/agent) reports the inventory and the metrics and runs the
    jobs it is assigned; skctl (src/cmd/skctl) and the web console submit and inspect jobs.  This
    library models that Go code as executable definitions and proves what each part promises.

    ** How the parts are modelled

    Values.  A Go integer is a [Z] with its wrap-around written out where the code can overflow
    ([GoBase]: [u32], [u64], [i64], [mul64]); [float64] is IEEE binary64 computed exactly
    ([GoFloat], on the standard library's SpecFloat); a string is a string of bytes; a [time.Time]
    is the number of nanoseconds since year 1; a map is a [gmap], a slice a list, a pointer to a
    message an [option].  What the code uses of Go's library is modelled as well: [GoStrings]
    (strings, strconv), [GoFormat] (fmt), [GoParse] (ParseFloat), [GoPath] (path/filepath), [GoNet]
    (SplitHostPort), [GoFlag] (flag), with the lemmas they need; [FloatFacts] has the exactness of
    integers and of products by powers of two as doubles.

    Effects.  A function that acts on a state is [ST S A], a function from the state to a result
    and the next state, and a failing one returns [result A].  Whatever the code cannot know is an
    argument or part of the state: the readings of the clock and of the random source ([World]), the
    failures of statements, of files and of connections.  A loop that the code ends by itself has
    fuel; a theorem says how much is enough.

    ** The files

    - [Event], [Proto]: the records of internal/event and of the generated messages (gen/skipper/v1).
    - [Store]: internal/store/store.go: records, states, [NewID], and the class [Store] of the
      operations.  [StoreSpec]: the contract, an abstract state of nodes and jobs ([View]) with one
      transition per call ([spec_call]), the class [StoreLaws] of what an implementation promises
      to its clients, and the class [Steady] of what it promises while it is up.
    - [SQLite] (sqlite.go, sqlite_jobs.go, sqlite_events.go): the tables, every statement with its
      possible failure, the transaction of [CancelJob].  [SQLiteProofs] has the lemmas;
      [SQLiteRefines] shows that every history of calls does what the contract says
      ([sqlite_refines]) and gives the instances [sqlite_laws] and [sqlite_steady]; [SQLiteTheorems] has the life cycle
      of jobs ([job_lifecycle]: nothing lost, what has ended stays ended, one placement), cancelling
      with rollback, registration as an upsert, and stale nodes; [StoreExample] is a small store
      for the witnesses.
    - [Plan] (scheduler/plan.go): one definition per function and loop body.  [PlanProofs],
      [PlanTheorems]: no overcommitment, devices exclusive, placement, priority order, maximality
      (what is left out fits nowhere), the reservation as the least instant at which the blocked
      job fits (on a node that is not overcommitted; [nodeReservationTime_overcommitted]), and
      backfill that does not delay it.
    - [Scheduler] (scheduler/scheduler.go): a pass over any [Store], as one function ([pass]) and one
      store operation at a time ([passStep]).  [SchedulerProofs], [SchedulerTheorems]: over passes
      interleaved with the calls of all other goroutines and with failing statements, no two
      ASSIGNED or RUNNING jobs hold the same device ([Run_exclusive]), and no node is overcommitted by a
      pass ([pass_no_overcommit]).  [SchedulerProgress]: a pass
      that nothing disturbs places whatever has room ([pass_conserves_work]).
    - [EngineFacts]: what the notification engine may touch, as a pattern of calls ([keeping]) that
      the files on the services and the loops apply to their own relations.
    - [Collector] (internal/collector): the nvidia-smi and npu-smi parsers, the system collectors.
      [CollectorTheorems]: printed tables are read back; the memory of an NPU.
    - [Convert] (server/convert.go, convert_jobs.go), with the two ways a node's inventory arrives.
    - [Config] (internal/config): durations, defaults, file and environment.  [ConfigTheorems]:
      durations are read back.
    - [Notify] (internal/notify, internal/metrics): rules, cooldown, delivery, the detector.
      [NotifyTheorems]: cooldown spacing, disk alerts alternate, idle devices exactly when their
      utilisation has been low for long enough.
    - [Transport] (internal/transport): dialling, the SCP upload chunk by chunk with writes that can
      be partial, the launch command, the diagnosis.
      [TransportTheorems]: a protocol sink decodes the file that was sent; the shell reads the
      launch command as the intended words whatever the parameters contain.
    - [Tunnel] (transport/ssh.go): the goroutines of an SSH tunnel, step by step: [Run] with the
      sessions that [serveOnce] opens, the closer and the keepalive of each, and the proxies with
      their two copies, against a network that offers, delivers, breaks and ends connections, and a
      peer that answers a dial, a request to listen, the end of the listening and a keepalive when it will.
      [TunnelTheorems]: bytes are forwarded in order in both directions ([tunnel_forwards]), one
      session at a time with the configured host key ([tunnel_single]), and after the cancellation
      everything returns and is closed as far as the peer answers or the connection ends ([tunnel_stops],
      [proxy_released]); a peer that stays silent holds [Run] ([silent_peer_blocks]).
    - [Agent] (internal/agent): the executor as a step relation on runs, watchers, timers, processes
      and reports: a run launches its process, reports it, and only when that call has returned has a
      walltime timer and a watcher; SIGKILL follows SIGTERM by a timer of its own.
      [AgentTheorems]: one run per job, the report protocol, cancellation, no process group left
      behind by a run that returns, device isolation.
    - [Cluster] (agent.go with the services): the agent's reporting loop (registration first), its
      poll loop and its executor, turn by turn, against the control plane over a network that loses
      requests and replies; agents crash and restart, which leaves the process groups of their jobs
      running on the host ([restarted]); clients, the detector, the scheduler, whose
      pass is one store operation per step, and the reaper, whose tick is two turns, act in
      between.  [ClusterTheorems]: whatever runs for a job runs on the node it was placed on, as the
      store holds it, and the executors run it at most once ([job_runs_on_its_node], by induction on
      [reachable]), beside what crashes have left ([crash_leaves_groups]);
      two live runs on one node share no device ([live_runs_share_no_device]); the whole state
      stays well typed ([cluster_well_typed]); how a job ended is what the store says; agents come
      up however often the store fails; what happens when reports are lost ([lost_reports]); steps of the scheduler
      that nothing interrupts are the pass ([passSteps_pass]).  [ClusterLiveness]: the poll loop
      can always go on, and starts every job that was assigned to its node ([assigned_jobs_start]).
      [ClusterProgress] joins that to the pass and the poll: a job of the queue for which there is
      room is placed by the next pass and taken up after the next poll ([queued_job_starts]).
      [ClusterHeartbeat]: by the clock of the control plane, a node whose report is answered is UP
      for the reaper's timeout ([reporting_node_stays_up]), one that keeps silent goes DOWN
      ([silent_node_goes_down]).
    - [Main] (cmd/skipper-agent, cmd/skipper-server, internal/log, the start and the end of
      server.Run): flags, configuration, the processes until their goroutines are in their loops.
      [MainTheorems]: where an agent's settings come from; the agent that the launch command starts
      is the node that the diagnoser finds.  [Startup]: which configurations come up
      ([server_comes_up]: an interval that is not positive ends the process), and that the programs
      that came up make a cluster in a [reachable] state ([started_cluster_reachable]).
    - [JobLog] (server/joblog.go and the stream of clusterjobs.go) against files, jobs and a
      connection that change from one millisecond to the next, an access counted as one.  [JobLogTheorems]: names are safe, logs are what was
      appended, a follower gets the whole log and is let go, but not while the job runs
      ([follower_stays]), which is what a server that shuts down waits for.
    - [Server] (agentsvc.go, agentjobs.go, clustersvc.go, clusterjobs.go, clusterevents.go): the
      handlers over any [Store] and the notification engine.  [ServerTheorems]: whatever requests
      arrive, one after the other, the store is what the contract's calls of the requests that were
      answered make of it, each at the instant of its handler ([control_refines]); polls, submissions and final reports.  [ServerInterleaved]: the same with
      other goroutines between the calls of a handler, each request taking effect in one piece
      ([requests_linearizable]), which is why [Cluster] may handle a request in one step; a poll
      that others come between hands out only what is still placed on its node
      ([poll_among_others]).
    - [Reap] (server.go, diagnose.go): the reaper, the diagnoser, provisioning; a tick of the
      reaper as one function ([reapTick]) and turn by turn ([reapStep]).  [ReapTheorems]: lost
      nodes are announced, diagnoses are spaced, the dial address.  [ServerClock]: what the loops
      and handlers do to the clock and the store; the turns are the tick ([reapTick_steps]).
    - [Web] (webserver.go): routes, handlers, JSON records, the log stream.  [WebTheorems]: the web
      console does and shows what the gRPC services do; the two log streams, which pause 300 and 400
      milliseconds between their rounds, deliver the same log ([jobLogsStream_agrees]).
    - [Skctl] (cmd/skctl/main.go): every command with its flags over a client stub.
      [SkctlTheorems]: a command line is read as its request, the same that the web form stands
      for; sizes for people.
    - [Prometheus] (prometheus.go, the metrics server of server.go).  [PrometheusTheorems]: no two
      samples share an identity, so the page is served ([metrics_page_served]).

    Interfaces.  The scheduler, the services, the loops and the exporter use the store through the
    class [Store] and are proved against [StoreLaws], and against [Steady] where the store has to be
    up (passes, polls, metrics reports and the ends of jobs); the instances for SQLite discharge both.
    The detector and the reaper emit events through the class [EventSink], implemented by the
    engine and, to state theorems, by a trace.

    ** Fuel and bounds

    [drainLogs] and [followLogs] take fuel, one unit per read or round: [GetJobLogs_ends] gives the
    number that is enough.  [parseGroups], [fields_with], [trim_with] and [parseArgs] consume a byte
    or an argument per round and run on the length of their input.  [humanScale] runs seven rounds,
    enough for 64 bits ([humanBytes_scale]).  A registration needs at most one attempt more than the
    store has failures to come ([agent_comes_up]); the work left of a tunnel is a function of its
    state ([tunnelWork]).  Times are unbounded integers with the saturation of
    [time.Sub]; the clock is monotone only where a theorem says so.

    ** Not modelled

    The YAML, JSON-over-HTTP, gRPC and SSH libraries (their results are arguments), the SQL engine
    (a statement is its effect on the tables or an error), the text of library errors, structured
    logging, the alignment of tables, the generated descriptors and stubs, the embedded assets, and
    listening, signals and the ticks of tickers: a turn of a loop may happen at any time.  What the
    SSH library and the network do is part of the events of a tunnel; flow control is left out, a write may
    happen or fail at any time.  Of the process groups that an agent's crash leaves behind the
    model has only that they are there and that they end.  What is left of the source is of these kinds: log lines, the usage text, the struct
    headers of collectors and notifiers, the goroutines that serve HTTP.  Each other file says what
    it leaves out. *)
From stdpp Require Export base tactics numbers list strings pretty gmap sorting.


(** ** Notation scope, hint databases, tactics *)

Declare Scope go_scope.
Delimit Scope go_scope with go.
Open Scope go_scope.

(** [skipper] collects the lemmas that close the routine side conditions (bounds of machine
    integers, membership, sortedness); [skipper_rw] the equations that simplify models. *)
Create HintDb skipper.
Create HintDb skipper_rw.

(** Case analysis on the innermost scrutinee of the goal, keeping the equation. *)
Ltac case_step :=
  match goal with
  | |- context [match ?x with _ => _ end] =>
      lazymatch x with
      | context [match _ with _ => _ end] => fail
      | _ => destruct x eqn:?
      end
  end.

(** The same in a hypothesis. *)
Ltac case_step_in H :=
  match type of H with
  | context [match ?x with _ => _ end] =>
      lazymatch x with
      | context [match _ with _ => _ end] => fail
      | _ => destruct x eqn:?
      end
  end.

(** A closed decidable goal, by evaluating its decision procedure. *)
Ltac by_decide := apply (bool_decide_unpack _); vm_compute; exact I.

(** Turn boolean tests of the models into propositions. *)
Ltac bool_to_prop :=
  repeat match goal with
  | H : (_ && _) = true |- _ => apply andb_true_iff in H as [? ?]
  | H : (_ || _) = false |- _ => apply orb_false_iff in H as [? ?]
  | H : negb _ = true |- _ => apply negb_true_iff in H
  | H : negb _ = false |- _ => apply negb_false_iff in H
  | H : Z.ltb _ _ = true |- _ => apply Z.ltb_lt in H
  | H : Z.ltb _ _ = false |- _ => apply Z.ltb_ge in H
  | H : Z.leb _ _ = true |- _ => apply Z.leb_le in H
  | H : Z.leb _ _ = false |- _ => apply Z.leb_gt in H
  | H : Z.eqb _ _ = true |- _ => apply Z.eqb_eq in H
  | H : Z.eqb _ _ = false |- _ => apply Z.eqb_neq in H
  | H : bool_decide _ = true |- _ => apply bool_decide_eq_true_1 in H
  | H : bool_decide _ = false |- _ => apply bool_decide_eq_false_1 in H
  end.

(** ** Results: a value or an error message *)

Inductive result (A : Type) : Type :=
| Ok (a : A)
| Err (e : string).
Arguments Ok {A} _.
Arguments Err {A} _.

#[export] Instance result_eq_dec {A} `{EqDecision A} : EqDecision (result A).
Proof. solve_decision. Defined.

#[export] Instance result_ret : MRet result := λ A a, Ok a.
#[export] Instance result_bind : MBind result := λ A B f r,
  match r with Ok a => f a | Err e => Err e end.
#[export] Instance result_fmap : FMap result := λ A B f r,
  match r with Ok a => Ok (f a) | Err e => Err e end.

Definition is_ok {A} (r : result A) : bool :=
  match r with Ok _ => true | Err _ => false end.

(** ** State passing *)

Definition ST (S A : Type) : Type := S → A * S.

Definition st_ret {S A} (a : A) : ST S A := λ s, (a, s).
Definition st_bind {S A B} (c : ST S A) (k : A → ST S B) : ST S B :=
  λ s, let '(a, s') := c s in k a s'.
Definition st_get {S} : ST S S := λ s, (s, s).
Definition st_put {S} (s' : S) : ST S unit := λ _, (tt, s').
Definition st_modify {S} (f : S → S) : ST S unit := λ s, (tt, f s).

Notation "x <- c ;; k" := (st_bind c (λ x, k))
  (at level 100, c at next level, right associativity) : go_scope.
Notation "c ;;; k" := (st_bind c (λ _, k))
  (at level 100, right associativity) : go_scope.

(** [if err != nil { return err }] after a fallible call. *)
Definition st_try {S A B} (c : ST S (result A)) (k : A → ST S (result B)) : ST S (result B) :=
  λ s, match c s with
       | (Ok a, s') => k a s'
       | (Err e, s') => (Err e, s')
       end.

(** [fmt.Errorf("msg: %w", err)] *)
Definition wrap_err {S A} (msg : string) (c : ST S (result A)) : ST S (result A) :=
  λ s, match c s with
       | (Ok a, s') => (Ok a, s')
       | (Err e, s') => (Err (msg +:+ ": " +:+ e), s')
       end.

Notation "x <-? c ;; k" := (st_try c (λ x, k))
  (at level 100, c at next level, right associativity) : go_scope.
Notation "c ?;; k" := (st_try c (λ _, k))
  (at level 100, right associativity) : go_scope.

(** [for _, x := range xs { body }] *)
Fixpoint st_for {S A} (xs : list A) (body : A → ST S unit) : ST S unit :=
  match xs with
  | [] => st_ret tt
  | x :: xs' => body x ;;; st_for xs' body
  end.

Lemma st_for_app {S A} (xs ys : list A) (body : A → ST S unit) s :
  st_for (xs ++ ys) body s = st_for ys body (st_for xs body s).2.
Proof.
  revert s; induction xs as [|x xs IH]; intros s; [done|].
  simpl; unfold st_bind. destruct (body x s) as [u s1]. apply IH.
Qed.

(** An invariant of the body is an invariant of the loop. *)
Lemma st_for_inv {S A} (P : S → Prop) (xs : list A) (body : A → ST S unit) s :
  (∀ x s, x ∈ xs → P s → P (body x s).2) → P s → P (st_for xs body s).2.
Proof.
  revert s; induction xs as [|x xs IH]; intros s Hb Hs; [done|].
  simpl; unfold st_bind. specialize (Hb x s) as Hx.
  destruct (body x s) as [u s1]; simpl in *.
  apply IH; [|apply Hx; [set_solver|done]]. intros y s' Hy; apply Hb; set_solver.
Qed.

(** What a computation does wherever [P] holds: it keeps [P], and its state moves along [R]. *)
Definition keeps {S A} (P : S → Prop) (R : relation S) (op : ST S A) : Prop :=
  ∀ s, P s → P (op s).2 ∧ R s (op s).2.

Lemma keeps_ret {S A} P R `{!Reflexive R} (a : A) : keeps (S := S) P R (st_ret a).
Proof. by intros s Hs. Qed.

Lemma keeps_bind {S A B} P R `{!Transitive R} (op : ST S A) (f : A → ST S B) :
  keeps P R op → (∀ a, keeps P R (f a)) → keeps P R (st_bind op f).
Proof.
  intros H1 H2 s Hs. unfold st_bind. destruct (H1 s Hs) as [Hs1 R1]. destruct (op s) as [a s1]. simpl in *.
  destruct (H2 a s1 Hs1) as [Hs2 R2]. split; [done|]. by etrans.
Qed.

Lemma keeps_for {S A} P R `{!PreOrder R} (xs : list A) (body : A → ST S unit) :
  (∀ x, keeps P R (body x)) → keeps P R (st_for xs body).
Proof. intros Hb. induction xs as [|x xs IH]; [apply keeps_ret, _|]. apply keeps_bind; [apply _|done..]. Qed.

(** A computation that looks at the state first. *)
Lemma keeps_state {S A} P R (f : S → ST S A) : (∀ s, keeps P R (f s)) → keeps P R (λ s, f s s).
Proof. intros Hf s. apply (Hf s s). Qed.

(** ** Stable sorting, as Go's [sort.SliceStable]

    [less a b] is Go's comparison callback.  Insertion from the right keeps the order of
    elements neither of which is [less] than the other. *)
Section sort_ops.
Context {A : Type} (less : A → A → bool).

Fixpoint insert_by (x : A) (l : list A) : list A :=
  match l with
  | [] => [x]
  | y :: l' => if less y x then y :: insert_by x l' else x :: y :: l'
  end.

Fixpoint sort_by (l : list A) : list A :=
  match l with
  | [] => []
  | x :: l' => insert_by x (sort_by l')
  end.

(** [a] may stand before [b] in a sorted list. *)
Definition not_after (a b : A) : Prop := less b a = false.

(** Neither is [less]: a tie. *)
Definition tied (a b : A) : Prop := less a b = false ∧ less b a = false.

#[export] Instance tied_dec a b : Decision (tied a b).
Proof. unfold tied; apply _. Defined.
End sort_ops.

(** What Go asks of a comparison callback, for the elements that satisfy [P]: a strict weak
    order. *)
Class StrictWeak {A} (P : A → Prop) (less : A → A → bool) : Prop := {
  sw_asym a b : P a → P b → less a b = true → less b a = false;
  sw_trans a b c : P a → P b → P c → less b a = false → less c b = false → less c a = false
}.

Section sorting_theory.
Context {A : Type} (less : A → A → bool).

Lemma insert_by_perm x l : insert_by less x l ≡ₚ x :: l.
Proof.
  induction l as [|y l IH]; simpl; [done|].
  destruct (less y x); [|done]. rewrite IH. apply Permutation_swap.
Qed.

Lemma sort_by_perm l : sort_by less l ≡ₚ l.
Proof. induction l as [|x l IH]; simpl; [done|]. by rewrite insert_by_perm, IH. Qed.

Lemma elem_of_sort_by x l : x ∈ sort_by less l ↔ x ∈ l.
Proof. by rewrite sort_by_perm. Qed.

Context (P : A → Prop) `{!StrictWeak P less}.

Lemma insert_by_sorted x l :
  P x → Forall P l →
  StronglySorted (not_after less) l → StronglySorted (not_after less) (insert_by less x l).
Proof.
  intros Px Pl. induction 1 as [|y l Hl IH Hy]; simpl; [repeat constructor|].
  inversion Pl as [|? ? Py Pl']; subst. destruct (less y x) eqn:E.
  - constructor; [by apply IH|]. rewrite insert_by_perm. constructor; [|done].
    unfold not_after. by apply sw_asym.
  - constructor; [by constructor|]. constructor; [done|].
    rewrite Forall_forall in *. intros z Hz. unfold not_after in *.
    eapply (sw_trans x y z); auto.
Qed.

Lemma sort_by_sorted l : Forall P l → StronglySorted (not_after less) (sort_by less l).
Proof.
  induction 1; simpl; [constructor|]. apply insert_by_sorted; [done| |done].
  by rewrite sort_by_perm.
Qed.

Lemma insert_by_ties a x l :
  P a → P x → Forall P l → StronglySorted (not_after less) l →
  filter (tied less a) (insert_by less x l) = filter (tied less a) (x :: l).
Proof.
  intros Pa Px Pl. induction 1 as [|y l Hl IH Hy]; [done|]. simpl insert_by.
  inversion Pl as [|? ? Py Pl']; subst. destruct (less y x) eqn:E; [|done].
  rewrite filter_cons, IH, !filter_cons by done.
  destruct (decide (tied less a y)) as [[H1 H2]|]; [|done].
  destruct (decide (tied less a x)) as [[H3 H4]|]; [|done].
  exfalso. assert (less y x = false) by (by eapply (sw_trans x a y)). congruence.
Qed.

(** Stability: the elements tied with [a] keep their order. *)
Lemma sort_by_stable a l :
  P a → Forall P l → filter (tied less a) (sort_by less l) = filter (tied less a) l.
Proof.
  intros Pa. induction 1 as [|x l Px Pl IH]; [done|]. simpl sort_by.
  rewrite insert_by_ties; [|done|done|by rewrite sort_by_perm|by apply sort_by_sorted].
  by rewrite !filter_cons, IH.
Qed.

(** Without ties the sorted permutation is unique, whatever algorithm computes it. *)
Lemma sorted_perm_unique l1 l2 :
  (∀ a b, a ∈ l1 → b ∈ l1 → less a b = false → less b a = false → a = b) →
  l1 ≡ₚ l2 → StronglySorted (not_after less) l1 → StronglySorted (not_after less) l2 → l1 = l2.
Proof.
  intros Htot Hp Hs1; revert l2 Hp. induction Hs1 as [|x l1 Hl1 IH Hx]; intros l2 Hp Hs2.
  { by apply Permutation_nil in Hp. }
  destruct Hs2 as [|y l2 Hl2 Hy].
  { by apply symmetry, Permutation_nil_cons in Hp. }
  assert (x = y) as <-.
  { assert (y ∈ x :: l1) as Hyin by (rewrite Hp; set_solver).
    assert (x ∈ y :: l2) as Hxin by (rewrite <-Hp; set_solver).
    rewrite elem_of_cons in Hyin, Hxin.
    destruct Hyin as [?|Hyin]; [done|]. destruct Hxin as [?|Hxin]; [done|].
    rewrite Forall_forall in Hx, Hy. specialize (Hx y Hyin). specialize (Hy x Hxin).
    unfold not_after in *. apply Htot; [set_solver|set_solver|done|done]. }
  f_equal. apply IH; [|by apply (Permutation_cons_inv (a := x))|done].
  intros a b Ha Hb. apply Htot; set_solver.
Qed.

Lemma sort_by_unique l l' :
  Forall P l →
  (∀ a b, a ∈ l → b ∈ l → less a b = false → less b a = false → a = b) →
  l ≡ₚ l' → sort_by less l = sort_by less l'.
Proof.
  intros Pl Htot Hp. apply sorted_perm_unique.
  - intros a b Ha Hb. rewrite elem_of_sort_by in Ha, Hb. by apply Htot.
  - by rewrite !sort_by_perm.
  - by apply sort_by_sorted.
  - apply sort_by_sorted. by rewrite <-Hp.
Qed.
End sorting_theory.
#[export] Hint Resolve sort_by_perm sort_by_sorted insert_by_sorted : skipper.

(** ** Lists *)

Lemma filter_id {A} (P : A → Prop) `{∀ x, Decision (P x)} l : Forall P l → filter P l = l.
Proof.
  induction 1 as [|x l Hx Hl IH]; [done|]. by rewrite filter_cons_True, IH by done.
Qed.

Lemma filter_none {A} (P : A → Prop) `{∀ x, Decision (P x)} l :
  Forall (λ x, ¬ P x) l → filter P l = [].
Proof.
  induction 1 as [|x l Hx Hl IH]; [done|]. by rewrite filter_cons_False, IH by done.
Qed.

Lemma Forall_filter {A} (Q P : A → Prop) `{∀ x, Decision (P x)} l : Forall Q l → Forall Q (filter P l).
Proof.
  induction 1 as [|x l Hx Hl IH]; [constructor|]. rewrite filter_cons. case_decide; [by constructor|done].
Qed.

Lemma length_filter_le {A} (P : A → Prop) `{∀ x, Decision (P x)} l :
  (length (filter P l) ≤ length l)%nat.
Proof. induction l as [|x l IH]; [done|]. rewrite filter_cons. case_decide; simpl; lia. Qed.

Lemma length_filter_mono {A} (P Q : A → Prop) `{∀ x, Decision (P x)} `{∀ x, Decision (Q x)} l :
  (∀ x, P x → Q x) → (length (filter P l) ≤ length (filter Q l))%nat.
Proof.
  intros HPQ. induction l as [|x l IH]; [done|]. rewrite !filter_cons.
  destruct (decide (P x)), (decide (Q x)); simpl; try lia. exfalso; auto.
Qed.

Lemma NoDup_fmap_filter {A B} (f : A → B) (P : A → Prop) `{∀ x, Decision (P x)} l :
  NoDup (f <$> l) → NoDup (f <$> filter P l).
Proof.
  induction l as [|x l IH]; [done|]. rewrite fmap_cons, NoDup_cons, filter_cons.
  intros [Hx Hl]. case_decide; [|by apply IH].
  rewrite fmap_cons, NoDup_cons. split; [|by apply IH].
  intros (y & E & Hy)%list_elem_of_fmap. apply Hx, list_elem_of_fmap. exists y.
  by apply list_elem_of_filter in Hy as [_ ?].
Qed.

Lemma NoDup_fmap_take {A B} (f : A → B) n l : NoDup (f <$> l) → NoDup (f <$> take n l).
Proof.
  intros H. rewrite <-(take_drop n l), fmap_app in H. by apply NoDup_app in H as [? _].
Qed.

Lemma elem_of_take_list {A} n (l : list A) x : x ∈ take n l → x ∈ l.
Proof. intros H. rewrite <-(take_drop n l). set_solver. Qed.

Lemma Forall2_insert_l {A B} (P : A → B → Prop) l1 l2 i x y :
  Forall2 P l1 l2 → l1 !! i = Some x → P x y → Forall2 P l1 (<[i:=y]> l2).
Proof.
  intros HF Hi Hxy. rewrite <-(list_insert_id l1 i x Hi). by apply Forall2_insert.
Qed.

(** Sums over a list. *)
Definition zsum {A} (f : A → Z) (l : list A) : Z := foldr (λ a s, (f a + s)%Z) 0%Z l.

Lemma zsum_app {A} (f : A → Z) l1 l2 : zsum f (l1 ++ l2) = (zsum f l1 + zsum f l2)%Z.
Proof. induction l1 as [|a l1 IH]; simpl; [done|]. rewrite IH. lia. Qed.

Lemma zsum_nonneg {A} (f : A → Z) l : Forall (λ a, (0 ≤ f a)%Z) l → (0 ≤ zsum f l)%Z.
Proof. induction 1; simpl; lia. Qed.

Lemma zsum_filter_le {A} (P : A → Prop) `{∀ x, Decision (P x)} (f : A → Z) l :
  Forall (λ a, (0 ≤ f a)%Z) l → (zsum f (filter P l) ≤ zsum f l)%Z.
Proof.
  induction 1 as [|x l Hx Hl IH]; [done|]. rewrite filter_cons. simpl. case_decide; simpl; lia.
Qed.

Lemma zsum_filter_split {A} (P : A → Prop) `{∀ x, Decision (P x)} (f : A → Z) l :
  zsum f l = (zsum f (filter P l) + zsum f (filter (λ x, ¬ P x) l))%Z.
Proof.
  induction l as [|x l IH]; [done|]. rewrite !filter_cons. simpl.
  destruct (decide (P x)); [rewrite decide_False by tauto|rewrite decide_True by done]; simpl; lia.
Qed.

Lemma zsum_fmap {A B} (g : A → B) (f : B → Z) l : zsum f (g <$> l) = zsum (λ a, f (g a)) l.
Proof. induction l as [|x l IH]; csimpl; [done|]. by rewrite IH. Qed.

Lemma filter_fmap {A B} (g : A → B) (P : B → Prop) `{∀ x, Decision (P x)} (l : list A) :
  filter P (g <$> l) = g <$> filter (λ a, P (g a)) l.
Proof. induction l as [|x l IH]; csimpl; [done|]. rewrite !filter_cons, IH. by case_decide. Qed.

Lemma zsum_perm {A} (f : A → Z) l1 l2 : l1 ≡ₚ l2 → zsum f l1 = zsum f l2.
Proof. induction 1; simpl; lia. Qed.

(** Two lists that a decidable test tells apart are disjoint. *)
Lemma NoDup_app_disjoint {A} (l1 l2 : list A) :
  NoDup l1 → NoDup l2 → (∀ x, x ∈ l1 → x ∉ l2) → NoDup (l1 ++ l2).
Proof. intros. by apply NoDup_app. Qed.

(** ** Comparison callbacks on a key, then on the rest *)
Section lexicographic.
Context {A : Type} (f : A → Z) (less : A → A → bool) `{!StrictWeak (λ _, True) less}.

Lemma lex_asc_weak : StrictWeak (λ _, True) (λ a b, (f a <? f b)%Z || ((f a =? f b)%Z && less a b)).
Proof.
  split.
  - intros a b _ _ E. destruct (Z.lt_total (f a) (f b)) as [Hl|[He|Hl]].
    + apply orb_false_iff; split; [apply Z.ltb_ge; lia|]. by rewrite (proj2 (Z.eqb_neq _ _)) by lia.
    + rewrite He in *. rewrite Z.ltb_irrefl, Z.eqb_refl in *. simpl in *. by apply (sw_asym a b).
    + rewrite (proj2 (Z.ltb_ge _ _)), (proj2 (Z.eqb_neq _ _)) in E by lia. done.
  - intros a b c _ _ _ E1 E2. apply orb_false_iff in E1 as [E1 F1], E2 as [E2 F2].
    apply Z.ltb_ge in E1, E2. apply orb_false_iff; split; [apply Z.ltb_ge; lia|].
    destruct (f c =? f a)%Z eqn:E; [|done]. apply Z.eqb_eq in E. simpl.
    rewrite (proj2 (Z.eqb_eq (f b) (f a))) in F1 by lia. rewrite (proj2 (Z.eqb_eq (f c) (f b))) in F2 by lia.
    by apply (sw_trans a b c).
Qed.
End lexicographic.

Lemma lex_desc_weak {A} (f : A → Z) (less : A → A → bool) `{!StrictWeak (λ _, True) less} :
  StrictWeak (λ _, True) (λ a b, (f b <? f a)%Z || ((f a =? f b)%Z && less a b)).
Proof.
  destruct (lex_asc_weak (λ a, - f a)%Z less) as [H1 H2].
  assert (∀ a b, ((f b <? f a)%Z || ((f a =? f b)%Z && less a b)) =
                 ((- f a <? - f b)%Z || ((- f a =? - f b)%Z && less a b))) as E.
  { intros a b. f_equal; [|f_equal]; apply eq_bool_prop_intro; rewrite !Is_true_true,
      ?Z.ltb_lt, ?Z.eqb_eq; lia. }
  split; intros *; rewrite !E; [apply H1|apply H2].
Qed.

(** ** Updates of a map *)

Lemma alter_as_insert `{Countable K} {R} (f : R → R) (t : gmap K R) x r :
  t !! x = Some r → alter f x t = <[x := f r]> t.
Proof.
  intros E. apply map_eq. intros k. destruct (decide (x = k)) as [<-|Hne].
  - by rewrite lookup_alter_eq, lookup_insert_eq, E.
  - by rewrite lookup_alter_ne, lookup_insert_ne.
Qed.

Lemma alter_absent `{Countable K} {R} (f : R → R) (t : gmap K R) x : t !! x = None → alter f x t = t.
Proof.
  intros E. apply map_eq. intros k. destruct (decide (x = k)) as [<-|Hne].
  - by rewrite lookup_alter_eq, E.
  - by rewrite lookup_alter_ne.
Qed.

(** Changing one element changes a sum by the difference. *)
Lemma sum_list_alter {A} (w : A → nat) (f : A → A) (l : list A) i x :
  l !! i = Some x → (sum_list_with w (alter f i l) + w x = sum_list_with w l + w (f x))%nat.
Proof.
  revert i; induction l as [|y l IH]; intros [|i] E; try done; simpl in E.
  { injection E as ->. change (alter f O (x :: l)) with (f x :: l). simpl. lia. }
  specialize (IH i E). change (alter f (S i) (y :: l)) with (y :: alter f i l). simpl. lia.
Qed.


Lemma StronglySorted_lookup {A} (R : A → A → Prop) l i j x y :
  StronglySorted R l → i < j → l !! i = Some x → l !! j = Some y → R x y.
Proof.
  intros Hs; revert i j; induction Hs as [|z l _ IH Hz]; intros i j Hij Hi Hj; [done|].
  destruct j as [|j]; [lia|]. destruct i as [|i]; simpl in *.
  - simplify_eq. rewrite Forall_forall in Hz. apply Hz. by eapply list_elem_of_lookup_2.
  - eapply (IH i j); [lia|done..].
Qed.

Lemma StronglySorted_impl {A} (R1 R2 : A → A → Prop) l :
  (∀ a b, R1 a b → R2 a b) → StronglySorted R1 l → StronglySorted R2 l.
Proof. intros Hi. induction 1; constructor; [done|]. eapply Forall_impl; [done|]. intros; by apply Hi. Qed.

(** A sum is bounded by another when its terms match, by key, larger terms there. *)
Lemma zsum_key_le {A B} `{EqDecision B} (k : A → B) (f : A → Z) (l m : list A) :
  NoDup (k <$> l) → Forall (λ x, 0 ≤ f x)%Z m →
  (∀ x, x ∈ l → ∃ y, y ∈ m ∧ k x = k y ∧ (f x ≤ f y)%Z) → (zsum f l ≤ zsum f m)%Z.
Proof.
  revert m; induction l as [|x l IH]; intros m Hn Hf Hm; [simpl; by apply zsum_nonneg|].
  rewrite fmap_cons, NoDup_cons in Hn. destruct Hn as [Hx Hn].
  destruct (Hm x ltac:(left)) as (y & Hy & Ek & Ef).
  apply list_elem_of_split in Hy as (m1 & m2 & ->). rewrite zsum_app. simpl.
  apply Forall_app in Hf as [Hf1 Hf2]. inversion Hf2; subst.
  assert (zsum f l ≤ zsum f (m1 ++ m2))%Z as Hle; [|rewrite zsum_app in Hle; lia].
  apply IH; [done|by apply Forall_app|]. intros z Hz.
  destruct (Hm z ltac:(by right)) as (y' & Hy' & Ek' & Ef'). exists y'. split; [|done].
  apply elem_of_app in Hy' as [?|Hy']; [apply elem_of_app; by left|].
  apply elem_of_cons in Hy' as [->|?]; [|apply elem_of_app; by right].
  destruct Hx. rewrite Ek, <-Ek'. by apply list_elem_of_fmap_2.
Qed.

Lemma NoDup_bind_disjoint {A B C} (f : B → C) (g : A → list B) l x y a b :
  NoDup (f <$> (l ≫= g)) → x ∈ l → y ∈ l → x ≠ y → a ∈ g x → b ∈ g y → f a ≠ f b.
Proof.
  induction l as [|z l IH]; intros Hn Hx Hy Hne Ha Hb; [by apply elem_of_nil in Hx|].
  simpl in Hn. rewrite fmap_app in Hn. apply NoDup_app in Hn as (_ & Hd & Hn).
  assert (∀ w c, w ∈ l → c ∈ g w → f c ∈ f <$> (l ≫= g)) as Hin.
  { intros w c Hw Hc. apply list_elem_of_fmap_2, list_elem_of_bind. eauto. }
  apply elem_of_cons in Hx as [->|Hx], Hy as [->|Hy]; [done|..|by apply IH]; intros E.
  - apply (Hd (f a)); [by apply list_elem_of_fmap_2|]. rewrite E. by eapply Hin.
  - apply (Hd (f b)); [by apply list_elem_of_fmap_2|]. rewrite <-E. by eapply Hin.
Qed.
