(* ===== verification/GoBase.v ===== *)
(** * Go's machine integers, durations and instants

    Integers are kept as [Z] at their width: every arithmetic operation of the source on a
    [uint32], [uint64] or [int64] is written with the wrap-around Go gives it.  An instant
    ([time.Time]) is the number of nanoseconds since year 1, so that the zero [time.Time] is
    [0]; a [time.Duration] is an [int64] number of nanoseconds. *)
From S2P Require Import Prelude.
Local Open Scope Z_scope.

(** ** Fixed-width integers *)

Definition wrapU (w : Z) (z : Z) : Z := z mod 2 ^ w.
Definition wrapS (w : Z) (z : Z) : Z := (z + 2 ^ (w - 1)) mod 2 ^ w - 2 ^ (w - 1).

Notation u32 z := (wrapU 32 z) (only parsing).
Notation u64 z := (wrapU 64 z) (only parsing).
Notation i32 z := (wrapS 32 z) (only parsing).
Notation i64 z := (wrapS 64 z) (only parsing).

Definition is_u32 (z : Z) : Prop := 0 ≤ z < 2 ^ 32.
Definition is_u64 (z : Z) : Prop := 0 ≤ z < 2 ^ 64.
Definition is_i32 (z : Z) : Prop := - 2 ^ 31 ≤ z < 2 ^ 31.
Definition is_i64 (z : Z) : Prop := - 2 ^ 63 ≤ z < 2 ^ 63.

#[export] Instance is_u32_dec z : Decision (is_u32 z).
Proof. unfold is_u32; apply _. Defined.
#[export] Instance is_u64_dec z : Decision (is_u64 z).
Proof. unfold is_u64; apply _. Defined.
#[export] Instance is_i64_dec z : Decision (is_i64 z).
Proof. unfold is_i64; apply _. Defined.

Lemma wrapU_small w z : 0 ≤ z < 2 ^ w → wrapU w z = z.
Proof. apply Z.mod_small. Qed.

Lemma wrapU_range w z : 0 ≤ w → 0 ≤ wrapU w z < 2 ^ w.
Proof. intros Hw. apply Z.mod_pos_bound. lia. Qed.

Lemma wrapS_small w z : 0 < w → - 2 ^ (w - 1) ≤ z < 2 ^ (w - 1) → wrapS w z = z.
Proof.
  intros Hw Hz. unfold wrapS.
  assert (2 ^ w = 2 * 2 ^ (w - 1)) as E.
  { rewrite <-Z.pow_succ_r by lia. f_equal; lia. }
  rewrite Z.mod_small; lia.
Qed.

Lemma wrapS_range w z : 0 < w → - 2 ^ (w - 1) ≤ wrapS w z < 2 ^ (w - 1).
Proof.
  intros Hw. unfold wrapS.
  assert (2 ^ w = 2 * 2 ^ (w - 1)) as E.
  { rewrite <-Z.pow_succ_r by lia. f_equal; lia. }
  pose proof (Z.mod_pos_bound (z + 2 ^ (w - 1)) (2 ^ w)). lia.
Qed.

Lemma wrapU_idemp w z : 0 ≤ w → wrapU w (wrapU w z) = wrapU w z.
Proof. intros Hw. apply wrapU_small, wrapU_range, Hw. Qed.

Lemma u64_range z : is_u64 (u64 z).
Proof. apply (wrapU_range 64). lia. Qed.
Lemma u32_range z : is_u32 (u32 z).
Proof. apply (wrapU_range 32). lia. Qed.
Lemma i64_range z : is_i64 (i64 z).
Proof. apply (wrapS_range 64). lia. Qed.
Lemma i64_small z : is_i64 z → i64 z = z.
Proof. intros H. apply (wrapS_small 64); [lia | exact H]. Qed.
Lemma u64_small z : is_u64 z → u64 z = z.
Proof. apply wrapU_small. Qed.
Lemma u32_small z : is_u32 z → u32 z = z.
Proof. apply wrapU_small. Qed.
#[export] Hint Resolve u64_range u32_range i64_range : skipper.
#[export] Hint Rewrite i64_small u64_small u32_small using assumption : skipper_rw.

(** ** Durations *)

Notation Duration := Z (only parsing).

Definition Nanosecond : Duration := 1.
Definition Millisecond : Duration := 1000000.
Definition Second : Duration := 1000000000.
Definition Minute : Duration := 60 * Second.
Definition Hour : Duration := 60 * Minute.

Definition minDuration : Duration := - 2 ^ 63.
Definition maxDuration : Duration := 2 ^ 63 - 1.

(** [a * b] on [int64]. *)
Definition mul64 (a b : Z) : Z := i64 (a * b).

(** [time.Duration(n) * time.Second] *)
Definition seconds (n : Z) : Duration := mul64 n Second.

Lemma seconds_small n : is_i64 (n * Second) → seconds n = n * Second.
Proof. apply i64_small. Qed.

(** [Duration.Round(m)]: to the nearest multiple of [m], halfway away from zero, saturating. *)
Definition Round (d m : Duration) : Duration :=
  if m <=? 0 then d else
  let r := Z.rem d m in
  if d <? 0 then
    let r := - r in
    if r + r <? m then d + r
    else let d1 := d - m + r in if minDuration <=? d1 then d1 else minDuration
  else
    if r + r <? m then d - r
    else let d1 := d + m - r in if d1 <=? maxDuration then d1 else maxDuration.

(** ** Instants *)

Notation Time := Z (only parsing).

(** Seconds from year 1 to the Unix epoch. *)
Definition unixToInternal : Z := 62135596800.

Definition zeroTime : Time := 0.
Definition IsZero (t : Time) : bool := t =? 0.
Definition Before (t u : Time) : bool := t <? u.
Definition After (t u : Time) : bool := u <? t.
Definition Add (t : Time) (d : Duration) : Time := t + d.

(** [t.Sub(u)] saturates at the ends of [Duration]. *)
Definition Sub (t u : Time) : Duration := Z.max minDuration (Z.min maxDuration (t - u)).

(** [t.Unix()] and [time.Unix(s, 0)]. *)
Definition Unix (t : Time) : Z := t / Second - unixToInternal.
Definition timeUnix (s : Z) : Time := (s + unixToInternal) * Second.

Lemma Unix_timeUnix s : Unix (timeUnix s) = s.
Proof. unfold Unix, timeUnix, Second. rewrite Z.div_mul by lia. lia. Qed.

Lemma timeUnix_Unix_le t : timeUnix (Unix t) ≤ t < timeUnix (Unix t) + Second.
Proof.
  unfold Unix, timeUnix, Second.
  pose proof (Z.div_mod t 1000000000 ltac:(lia)).
  pose proof (Z.mod_pos_bound t 1000000000 ltac:(lia)). lia.
Qed.

Lemma Unix_mono t u : t ≤ u → Unix t ≤ Unix u.
Proof. intros H. unfold Unix, Second. pose proof (Z.div_le_mono t u 1000000000). lia. Qed.

Lemma Sub_range t u : is_i64 (Sub t u).
Proof. unfold Sub, is_i64, minDuration, maxDuration. lia. Qed.

Lemma Sub_exact t u : is_i64 (t - u) → Sub t u = t - u.
Proof. unfold Sub, is_i64, minDuration, maxDuration. lia. Qed.

Lemma Sub_nonneg t u : u ≤ t → 0 ≤ Sub t u.
Proof. unfold Sub, minDuration, maxDuration. lia. Qed.

Lemma Sub_lt t u d : - 2 ^ 63 < d < 2 ^ 63 → Sub t u < d ↔ t - u < d.
Proof. unfold Sub, is_i64, minDuration, maxDuration. lia. Qed.
#[export] Hint Resolve Sub_range Sub_nonneg : skipper.

(** ** Retry delays

    The loops that retry with a delay all double it while it is below a limit, after having
    slept it: [if backoff < limit { backoff *= 2 }]. *)
Definition backoffNext (limit b : Duration) : Duration := if b <? limit then mul64 b 2 else b.

(** The delays slept by the first [n] failed attempts. *)
Fixpoint backoffSeq (limit : Duration) (n : nat) (b : Duration) : list Duration :=
  match n with
  | O => []
  | S n' => b :: backoffSeq limit n' (backoffNext limit b)
  end.

Lemma backoffNext_bounds limit b :
  0 < b < 2 * limit → 2 * limit < 2 ^ 63 → 0 < backoffNext limit b < 2 * limit ∧ b ≤ backoffNext limit b.
Proof.
  intros Hb Hl. unfold backoffNext. destruct (b <? limit) eqn:E; bool_to_prop; [|lia].
  unfold mul64. rewrite i64_small by (unfold is_i64; lia). lia.
Qed.

Lemma backoffSeq_bounds limit n b :
  0 < b < 2 * limit → 2 * limit < 2 ^ 63 → Forall (λ d, b ≤ d < 2 * limit) (backoffSeq limit n b).
Proof.
  revert b; induction n as [|n IH]; intros b Hb Hl; simpl; [constructor|].
  destruct (backoffNext_bounds limit b Hb Hl) as [H1 H2].
  constructor; [lia|]. eapply Forall_impl; [by apply IH|]. simpl; lia.
Qed.
