(* ===== verification/GoStrings.v ===== *)
(** * Go strings: byte strings and the functions of [strings] and [strconv] the program uses

    A Go string is a sequence of bytes, here [String.string].  The functions are the ones of
    the Go standard library restricted to the shapes of argument the source calls them with
    (separators of one byte).  Case mapping is exact on ASCII strings, which is Go's own fast
    path; the Unicode tables used for other strings are the operations of the class
    [UnicodeCase]. *)
From S2P Require Import Prelude GoBase.
From Stdlib Require Import Ascii.
From Stdlib Require String.
Local Open Scope Z_scope.

Definition strlen (s : string) : nat := String.length s.
#[global] Arguments String.append !_ _ : simpl nomatch.

(** ** Concatenation and length *)

Lemma strlen_app s t : strlen (s +:+ t) = (strlen s + strlen t)%nat.
Proof. induction s as [|a s IH]; simpl; [done|]. unfold strlen in *. simpl. by rewrite IH. Qed.

Lemma str_app_assoc s t u : (s +:+ t) +:+ u = s +:+ (t +:+ u).
Proof. induction s as [|a s IH]; simpl; [done|]. by rewrite IH. Qed.

Lemma str_app_nil_r s : s +:+ "" = s.
Proof. induction s as [|a s IH]; simpl; [done|]. by rewrite IH. Qed.

#[export] Instance str_app_inj s : Inj (=) (=) (String.append s).
Proof. induction s as [|a s IH]; intros t u H; simpl in H; [done|]. injection H. apply IH. Qed.
#[export] Hint Rewrite str_app_assoc str_app_nil_r strlen_app : skipper_rw.

(** The bytes of a string. *)
Notation bytes_of := String.list_ascii_of_string (only parsing).

Fixpoint str_forall (P : ascii → bool) (s : string) : bool :=
  match s with
  | EmptyString => true
  | String a s' => P a && str_forall P s'
  end.

Fixpoint str_exists (P : ascii → bool) (s : string) : bool :=
  match s with
  | EmptyString => false
  | String a s' => P a || str_exists P s'
  end.

Fixpoint str_map (f : ascii → ascii) (s : string) : string :=
  match s with
  | EmptyString => EmptyString
  | String a s' => String (f a) (str_map f s')
  end.

Lemma str_forall_app P s t : str_forall P (s +:+ t) = str_forall P s && str_forall P t.
Proof. induction s as [|a s IH]; simpl; [done|]. by rewrite IH, andb_assoc. Qed.

Lemma str_exists_app P s t : str_exists P (s +:+ t) = str_exists P s || str_exists P t.
Proof. induction s as [|a s IH]; simpl; [done|]. by rewrite IH, orb_assoc. Qed.

Lemma str_map_app f s t : str_map f (s +:+ t) = str_map f s +:+ str_map f t.
Proof. induction s as [|a s IH]; simpl; [done|]. by rewrite IH. Qed.

Fixpoint str_rev_app (s acc : string) : string :=
  match s with
  | EmptyString => acc
  | String a s' => str_rev_app s' (String a acc)
  end.
Definition str_rev (s : string) : string := str_rev_app s EmptyString.

(** ** Order: Go compares strings bytewise *)

Definition byte_val (a : ascii) : Z := Z.of_N (N_of_ascii a).

Fixpoint str_ltb (s t : string) : bool :=
  match s, t with
  | EmptyString, String _ _ => true
  | String a s', String b t' =>
      (byte_val a <? byte_val b) || ((byte_val a =? byte_val b) && str_ltb s' t')
  | _, EmptyString => false
  end.

Lemma byte_val_inj a b : byte_val a = byte_val b → a = b.
Proof.
  unfold byte_val. intros H%N2Z.inj.
  by rewrite <-(ascii_N_embedding a), <-(ascii_N_embedding b), H.
Qed.

Lemma byte_val_range a : 0 ≤ byte_val a < 256.
Proof. unfold byte_val. pose proof (N_ascii_bounded a). lia. Qed.

#[export] Instance str_ltb_strict : StrictWeak (λ _, True) str_ltb.
Proof.
  split; [intros a b _ _; revert b|intros a b c _ _ _; revert b c].
  - induction a as [|x a IH]; intros [|y b]; simpl; try done.
    intros H. apply orb_true_iff in H as [H|H]; bool_to_prop.
    + apply orb_false_iff; split; [lia|]. apply andb_false_iff; left; lia.
    + rewrite (IH _ ltac:(eassumption)). apply orb_false_iff; split; [lia|]. by rewrite andb_false_r.
  - induction a as [|x a IH]; intros [|y b] [|z c]; simpl; try done.
    intros H1 H2. bool_to_prop.
    repeat match goal with H : (_ && _) = false |- _ => apply andb_false_iff in H as [H|H] end;
      bool_to_prop; apply orb_false_iff; (split; [apply Z.ltb_ge; lia|]); apply andb_false_iff;
      try (left; apply Z.eqb_neq; lia); right; eauto.
Qed.

Lemma str_ltb_on_weak {A} (f : A → string) : StrictWeak (λ _, True) (λ a b, str_ltb (f a) (f b)).
Proof. split; intros *; [intros _ _; by apply sw_asym|intros _ _ _; by apply sw_trans]. Qed.

Lemma str_ltb_total s t : str_ltb s t = false → str_ltb t s = false → s = t.
Proof.
  revert t; induction s as [|a s IH]; intros [|b t]; simpl; try done.
  intros H1 H2. bool_to_prop.
  assert (byte_val a = byte_val b) as E by lia. apply byte_val_inj in E as ->.
  rewrite Z.eqb_refl in *. simpl in *. f_equal. by apply IH.
Qed.

(** ** Prefixes, suffixes, substrings *)

Definition HasPrefix (s p : string) : bool := String.prefix p s.
Definition HasSuffix (s p : string) : bool := String.prefix (str_rev p) (str_rev s).

Fixpoint str_drop (n : nat) (s : string) : string :=
  match n, s with
  | O, _ => s
  | S n', String _ s' => str_drop n' s'
  | S _, EmptyString => EmptyString
  end.
Fixpoint str_take (n : nat) (s : string) : string :=
  match n, s with
  | S n', String a s' => String a (str_take n' s')
  | _, _ => EmptyString
  end.

(** [s[lo:hi]]; [None] is Go's run-time panic. *)
Definition str_slice (s : string) (lo hi : Z) : option string :=
  if (0 <=? lo) && (lo <=? hi) && (hi <=? Z.of_nat (strlen s))
  then Some (str_take (Z.to_nat (hi - lo)) (str_drop (Z.to_nat lo) s))
  else None.

Definition TrimSuffix (s p : string) : string :=
  if HasSuffix s p then str_take (strlen s - strlen p) s else s.
Definition TrimPrefix (s p : string) : string :=
  if HasPrefix s p then str_drop (strlen p) s else s.

Fixpoint Contains (s sub : string) : bool :=
  String.prefix sub s ||
  match s with
  | EmptyString => false
  | String _ s' => Contains s' sub
  end.

Definition ContainsAny (s chars : string) : bool :=
  str_exists (λ a, str_exists (Ascii.eqb a) chars) s.

(** ** Splitting and joining *)

(** [strings.Split(s, sep)] for a separator of one byte. *)
Fixpoint Split (s : string) (sep : ascii) : list string :=
  match s with
  | EmptyString => [EmptyString]
  | String a s' =>
      if Ascii.eqb a sep then EmptyString :: Split s' sep
      else match Split s' sep with
           | w :: ws => String a w :: ws
           | [] => [String a EmptyString]
           end
  end.

Fixpoint Join (ws : list string) (sep : string) : string :=
  match ws with
  | [] => EmptyString
  | [w] => w
  | w :: ws' => w +:+ sep +:+ Join ws' sep
  end.

(** [strings.Cut(s, sep)] for a separator of one byte: [(before, after, found)]. *)
Fixpoint Cut (s : string) (sep : ascii) : option (string * string) :=
  match s with
  | EmptyString => None
  | String a s' =>
      if Ascii.eqb a sep then Some (EmptyString, s')
      else match Cut s' sep with
           | Some (b, r) => Some (String a b, r)
           | None => None
           end
  end.

(** [strings.ReplaceAll(s, old, new)] for [old] of one byte. *)
Fixpoint ReplaceAll (s : string) (old : ascii) (new : string) : string :=
  match s with
  | EmptyString => EmptyString
  | String a s' =>
      if Ascii.eqb a old then new +:+ ReplaceAll s' old new else String a (ReplaceAll s' old new)
  end.

Lemma Split_nonempty s sep : Split s sep ≠ [].
Proof. destruct s as [|a s]; simpl; [done|]. repeat case_step; done. Qed.

(** Splitting undoes joining. *)
Lemma Join_Split s sep : Join (Split s sep) (String sep EmptyString) = s.
Proof.
  induction s as [|a s IH]; [done|]. simpl.
  destruct (Ascii.eqb_spec a sep) as [->|Hne].
  - pose proof (Split_nonempty s sep). destruct (Split s sep) as [|w ws]; [done|].
    simpl in *. by rewrite IH.
  - pose proof (Split_nonempty s sep). destruct (Split s sep) as [|w ws]; [done|].
    destruct ws as [|w' ws]; simpl in *; by rewrite IH.
Qed.

Lemma Split_no_sep s sep : Forall (λ w, str_exists (Ascii.eqb sep) w = false) (Split s sep).
Proof.
  induction s as [|a s IH]; simpl; [by repeat constructor|].
  destruct (Ascii.eqb_spec a sep) as [->|Hne]; [by constructor|].
  destruct (Split s sep) as [|w ws]; inversion IH; subst; constructor; try done;
    simpl; rewrite (proj2 (Ascii.eqb_neq sep a)); auto.
Qed.

Lemma Cut_Some s sep b r : Cut s sep = Some (b, r) → s = b +:+ String sep r.
Proof.
  revert b; induction s as [|a s IH]; intros b; simpl; [done|].
  destruct (Ascii.eqb_spec a sep) as [->|]; [by intros [= <- <-]|].
  destruct (Cut s sep) as [[b' r']|]; [|done]. intros [= <- <-]. simpl. by rewrite <-(IH b').
Qed.

Lemma Cut_None s sep : Cut s sep = None ↔ str_exists (Ascii.eqb sep) s = false.
Proof.
  induction s as [|a s IH]; simpl; [done|].
  rewrite (Ascii.eqb_sym sep a). destruct (Ascii.eqb a sep); simpl; [done|].
  rewrite <-IH. destruct (Cut s sep) as [[??]|]; done.
Qed.

(** ** White space *)

Definition hex_byte (n : Z) (a : ascii) : bool := byte_val a =? n.
Definition byte_in (lo hi : Z) (a : ascii) : bool := (lo <=? byte_val a) && (byte_val a <=? hi).

(** The UTF-8 encodings of the code points for which [unicode.IsSpace] holds, by length. *)
Definition space1 (a : ascii) : bool := byte_in 9 13 a || hex_byte 32 a.
Definition space2 (a b : ascii) : bool :=
  hex_byte 0xC2 a && (hex_byte 0x85 b || hex_byte 0xA0 b).
Definition space3 (a b c : ascii) : bool :=
  (hex_byte 0xE1 a && hex_byte 0x9A b && hex_byte 0x80 c) ||
  (hex_byte 0xE2 a && hex_byte 0x80 b &&
     (byte_in 0x80 0x8A c || hex_byte 0xA8 c || hex_byte 0xA9 c || hex_byte 0xAF c)) ||
  (hex_byte 0xE2 a && hex_byte 0x81 b && hex_byte 0x9F c) ||
  (hex_byte 0xE3 a && hex_byte 0x80 b && hex_byte 0x80 c).

(** The number of bytes of the space a string starts with; [0] if it does not start with one. *)
Definition space_len (s : string) : nat :=
  match s with
  | EmptyString => 0
  | String a s1 =>
      if space1 a then 1 else
      match s1 with
      | EmptyString => 0
      | String b s2 =>
          if space2 a b then 2 else
          match s2 with
          | EmptyString => 0
          | String c _ => if space3 a b c then 3 else 0
          end
      end
  end.

(** The same for the end of a string, given reversed. *)
Definition space_len_rev (s : string) : nat :=
  match s with
  | EmptyString => 0
  | String c s1 =>
      if space1 c then 1 else
      match s1 with
      | EmptyString => 0
      | String b s2 =>
          if space2 b c then 2 else
          match s2 with
          | EmptyString => 0
          | String a _ => if space3 a b c then 3 else 0
          end
      end
  end.

(** [n] bounds the number of spaces removed; the length of the string is enough. *)
Fixpoint trim_with (len : string → nat) (n : nat) (s : string) : string :=
  match n with
  | O => s
  | S n' => match len s with O => s | k => trim_with len n' (str_drop k s) end
  end.

Definition TrimLeft (s : string) : string := trim_with space_len (strlen s) s.
Definition TrimRight (s : string) : string :=
  str_rev (trim_with space_len_rev (strlen s) (str_rev s)).
Definition TrimSpace (s : string) : string := TrimRight (TrimLeft s).

(** [strings.Fields]: the maximal runs of non-space bytes; [n] is the length, [cur] the
    reversed current field. *)
Definition flush_field (cur : string) : list string :=
  match cur with EmptyString => [] | _ => [str_rev cur] end.

Fixpoint fields_with (n : nat) (s cur : string) : list string :=
  match n, s with
  | S n', String a s' =>
      match space_len s with
      | O => fields_with n' s' (String a cur)
      | k => flush_field cur ++ fields_with n' (str_drop k s) EmptyString
      end
  | _, _ => flush_field cur
  end.
Definition Fields (s : string) : list string := fields_with (strlen s) s EmptyString.

(** ** Case mapping *)

Class UnicodeCase := {
  uni_lower : string → string;
  uni_upper : string → string
}.

Definition is_ascii (s : string) : bool := str_forall (λ a, byte_val a <? 128) s.
Definition lower_byte (a : ascii) : ascii :=
  if byte_in 65 90 a then ascii_of_N (N_of_ascii a + 32) else a.
Definition upper_byte (a : ascii) : ascii :=
  if byte_in 97 122 a then ascii_of_N (N_of_ascii a - 32) else a.

Definition ToLower `{UnicodeCase} (s : string) : string :=
  if is_ascii s then str_map lower_byte s else uni_lower s.
Definition ToUpper `{UnicodeCase} (s : string) : string :=
  if is_ascii s then str_map upper_byte s else uni_upper s.

(** A case mapping that leaves non-ASCII strings alone, to evaluate models on examples. *)
Definition ascii_case : UnicodeCase := {| uni_lower := id; uni_upper := id |}.

(** ** Integers in decimal *)

Definition itoa (z : Z) : string := pretty z.

Definition is_digit (a : ascii) : bool := byte_in 48 57 a.
Definition digit_val (a : ascii) : Z := byte_val a - 48.

Fixpoint parse_digits (s : string) (acc : Z) : option Z :=
  match s with
  | EmptyString => Some acc
  | String a s' => if is_digit a then parse_digits s' (10 * acc + digit_val a) else None
  end.

(** [strconv.ParseUint(s, 10, 64)]; [None] stands for an error (syntax or range). *)
Definition ParseUint (s : string) : option Z :=
  match s with
  | EmptyString => None
  | _ => match parse_digits s 0 with
         | Some n => if n <? 2 ^ 64 then Some n else None
         | None => None
         end
  end.

(** [strconv.Atoi(s)]. *)
Definition Atoi (s : string) : option Z :=
  let go (neg : bool) (d : string) :=
    match d with
    | EmptyString => None
    | _ => match parse_digits d 0 with
           | Some n => let v := if neg : bool then - n else n in
                       if (- 2 ^ 63 <=? v) && (v <? 2 ^ 63) then Some v else None
           | None => None
           end
    end in
  match s with
  | EmptyString => None
  | String a s' => if hex_byte 43 a then go false s'
                   else if hex_byte 45 a then go true s' else go false s
  end.

(** ** What [itoa] prints is read back *)

Fixpoint dec_val (s : string) (acc : Z) : Z :=
  match s with
  | EmptyString => acc
  | String a s' => dec_val s' (acc * 10 + digit_val a)
  end.

Lemma dec_val_app s t acc : dec_val (s +:+ t) acc = dec_val t (dec_val s acc).
Proof. revert acc; induction s as [|a s IH]; intros acc; simpl; [done|]. apply IH. Qed.

Lemma parse_digits_val s acc : str_forall is_digit s = true → parse_digits s acc = Some (dec_val s acc).
Proof.
  revert acc; induction s as [|a s IH]; intros acc; simpl; [done|]. intros H. bool_to_prop.
  rewrite H. rewrite IH by done. do 2 f_equal. lia.
Qed.

Lemma is_digit_val a : is_digit a = true → 0 ≤ digit_val a ≤ 9.
Proof. unfold is_digit, byte_in, digit_val. intros. bool_to_prop. lia. Qed.

Lemma dec_val_ge s acc : str_forall is_digit s = true → 0 ≤ acc → acc ≤ dec_val s acc.
Proof.
  revert acc; induction s as [|a s IH]; intros acc; simpl; [lia|]. intros H Hacc. bool_to_prop.
  pose proof (is_digit_val a H). specialize (IH (acc * 10 + digit_val a) ltac:(done) ltac:(lia)). lia.
Qed.

Lemma pretty_char_digit x : (x < 10)%N → is_digit (pretty_N_char x) = true ∧ digit_val (pretty_N_char x) = Z.of_N x.
Proof.
  intros Hx. assert (x = 0 ∨ x = 1 ∨ x = 2 ∨ x = 3 ∨ x = 4 ∨ x = 5 ∨ x = 6 ∨ x = 7 ∨ x = 8 ∨ x = 9)%N by lia.
  by destruct_or!; subst.
Qed.

Lemma pretty_go_digits x :
  ∃ p, (∀ s, pretty_N_go x s = p +:+ s) ∧ str_forall is_digit p = true ∧ dec_val p 0 = Z.of_N x ∧
       ((0 < x)%N → p ≠ EmptyString).
Proof.
  induction (N.lt_wf_0 x) as [x _ IH].
  destruct (decide (x = 0)%N) as [->|Hx]; [by exists EmptyString|].
  destruct (IH (x / 10)%N) as (p & Hp & Hd & Hv & _); [apply N.div_lt; lia|].
  destruct (pretty_char_digit (x mod 10)) as [Hc1 Hc2]; [by apply N.mod_lt|].
  exists (p +:+ String (pretty_N_char (x mod 10)) EmptyString). split_and!.
  - intros s. rewrite pretty_N_go_step by lia. rewrite Hp. by rewrite str_app_assoc.
  - rewrite str_forall_app, Hd. simpl. by rewrite Hc1.
  - rewrite dec_val_app, Hv. simpl. rewrite Hc2. pose proof (N.div_mod x 10). lia.
  - intros _. by destruct p.
Qed.

Lemma itoa_digits n :
  0 ≤ n → str_forall is_digit (itoa n) = true ∧ dec_val (itoa n) 0 = n ∧ itoa n ≠ EmptyString.
Proof.
  intros Hn. unfold itoa. destruct n as [|p|p]; [by vm_compute| |lia].
  change (pretty (Z.pos p)) with (pretty (Npos p)). unfold pretty, pretty_N. rewrite decide_False by lia.
  destruct (pretty_go_digits (Npos p)) as (q & Hq & Hd & Hv & Hne). rewrite Hq, str_app_nil_r.
  split_and!; [done..|]. apply Hne. lia.
Qed.

Lemma ParseUint_itoa n : 0 ≤ n < 2 ^ 64 → ParseUint (itoa n) = Some n.
Proof.
  intros Hn. destruct (itoa_digits n) as (Hd & Hv & Hne); [lia|]. unfold ParseUint.
  destruct (itoa n) as [|a s] eqn:E; [done|]. rewrite <-E in *. rewrite parse_digits_val by done.
  rewrite Hv. destruct (n <? 2 ^ 64) eqn:El; bool_to_prop; [done|lia].
Qed.

(** ** [utf8.ValidString] *)

Definition in_range (lo hi : Z) (a : Ascii.ascii) : bool := (lo <=? byte_val a)%Z && (byte_val a <=? hi)%Z.
Definition continuation (a : Ascii.ascii) : bool := in_range 128 191 a.

Fixpoint ValidString (s : string) : bool :=
  match s with
  | "" => true
  | String a s1 =>
      if in_range 0 127 a then ValidString s1
      else match s1 with
      | "" => false
      | String b s2 =>
          if in_range 194 223 a then continuation b && ValidString s2
          else match s2 with
          | "" => false
          | String c s3 =>
              if in_range 224 239 a then
                (if in_range 224 224 a then in_range 160 191 b
                 else if in_range 237 237 a then in_range 128 159 b else continuation b) &&
                continuation c && ValidString s3
              else match s3 with
              | "" => false
              | String d s4 =>
                  in_range 240 244 a &&
                  (if in_range 240 240 a then in_range 144 191 b
                   else if in_range 244 244 a then in_range 128 143 b else continuation b) &&
                  continuation c && continuation d && ValidString s4
              end
          end
      end
  end.

(** ** Splitting what was joined *)

Lemma Split_plain s sep : str_exists (Ascii.eqb sep) s = false → Split s sep = [s].
Proof.
  induction s as [|a s IH]; simpl; [done|]. intros E. apply orb_false_iff in E as [E1 E2].
  rewrite (Ascii.eqb_sym a sep), E1, (IH E2). done.
Qed.

Lemma Split_app_sep s t sep : Split (s +:+ String sep t) sep = Split s sep ++ Split t sep.
Proof.
  induction s as [|a s IH]; simpl; [by rewrite Ascii.eqb_refl|].
  destruct (Ascii.eqb a sep); [by rewrite IH|]. rewrite IH.
  pose proof (Split_nonempty s sep). destruct (Split s sep); [done|]. done.
Qed.

(** [Join] undone by [Split], for words without the separator. *)
Lemma Split_Join sep ws :
  ws ≠ [] → Forall (λ w, str_exists (Ascii.eqb sep) w = false) ws →
  Split (Join ws (String sep EmptyString)) sep = ws.
Proof.
  intros Hne. induction ws as [|w ws IH]; [done|]. intros Hall. apply Forall_cons in Hall as [Hw Hws].
  destruct ws as [|w' ws]; [by apply Split_plain|].
  change (Join (w :: w' :: ws) (String sep EmptyString)) with (w +:+ String sep (Join (w' :: ws) (String sep EmptyString))).
  rewrite Split_app_sep, (Split_plain w) by done. by rewrite IH.
Qed.

Lemma str_exists_digits sep s : is_digit sep = false → str_forall is_digit s = true → str_exists (Ascii.eqb sep) s = false.
Proof.
  intros Hs. induction s as [|c s IH]; simpl; [done|]. intros [Hc Hd]%andb_true_iff.
  rewrite IH by done. destruct (Ascii.eqb sep c) eqn:E; [|done]. apply Ascii.eqb_eq in E. congruence.
Qed.

Lemma Cut_app s sep t : str_exists (Ascii.eqb sep) s = false → Cut (s +:+ String sep t) sep = Some (s, t).
Proof.
  induction s as [|c s IH]; cbn [str_exists].
  - intros _. change ("" +:+ String sep t) with (String sep t). cbn [Cut]. by rewrite Ascii.eqb_refl.
  - intros [E1 E2]%orb_false_iff. change (String c s +:+ String sep t) with (String c (s +:+ String sep t)).
    cbn [Cut]. rewrite Ascii.eqb_sym, E1. by rewrite IH.
Qed.

(** ** Trimming *)

Lemma str_rev_app_eq s acc : str_rev_app s acc = str_rev s +:+ acc.
Proof.
  unfold str_rev. revert acc; induction s as [|c s IH]; intros acc; [done|]. simpl.
  rewrite (IH (String c acc)), (IH (String c "")), str_app_assoc. done.
Qed.

Lemma str_rev_cons c s : str_rev (String c s) = str_rev s +:+ String c "".
Proof. unfold str_rev at 1. simpl. by rewrite str_rev_app_eq. Qed.

Lemma str_rev_append s t : str_rev (s +:+ t) = str_rev t +:+ str_rev s.
Proof.
  induction s as [|c s IH]; [by rewrite str_app_nil_r|].
  change (String c s +:+ t) with (String c (s +:+ t)). by rewrite !str_rev_cons, IH, str_app_assoc.
Qed.

Lemma str_rev_involutive s : str_rev (str_rev s) = s.
Proof. induction s as [|c s IH]; [done|]. rewrite str_rev_cons, str_rev_append, IH. done. Qed.

(** A printable ASCII byte other than the space. *)
Definition graphic (c : ascii) : bool := byte_in 33 126 c.

Definition head_graphic (s : string) : bool :=
  match s with String c _ => graphic c | EmptyString => false end.

(** The string begins and ends with a printable byte. *)
Definition tight (s : string) : bool := head_graphic s && head_graphic (str_rev s).

Lemma graphic_not_space c : graphic c = true → space1 c = false ∧ byte_val c < 127.
Proof.
  unfold graphic, space1, byte_in, hex_byte. intros H. bool_to_prop. split; [|lia].
  destruct (byte_val c =? 32) eqn:E1; bool_to_prop; [lia|]. rewrite orb_false_r. apply andb_false_iff. right. lia.
Qed.

Lemma space_len_graphic s : head_graphic s = true → space_len s = 0%nat.
Proof.
  destruct s as [|a s]; [done|]. intros [Ha Hv]%graphic_not_space. unfold space_len. rewrite Ha.
  destruct s as [|b s]; [done|]. unfold space2, space3, hex_byte.
  rewrite !(proj2 (Z.eqb_neq (byte_val a) _)) by lia. simpl. by destruct s.
Qed.

Lemma space_len_rev_graphic s : head_graphic s = true → space_len_rev s = 0%nat.
Proof.
  destruct s as [|c s]; [done|]. intros [Hc Hv]%graphic_not_space. unfold space_len_rev. rewrite Hc.
  destruct s as [|b s]; [done|]. unfold space2, space3, hex_byte, byte_in.
  destruct s as [|a s]; rewrite !(proj2 (Z.eqb_neq (byte_val c) _)) by lia;
    rewrite ?(proj2 (Z.leb_gt _ (byte_val c))) by lia; simpl; by rewrite !andb_false_r.
Qed.

Lemma trim_with_stop len n s : len s = 0%nat → trim_with len n s = s.
Proof. destruct n; [done|]. simpl. by intros ->. Qed.

Lemma TrimRight_tight s : head_graphic (str_rev s) = true → TrimRight s = s.
Proof. intros H. unfold TrimRight. rewrite trim_with_stop by by apply space_len_rev_graphic. apply str_rev_involutive. Qed.

Lemma TrimSpace_tight s : tight s = true → TrimSpace s = s.
Proof.
  unfold tight. intros [H1 H2]%andb_true_iff. unfold TrimSpace, TrimLeft.
  rewrite trim_with_stop by by apply space_len_graphic. by apply TrimRight_tight.
Qed.

(** A space before is trimmed. *)
Lemma TrimSpace_space s : tight s = true → TrimSpace (String " " s) = s.
Proof.
  unfold tight. intros [H1 H2]%andb_true_iff. unfold TrimSpace, TrimLeft.
  change (trim_with space_len (strlen (String " " s)) (String " " s)) with (trim_with space_len (strlen s) s).
  rewrite trim_with_stop by by apply space_len_graphic. by apply TrimRight_tight.
Qed.

Lemma head_graphic_app s t : head_graphic s = true → head_graphic (s +:+ t) = true.
Proof. by destruct s. Qed.

Lemma tight_app s m t : tight s = true → tight t = true → tight (s +:+ m +:+ t) = true.
Proof.
  unfold tight. intros [H1 _]%andb_true_iff [_ H2]%andb_true_iff. apply andb_true_iff.
  split; [by apply head_graphic_app|]. rewrite str_rev_append, str_rev_append, str_app_assoc. by apply head_graphic_app.
Qed.

Lemma is_digit_graphic c : is_digit c = true → graphic c = true.
Proof. unfold is_digit, graphic, byte_in. intros H. bool_to_prop. apply andb_true_iff. lia. Qed.

Lemma str_forall_rev P s : str_forall P (str_rev s) = str_forall P s.
Proof.
  induction s as [|c s IH]; [done|]. rewrite str_rev_cons, str_forall_app, IH. simpl.
  rewrite andb_true_r. apply andb_comm.
Qed.

Lemma digits_tight s : s ≠ "" → str_forall is_digit s = true → tight s = true.
Proof.
  assert (∀ t, t ≠ "" → str_forall is_digit t = true → head_graphic t = true) as Hh.
  { intros [|c t]; [done|]. intros _ [Hc _]%andb_true_iff. by apply is_digit_graphic. }
  intros Hne Hd. apply andb_true_iff. split; [by apply Hh|]. apply Hh; [|by rewrite str_forall_rev].
  intros E. apply Hne. by rewrite <-(str_rev_involutive s), E.
Qed.

Lemma itoa_tight n : 0 ≤ n → tight (itoa n) = true.
Proof. intros Hn. destruct (itoa_digits n Hn) as (Hd & _ & Hne). by apply digits_tight. Qed.

(** ** Taking and dropping *)

Lemma str_take_app s t : str_take (strlen s) (s +:+ t) = s.
Proof. induction s as [|c s IH]; [by destruct t|]. unfold strlen in *. cbn. by rewrite IH. Qed.
Lemma str_drop_app s t : str_drop (strlen s) (s +:+ t) = t.
Proof. induction s as [|c s IH]; [by destruct t|]. unfold strlen in *. cbn. by rewrite IH. Qed.

Lemma str_take_drop n s : str_take n s +:+ str_drop n s = s.
Proof. revert s; induction n as [|n IH]; intros [|c s]; [done..|]. cbn. by rewrite IH. Qed.

Lemma str_app_inv_head s t u : s +:+ t = s +:+ u → t = u.
Proof. induction s as [|c s IH]; [done|]. change (String c s +:+ ?x) with (String c (s +:+ x)). by intros [= E%IH]. Qed.

Lemma str_app_inv_tail s t u : t +:+ s = u +:+ s → t = u.
Proof.
  intros E. apply (f_equal str_rev) in E. rewrite !str_rev_append in E. apply str_app_inv_head in E.
  by rewrite <-(str_rev_involutive t), E, str_rev_involutive.
Qed.

(** The pieces put together. *)
Definition str_concat (ss : list string) : string := foldr (λ a b, a +:+ b) "" ss.

Lemma str_concat_snoc ss s : str_concat (ss ++ [s]) = str_concat ss +:+ s.
Proof.
  induction ss as [|a ss IH]; cbn; [by rewrite str_app_nil_r|].
  change (foldr _ _ (ss ++ [s])) with (str_concat (ss ++ [s])). by rewrite IH, str_app_assoc.
Qed.
