(* ===== verification/GoFloat.v ===== *)
(** * Go's [float64]: IEEE 754 binary64, computed exactly by [SpecFloat]

    The operations are the bit-exact ones of the standard library's specification of binary
    floating point at precision 53 and maximal exponent 1024, rounding to nearest even. *)
From S2P Require Import Prelude GoBase GoStrings.
From Stdlib Require Export SpecFloat.
From Stdlib Require Import Ascii.
Local Open Scope Z_scope.

Notation float64 := spec_float (only parsing).

Definition fadd : float64 → float64 → float64 := SFadd 53 1024.
Definition fmul : float64 → float64 → float64 := SFmul 53 1024.
Definition fdiv : float64 → float64 → float64 := SFdiv 53 1024.
Definition feqb : float64 → float64 → bool := SFeqb.
Definition fltb : float64 → float64 → bool := SFltb.
Definition fleb : float64 → float64 → bool := SFleb.

(** [float64(z)] for an integer [z]. *)
Definition f64 (z : Z) : float64 := binary_normalize 53 1024 z 0 false.

(** The double nearest to the decimal [m * 10^e]. *)
Definition f64_dec (neg : bool) (m : Z) (e : Z) : float64 :=
  match m with
  | Zpos p =>
      if 0 <=? e then
        match m * 10 ^ e with
        | Zpos q => binary_round 53 1024 neg q 0
        | _ => S754_zero neg
        end
      else
        let '(q, ex, l) := SFdiv_core_binary 53 1024 (Zpos p) 0 (10 ^ (- e)) 0 in
        binary_round_aux 53 1024 neg q ex l
  | _ => S754_zero neg
  end.

Definition is_nan (x : float64) : bool := match x with S754_nan => true | _ => false end.

(** ** Comparison is a total preorder away from NaN *)

(** A key whose lexicographic order is the order of the numbers. *)
Definition fkey (x : float64) : Z * Z * Z :=
  match x with
  | S754_infinity false => (2, 0, 0)
  | S754_finite false m e => (1, e, Zpos m)
  | S754_zero _ | S754_nan => (0, 0, 0)
  | S754_finite true m e => (-1, - e, Zneg m)
  | S754_infinity true => (-2, 0, 0)
  end.

Definition key_cmp (a b : Z * Z * Z) : comparison :=
  match a.1.1 ?= b.1.1 with
  | Eq => match a.1.2 ?= b.1.2 with Eq => a.2 ?= b.2 | c => c end
  | c => c
  end.

Definition key_lt (a b : Z * Z * Z) : Prop :=
  a.1.1 < b.1.1 ∨ (a.1.1 = b.1.1 ∧ (a.1.2 < b.1.2 ∨ (a.1.2 = b.1.2 ∧ a.2 < b.2))).

Lemma SFcompare_key x y :
  is_nan x = false → is_nan y = false → SFcompare x y = Some (key_cmp (fkey x) (fkey y)).
Proof.
  destruct x as [[]|[]| |[] m1 e1], y as [[]|[]| |[] m2 e2]; try done; intros _ _;
    unfold key_cmp; simpl; f_equal.
  - rewrite Z.compare_opp. destruct (Z.compare_spec e2 e1), (Z.compare_spec e1 e2); try lia; done.
Qed.

Lemma key_cmp_lt a b : key_cmp a b = Lt ↔ key_lt a b.
Proof.
  unfold key_cmp, key_lt. destruct a as [[a1 a2] a3], b as [[b1 b2] b3]; simpl.
  destruct (Z.compare_spec a1 b1), (Z.compare_spec a2 b2), (Z.compare_spec a3 b3);
    split; intros; try done; lia.
Qed.

Lemma key_cmp_eq a b : key_cmp a b = Eq ↔ a = b.
Proof.
  unfold key_cmp. destruct a as [[a1 a2] a3], b as [[b1 b2] b3]; simpl.
  destruct (Z.compare_spec a1 b1), (Z.compare_spec a2 b2), (Z.compare_spec a3 b3);
    split; intros; try done; simplify_eq; try lia; congruence.
Qed.

Lemma fltb_key x y :
  is_nan x = false → is_nan y = false → fltb x y = true ↔ key_lt (fkey x) (fkey y).
Proof.
  intros Hx Hy. unfold fltb, SFltb. rewrite (SFcompare_key x y Hx Hy), <-key_cmp_lt.
  destruct (key_cmp _ _); split; done.
Qed.

Lemma feqb_key x y :
  is_nan x = false → is_nan y = false → feqb x y = true ↔ fkey x = fkey y.
Proof.
  intros Hx Hy. unfold feqb, SFeqb. rewrite (SFcompare_key x y Hx Hy), <-key_cmp_eq.
  destruct (key_cmp _ _); split; done.
Qed.

Lemma fltb_nkey x y :
  is_nan x = false → is_nan y = false → fltb x y = false ↔ ¬ key_lt (fkey x) (fkey y).
Proof. intros Hx Hy. rewrite <-(fltb_key x y Hx Hy). destruct (fltb x y); split; done. Qed.

Lemma feqb_nkey x y :
  is_nan x = false → is_nan y = false → feqb x y = false ↔ fkey x ≠ fkey y.
Proof. intros Hx Hy. rewrite <-(feqb_key x y Hx Hy). destruct (feqb x y); split; done. Qed.

Lemma key_eq (a b : Z * Z * Z) : a = b ↔ a.1.1 = b.1.1 ∧ a.1.2 = b.1.2 ∧ a.2 = b.2.
Proof. destruct a as [[??]?], b as [[??]?]; simpl; naive_solver. Qed.

(** ** Rounding a non-negative mantissa never yields NaN *)

Lemma iter_pos_inv {A} (f : A → A) (P : A → Prop) n x :
  (∀ y, P y → P (f y)) → P x → P (iter_pos f n x).
Proof.
  intros Hf. revert x; induction n as [n IH|n IH|]; intros x Hx; simpl; [|by auto..].
  apply IH, IH, Hf, Hx.
Qed.

Lemma shr_fexp_nonneg prec emax m e l :
  0 ≤ m → 0 ≤ shr_m (shr_fexp prec emax m e l).1.
Proof.
  intros Hm. unfold shr_fexp, shr.
  assert (0 ≤ shr_m (shr_record_of_loc m l)) as H0 by (destruct l as [|[]]; done).
  destruct (_ - e); simpl; [done| |done].
  apply (iter_pos_inv shr_1 (λ r, 0 ≤ shr_m r)); [|done].
  intros [m' r s] H; simpl in *. destruct m' as [|[]|]; simpl; lia.
Qed.

Lemma binary_round_aux_not_nan prec emax s m e l :
  0 ≤ m → is_nan (binary_round_aux prec emax s m e l) = false.
Proof.
  intros Hm. unfold binary_round_aux.
  pose proof (shr_fexp_nonneg prec emax m e l Hm) as H1.
  destruct (shr_fexp prec emax m e l) as [r1 e1]; simpl in H1.
  assert (0 ≤ round_nearest_even (shr_m r1) (loc_of_shr_record r1)) as H2.
  { unfold round_nearest_even. repeat case_match; lia. }
  pose proof (shr_fexp_nonneg prec emax _ e1 loc_Exact H2) as H3.
  destruct (shr_fexp prec emax _ e1 loc_Exact) as [r2 e2]; simpl in H3.
  destruct (shr_m r2); [done| |lia]. by destruct (e2 <=? _).
Qed.

Lemma binary_round_not_nan prec emax s m e : is_nan (binary_round prec emax s m e) = false.
Proof.
  unfold binary_round. destruct (shl_align _ _ _). by apply binary_round_aux_not_nan.
Qed.

Lemma binary_normalize_not_nan prec emax m e z :
  is_nan (binary_normalize prec emax m e z) = false.
Proof. destruct m; simpl; [done|apply binary_round_not_nan..]. Qed.

Lemma f64_not_nan z : is_nan (f64 z) = false.
Proof. apply binary_normalize_not_nan. Qed.

(** Zero and finite numbers. *)
Definition is_fin (x : float64) : bool :=
  match x with S754_zero _ | S754_finite _ _ _ => true | _ => false end.

(** Integers of at most 53 bits are represented exactly. *)
Lemma digits2_iter_xO d m :
  Zpos (digits2_pos (Pos.iter xO m d)) = Zpos (digits2_pos m) + Zpos d.
Proof.
  revert m. induction d as [|d IH] using Pos.peano_ind; intros m; [simpl; lia|].
  rewrite Pos.iter_succ; simpl. rewrite Pos2Z.inj_succ, IH. lia.
Qed.

Lemma digits2_bound m : 2 ^ (Zpos (digits2_pos m) - 1) ≤ Zpos m < 2 ^ Zpos (digits2_pos m).
Proof.
  induction m as [m IH|m IH|]; simpl digits2_pos; [| |lia].
  all: rewrite Pos2Z.inj_succ; replace (Z.succ (Zpos (digits2_pos m)) - 1)
    with (Z.succ (Zpos (digits2_pos m) - 1)) by lia;
    rewrite !Z.pow_succ_r by lia; lia.
Qed.

Lemma shr_fexp_id m e :
  fexp 53 1024 (Zpos (digits2_pos m) + e) = e →
  shr_fexp 53 1024 (Zpos m) e loc_Exact = (Build_shr_record (Zpos m) false false, e).
Proof. intros E. unfold shr_fexp. simpl Zdigits2. rewrite E, Z.sub_diag. done. Qed.

Lemma binary_round_int s m :
  Zpos (digits2_pos m) ≤ 53 →
  ∃ m', binary_round 53 1024 s m 0 = S754_finite s m' (Zpos (digits2_pos m) - 53).
Proof.
  intros Hd. unfold binary_round.
  assert (fexp 53 1024 (Zpos (digits2_pos m) + 0) = Zpos (digits2_pos m) - 53) as ->.
  { unfold fexp, emin. lia. }
  set (d := Zpos (digits2_pos m)) in *.
  assert (∃ m', shl_align m 0 (d - 53) = (m', d - 53) ∧ Zpos (digits2_pos m') = 53) as (m' & -> & Hm').
  { unfold shl_align. rewrite Z.sub_0_r. destruct (d - 53) as [|k|k] eqn:E; [|lia|].
    - exists m. split; [done|]. fold d. lia.
    - exists (Pos.iter xO m k). split; [done|]. rewrite digits2_iter_xO. fold d. lia. }
  exists m'. unfold binary_round_aux.
  assert (fexp 53 1024 (Zpos (digits2_pos m') + (d - 53)) = d - 53) as Hf
    by (rewrite Hm'; unfold fexp, emin; lia).
  rewrite shr_fexp_id by done. simpl. rewrite shr_fexp_id by done. simpl.
  rewrite (proj2 (Z.leb_le _ _)) by (simpl; lia). done.
Qed.

Lemma f64_int_finite z : - 2 ^ 53 < z < 2 ^ 53 → is_fin (f64 z) = true.
Proof.
  intros Hz. unfold f64. destruct z as [|m|m]; simpl; [done|..].
  all: destruct (binary_round_int false m) as [m1 E1]; [|].
  all: try (destruct (Z.le_gt_cases (Zpos (digits2_pos m)) 53) as [|Hgt]; [done|];
    pose proof (digits2_bound m) as [Hb _];
    pose proof (Z.pow_le_mono_r 2 53 (Zpos (digits2_pos m) - 1)); lia).
  - by rewrite E1.
  - destruct (binary_round_int true m) as [m2 E2]; [|by rewrite E2].
    destruct (Z.le_gt_cases (Zpos (digits2_pos m)) 53) as [|Hgt]; [done|].
    pose proof (digits2_bound m) as [Hb _].
    pose proof (Z.pow_le_mono_r 2 53 (Zpos (digits2_pos m) - 1)). lia.
Qed.

Lemma fltb_not_nan x y : fltb x y = true → is_nan x = false ∧ is_nan y = false.
Proof. by destruct x as [[]|[]| |[] ? ?], y as [[]|[]| |[] ? ?]. Qed.

(** The product of two positive numbers is a number. *)
Lemma fmul_pos_not_nan x y :
  fltb (f64 0) x = true → fltb (f64 0) y = true → is_nan (fmul x y) = false.
Proof.
  destruct x as [[]|[]| |[] ? ?], y as [[]|[]| |[] ? ?]; try done; intros _ _;
    by apply binary_round_aux_not_nan.
Qed.

Lemma fadd_fin_not_nan x y : is_fin x = true → is_nan y = false → is_nan (fadd x y) = false.
Proof.
  destruct x as [[]|[]| |[] ? ?], y as [[]|[]| |[] ? ?]; try done; intros _ _;
    apply binary_normalize_not_nan.
Qed.

#[export] Hint Resolve f64_not_nan binary_normalize_not_nan binary_round_aux_not_nan : skipper.

(** ** Durations as floating-point numbers *)

(** [d.Minutes()] and [d.Seconds()]. *)
Definition Minutes (d : Duration) : float64 :=
  fadd (f64 (Z.quot d Minute)) (fdiv (f64 (Z.rem d Minute)) (f64 (60 * 1000000000))).
Definition Seconds (d : Duration) : float64 :=
  fadd (f64 (Z.quot d Second)) (fdiv (f64 (Z.rem d Second)) (f64 1000000000)).

(** ** Conversion to [int64]

    [int64(x)]: truncation toward zero; out of range the result is up to the platform and is
    the operation of the class. *)
Class FloatToInt := {
  f2i_oob : float64 → Z;
  f2u_oob : float64 → Z
}.

Definition ftrunc (x : float64) : option Z :=
  match x with
  | S754_zero _ => Some 0
  | S754_finite s m e =>
      let a := if 0 <=? e then Zpos m * 2 ^ e else Zpos m / 2 ^ (- e) in
      Some (if s then - a else a)
  | _ => None
  end.

Definition f2i `{FloatToInt} (x : float64) : Z :=
  match ftrunc x with
  | Some z => if (- 2 ^ 63 <=? z) && (z <? 2 ^ 63) then z else f2i_oob x
  | None => f2i_oob x
  end.

Definition f2u `{FloatToInt} (x : float64) : Z :=
  match ftrunc x with
  | Some z => if (0 <=? z) && (z <? 2 ^ 64) then z else f2u_oob x
  | None => f2u_oob x
  end.

(** A platform whose out-of-range conversions give the least [int64] and 2^63. *)
Definition amd64 : FloatToInt := {| f2i_oob _ := - 2 ^ 63; f2u_oob _ := 2 ^ 63 |}.
