(* ===== verification/GoFormat.v ===== *)
(** * Formatting: [fmt]'s [%.nf], [%t], and [Duration.String] *)
From Stdlib Require Import SpecFloat Ascii.
From S2P Require Import Prelude GoBase GoStrings GoFloat.
Local Open Scope Z_scope.

(** ** Decimal digits *)

(** The last [n] decimal digits of [z], with leading zeros. *)
Fixpoint digits (n : nat) (z : Z) : string :=
  match n with
  | O => ""
  | S n' => digits n' (z / 10) +:+ String (Ascii.ascii_of_N (Z.to_N (48 + z mod 10))) ""
  end.

Lemma digits_length n z : strlen (digits n z) = n.
Proof.
  revert z; induction n as [|n IH]; intros z; [done|]. simpl.
  rewrite strlen_app, IH. unfold strlen; simpl. lia.
Qed.

(** ** [%.nf] *)

(** [m * 2^e] rounded to the nearest integer, ties to even. *)
Definition round_even (m : Z) (e : Z) : Z :=
  if 0 <=? e then m * 2 ^ e
  else
    let d := 2 ^ (- e) in
    let q := m / d in
    let r := m mod d in
    if 2 * r <? d then q
    else if d <? 2 * r then q + 1
    else if Z.even q then q else q + 1.

Definition format_f (prec : nat) (x : float64) : string :=
  match x with
  | S754_nan => "NaN"
  | S754_infinity s => if s then "-Inf" else "+Inf"
  | S754_zero s => (if s then "-" else "") +:+ "0" +:+ (if decide (prec = O) then "" else "." +:+ digits prec 0)
  | S754_finite s m e =>
      let n := round_even (Zpos m * 10 ^ Z.of_nat prec) e in
      (if s then "-" else "") +:+ itoa (n / 10 ^ Z.of_nat prec) +:+
      (if decide (prec = O) then "" else "." +:+ digits prec n)
  end.

Definition format_t (b : bool) : string := if b then "true" else "false".

(** ** [%q] *)

Definition hex_digit (n : Z) : string :=
  default "" (["0"; "1"; "2"; "3"; "4"; "5"; "6"; "7"; "8"; "9"; "a"; "b"; "c"; "d"; "e"; "f"] !! Z.to_nat n).

(** One byte of a quoted string: the escapes of the ASCII control bytes, the quote and the backslash;
    the bytes of other characters stay (those of a printable character do). *)
Definition quote_byte (c : ascii) : string :=
  let v := byte_val c in
  let bs := String (ascii_of_nat 92) "" in
  if v =? 34 then bs +:+ String (ascii_of_nat 34) ""
  else if v =? 92 then bs +:+ bs
  else if (32 <=? v) && negb (v =? 127) then String c ""
  else if v =? 7 then bs +:+ "a" else if v =? 8 then bs +:+ "b" else if v =? 9 then bs +:+ "t"
  else if v =? 10 then bs +:+ "n" else if v =? 11 then bs +:+ "v" else if v =? 12 then bs +:+ "f"
  else if v =? 13 then bs +:+ "r"
  else bs +:+ "x" +:+ hex_digit (v / 16) +:+ hex_digit (v mod 16).

Fixpoint quote_bytes (s : string) : string :=
  match s with EmptyString => "" | String c s' => quote_byte c +:+ quote_bytes s' end.

Definition Quote (s : string) : string :=
  String (ascii_of_nat 34) (quote_bytes s +:+ String (ascii_of_nat 34) "").

(** ** [Duration.String] *)

Fixpoint strip_zeros (s : string) : string :=
  match s with
  | String a s' => if decide (a = "0"%char) then strip_zeros s' else s
  | "" => ""
  end.

(** The fraction [v mod 10^prec] without trailing zeros, with its point. *)
Definition fmtFrac (v : Z) (prec : nat) : string :=
  let f := str_rev (strip_zeros (str_rev (digits prec v))) in
  if decide (f = "") then "" else "." +:+ f.

Definition Duration_String (d : Duration) : string :=
  let u := Z.abs d in
  let neg := if d <? 0 then "-" else "" in
  if u =? 0 then "0s"
  else if u <? Second then
    neg +:+
    (if u <? 1000 then itoa u +:+ "ns"
     else if u <? Millisecond then itoa (u / 1000) +:+ fmtFrac u 3 +:+ "µs"
     else itoa (u / Millisecond) +:+ fmtFrac u 6 +:+ "ms")
  else
    let s := u / Second in
    let m := s / 60 in
    let h := m / 60 in
    neg +:+
    (if 0 <? h then itoa h +:+ "h" else "") +:+
    (if 0 <? m then itoa (m mod 60) +:+ "m" else "") +:+
    itoa (s mod 60) +:+ fmtFrac u 9 +:+ "s".

Example duration_30m : Duration_String (30 * Minute) = "30m0s".
Proof. by vm_compute. Qed.
Example duration_frac : Duration_String 1500000000 = "1.5s".
Proof. by vm_compute. Qed.
Example duration_ms : Duration_String (250 * Millisecond) = "250ms".
Proof. by vm_compute. Qed.
Example format_half_even : format_f 0 (f64_dec false 925 (-1)) = "92".
Proof. by vm_compute. Qed.
Example format_two : format_f 2 (f64_dec false 12345 (-3)) = "12.35".
Proof. by vm_compute. Qed.

(** ** The wording of the standard library's errors

    It only ever goes into messages. *)
Class ErrorText := {
  ParseFloat_error : string → string;
  ParseDuration_error : string → string
}.

Definition some_wording : ErrorText := {| ParseFloat_error _ := "invalid syntax"; ParseDuration_error _ := "invalid duration" |}.
