(* ===== verification/GoParse.v ===== *)
(** * [strconv.ParseFloat] at 64 bits

    Decimal and hexadecimal floating-point literals with optional underscores, infinities and
    NaN, as the standard library reads them; the value is the nearest double. *)
From Stdlib Require Import SpecFloat Ascii.
From S2P Require Import Prelude GoBase GoStrings GoFloat.
Local Open Scope Z_scope.

(** ** Underscores: only between digits, or between a base prefix and a digit *)

(** The kind of the last byte seen: the beginning, a digit (or the prefix), an underscore, other. *)
Inductive seen := SeenStart | SeenDigit | SeenUnder | SeenOther.

Definition is_hex_letter (c : ascii) : bool := byte_in 97 102 (lower_byte c).

Fixpoint underscores (hex : bool) (i : seen) (s : string) : bool :=
  match s with
  | EmptyString => match i with SeenUnder => false | _ => true end
  | String c s' =>
      if is_digit c || (hex && is_hex_letter c) then underscores hex SeenDigit s'
      else if hex_byte 95 c then match i with SeenDigit => underscores hex SeenUnder s' | _ => false end
      else match i with SeenUnder => false | _ => underscores hex SeenOther s' end
  end.

Definition is_sign (c : ascii) : bool := hex_byte 43 c || hex_byte 45 c.

Definition drop_sign (s : string) : string :=
  match s with String c s' => if is_sign c then s' else s | EmptyString => s end.

Definition underscoreOK (s : string) : bool :=
  let s := drop_sign s in
  match s with
  | String z (String b s') =>
      let l := lower_byte b in
      if hex_byte 48 z && (hex_byte 98 l || hex_byte 111 l || hex_byte 120 l)
      then underscores (hex_byte 120 l) SeenDigit s' else underscores false SeenStart s
  | _ => underscores false SeenStart s
  end.

(** ** The parts of a literal *)

(** The mantissa as an integer, the number of its digits after the point, whether there was a
    digit, and the rest. *)
Fixpoint scanMantissa (hex : bool) (s : string) (m frac : Z) (dot dig : bool) : Z * Z * bool * string :=
  match s with
  | EmptyString => (m, frac, dig, s)
  | String c s' =>
      if hex_byte 95 c then scanMantissa hex s' m frac dot dig
      else if hex_byte 46 c then if dot then (m, frac, dig, s) else scanMantissa hex s' m frac true dig
      else
        let next := if dot then frac + 1 else frac in
        if is_digit c then scanMantissa hex s' ((if hex then 16 else 10) * m + digit_val c) next dot true
        else if hex && is_hex_letter c
        then scanMantissa hex s' (16 * m + (byte_val (lower_byte c) - 87)) next dot true
        else (m, frac, dig, s)
  end.

(** The digits of an exponent, which stops growing at 10000. *)
Fixpoint scanExponent (s : string) (e : Z) : Z * string :=
  match s with
  | EmptyString => (e, s)
  | String c s' =>
      if hex_byte 95 c then scanExponent s' e
      else if is_digit c then scanExponent s' (if e <? 10000 then 10 * e + digit_val c else e)
      else (e, s)
  end.

(** An optional exponent introduced by [mark]: its value, or [None] on a syntax error. *)
Definition readExponent (mark : Z) (required : bool) (s : string) : option (Z * string) :=
  let digits (neg : bool) (s : string) :=
    match s with
    | String c _ => if is_digit c then let '(e, r) := scanExponent s 0 in Some (if neg then - e else e, r) else None
    | EmptyString => None
    end in
  match s with
  | String c s' =>
      if hex_byte mark (lower_byte c) then
        match s' with
        | String d s'' => if hex_byte 43 d then digits false s'' else if hex_byte 45 d then digits true s'' else digits false s'
        | EmptyString => None
        end
      else if required then None else Some (0, s)
  | EmptyString => if required then None else Some (0, s)
  end.

Definition is_inf (x : float64) : bool := match x with S754_infinity _ => true | _ => false end.

(** The double nearest to [m * 2^e]. *)
Definition f64_bin (neg : bool) (m : Z) (e : Z) : float64 :=
  match m with Zpos p => binary_round 53 1024 neg p e | _ => S754_zero neg end.

Definition equalFold (s t : string) : bool := bool_decide (str_map lower_byte s = t).

(** "inf", "infinity", possibly signed, and "nan", in any case. *)
Definition special (s : string) : option float64 :=
  if equalFold s "nan" then Some S754_nan
  else
    let neg := match s with String c _ => hex_byte 45 c | EmptyString => false end in
    let r := drop_sign s in
    if equalFold r "inf" || equalFold r "infinity" then Some (S754_infinity neg) else None.

(** [strconv.ParseFloat(s, 64)]; [None] stands for an error (syntax or range). *)
Definition ParseFloat (s : string) : option float64 :=
  match special s with
  | Some v => Some v
  | None =>
      let neg := match s with String c _ => hex_byte 45 c | EmptyString => false end in
      let body := drop_sign s in
      let '(hex, body) :=
        match body with
        | String z (String x (String d r)) =>
            if hex_byte 48 z && hex_byte 120 (lower_byte x) then (true, String d r) else (false, body)
        | _ => (false, body)
        end in
      let '(m, frac, dig, rest) := scanMantissa hex body 0 0 false false in
      if negb dig then None
      else match readExponent (if hex then 112 else 101) hex rest with
           | Some (e, EmptyString) =>
               if negb (underscoreOK s) then None
               else
                 let v := if hex then f64_bin neg m (e - 4 * frac) else f64_dec neg m (e - frac) in
                 if is_inf v then None else Some v
           | _ => None
           end
  end.

Example ParseFloat_1 : ParseFloat "123.45" = Some (f64_dec false 12345 (-2)).
Proof. vm_compute. reflexivity. Qed.
Example ParseFloat_2 : ParseFloat "[N/A]" = None ∧ ParseFloat "" = None ∧ ParseFloat "1e400" = None.
Proof. vm_compute. auto. Qed.
Example ParseFloat_3 : ParseFloat "-0x1.8p1" = Some (f64 (-3)) ∧ ParseFloat "1_0.5e+1" = Some (f64 105).
Proof. vm_compute. auto. Qed.
