(* ===== verification/FloatFacts.v ===== *)
(** * Exact floating-point arithmetic

    Integers of at most 53 bits and their products by powers of two are represented exactly, and
    a decimal integer is read as exactly that number. *)
From Stdlib Require Import SpecFloat Ascii.
From S2P Require Import Prelude GoBase GoStrings GoFloat GoParse.
Local Open Scope Z_scope.

Lemma iter_xO m k : Zpos (Pos.iter xO m k) = Zpos m * 2 ^ Zpos k.
Proof.
  induction k as [|k IH] using Pos.peano_ind; [cbn; lia|].
  rewrite Pos.iter_succ, Pos2Z.inj_xO, IH, Pos2Z.inj_succ, Z.pow_succ_r by lia. lia.
Qed.

(** An integer of at most 53 bits as a double: its mantissa has exactly 53 bits. *)
Lemma f64_pos_exact n :
  0 < n < 2 ^ 53 →
  ∃ m k, f64 n = S754_finite false m (- k) ∧ 0 ≤ k ≤ 52 ∧ Zpos m = n * 2 ^ k ∧ Zpos (digits2_pos m) = 53.
Proof.
  intros Hn. destruct n as [|p|p]; [lia| |lia]. pose proof (digits2_bound p) as [Hlo Hhi].
  assert (Zpos (digits2_pos p) ≤ 53) as Hd.
  { destruct (Z.le_gt_cases (Zpos (digits2_pos p)) 53) as [|Hgt]; [done|].
    pose proof (Z.pow_le_mono_r 2 53 (Zpos (digits2_pos p) - 1)). lia. }
  set (d := Zpos (digits2_pos p)) in *. assert (0 < d) by (unfold d; lia).
  assert (∃ m, shl_align p 0 (d - 53) = (m, d - 53) ∧ Zpos m = Zpos p * 2 ^ (53 - d) ∧ Zpos (digits2_pos m) = 53)
    as (m & Hs & Hv & Hm).
  { unfold shl_align. rewrite Z.sub_0_r. destruct (d - 53) as [|k|k] eqn:E; [|lia|].
    - exists p. replace (53 - d) with 0 by lia. split_and!; [done|lia|fold d; lia].
    - exists (Pos.iter xO p k). rewrite iter_xO, digits2_iter_xO. fold d.
      replace (53 - d) with (Zpos k) by lia. split_and!; [done|done|lia]. }
  exists m, (53 - d). split_and!; [|lia|lia|done|done].
  unfold f64, binary_normalize, binary_round.
  assert (fexp 53 1024 (Zpos (digits2_pos p) + 0) = d - 53) as -> by (unfold fexp, emin, d; lia).
  rewrite Hs. unfold binary_round_aux.
  assert (fexp 53 1024 (Zpos (digits2_pos m) + (d - 53)) = d - 53) as Hf by (rewrite Hm; unfold fexp, emin; lia).
  rewrite shr_fexp_id by done. simpl. rewrite shr_fexp_id by done. simpl.
  rewrite (proj2 (Z.leb_le _ _)) by (simpl; lia). f_equal. lia.
Qed.

Lemma ftrunc_f64 n : 0 ≤ n < 2 ^ 53 → ftrunc (f64 n) = Some n.
Proof.
  intros Hn. destruct (Z.eq_dec n 0) as [->|Hz]; [done|].
  destruct (f64_pos_exact n) as (m & k & -> & Hk & Hm & _); [lia|].
  unfold ftrunc. rewrite Hm. destruct (0 <=? - k) eqn:E; bool_to_prop; f_equal.
  - assert (k = 0) as -> by lia. lia.
  - rewrite Z.opp_involutive. apply Z.div_mul. lia.
Qed.

(** Shifting the product by 2^52 back. *)
Lemma shr_2p52 m : iter_pos shr_1 52 (Build_shr_record (Zpos (m * 4503599627370496)) false false) = Build_shr_record (Zpos m) false false.
Proof. rewrite Pos.mul_comm. reflexivity. Qed.

Lemma digits2_mul_2p52 m : Zpos (digits2_pos (m * 4503599627370496)) = Zpos (digits2_pos m) + 52.
Proof.
  rewrite Pos.mul_comm. change (4503599627370496 * m)%positive with (Pos.iter xO m 52).
  rewrite digits2_iter_xO. done.
Qed.

(** The product of a double of 53 bits by a power of two. *)
Lemma fmul_pow2 m e k :
  Zpos (digits2_pos m) = 53 → -1000 ≤ e ≤ 0 → 0 ≤ k ≤ 100 →
  fmul (S754_finite false m e) (S754_finite false 4503599627370496 (k - 52)) = S754_finite false m (e + k).
Proof.
  intros Hm He Hk. unfold fmul, SFmul. cbn [xorb]. unfold binary_round_aux.
  assert (shr_fexp 53 1024 (Zpos (m * 4503599627370496)) (e + (k - 52)) loc_Exact =
          (Build_shr_record (Zpos m) false false, e + k)) as ->.
  { unfold shr_fexp. cbn [Zdigits2]. rewrite digits2_mul_2p52, Hm.
    assert (fexp 53 1024 (53 + 52 + (e + (k - 52))) - (e + (k - 52)) = 52) as -> by (unfold fexp, emin; lia).
    unfold shr. cbn [shr_record_of_loc]. rewrite shr_2p52. f_equal. lia. }
  cbn [shr_m loc_of_shr_record shr_r shr_s round_nearest_even].
  assert (fexp 53 1024 (Zpos (digits2_pos m) + (e + k)) = e + k) as Hf by (rewrite Hm; unfold fexp, emin; lia).
  rewrite shr_fexp_id by done. cbn [shr_m]. rewrite (proj2 (Z.leb_le _ _)) by lia. done.
Qed.

Lemma fmul_f64_pow2 n k x :
  0 ≤ n < 2 ^ 53 → 0 ≤ k ≤ 100 → x = S754_finite false 4503599627370496 (k - 52) →
  ftrunc (fmul (f64 n) x) = Some (n * 2 ^ k).
Proof.
  intros Hn Hk ->. destruct (Z.eq_dec n 0) as [->|Hz]; [done|].
  destruct (f64_pos_exact n) as (m & j & -> & Hj & Hm & Hd); [lia|].
  rewrite fmul_pow2 by lia. unfold ftrunc. rewrite Hm. destruct (0 <=? - j + k) eqn:E; bool_to_prop; f_equal.
  - rewrite <-Z.mul_assoc, <-Z.pow_add_r by lia. f_equal. f_equal. lia.
  - replace (2 ^ j) with (2 ^ k * 2 ^ (- (- j + k))); [|rewrite <-Z.pow_add_r by lia; f_equal; lia].
    rewrite Z.mul_assoc. apply Z.div_mul. lia.
Qed.

(** ** Reading decimal integers *)

Lemma digit_not v c : is_digit c = true → ¬ 48 ≤ v ≤ 57 → hex_byte v c = false.
Proof. intros Hd Hv. destruct (hex_byte v c) eqn:E; [|done]. unfold is_digit, byte_in, hex_byte in *. bool_to_prop. lia. Qed.

Lemma lower_digit c : is_digit c = true → lower_byte c = c.
Proof. unfold lower_byte. intros Hd. destruct (byte_in 65 90 c) eqn:E; [|done]. unfold is_digit, byte_in in *. bool_to_prop. lia. Qed.

Lemma scanMantissa_digits s m dig :
  str_forall is_digit s = true →
  scanMantissa false s m 0 false dig = (dec_val s m, 0, dig || negb (bool_decide (s = "")), "").
Proof.
  revert m dig; induction s as [|c s IH]; intros m dig Hs.
  { cbn. by rewrite orb_false_r. }
  cbn in Hs. apply andb_true_iff in Hs as [Hc Hs]. cbn [scanMantissa].
  rewrite !digit_not, Hc by (done || lia). rewrite IH by done. cbn [dec_val].
  rewrite (bool_decide_eq_false_2 (String c s = "")), orb_true_r by done. cbn [orb negb]. do 3 f_equal. f_equal. lia.
Qed.

Lemma underscores_digits s i : str_forall is_digit s = true → i ≠ SeenUnder → underscores false i s = true.
Proof.
  revert i; induction s as [|c s IH]; intros i Hs Hi; [by destruct i|].
  cbn in Hs. apply andb_true_iff in Hs as [Hc Hs]. cbn. rewrite Hc. by apply IH.
Qed.

Lemma ParseFloat_digits s :
  s ≠ "" → str_forall is_digit s = true → dec_val s 0 < 2 ^ 53 → ParseFloat s = Some (f64 (dec_val s 0)).
Proof.
  intros Hne Hs Hv. destruct s as [|c s]; [done|]. pose proof Hs as Hall.
  cbn in Hs. apply andb_true_iff in Hs as [Hc Hs].
  assert (is_sign c = false) as Hsg by (unfold is_sign; rewrite !digit_not by (done || lia); done).
  assert (∀ w, str_exists is_digit w = false → equalFold (String c s) w = false) as Hfold.
  { intros w Hw. apply bool_decide_eq_false_2. cbn [str_map]. rewrite lower_digit by done.
    intros <-. cbn in Hw. by rewrite Hc in Hw. }
  unfold ParseFloat, special. rewrite Hfold by done. cbn [drop_sign]. rewrite Hsg, !Hfold by done. cbn [orb].
  rewrite (digit_not 45) by (done || lia).
  assert ((match s with
           | String x (String d r) => if hex_byte 48 c && hex_byte 120 (lower_byte x) then (true, String d r) else (false, String c s)
           | _ => (false, String c s) end) = (false, String c s)) as ->.
  { destruct s as [|x [|d r]]; [done..|]. cbn in Hs. apply andb_true_iff in Hs as [Hx _].
    by rewrite lower_digit, (digit_not 120), andb_false_r by (done || lia). }
  rewrite scanMantissa_digits by done. rewrite bool_decide_eq_false_2 by done. cbn [orb negb readExponent].
  assert (underscoreOK (String c s) = true) as ->.
  { unfold underscoreOK. cbn [drop_sign]. rewrite Hsg. destruct s as [|x r]; [by apply underscores_digits|].
    cbn in Hs. apply andb_true_iff in Hs as [Hx _]. rewrite lower_digit by done.
    rewrite !(digit_not _ x), andb_false_r by (done || lia). by apply underscores_digits. }
  cbn [negb]. set (n := dec_val (String c s) 0) in *. rewrite Z.sub_0_r.
  assert (0 ≤ n) by (by apply dec_val_ge).
  assert (f64_dec false n 0 = f64 n) as ->.
  { destruct n as [|p|p]; [done| |lia]. unfold f64_dec, f64, binary_normalize. change (10 ^ 0) with 1. by rewrite Z.mul_1_r. }
  assert (is_inf (f64 n) = false) as ->; [|done].
  destruct (Z.eq_dec n 0) as [->|]; [done|]. destruct (f64_pos_exact n) as (? & ? & -> & _); [lia|done].
Qed.

Lemma ParseFloat_itoa n : 0 ≤ n < 2 ^ 53 → ParseFloat (itoa n) = Some (f64 n).
Proof.
  intros Hn. destruct (itoa_digits n) as (Hd & Hv & Hne); [lia|].
  rewrite ParseFloat_digits by (rewrite ?Hv; done || lia). by rewrite Hv.
Qed.

(** ** Seconds of a whole number of seconds *)

Lemma Seconds_whole n : 0 ≤ n < 2 ^ 53 → Seconds (n * Second) = f64 n.
Proof.
  intros Hn. unfold Seconds. rewrite Z.quot_mul, Z.rem_mul by done. change (fdiv (f64 0) (f64 1000000000)) with (S754_zero false).
  destruct (Z.eq_dec n 0) as [->|Hz]; [done|]. destruct (f64_pos_exact n) as (m & k & -> & _); [lia|done].
Qed.

Lemma f2i_f64 `{FloatToInt} n : 0 ≤ n < 2 ^ 53 → f2i (f64 n) = n.
Proof. intros Hn. unfold f2i. rewrite ftrunc_f64 by done. by rewrite (proj2 (Z.leb_le _ _)), (proj2 (Z.ltb_lt _ _)) by lia. Qed.

Lemma f64_not_neg n : 0 ≤ n < 2 ^ 53 → fltb (f64 n) (f64 0) = false.
Proof.
  intros Hn. destruct (Z.eq_dec n 0) as [->|Hz]; [done|]. destruct (f64_pos_exact n) as (m & k & -> & _); [lia|done].
Qed.

(** ** Suffixes after digits *)

Lemma str_take_app_more s t k : str_take (strlen s + k) (s +:+ t) = s +:+ str_take k t.
Proof. induction s as [|c s IH]; [done|]. cbn. f_equal. apply IH. Qed.

Lemma str_rev_nil s : str_rev s = "" → s = "".
Proof. intros E. by rewrite <-(str_rev_involutive s), E. Qed.

Lemma HasSuffix_digits s w c :
  str_forall is_digit s = true → is_digit c = false → HasSuffix (s +:+ w) (String c "") = HasSuffix w (String c "").
Proof.
  intros Hs Hc. unfold HasSuffix. rewrite str_rev_append.
  change (str_rev (String c "")) with (String c "").
  destruct (str_rev w) as [|a r] eqn:E.
  2: { change (String a r +:+ str_rev s) with (String a (r +:+ str_rev s)). cbn [String.prefix]. destruct (ascii_dec c a); [|done]. by destruct r, (str_rev s). }
  assert (str_forall is_digit (str_rev s) = true) as Hr by (by rewrite str_forall_rev).
  change ("" +:+ str_rev s) with (str_rev s). destruct (str_rev s) as [|b t]; [done|].
  cbn in Hr |- *. apply andb_true_iff in Hr as [Hb _]. destruct (ascii_dec c b) as [->|]; [congruence|done].
Qed.

Lemma TrimSuffix_digits s w c :
  str_forall is_digit s = true → is_digit c = false → TrimSuffix (s +:+ w) (String c "") = s +:+ TrimSuffix w (String c "").
Proof.
  intros Hs Hc. unfold TrimSuffix. rewrite HasSuffix_digits by done. destruct (HasSuffix w _) eqn:E; [|done].
  rewrite strlen_app. assert (strlen w ≠ 0%nat) by (destruct w; done).
  replace (strlen s + strlen w - strlen (String c ""))%nat with (strlen s + (strlen w - strlen (String c "")))%nat
    by (change (strlen (String c "")) with 1%nat; lia).
  apply str_take_app_more.
Qed.

Lemma str_forall_impl (P Q : ascii → bool) s : (∀ c, P c = true → Q c = true) → str_forall P s = true → str_forall Q s = true.
Proof. intros HPQ. induction s as [|c s IH]; [done|]. cbn. rewrite !andb_true_iff. naive_solver. Qed.

Lemma ToUpper_digits `{UnicodeCase} s w :
  str_forall is_digit s = true → is_ascii w = true → ToUpper (s +:+ w) = s +:+ str_map upper_byte w.
Proof.
  intros Hs Hw. unfold ToUpper, is_ascii in *. rewrite str_forall_app, Hw.
  rewrite (str_forall_impl is_digit) by (done || (intros c Hc; unfold is_digit, byte_in in Hc; bool_to_prop; lia)). cbn [andb].
  rewrite str_map_app. f_equal. clear Hw. induction s as [|c s IH]; [done|]. cbn in Hs |- *.
  apply andb_true_iff in Hs as [Hc Hs]. rewrite IH by done. f_equal. unfold upper_byte.
  destruct (byte_in 97 122 c) eqn:E; [|done]. unfold is_digit, byte_in in *. bool_to_prop. lia.
Qed.
