(* ===== verification/GoFlag.v ===== *)
(** * Go's [flag] package: command-line flags

    A flag set is the table of its flags and the way each sets its variable; parsing consumes
    arguments from the front until the first that is not a flag. *)
From Stdlib Require Import Ascii.
From stdpp Require Import pretty.
From S2P Require Import Prelude GoBase GoStrings GoFloat GoFormat GoParse.
Local Open Scope Z_scope.

(** ** [strconv.ParseUint(s, 0, 64)] and [ParseInt]: the base by the prefix *)

Definition digit_of (c : ascii) : option Z :=
  if is_digit c then Some (digit_val c)
  else if byte_in 97 122 (lower_byte c) then Some (byte_val (lower_byte c) - 87) else None.

(** The value of the digits, underscores skipped, and whether there were any. *)
Fixpoint based_digits (base : Z) (s : string) (acc : Z) (under : bool) : option (Z * bool) :=
  match s with
  | EmptyString => Some (acc, under)
  | String c s' =>
      if hex_byte 95 c then based_digits base s' acc true
      else match digit_of c with
           | Some d => if d <? base then based_digits base s' (acc * base + d) under else None
           | None => None
           end
  end.

Definition base_of (s : string) : Z * string :=
  match s with
  | String z s' =>
      if hex_byte 48 z then
        match s' with
        | String b (String d r) =>
            let l := lower_byte b in
            if hex_byte 98 l then (2, String d r)
            else if hex_byte 111 l then (8, String d r)
            else if hex_byte 120 l then (16, String d r)
            else (8, s')
        | _ => (8, s')
        end
      else (10, s)
  | EmptyString => (10, s)
  end.

Definition errParse : string := "parse error".
Definition errRange : string := "value out of range".

Definition ParseUint0 (s : string) : result Z :=
  if decide (s = "") then Err errParse
  else
    let '(base, d) := base_of s in
    match based_digits base d 0 false with
    | None => Err errParse
    | Some (n, under) =>
        if 2 ^ 64 <=? n then Err errRange
        else if under && negb (underscoreOK s) then Err errParse
        else Ok n
    end.

Definition ParseInt0 (s : string) : result Z :=
  let neg := match s with String c _ => hex_byte 45 c | EmptyString => false end in
  match ParseUint0 (drop_sign s) with
  | Err e => Err e
  | Ok n => if neg then (if 2 ^ 63 <? n then Err errRange else Ok (- n))
            else if 2 ^ 63 <=? n then Err errRange else Ok n
  end.

Definition ParseBool (s : string) : result bool :=
  if decide (s ∈ ["1"; "t"; "T"; "TRUE"; "true"; "True"]) then Ok true
  else if decide (s ∈ ["0"; "f"; "F"; "FALSE"; "false"; "False"]) then Ok false
  else Err errParse.

(** ** Flag sets *)

(** The flags that exist, with whether they are boolean, and what setting one does. *)
Record FlagSet (C : Type) := mkFlagSet {
  fl_formal : string → option bool;
  fl_set : string → string → C → result C
}.
Arguments mkFlagSet {C} _ _.
Arguments fl_formal {C} _ _.
Arguments fl_set {C} _ _ _.

(** What an argument is: not a flag, the terminator, bad syntax, or a flag with its value, if given. *)
Inductive flagArg := NotFlag | Terminator | BadFlag | FlagArg (name : string) (value : option string).

Definition dash1 : ascii := "-".
Definition equals : ascii := "=".

(** The name is cut at the first equals sign that is not its first byte. *)
Definition cutFlag (name : string) : flagArg :=
  match name with
  | EmptyString => BadFlag
  | String c r =>
      if Ascii.eqb c dash1 || Ascii.eqb c equals then BadFlag
      else match Cut r equals with
           | Some (n, v) => FlagArg (String c n) (Some v)
           | None => FlagArg name None
           end
  end.

Definition flagArgOf (s : string) : flagArg :=
  match s with
  | String a (String b r) =>
      if negb (Ascii.eqb a dash1) then NotFlag
      else if Ascii.eqb b dash1 then (if decide (r = "") then Terminator else cutFlag r)
      else cutFlag (String b r)
  | _ => NotFlag
  end.

Definition ErrHelp : string := "flag: help requested".

(** [FlagSet.Parse]: the variables and the remaining arguments.  Every round takes an argument, so
    their number is enough fuel. *)
Fixpoint parseArgs {C} (f : FlagSet C) (fuel : nat) (args : list string) (c : C) : result (C * list string) :=
  match fuel, args with
  | _, [] => Ok (c, [])
  | O, _ => Ok (c, args)
  | S fuel', s :: rest =>
      match flagArgOf s with
      | NotFlag => Ok (c, args)
      | Terminator => Ok (c, rest)
      | BadFlag => Err ("bad flag syntax: " +:+ s)
      | FlagArg name value =>
          match fl_formal f name with
          | None => if decide (name = "help" ∨ name = "h") then Err ErrHelp
                    else Err ("flag provided but not defined: -" +:+ name)
          | Some true =>
              let v := default "true" value in
              match fl_set f name v c with
              | Ok c => parseArgs f fuel' rest c
              | Err e => match value with
                         | Some _ => Err ("invalid boolean value " +:+ Quote v +:+ " for -" +:+ name +:+ ": " +:+ e)
                         | None => Err ("invalid boolean flag " +:+ name +:+ ": " +:+ e)
                         end
              end
          | Some false =>
              let set v rest :=
                match fl_set f name v c with
                | Ok c => parseArgs f fuel' rest c
                | Err e => Err ("invalid value " +:+ Quote v +:+ " for flag -" +:+ name +:+ ": " +:+ e)
                end in
              match value, rest with
              | Some v, _ => set v rest
              | None, v :: rest => set v rest
              | None, [] => Err ("flag needs an argument: -" +:+ name)
              end
          end
      end
  end.

Definition flag_Parse {C} (f : FlagSet C) (args : list string) (c : C) : result (C * list string) :=
  parseArgs f (length args) args c.

(** ** Lemmas *)

Lemma based_digits_itoa n : 0 ≤ n → based_digits 10 (itoa n) 0 false = Some (n, false).
Proof.
  intros Hn. destruct (itoa_digits n Hn) as (Hd & Hv & _). rewrite <-Hv at 2. revert Hd. generalize (itoa n), 0.
  clear. intros s acc. revert acc; induction s as [|c s IH]; intros acc Hs; [done|].
  cbn in Hs. apply andb_true_iff in Hs as [Hc Hs]. cbn [based_digits dec_val]. unfold digit_of. rewrite Hc.
  pose proof (is_digit_val c Hc). assert (hex_byte 95 c = false) as ->.
  { unfold hex_byte. apply Z.eqb_neq. unfold digit_val in *. lia. }
  rewrite (proj2 (Z.ltb_lt _ _)) by lia. by apply IH.
Qed.

Lemma pretty_go_lead x s : (0 < x)%N → ∃ c p, pretty_N_go x s = String c p ∧ 0 < digit_val c ∧ is_digit c = true.
Proof.
  revert s. induction (N.lt_wf_0 x) as [x _ IH]; intros s Hx. rewrite pretty_N_go_step by done.
  destruct (decide (x / 10 = 0)%N) as [E|E].
  - rewrite E, pretty_N_go_0. destruct (pretty_char_digit (x mod 10)) as [H1 H2]; [by apply N.mod_lt|].
    eexists _, _. split; [done|]. pose proof (N.div_mod x 10 ltac:(done)) as Hdm. rewrite E in Hdm. split; [rewrite H2; lia|done].
  - apply IH; [by apply N.div_lt|]. by apply N.neq_0_lt_0.
Qed.

(** A positive number is printed without a leading zero. *)
Lemma itoa_lead n : 0 < n → ∃ c s, itoa n = String c s ∧ 0 < digit_val c ∧ is_digit c = true.
Proof.
  intros Hn. destruct n as [|p|p]; [lia| |lia]. unfold itoa.
  change (pretty (Z.pos p)) with (pretty (Npos p)). unfold pretty, pretty_N. rewrite decide_False by lia.
  apply pretty_go_lead. lia.
Qed.

(** A decimal without a leading zero. *)
Lemma ParseUint0_itoa n : 0 ≤ n < 2 ^ 64 → ParseUint0 (itoa n) = Ok n.
Proof.
  intros Hn. destruct (Z.eq_dec n 0) as [->|Hz]; [done|]. destruct (itoa_lead n) as (c & s & E & Hc & _); [lia|].
  unfold ParseUint0. rewrite decide_False by (by rewrite E).
  assert (base_of (itoa n) = (10, itoa n)) as ->.
  { rewrite E. unfold base_of. destruct (hex_byte 48 c) eqn:Ez; [|done]. apply Z.eqb_eq in Ez. unfold digit_val in Hc. lia. }
  rewrite based_digits_itoa by lia. rewrite (proj2 (Z.leb_gt _ _)) by lia. done.
Qed.
