(* ===== verification/GoPath.v ===== *)
(** * [path/filepath] on Unix: [Clean], [Join], [Base] *)
From Stdlib Require Import Ascii.
From S2P Require Import Prelude GoBase GoStrings.

Definition slash : ascii := "/"%char.
Definition rooted (p : string) : bool := HasPrefix p "/".

(** The elements kept so far, last first. *)
Definition clean_step (root : bool) (stack : list string) (c : string) : list string :=
  if decide (c = "" ∨ c = ".") then stack
  else if decide (c = "..") then
    match stack with
    | top :: rest => if decide (top = "..") then c :: stack else rest
    | [] => if root then [] else [c]
    end
  else c :: stack.

(** The elements of a cleaned path. *)
Definition elements (p : string) : list string :=
  reverse (foldl (clean_step (rooted p)) [] (Split p slash)).

Definition render (root : bool) (elems : list string) : string :=
  let body := Join elems "/" in
  if root then "/" +:+ body else if decide (body = "") then "." else body.

Definition Clean (p : string) : string := render (rooted p) (elements p).

(** [filepath.Join]: from the first non-empty element on. *)
Fixpoint pathJoin (elems : list string) : string :=
  match elems with
  | [] => ""
  | e :: rest => if decide (e = "") then pathJoin rest else Clean (Join elems "/")
  end.

(** The part after the last slash, trailing slashes removed. *)
Fixpoint trim_slashes (rev_s : string) : string :=
  match rev_s with
  | String a s => if Ascii.eqb a slash then trim_slashes s else rev_s
  | "" => ""
  end.

Definition Base (p : string) : string :=
  if decide (p = "") then "."
  else
    let r := trim_slashes (str_rev p) in
    let b := List.last (Split (str_rev r) slash) "" in
    if decide (b = "") then "/" else b.

Example clean_1 : Clean "a//b/./../c" = "a/c".
Proof. reflexivity. Qed.
Example clean_2 : Clean "/../x/" = "/x".
Proof. reflexivity. Qed.
Example base_1 : Base "/a/b//" = "b".
Proof. reflexivity. Qed.

(** ** Lemmas *)

(** Appending one ordinary element to a path. *)
Lemma elements_child dir c :
  dir ≠ "" → str_exists (Ascii.eqb slash) c = false → c ≠ "" → c ≠ "." → c ≠ ".." →
  rooted (dir +:+ "/" +:+ c) = rooted dir ∧ elements (dir +:+ "/" +:+ c) = elements dir ++ [c].
Proof.
  intros Hd Hc H1 H2 H3.
  assert (rooted (dir +:+ "/" +:+ c) = rooted dir) as Hr.
  { unfold rooted, HasPrefix. destruct dir as [|a dir]; [done|].
    change (String a dir +:+ "/" +:+ c) with (String a (dir +:+ "/" +:+ c)). cbn [String.prefix].
    destruct (ascii_dec _ a); [by destruct dir|done]. }
  split; [done|]. unfold elements. rewrite Hr.
  change (dir +:+ "/" +:+ c) with (dir +:+ String slash c). rewrite Split_app_sep, (Split_plain c) by done.
  rewrite foldl_app. simpl. unfold clean_step at 1.
  rewrite decide_False by tauto. rewrite decide_False by done. by rewrite reverse_cons.
Qed.

Lemma last_Split_plain s sep : str_exists (Ascii.eqb sep) s = false → List.last (Split s sep) "" = s.
Proof. intros H. by rewrite Split_plain. Qed.
