(* ===== verification/GoNet.v ===== *)
(** * [net.SplitHostPort] and [net.JoinHostPort] *)
From Stdlib Require Import Ascii.
From S2P Require Import Prelude GoBase GoStrings.
Local Open Scope Z_scope.

Definition has (c : ascii) (s : string) : bool := str_exists (Ascii.eqb c) s.

(** The string before and after the last [c]. *)
Definition cutLast (s : string) (c : ascii) : option (string * string) :=
  match Cut (str_rev s) c with
  | Some (after, before) => Some (str_rev before, str_rev after)
  | None => None
  end.

(** The host and the port; [None] stands for an error. *)
Definition SplitHostPort (hostport : string) : option (string * string) :=
  match cutLast hostport ":" with
  | None => None
  | Some (before, port) =>
      match hostport with
      | String "[" inner =>
          match Cut inner "]" with
          | None => None
          | Some (host, rest) =>
              (* the last colon is the byte after the bracket *)
              if decide (rest = String ":" port) then
                if has "[" inner || has "]" rest then None else Some (host, port)
              else None
          end
      | _ => if has ":" before || has "[" hostport || has "]" hostport then None else Some (before, port)
      end
  end.

Definition JoinHostPort (host port : string) : string :=
  if has ":" host then "[" +:+ host +:+ "]:" +:+ port else host +:+ ":" +:+ port.

Example SplitHostPort_1 : SplitHostPort ":7443" = Some ("", "7443") ∧ SplitHostPort "[::]:7443" = Some ("::", "7443").
Proof. split; reflexivity. Qed.
Example SplitHostPort_2 : SplitHostPort "host" = None ∧ SplitHostPort "a:b:1" = None ∧ SplitHostPort "[::1]" = None.
Proof. split_and!; reflexivity. Qed.

(** An address part: no colon and no bracket. *)
Definition plain (s : string) : bool := negb (has ":" s) && negb (has "[" s) && negb (has "]" s).

Lemma has_rev c t : has c (str_rev t) = has c t.
Proof.
  unfold has. induction t as [|a t IH]; [done|]. rewrite str_rev_cons, str_exists_app, IH. simpl.
  rewrite orb_false_r. apply orb_comm.
Qed.

Lemma cutLast_app s c t : has c t = false → cutLast (s +:+ String c t) c = Some (s, t).
Proof.
  intros Ht. unfold cutLast. rewrite str_rev_append, str_rev_cons, str_app_assoc.
  change (String c "" +:+ str_rev s) with (String c (str_rev s)).
  rewrite Cut_app by by rewrite <-(has_rev c t) in Ht. by rewrite !str_rev_involutive.
Qed.

Lemma plain_inv s : plain s = true → has ":" s = false ∧ has "[" s = false ∧ has "]" s = false.
Proof. unfold plain. intros H. bool_to_prop. auto. Qed.

Lemma has_cons c d s : has c (String d s) = Ascii.eqb c d || has c s.
Proof. done. Qed.
Lemma has_app c s t : has c (s +:+ t) = has c s || has c t.
Proof. apply str_exists_app. Qed.

(** Splitting undoes joining, for a host name or an IPv4 address, and for an IPv6 address. *)
Lemma SplitHostPort_Join host port :
  has "[" host = false → has "]" host = false → plain port = true →
  SplitHostPort (JoinHostPort host port) = Some (host, port).
Proof.
  unfold JoinHostPort. intros H1 H2 (Hp1 & Hp2 & Hp3)%plain_inv. destruct (has ":" host) eqn:E.
  - assert ("[" +:+ host +:+ "]:" +:+ port = ("[" +:+ host +:+ "]") +:+ String ":" port) as Eq by by rewrite !str_app_assoc.
    unfold SplitHostPort. rewrite Eq, cutLast_app by done.
    change (("[" +:+ host +:+ "]") +:+ String ":" port) with (String "[" ((host +:+ "]") +:+ String ":" port)).
    cbn beta iota. rewrite str_app_assoc. change ("]" +:+ String ":" port) with (String "]" (String ":" port)).
    rewrite Cut_app by done. rewrite decide_True by done.
    by rewrite has_app, !has_cons, H1, Hp2, Hp3.
  - unfold SplitHostPort. change (host +:+ ":" +:+ port) with (host +:+ String ":" port). rewrite cutLast_app by done.
    assert (has "[" (host +:+ String ":" port) = false) as Hb1 by by rewrite has_app, has_cons, H1, Hp2.
    assert (has "]" (host +:+ String ":" port) = false) as Hb2 by by rewrite has_app, has_cons, H2, Hp3.
    assert (∀ X (f : string → X) (g : X), host +:+ String ":" port ≠ "" →
      match host +:+ String ":" port with String "[" inner => f inner | _ => g end = g) as Hm.
    { intros X f g _. destruct host as [|a host]; [done|].
      change (String a host +:+ String ":" port) with (String a (host +:+ String ":" port)) in *.
      rewrite has_cons in Hb1. apply orb_false_iff in Hb1 as [Ea _]. 
      destruct a as [[] [] [] [] [] [] [] []]; done. }
    rewrite Hm by (by destruct host). by rewrite E, Hb1, Hb2.
Qed.
