(* ===== verification/Event.v ===== *)
(** * internal/event: events and notifications *)
From S2P Require Import Prelude GoBase GoStrings.
Local Open Scope Z_scope.

(** ** Severities *)

Notation Severity := string (only parsing).

Definition SevInfo : Severity := "info".
Definition SevWarning : Severity := "warning".
Definition SevCritical : Severity := "critical".

(** ** Event types *)

Definition TypeDiskFull : string := "disk.full".
Definition TypeDiskRecovered : string := "disk.recovered".
Definition TypeDeviceIdle : string := "device.idle".
Definition TypeJobCompleted : string := "job.completed".
Definition TypeJobFailed : string := "job.failed".
Definition TypeNodeDown : string := "node.down".
Definition TypeNodeDiagnosed : string := "node.diagnosed".

(** A [map[string]string]; the nil map and the empty map are both [∅], and reading an absent
    key yields the empty string. *)
Notation smap := (gmap string string) (only parsing).

Definition map_get (m : gmap string string) (k : string) : string := default "" (m !! k).

Record Event := mkEvent {
  Event_ID : string;
  Event_Type : string;
  Event_Severity : Severity;
  Event_Source : string;
  Event_Summary : string;
  Event_DedupKey : string;
  Event_Labels : smap;
  Event_Time : Time
}.

Record Notification := mkNotification {
  Note_ID : string;
  Note_EventID : string;
  Note_EventType : string;
  Note_Rule : string;
  Note_Channel : string;
  Note_Recipients : string;
  Note_Status : string;
  Note_Error : string;
  Note_Summary : string;
  Note_Time : Time
}.

#[export] Instance Event_eq_dec : EqDecision Event.
Proof. solve_decision. Defined.
#[export] Instance Notification_eq_dec : EqDecision Notification.
Proof. solve_decision. Defined.
