(* ===== verification/Proto.v ===== *)
(** * gen/skipper/v1: the wire messages

    The structs of the generated protocol code, field by field, with the prefix [pb].  A pointer
    to a message is an [option]; a repeated message field is a list of messages.  A generated
    getter [GetX] on a nil pointer yields the zero value: [get f zero p]. *)
From S2P Require Import Prelude GoBase GoStrings GoFloat Event.
Local Open Scope Z_scope.

(** [x.GetField()]: the field of a message behind a pointer, the zero value if it is nil. *)
Definition get {M A : Type} (field : M → A) (zero : A) (p : option M) : A :=
  match p with Some m => field m | None => zero end.

(** ** common.pb.go *)

Record pbDevice := mkPbDevice {
  pbDevice_Kind : string;
  pbDevice_Vendor : string;
  pbDevice_Index : Z;
  pbDevice_Uuid : string;
  pbDevice_MemTotalBytes : Z;
  pbDevice_Name : string
}.

Record pbResources := mkPbResources {
  pbResources_Cpus : Z;
  pbResources_MemTotalBytes : Z;
  pbResources_Devices : list pbDevice
}.

Record pbNode := mkPbNode {
  pbNode_Id : string;
  pbNode_Name : string;
  pbNode_Partition : string;
  pbNode_State : string;
  pbNode_Addr : string;
  pbNode_Resources : option pbResources;
  pbNode_Labels : smap;
  pbNode_LastHeartbeatUnix : Z;
  pbNode_AgentVersion : string
}.

(** ** metrics.pb.go *)

Record pbCPUStats := mkPbCPUStats {
  pbCPUStats_Utilization : float64;
  pbCPUStats_Load1 : float64;
  pbCPUStats_Load5 : float64;
  pbCPUStats_Load15 : float64;
  pbCPUStats_Cores : Z
}.

Record pbMemStats := mkPbMemStats {
  pbMemStats_TotalBytes : Z;
  pbMemStats_UsedBytes : Z;
  pbMemStats_AvailableBytes : Z;
  pbMemStats_UsedPercent : float64
}.

Record pbDiskStats := mkPbDiskStats {
  pbDiskStats_Mount : string;
  pbDiskStats_Fstype : string;
  pbDiskStats_TotalBytes : Z;
  pbDiskStats_UsedBytes : Z;
  pbDiskStats_UsedPercent : float64;
  pbDiskStats_InodesUsedPercent : float64
}.

Record pbDeviceStats := mkPbDeviceStats {
  pbDeviceStats_Kind : string;
  pbDeviceStats_Vendor : string;
  pbDeviceStats_Index : Z;
  pbDeviceStats_Uuid : string;
  pbDeviceStats_Name : string;
  pbDeviceStats_Utilization : float64;
  pbDeviceStats_MemTotalBytes : Z;
  pbDeviceStats_MemUsedBytes : Z;
  pbDeviceStats_TemperatureC : float64;
  pbDeviceStats_PowerWatts : float64
}.

Record pbMetricsSnapshot := mkPbMetricsSnapshot {
  pbMetricsSnapshot_TimestampUnix : Z;
  pbMetricsSnapshot_Cpu : option pbCPUStats;
  pbMetricsSnapshot_Mem : option pbMemStats;
  pbMetricsSnapshot_Disks : list pbDiskStats;
  pbMetricsSnapshot_Devices : list pbDeviceStats
}.

(** ** job.pb.go *)

Record pbResourceRequest := mkPbResourceRequest {
  pbResourceRequest_Cpus : Z;
  pbResourceRequest_MemBytes : Z;
  pbResourceRequest_Gpus : Z;
  pbResourceRequest_GpuType : string;
  pbResourceRequest_WalltimeSec : Z
}.

Record pbDeviceAssignment := mkPbDeviceAssignment {
  pbDeviceAssignment_Kind : string;
  pbDeviceAssignment_Index : Z
}.

Record pbJob := mkPbJob {
  pbJob_Id : string;
  pbJob_Name : string;
  pbJob_Owner : string;
  pbJob_Partition : string;
  pbJob_State : string;
  pbJob_Priority : Z;
  pbJob_Command : string;
  pbJob_Env : smap;
  pbJob_Workdir : string;
  pbJob_Request : option pbResourceRequest;
  pbJob_NodeId : string;
  pbJob_NodeName : string;
  pbJob_Devices : list pbDeviceAssignment;
  pbJob_ExitCode : Z;
  pbJob_Reason : string;
  pbJob_SubmitAtUnix : Z;
  pbJob_StartAtUnix : Z;
  pbJob_EndAtUnix : Z
}.

Record pbAssignment := mkPbAssignment {
  pbAssignment_JobId : string;
  pbAssignment_Command : string;
  pbAssignment_Env : smap;
  pbAssignment_Workdir : string;
  pbAssignment_Devices : list pbDeviceAssignment;
  pbAssignment_WalltimeSec : Z
}.

Record pbLogChunk := mkPbLogChunk {
  pbLogChunk_Data : string
}.

(** ** events.pb.go *)

Record pbEvent := mkPbEvent {
  pbEvent_Id : string;
  pbEvent_Type : string;
  pbEvent_Severity : string;
  pbEvent_Source : string;
  pbEvent_Summary : string;
  pbEvent_Labels : smap;
  pbEvent_TimeUnix : Z
}.

Record pbNotification := mkPbNotification {
  pbNotification_Id : string;
  pbNotification_EventId : string;
  pbNotification_EventType : string;
  pbNotification_Rule : string;
  pbNotification_Channel : string;
  pbNotification_Recipients : string;
  pbNotification_Status : string;
  pbNotification_Error : string;
  pbNotification_Summary : string;
  pbNotification_TimeUnix : Z
}.

(** ** agent.pb.go *)

Record pbRegisterNodeRequest := mkPbRegisterNodeRequest {
  pbRegisterNodeRequest_Name : string;
  pbRegisterNodeRequest_Partition : string;
  pbRegisterNodeRequest_Resources : option pbResources;
  pbRegisterNodeRequest_Labels : smap;
  pbRegisterNodeRequest_AgentVersion : string
}.

Record pbRegisterNodeResponse := mkPbRegisterNodeResponse {
  pbRegisterNodeResponse_NodeId : string
}.

Record pbHeartbeatRequest := mkPbHeartbeatRequest {
  pbHeartbeatRequest_NodeId : string;
  pbHeartbeatRequest_Resources : option pbResources
}.

Record pbHeartbeatResponse := mkPbHeartbeatResponse {
  pbHeartbeatResponse_Ok : bool;
  pbHeartbeatResponse_ShouldReregister : bool
}.

Record pbReportMetricsRequest := mkPbReportMetricsRequest {
  pbReportMetricsRequest_NodeId : string;
  pbReportMetricsRequest_Snapshot : option pbMetricsSnapshot
}.

Record pbReportMetricsResponse := mkPbReportMetricsResponse {
  pbReportMetricsResponse_Ok : bool;
  pbReportMetricsResponse_ShouldReregister : bool
}.

Record pbPollAssignmentsRequest := mkPbPollAssignmentsRequest {
  pbPollAssignmentsRequest_NodeId : string
}.

Record pbPollAssignmentsResponse := mkPbPollAssignmentsResponse {
  pbPollAssignmentsResponse_Run : list pbAssignment;
  pbPollAssignmentsResponse_CancelJobIds : list string;
  pbPollAssignmentsResponse_ShouldReregister : bool
}.

Record pbUpdateJobStatusRequest := mkPbUpdateJobStatusRequest {
  pbUpdateJobStatusRequest_JobId : string;
  pbUpdateJobStatusRequest_State : string;
  pbUpdateJobStatusRequest_ExitCode : Z;
  pbUpdateJobStatusRequest_Reason : string
}.

Record pbUpdateJobStatusResponse := mkPbUpdateJobStatusResponse {
  pbUpdateJobStatusResponse_Ok : bool
}.

Record pbAppendLogsRequest := mkPbAppendLogsRequest {
  pbAppendLogsRequest_JobId : string;
  pbAppendLogsRequest_Data : string
}.

Record pbAppendLogsResponse := mkPbAppendLogsResponse {
  pbAppendLogsResponse_Ok : bool
}.

(** ** cluster.pb.go *)

Record pbListNodesResponse := mkPbListNodesResponse {
  pbListNodesResponse_Nodes : list pbNode
}.

Record pbNodeMetrics := mkPbNodeMetrics {
  pbNodeMetrics_NodeId : string;
  pbNodeMetrics_NodeName : string;
  pbNodeMetrics_Partition : string;
  pbNodeMetrics_State : string;
  pbNodeMetrics_Snapshot : option pbMetricsSnapshot
}.

Record pbListMetricsResponse := mkPbListMetricsResponse {
  pbListMetricsResponse_Nodes : list pbNodeMetrics
}.

Record pbSubmitJobRequest := mkPbSubmitJobRequest {
  pbSubmitJobRequest_Name : string;
  pbSubmitJobRequest_Owner : string;
  pbSubmitJobRequest_Partition : string;
  pbSubmitJobRequest_Priority : Z;
  pbSubmitJobRequest_Command : string;
  pbSubmitJobRequest_Env : smap;
  pbSubmitJobRequest_Workdir : string;
  pbSubmitJobRequest_Request : option pbResourceRequest
}.

Record pbSubmitJobResponse := mkPbSubmitJobResponse {
  pbSubmitJobResponse_JobId : string
}.

Record pbListJobsRequest := mkPbListJobsRequest {
  pbListJobsRequest_State : string;
  pbListJobsRequest_Owner : string
}.

Record pbListJobsResponse := mkPbListJobsResponse {
  pbListJobsResponse_Jobs : list pbJob
}.

Record pbGetJobRequest := mkPbGetJobRequest {
  pbGetJobRequest_JobId : string
}.

Record pbCancelJobRequest := mkPbCancelJobRequest {
  pbCancelJobRequest_JobId : string
}.

Record pbCancelJobResponse := mkPbCancelJobResponse {
  pbCancelJobResponse_Ok : bool;
  pbCancelJobResponse_State : string
}.

Record pbGetJobLogsRequest := mkPbGetJobLogsRequest {
  pbGetJobLogsRequest_JobId : string;
  pbGetJobLogsRequest_Follow : bool
}.

Record pbListEventsRequest := mkPbListEventsRequest {
  pbListEventsRequest_Limit : Z
}.

Record pbListEventsResponse := mkPbListEventsResponse {
  pbListEventsResponse_Events : list pbEvent
}.

Record pbListNotificationsRequest := mkPbListNotificationsRequest {
  pbListNotificationsRequest_Limit : Z
}.

Record pbListNotificationsResponse := mkPbListNotificationsResponse {
  pbListNotificationsResponse_Notifications : list pbNotification
}.
