(* ===== verification/Store.v ===== *)
(** * internal/store/store.go: the persistent model

    Nodes, devices and jobs, and the state constants.  The interface [Store] of the source is
    the class [Store] at the end: its operations as state transformers of an abstract
    database, implemented in [SQLite.v]. *)
From S2P Require Import Prelude GoBase GoStrings Event.
Local Open Scope Z_scope.

(** ** Node states *)

Definition StateUp : string := "UP".
Definition StateDown : string := "DOWN".
Definition StateDrain : string := "DRAIN".

Record Device := mkDevice {
  Device_Kind : string;
  Device_Vendor : string;
  Device_Index : Z;
  Device_UUID : string;
  Device_MemTotalBytes : Z;
  Device_Name : string
}.

Record Node := mkNode {
  Node_ID : string;
  Node_Name : string;
  Node_Partition : string;
  Node_State : string;
  Node_Addr : string;
  Node_CPUs : Z;
  Node_MemTotalBytes : Z;
  Node_Devices : list Device;
  Node_Labels : smap;
  Node_AgentVersion : string;
  Node_LastHeartbeat : Time
}.

(** ** Job states *)

Definition JobPending : string := "PENDING".
Definition JobAssigned : string := "ASSIGNED".
Definition JobRunning : string := "RUNNING".
Definition JobCompleted : string := "COMPLETED".
Definition JobFailed : string := "FAILED".
Definition JobCancelling : string := "CANCELLING".
Definition JobCancelled : string := "CANCELLED".
Definition JobTimeout : string := "TIMEOUT".

Record AllocDevice := mkAlloc {
  Alloc_Kind : string;
  Alloc_Index : Z
}.

Record Job := mkJob {
  Job_ID : string;
  Job_Name : string;
  Job_Owner : string;
  Job_Partition : string;
  Job_State : string;
  Job_Priority : Z;
  Job_Command : string;
  Job_Env : smap;
  Job_Workdir : string;
  Job_ReqCPUs : Z;
  Job_ReqMemBytes : Z;
  Job_ReqGPUs : Z;
  Job_GPUType : string;
  Job_WalltimeSec : Z;
  Job_NodeID : string;
  Job_NodeName : string;
  Job_Devices : list AllocDevice;
  Job_ExitCode : Z;
  Job_Reason : string;
  Job_SubmitAt : Time;
  Job_StartAt : Time;
  Job_EndAt : Time
}.

#[export] Instance Device_eq_dec : EqDecision Device.
Proof. solve_decision. Defined.
#[export] Instance AllocDevice_eq_dec : EqDecision AllocDevice.
Proof. solve_decision. Defined.
#[export] Instance Node_eq_dec : EqDecision Node.
Proof. solve_decision. Defined.
#[export] Instance Job_eq_dec : EqDecision Job.
Proof. solve_decision. Defined.

(** Machine ranges of the integer fields. *)
Record Node_wf (n : Node) : Prop := {
  nwf_cpus : is_u32 (Node_CPUs n);
  nwf_mem : is_u64 (Node_MemTotalBytes n)
}.

Record Job_wf (j : Job) : Prop := {
  jwf_cpus : is_u32 (Job_ReqCPUs j);
  jwf_mem : is_u64 (Job_ReqMemBytes j);
  jwf_gpus : is_u32 (Job_ReqGPUs j);
  jwf_prio : is_i32 (Job_Priority j);
  jwf_wall : is_i64 (Job_WalltimeSec j)
}.

#[export] Instance is_i32_dec z : Decision (is_i32 z).
Proof. unfold is_i32; apply _. Defined.
#[export] Instance Node_wf_dec n : Decision (Node_wf n).
Proof.
  refine (cast_if (decide (is_u32 (Node_CPUs n) ∧ is_u64 (Node_MemTotalBytes n))));
    [by destruct_and!; split|by intros []; naive_solver].
Defined.
#[export] Instance Job_wf_dec j : Decision (Job_wf j).
Proof.
  refine (cast_if (decide (is_u32 (Job_ReqCPUs j) ∧ is_u64 (Job_ReqMemBytes j) ∧
    is_u32 (Job_ReqGPUs j) ∧ is_i32 (Job_Priority j) ∧ is_i64 (Job_WalltimeSec j))));
    [by destruct_and!; split|by intros []; naive_solver].
Defined.

(** ** [NewID]: eight random bytes in hexadecimal *)

Definition hex_char (n : Z) : Ascii.ascii :=
  Ascii.ascii_of_N (Z.to_N (if n <? 10 then 48 + n else 87 + n)).

Fixpoint hex_encode (bs : list Z) : string :=
  match bs with
  | [] => ""
  | b :: bs' => String (hex_char (b / 16)) (String (hex_char (b mod 16)) (hex_encode bs'))
  end.

(** [b] is the array of eight bytes after [rand.Read(b[:])]. *)
Definition NewID (b : list Z) : string := hex_encode b.

Lemma hex_encode_length bs : strlen (hex_encode bs) = (2 * length bs)%nat.
Proof. induction bs as [|b bs IH]; [done|]. unfold strlen in *; simpl. rewrite IH. lia. Qed.

Lemma hex_char_val n :
  0 ≤ n < 16 → byte_val (hex_char n) = if n <? 10 then 48 + n else 87 + n.
Proof.
  intros Hn. unfold hex_char, byte_val.
  destruct (n <? 10) eqn:E; bool_to_prop; rewrite Ascii.N_ascii_embedding; lia.
Qed.

Lemma hex_char_inj m n : 0 ≤ m < 16 → 0 ≤ n < 16 → hex_char m = hex_char n → m = n.
Proof.
  intros Hm Hn E%(f_equal byte_val). rewrite !hex_char_val in E by done.
  destruct (m <? 10) eqn:Em, (n <? 10) eqn:En; bool_to_prop; lia.
Qed.

Lemma hex_encode_inj bs cs :
  Forall (λ b, 0 ≤ b < 256) bs → Forall (λ b, 0 ≤ b < 256) cs →
  hex_encode bs = hex_encode cs → bs = cs.
Proof.
  intros Hb; revert cs; induction Hb as [|b bs Hb _ IH]; intros [|c cs] Hc E; try done.
  inversion Hc as [|? ? Hc1 Hc2]; subst. simpl in E. injection E as E1 E2 E3.
  apply hex_char_inj in E1, E2; try (apply Z.mod_pos_bound; lia);
    try (split; [apply Z.div_pos; lia | apply Z.div_lt_upper_bound; lia]).
  f_equal; [|by apply IH]. rewrite (Z.div_mod b 16), (Z.div_mod c 16) by lia. lia.
Qed.

(** ** The interface *)

Class Store (S : Type) := {
  store_RegisterNode : Node → ST S (result string);
  store_Heartbeat : Node → Time → ST S (result bool);
  store_ListNodes : ST S (result (list Node));
  store_GetNode : string → ST S (result (option Node));
  store_MarkStaleDown : Time → ST S (result Z);
  store_CreateJob : Job → ST S (result unit);
  store_GetJob : string → ST S (result (option Job));
  store_ListJobs : string → string → ST S (result (list Job));
  store_ListPendingJobs : ST S (result (list Job));
  store_ListActiveJobs : ST S (result (list Job));
  store_ListJobsByNodeState : string → string → ST S (result (list Job));
  store_AssignJob : string → string → string → list AllocDevice → ST S (result unit);
  store_MarkJobRunning : string → Time → ST S (result unit);
  store_FinishJob : string → string → Z → string → Time → ST S (result unit);
  store_CancelJob : string → Time → ST S (result string);
  store_CreateEvent : Event → ST S (result unit);
  store_ListEvents : Z → ST S (result (list Event));
  store_CreateNotification : Notification → ST S (result unit);
  store_ListNotifications : Z → ST S (result (list Notification))
}.

(** ** Histories: the writing operations as data, and their execution one after another *)

Inductive call :=
| CallRegisterNode (n : Node)
| CallHeartbeat (n : Node) (t : Time)
| CallMarkStaleDown (t : Time)
| CallCreateJob (j : Job)
| CallAssignJob (jobID nodeID nodeName : string) (devices : list AllocDevice)
| CallMarkJobRunning (jobID : string) (t : Time)
| CallFinishJob (jobID state : string) (exitCode : Z) (reason : string) (t : Time)
| CallCancelJob (jobID : string) (now : Time)
| CallCreateEvent (e : Event)
| CallCreateNotification (n : Notification).

Section history.
Context {S : Type} `{!Store S}.

Definition exec_call (c : call) (s : S) : bool * S :=
  match c with
  | CallRegisterNode n => let '(r, s') := store_RegisterNode n s in (is_ok r, s')
  | CallHeartbeat n t => let '(r, s') := store_Heartbeat n t s in (is_ok r, s')
  | CallMarkStaleDown t => let '(r, s') := store_MarkStaleDown t s in (is_ok r, s')
  | CallCreateJob j => let '(r, s') := store_CreateJob j s in (is_ok r, s')
  | CallAssignJob x nid nn ds => let '(r, s') := store_AssignJob x nid nn ds s in (is_ok r, s')
  | CallMarkJobRunning x t => let '(r, s') := store_MarkJobRunning x t s in (is_ok r, s')
  | CallFinishJob x st ec re t => let '(r, s') := store_FinishJob x st ec re t s in (is_ok r, s')
  | CallCancelJob x t => let '(r, s') := store_CancelJob x t s in (is_ok r, s')
  | CallCreateEvent e => let '(r, s') := store_CreateEvent e s in (is_ok r, s')
  | CallCreateNotification n => let '(r, s') := store_CreateNotification n s in (is_ok r, s')
  end.

Definition exec_calls (cs : list call) (s : S) : S := foldl (λ s c, (exec_call c s).2) s cs.

Lemma exec_calls_inv (P : S → Prop) (Q : call → Prop) cs s :
  (∀ c s, Q c → P s → P (exec_call c s).2) → Forall Q cs → P s → P (exec_calls cs s).
Proof.
  intros Hstep Hcs; revert s; induction Hcs as [|c cs Hc _ IH]; intros s Hs; [done|].
  simpl. apply IH. by apply Hstep.
Qed.

(** A relation between the start and the current state that every call extends. *)
Lemma exec_calls_rel (R : S → S → Prop) `{!PreOrder R} (P : S → Prop) (Q : call → Prop) cs s :
  (∀ c s, Q c → P s → P (exec_call c s).2 ∧ R s (exec_call c s).2) →
  Forall Q cs → P s → R s (exec_calls cs s).
Proof.
  intros Hstep Hcs; revert s; induction Hcs as [|c cs Hc _ IH]; intros s Hs; [simpl; reflexivity|].
  simpl. destruct (Hstep c s Hc Hs) as [Hp Hr]. etrans; [exact Hr|]. by apply IH.
Qed.
End history.
