(* ===== verification/StoreSpec.v ===== *)
(** * The store's contract

    What the clients of the store rely on, independently of its implementation: the abstract
    state (the nodes and the jobs by identifier), the effect of every writing call on it as a
    function [spec_call], and the class [StoreLaws] by which an implementation refines them.
    [SQLiteRefines.v] discharges it; the scheduler and the server are verified against it. *)
From S2P Require Import Prelude GoBase GoStrings Event Store.
Local Open Scope Z_scope.

(** ** Values as the store keeps them *)

(** The values [json.Marshal] encodes without loss: their strings are valid UTF-8. *)
Class JsonValid (A : Type) := json_valid : A → bool.

#[export] Instance json_valid_devices : JsonValid (list Device) := forallb (λ d,
  ValidString (Device_Kind d) && ValidString (Device_Vendor d) && ValidString (Device_UUID d) &&
  ValidString (Device_Name d)).
#[export] Instance json_valid_allocs : JsonValid (list AllocDevice) := forallb (λ d,
  ValidString (Alloc_Kind d)).
#[export] Instance json_valid_map : JsonValid smap := λ m, forallb (λ kv,
  ValidString kv.1 && ValidString kv.2) (map_to_list m).

(** A time as the database keeps it: whole seconds, and the zero time up to the epoch. *)
Definition whole_seconds (t : Time) : Time :=
  if t <? timeUnix 1 then 0 else t - t mod Second.

(** A job as the database keeps it. *)
Definition stored_job (j : Job) : Job :=
  mkJob (Job_ID j) (Job_Name j) (Job_Owner j) (Job_Partition j) (Job_State j) (Job_Priority j)
    (Job_Command j) (Job_Env j) (Job_Workdir j) (Job_ReqCPUs j) (Job_ReqMemBytes j) (Job_ReqGPUs j)
    (Job_GPUType j) (Job_WalltimeSec j) (Job_NodeID j) (Job_NodeName j) (Job_Devices j)
    (Job_ExitCode j) (Job_Reason j) (whole_seconds (Job_SubmitAt j)) (whole_seconds (Job_StartAt j))
    (whole_seconds (Job_EndAt j)).

(** A node as the database keeps it under [id], last heard of at [t]. *)
Definition stored_node (id : string) (n : Node) : Node :=
  mkNode id (Node_Name n) (Node_Partition n) (Node_State n) (Node_Addr n) (Node_CPUs n)
    (Node_MemTotalBytes n) (Node_Devices n) (Node_Labels n) (Node_AgentVersion n)
    (whole_seconds (Node_LastHeartbeat n)).

(** ** The abstract state *)

Record View := mkView {
  v_nodes : gmap string Node;
  v_jobs : gmap string Job
}.

Definition set_nodes (m : gmap string Node) (v : View) : View := mkView m (v_jobs v).
Definition set_jobs (m : gmap string Job) (v : View) : View := mkView (v_nodes v) m.

Definition job_assigned (nid nn : string) (ds : list AllocDevice) (j : Job) : Job :=
  mkJob (Job_ID j) (Job_Name j) (Job_Owner j) (Job_Partition j) JobAssigned (Job_Priority j)
    (Job_Command j) (Job_Env j) (Job_Workdir j) (Job_ReqCPUs j) (Job_ReqMemBytes j) (Job_ReqGPUs j)
    (Job_GPUType j) (Job_WalltimeSec j) nid nn ds (Job_ExitCode j) (Job_Reason j) (Job_SubmitAt j)
    (Job_StartAt j) (Job_EndAt j).

Definition job_state (st : string) (j : Job) : Job :=
  mkJob (Job_ID j) (Job_Name j) (Job_Owner j) (Job_Partition j) st (Job_Priority j)
    (Job_Command j) (Job_Env j) (Job_Workdir j) (Job_ReqCPUs j) (Job_ReqMemBytes j) (Job_ReqGPUs j)
    (Job_GPUType j) (Job_WalltimeSec j) (Job_NodeID j) (Job_NodeName j) (Job_Devices j)
    (Job_ExitCode j) (Job_Reason j) (Job_SubmitAt j) (Job_StartAt j) (Job_EndAt j).

Definition job_started (t : Time) (j : Job) : Job :=
  mkJob (Job_ID j) (Job_Name j) (Job_Owner j) (Job_Partition j) JobRunning (Job_Priority j)
    (Job_Command j) (Job_Env j) (Job_Workdir j) (Job_ReqCPUs j) (Job_ReqMemBytes j) (Job_ReqGPUs j)
    (Job_GPUType j) (Job_WalltimeSec j) (Job_NodeID j) (Job_NodeName j) (Job_Devices j)
    (Job_ExitCode j) (Job_Reason j) (Job_SubmitAt j) t (Job_EndAt j).

Definition job_ended (st : string) (code : Z) (reason : string) (t : Time) (j : Job) : Job :=
  mkJob (Job_ID j) (Job_Name j) (Job_Owner j) (Job_Partition j) st (Job_Priority j)
    (Job_Command j) (Job_Env j) (Job_Workdir j) (Job_ReqCPUs j) (Job_ReqMemBytes j) (Job_ReqGPUs j)
    (Job_GPUType j) (Job_WalltimeSec j) (Job_NodeID j) (Job_NodeName j) (Job_Devices j)
    code reason (Job_SubmitAt j) (Job_StartAt j) t.

Definition node_heard (n : Node) (t : Time) (old : Node) : Node :=
  mkNode (Node_ID old) (Node_Name old) (Node_Partition old) StateUp (Node_Addr old) (Node_CPUs n)
    (Node_MemTotalBytes n) (Node_Devices n) (Node_Labels old) (Node_AgentVersion old) t.

Definition node_down (n : Node) : Node :=
  mkNode (Node_ID n) (Node_Name n) (Node_Partition n) StateDown (Node_Addr n) (Node_CPUs n)
    (Node_MemTotalBytes n) (Node_Devices n) (Node_Labels n) (Node_AgentVersion n) (Node_LastHeartbeat n).

Definition node_stale (cutoff : Time) (n : Node) : bool :=
  (Unix (Node_LastHeartbeat n) <? Unix cutoff) && bool_decide (Node_State n ≠ StateDown).

(** The node of a given name. *)
Definition named (name : string) (m : gmap string Node) : option (string * Node) :=
  head (filter (λ kn, Node_Name kn.2 = name) (map_to_list m)).

Definition job_cancelled (now : Time) (j : Job) : Job :=
  if decide (Job_State j = JobPending) then job_ended JobCancelled (Job_ExitCode j) (Job_Reason j) now j
  else if decide (Job_State j = JobAssigned ∨ Job_State j = JobRunning) then job_state JobCancelling j
  else j.

(** ** The effect of each call; [None] if it must be refused *)

Definition spec_call (c : call) (v : View) : option View :=
  match c with
  | CallRegisterNode n =>
      match named (Node_Name n) (v_nodes v) with
      | Some (id, _) => Some (set_nodes (<[id := stored_node id n]> (v_nodes v)) v)
      | None =>
          match v_nodes v !! Node_ID n with
          | Some _ => None
          | None => Some (set_nodes (<[Node_ID n := stored_node (Node_ID n) n]> (v_nodes v)) v)
          end
      end
  | CallHeartbeat n t =>
      Some (set_nodes (alter (node_heard n (whole_seconds t)) (Node_ID n) (v_nodes v)) v)
  | CallMarkStaleDown t =>
      Some (set_nodes ((λ n, if node_stale t n then node_down n else n) <$> v_nodes v) v)
  | CallCreateJob j =>
      match v_jobs v !! Job_ID j with
      | Some _ => None
      | None => Some (set_jobs (<[Job_ID j := stored_job j]> (v_jobs v)) v)
      end
  | CallAssignJob x nid nn ds =>
      j ← v_jobs v !! x;
      if decide (Job_State j = JobPending)
      then Some (set_jobs (<[x := job_assigned nid nn ds j]> (v_jobs v)) v) else None
  | CallMarkJobRunning x t =>
      Some (set_jobs (alter (λ j, if decide (Job_State j = JobAssigned)
                                  then job_started (whole_seconds t) j else j) x (v_jobs v)) v)
  | CallFinishJob x st code reason t =>
      Some (set_jobs (alter (job_ended st code reason (whole_seconds t)) x (v_jobs v)) v)
  | CallCancelJob x now =>
      j ← v_jobs v !! x;
      Some (set_jobs (<[x := job_cancelled (whole_seconds now) j]> (v_jobs v)) v)
  | CallCreateEvent _ | CallCreateNotification _ => Some v
  end.

(** Arguments within what the store represents: encodable strings, memory below 2^63, and a
    cutoff after the epoch. *)
Definition call_ok (c : call) : Prop :=
  match c with
  | CallRegisterNode n => json_valid (Node_Devices n) = true ∧ json_valid (Node_Labels n) = true ∧
      0 ≤ Node_MemTotalBytes n < 2 ^ 63
  | CallHeartbeat n _ => json_valid (Node_Devices n) = true ∧ 0 ≤ Node_MemTotalBytes n < 2 ^ 63
  | CallMarkStaleDown t => timeUnix 1 ≤ t
  | CallCreateJob j => json_valid (Job_Env j) = true ∧ json_valid (Job_Devices j) = true ∧
      0 ≤ Job_ReqMemBytes j < 2 ^ 63
  | CallAssignJob _ _ _ ds => json_valid ds = true
  | _ => True
  end.

#[export] Instance call_ok_dec c : Decision (call_ok c).
Proof. destruct c; simpl; apply _. Defined.

Lemma set_jobs_id m v : m = v_jobs v → set_jobs m v = v.
Proof. intros ->. by destruct v. Qed.
Lemma set_nodes_id m v : m = v_nodes v → set_nodes m v = v.
Proof. intros ->. by destruct v. Qed.

(** ** Registration finds the node of the same name *)

Lemma named_some name (m : gmap string Node) k n :
  named name m = Some (k, n) → m !! k = Some n ∧ Node_Name n = name.
Proof.
  unfold named. intros E. assert ((k, n) ∈ filter (λ kn : string * Node, Node_Name kn.2 = name) (map_to_list m)) as Hin.
  { destruct (filter _ _) as [|p l]; [done|]. injection E as ->. left. }
  apply list_elem_of_filter in Hin as [Hn Hin]. by apply elem_of_map_to_list in Hin.
Qed.

Lemma named_none name (m : gmap string Node) :
  named name m = None → ∀ k n, m !! k = Some n → Node_Name n ≠ name.
Proof.
  unfold named. intros E k n Hk Hn.
  assert ((k, n) ∈ filter (λ kn : string * Node, Node_Name kn.2 = name) (map_to_list m)) as Hin.
  { apply list_elem_of_filter. split; [done|]. by apply elem_of_map_to_list. }
  destruct (filter _ _); [by apply elem_of_nil in Hin|done].
Qed.

(** ** What an implementation promises *)

Definition active (j : Job) : Prop := Job_State j = JobAssigned ∨ Job_State j = JobRunning.
#[export] Instance active_dec j : Decision (active j).
Proof. unfold active; apply _. Defined.

(** A query answers from the state and leaves it alone. *)
Definition answers_with {S A} (view : S → View) (inv : S → Prop) (q : ST S (result A))
    (P : View → A → Prop) : Prop :=
  ∀ s r s', inv s → q s = (r, s') → inv s' ∧ view s' = view s ∧ ∀ a, r = Ok a → P (view s) a.

Definition jobs_listed (p : Job → Prop) (v : View) (js : list Job) : Prop :=
  NoDup (Job_ID <$> js) ∧ ∀ j, j ∈ js ↔ v_jobs v !! Job_ID j = Some j ∧ p j.

Definition nodes_listed (v : View) (ns : list Node) : Prop :=
  NoDup (Node_ID <$> ns) ∧ ∀ n, n ∈ ns ↔ v_nodes v !! Node_ID n = Some n.

Class StoreLaws (S : Type) `{!Store S} := {
  view : S → View;
  inv : S → Prop;
  view_job_id s k j : inv s → v_jobs (view s) !! k = Some j → Job_ID j = k;
  view_node_id s k n : inv s → v_nodes (view s) !! k = Some n → Node_ID n = k;
  view_names s k1 k2 n1 n2 : inv s → v_nodes (view s) !! k1 = Some n1 → v_nodes (view s) !! k2 = Some n2 →
    Node_Name n1 = Node_Name n2 → k1 = k2;
  view_encodable s k n : inv s → v_nodes (view s) !! k = Some n → json_valid (Node_Devices n) = true;
  refines c s ok s' : inv s → call_ok c → exec_call c s = (ok, s') →
    inv s' ∧ (if ok then spec_call c (view s) = Some (view s') else view s' = view s);
  registers n s id s' : inv s → call_ok (CallRegisterNode n) → store_RegisterNode n s = (Ok id, s') →
    v_nodes (view s') !! id = Some (stored_node id n);
  hears n t s found s' : inv s → call_ok (CallHeartbeat n t) → store_Heartbeat n t s = (Ok found, s') →
    found = bool_decide (is_Some (v_nodes (view s) !! Node_ID n));
  lists_nodes : answers_with view inv store_ListNodes nodes_listed;
  gets_node id : answers_with view inv (store_GetNode id) (λ v o, o = v_nodes v !! id);
  gets_job id : answers_with view inv (store_GetJob id) (λ v o, o = v_jobs v !! id);
  lists_active : answers_with view inv store_ListActiveJobs (jobs_listed active);
  lists_pending : answers_with view inv store_ListPendingJobs
    (jobs_listed (λ j, Job_State j = JobPending));
  lists_by_node nid st : answers_with view inv (store_ListJobsByNodeState nid st)
    (jobs_listed (λ j, Job_NodeID j = nid ∧ Job_State j = st));
  lists_jobs st owner : answers_with view inv (store_ListJobs st owner)
    (jobs_listed (λ j, (st = "" ∨ Job_State j = st) ∧ (owner = "" ∨ Job_Owner j = owner)));
  lists_events n : answers_with view inv (store_ListEvents n) (λ _ _, True);
  lists_notifications n : answers_with view inv (store_ListNotifications n) (λ _ _, True)
}.

(** ** A store that is up *)

(** The queries of a pass, of a poll and of a report, and the writes of a report, succeed in such a
    state and keep it; so does an assignment if the job is PENDING. *)
Class Steady (S : Type) `{StoreLaws S} := {
  steady : S → Prop;
  steady_nodes s : inv s → steady s → ∃ ns s', store_ListNodes s = (Ok ns, s') ∧ steady s';
  steady_active s : inv s → steady s → ∃ js s', store_ListActiveJobs s = (Ok js, s') ∧ steady s';
  steady_pending s : inv s → steady s → ∃ js s', store_ListPendingJobs s = (Ok js, s') ∧ steady s';
  steady_assign s x j nid nn ds : inv s → steady s → json_valid ds = true → v_jobs (view s) !! x = Some j →
    Job_State j = JobPending → ∃ s', store_AssignJob x nid nn ds s = (Ok tt, s') ∧ steady s';
  steady_get s id : inv s → steady s → ∃ o s', store_GetNode id s = (Ok o, s') ∧ steady s';
  steady_by_node s nid st : inv s → steady s → ∃ js s', store_ListJobsByNodeState nid st s = (Ok js, s') ∧ steady s';
  steady_get_job s id : inv s → steady s → ∃ o s', store_GetJob id s = (Ok o, s') ∧ steady s';
  steady_finish s x st code reason t : inv s → steady s → ∃ s', store_FinishJob x st code reason t s = (Ok tt, s') ∧ steady s';
  steady_heartbeat s n t : inv s → steady s → call_ok (CallHeartbeat n t) →
    ∃ found s', store_Heartbeat n t s = (Ok found, s') ∧ steady s'
}.
