(* ===== verification/Plan.v ===== *)
(** * internal/scheduler/plan.go: the scheduling decision [Plan]

    A pure function from an instant, the nodes, the jobs that hold resources, the pending jobs
    and the policy to a list of assignments. *)
From S2P Require Import Prelude GoBase GoStrings GoFloat Event Store.
Local Open Scope Z_scope.

(** ** Data *)

Record Policy := mkPolicy {
  Policy_Backfill : bool;
  Policy_AgeWeight : float64
}.

Record Decision := mkDecision {
  Decision_JobID : string;
  Decision_NodeID : string;
  Decision_NodeName : string;
  Decision_Devices : list AllocDevice
}.

Record freeDevice := mkFreeDevice {
  fd_kind : string;
  fd_index : Z;
  fd_name : string
}.

Record freeNode := mkFreeNode {
  fn_id : string;
  fn_name : string;
  fn_partition : string;
  fn_cpus : Z;
  fn_mem : Z;
  fn_devices : list freeDevice
}.

Definition devKey : Type := string * Z.
Definition alloc_key (d : AllocDevice) : devKey := (Alloc_Kind d, Alloc_Index d).
Definition fd_key (d : freeDevice) : devKey := (fd_kind d, fd_index d).
Definition device_key (d : Device) : devKey := (Device_Kind d, Device_Index d).

#[export] Instance Decision_eq_dec : EqDecision Decision.
Proof. solve_decision. Defined.
#[export] Instance freeDevice_eq_dec : EqDecision freeDevice.
Proof. solve_decision. Defined.
#[export] Instance freeNode_eq_dec : EqDecision freeNode.
Proof. solve_decision. Defined.
#[export] Instance devKey_eq_dec : EqDecision devKey.
Proof. unfold devKey; apply _. Defined.

(** ** Saturating subtraction *)

Definition subU32 (a b : Z) : Z := if a <? b then 0 else u32 (a - b).
Definition subU64 (a b : Z) : Z := if a <? b then 0 else u64 (a - b).

(** ** Free resources *)

(** The set of keys [usedSet] is the list of the keys of [used]. *)
Definition removeFreeDevices (l : list freeDevice) (used : list AllocDevice) : list freeDevice :=
  match used with
  | [] => l
  | _ => filter (λ d, fd_key d ∉ alloc_key <$> used) l
  end.

Definition freeOf (n : Node) : freeNode :=
  {| fn_id := Node_ID n; fn_name := Node_Name n; fn_partition := Node_Partition n;
     fn_cpus := Node_CPUs n; fn_mem := Node_MemTotalBytes n;
     fn_devices := (λ d, mkFreeDevice (Device_Kind d) (Device_Index d) (Device_Name d)) <$> Node_Devices n |}.

Definition consume (fn : freeNode) (job : Job) (devs : list AllocDevice) : freeNode :=
  {| fn_id := fn_id fn; fn_name := fn_name fn; fn_partition := fn_partition fn;
     fn_cpus := subU32 (fn_cpus fn) (Job_ReqCPUs job);
     fn_mem := subU64 (fn_mem fn) (Job_ReqMemBytes job);
     fn_devices := removeFreeDevices (fn_devices fn) devs |}.

Definition addNode (frees : gmap string freeNode) (n : Node) : gmap string freeNode :=
  if decide (Node_State n ≠ StateUp) then frees else <[Node_ID n := freeOf n]> frees.

Definition chargeJob (frees : gmap string freeNode) (job : Job) : gmap string freeNode :=
  match frees !! Job_NodeID job with
  | None => frees
  | Some fn => <[Job_NodeID job := consume fn job (Job_Devices job)]> frees
  end.

Definition buildFree (nodes : list Node) (active : list Job) : gmap string freeNode :=
  foldl chargeJob (foldl addNode ∅ nodes) active.

Section with_case.
Context `{UnicodeCase}.

(** ** Device matching *)

Definition matchName (name gpuType : string) : bool :=
  if decide (gpuType = "") then true else Contains (ToLower name) (ToLower gpuType).

Fixpoint pickLoop (devs : list freeDevice) (n : Z) (gpuType : string) (out : list AllocDevice)
    : option (list AllocDevice) :=
  match devs with
  | [] => None
  | d :: devs' =>
      if negb (matchName (fd_name d) gpuType) then pickLoop devs' n gpuType out
      else
        let out := out ++ [mkAlloc (fd_kind d) (fd_index d)] in
        if u32 (Z.of_nat (length out)) =? n then Some out else pickLoop devs' n gpuType out
  end.

(** [None] is the nil slice the source returns when there are too few devices. *)
Definition pickDevices (devs : list freeDevice) (n : Z) (gpuType : string)
    : option (list AllocDevice) :=
  if n =? 0 then Some [] else pickLoop devs n gpuType [].

(** The position, the node and the devices chosen. *)
Fixpoint selectFit (job : Job) (nodes : list freeNode)
    : option (nat * freeNode * list AllocDevice) :=
  match nodes with
  | [] => None
  | fn :: nodes' =>
      let next := '(i, fn', devs) ← selectFit job nodes'; Some (S i, fn', devs) in
      if bool_decide (Job_Partition job ≠ "") && bool_decide (Job_Partition job ≠ fn_partition fn)
      then next
      else if (fn_cpus fn <? Job_ReqCPUs job) || (fn_mem fn <? Job_ReqMemBytes job) then next
      else match pickDevices (fn_devices fn) (Job_ReqGPUs job) (Job_GPUType job) with
           | None => next
           | Some picked => Some (O, fn, picked)
           end
  end.

(** ** Priorities *)

Definition effPriority (j : Job) (now : Time) (ageWeight : float64) : float64 :=
  let p := f64 (Job_Priority j) in
  if fltb (f64 0) ageWeight && negb (IsZero (Job_SubmitAt j)) then
    let wait := Minutes (Sub now (Job_SubmitAt j)) in
    if fltb (f64 0) wait then fadd p (fmul ageWeight wait) else p
  else p.

(** The comparison callback of the sort of pending jobs. *)
Definition jobLess (now : Time) (ageWeight : float64) (a b : Job) : bool :=
  let pa := effPriority a now ageWeight in
  let pb := effPriority b now ageWeight in
  if negb (feqb pa pb) then fltb pb pa else Before (Job_SubmitAt a) (Job_SubmitAt b).

(** ** Backfill and reservation *)

Definition backfillAllowed (now : Time) (job : Job) (resTime : Time) : bool :=
  if Job_WalltimeSec job <=? 0 then false
  else negb (After (Add now (seconds (Job_WalltimeSec job))) resTime).

Definition estEnd (now : Time) (j : Job) : Time :=
  if Job_WalltimeSec j <=? 0 then Add now (100 * 365 * 24 * Hour)
  else
    let base := if IsZero (Job_StartAt j) then now else Job_StartAt j in
    let end_ := Add base (seconds (Job_WalltimeSec j)) in
    if Before end_ now then now else end_.

Definition countMatchingDevices (devs : list Device) (gpuType : string) : Z :=
  Z.of_nat (length (filter (λ d, matchName (Device_Name d) gpuType = true) devs)).

(** [names]: the last device of a key wins; an absent key reads as the empty name. *)
Definition deviceNames (devs : list Device) : gmap devKey string :=
  foldl (λ m d, <[device_key d := Device_Name d]> m) ∅ devs.

Definition countJobMatching (j : Job) (n : Node) (gpuType : string) : Z :=
  let names := deviceNames (Node_Devices n) in
  Z.of_nat (length
    (filter (λ d, matchName (default "" (names !! alloc_key d)) gpuType = true) (Job_Devices j))).

Record occupation := mkOcc {
  occ_end : Time;
  occ_cpus : Z;
  occ_mem : Z;
  occ_match : Z
}.

(** The counters [freeCPUs], [freeMem] and [freeMatch] of [nodeReservationTime]. *)
Record avail := mkAvail { av_cpus : Z; av_mem : Z; av_match : Z }.

Definition fits (blocked : Job) (a : avail) : bool :=
  (Job_ReqCPUs blocked <=? av_cpus a) && (Job_ReqMemBytes blocked <=? av_mem a) &&
  (Job_ReqGPUs blocked <=? av_match a).

Definition occupations (now : Time) (blocked : Job) (n : Node) (active : list Job) : list occupation :=
  (λ j, mkOcc (estEnd now j) (Job_ReqCPUs j) (Job_ReqMemBytes j)
          (countJobMatching j n (Job_GPUType blocked)))
    <$> filter (λ j, Job_NodeID j = Node_ID n) active.

Definition occupy (a : avail) (o : occupation) : avail :=
  {| av_cpus := subU32 (av_cpus a) (occ_cpus o); av_mem := subU64 (av_mem a) (occ_mem o);
     av_match := av_match a - occ_match o |}.

Definition release (a : avail) (o : occupation) : avail :=
  {| av_cpus := u32 (av_cpus a + occ_cpus o); av_mem := u64 (av_mem a + occ_mem o);
     av_match := av_match a + occ_match o |}.

Fixpoint releaseUntil (blocked : Job) (a : avail) (occs : list occupation) : option Time :=
  match occs with
  | [] => None
  | o :: occs' =>
      let a := release a o in
      if fits blocked a then Some (occ_end o) else releaseUntil blocked a occs'
  end.

Definition occLess (a b : occupation) : bool := Before (occ_end a) (occ_end b).

Definition nodeReservationTime (now : Time) (blocked : Job) (n : Node) (active : list Job)
    : option Time :=
  let occs := occupations now blocked n active in
  let a0 := mkAvail (Node_CPUs n) (Node_MemTotalBytes n)
              (countMatchingDevices (Node_Devices n) (Job_GPUType blocked)) in
  let a := foldl occupy a0 occs in
  if fits blocked a then Some now
  else releaseUntil blocked a (sort_by occLess occs).

(** A node on which the blocked job would fit were it empty. *)
Definition reservable (blocked : Job) (n : Node) : bool :=
  bool_decide (Node_State n = StateUp) &&
  (bool_decide (Job_Partition blocked = "") || bool_decide (Job_Partition blocked = Node_Partition n)) &&
  negb ((Node_CPUs n <? Job_ReqCPUs blocked) || (Node_MemTotalBytes n <? Job_ReqMemBytes blocked) ||
        (u32 (countMatchingDevices (Node_Devices n) (Job_GPUType blocked)) <? Job_ReqGPUs blocked)).

Definition betterTime (best : option Time) (t : Time) : option Time :=
  match best with
  | None => Some t
  | Some b => if Before t b then Some t else best
  end.

Definition reservationTime (now : Time) (blocked : Job) (nodes : list Node) (active : list Job)
    : option Time :=
  foldl (λ best n,
    if reservable blocked n then
      match nodeReservationTime now blocked n active with
      | None => best
      | Some t => betterTime best t
      end
    else best) None nodes.

(** ** The planning loop *)

Record planState := mkPlanState {
  ps_order : list freeNode;
  ps_decisions : list Decision;
  ps_res : option Time
}.

Definition nodeLess (a b : freeNode) : bool := str_ltb (fn_name a) (fn_name b).

(** The free nodes by name.  Go iterates the map in an unspecified order before sorting;
    [map_to_list] is one such order. *)
Definition nodeOrder (frees : gmap string freeNode) : list freeNode :=
  sort_by nodeLess (map_to_list frees).*2.

Definition planStep (now : Time) (nodes : list Node) (active : list Job) (policy : Policy)
    (st : planState) (job : Job) : planState :=
  match selectFit job (ps_order st) with
  | Some (i, fn, devs) =>
      if Policy_Backfill policy &&
         match ps_res st with Some resTime => negb (backfillAllowed now job resTime) | None => false end
      then st
      else {| ps_order := <[i := consume fn job devs]> (ps_order st);
              ps_decisions := ps_decisions st ++
                [mkDecision (Job_ID job) (fn_id fn) (fn_name fn) devs];
              ps_res := ps_res st |}
  | None =>
      if Policy_Backfill policy && bool_decide (ps_res st = None) then
        match reservationTime now job nodes active with
        | Some t => {| ps_order := ps_order st; ps_decisions := ps_decisions st; ps_res := Some t |}
        | None => st
        end
      else st
  end.

Definition planStart (nodes : list Node) (active : list Job) : planState :=
  {| ps_order := nodeOrder (buildFree nodes active); ps_decisions := []; ps_res := None |}.

Definition planSorted (now : Time) (pending : list Job) (policy : Policy) : list Job :=
  sort_by (jobLess now (Policy_AgeWeight policy)) pending.

Definition planRun (now : Time) (nodes : list Node) (active pending : list Job) (policy : Policy)
    : planState :=
  foldl (planStep now nodes active policy) (planStart nodes active) (planSorted now pending policy).

Definition Plan (now : Time) (nodes : list Node) (active pending : list Job) (policy : Policy)
    : list Decision :=
  ps_decisions (planRun now nodes active pending policy).
End with_case.
