(* ===== verification/PlanProofs.v ===== *)
(** * The scheduler's decisions: correctness of [Plan]

    Device picking and node selection against their specifications, the accounting of free
    resources, and the invariant of the planning loop. *)
From S2P Require Import Prelude GoBase GoStrings GoFloat Event Store Plan.
Local Open Scope Z_scope.

(** ** Saturating subtraction *)

Lemma subU32_max a b : is_u32 a → 0 ≤ b → subU32 a b = Z.max 0 (a - b).
Proof.
  intros Ha Hb. unfold subU32. destruct (a <? b) eqn:E; bool_to_prop; [lia|].
  unfold is_u32 in *. rewrite wrapU_small; lia.
Qed.
Lemma subU64_max a b : is_u64 a → 0 ≤ b → subU64 a b = Z.max 0 (a - b).
Proof.
  intros Ha Hb. unfold subU64. destruct (a <? b) eqn:E; bool_to_prop; [lia|].
  unfold is_u64 in *. rewrite wrapU_small; lia.
Qed.
Lemma subU32_range a b : is_u32 a → 0 ≤ b → is_u32 (subU32 a b).
Proof. intros. rewrite subU32_max by done. unfold is_u32 in *; lia. Qed.
Lemma subU64_range a b : is_u64 a → 0 ≤ b → is_u64 (subU64 a b).
Proof. intros. rewrite subU64_max by done. unfold is_u64 in *; lia. Qed.
#[export] Hint Resolve subU32_range subU64_range : skipper.

(** ** Removing devices *)

Lemma removeFreeDevices_filter l used :
  removeFreeDevices l used = filter (λ d, fd_key d ∉ alloc_key <$> used) l.
Proof.
  unfold removeFreeDevices. destruct used as [|u used]; [|done].
  symmetry. apply filter_id, Forall_forall. set_solver.
Qed.

Lemma removeFreeDevices_app l u1 u2 :
  removeFreeDevices (removeFreeDevices l u1) u2 = removeFreeDevices l (u1 ++ u2).
Proof.
  rewrite !removeFreeDevices_filter, list_filter_filter. apply list_filter_iff. intros d.
  rewrite fmap_app. set_solver.
Qed.

Section proofs.
Context `{UnicodeCase}.

(** ** [pickDevices] takes the first devices that match *)

Definition matching (t : string) (l : list freeDevice) : list freeDevice :=
  filter (λ d, matchName (fd_name d) t = true) l.
Definition to_alloc (d : freeDevice) : AllocDevice := mkAlloc (fd_kind d) (fd_index d).

Lemma matching_cons t d l :
  matching t (d :: l) = if matchName (fd_name d) t then d :: matching t l else matching t l.
Proof.
  unfold matching. rewrite filter_cons. destruct (matchName _ _); [by rewrite decide_True|].
  by rewrite decide_False.
Qed.

Lemma pickLoop_spec devs n t out :
  is_u32 n → Z.of_nat (length out) < n →
  pickLoop devs n t out =
    let need := Z.to_nat (n - Z.of_nat (length out)) in
    if decide (need ≤ length (matching t devs))%nat
    then Some (out ++ (to_alloc <$> take need (matching t devs)))
    else None.
Proof.
  intros Hn. unfold is_u32 in Hn. revert out. induction devs as [|d devs IH]; intros out Hout; simpl.
  { case_decide; [|done]. simpl in *. lia. }
  rewrite matching_cons. destruct (matchName (fd_name d) t); simpl; [|by apply IH].
  rewrite length_app; simpl. unfold wrapU. rewrite Z.mod_small by lia.
  destruct (Z.eqb_spec (Z.of_nat (length out + 1)) n) as [E|E].
  - replace (Z.to_nat (n - Z.of_nat (length out))) with 1%nat by lia.
    rewrite decide_True by lia. done.
  - rewrite IH by (rewrite length_app; simpl; lia). rewrite length_app; simpl.
    replace (Z.to_nat (n - Z.of_nat (length out)))
      with (S (Z.to_nat (n - Z.of_nat (length out + 1)))) by lia.
    destruct (decide _); [rewrite decide_True by lia|rewrite decide_False by lia; done].
    by rewrite <-app_assoc.
Qed.

Lemma pickDevices_spec devs n t :
  is_u32 n →
  pickDevices devs n t =
    if decide (Z.to_nat n ≤ length (matching t devs))%nat
    then Some (to_alloc <$> take (Z.to_nat n) (matching t devs))
    else None.
Proof.
  intros Hn. unfold pickDevices. destruct (Z.eqb_spec n 0) as [->|Hne]; [done|].
  unfold is_u32 in Hn. rewrite pickLoop_spec by (simpl; unfold is_u32; lia). simpl.
  by rewrite Z.sub_0_r.
Qed.

(** ** [selectFit] takes the first node that can host the job *)

(** The conditions of [selectFit], as one test. *)
Definition canHost (job : Job) (fn : freeNode) : bool :=
  (bool_decide (Job_Partition job = "") || bool_decide (Job_Partition job = fn_partition fn)) &&
  (Job_ReqCPUs job <=? fn_cpus fn) && (Job_ReqMemBytes job <=? fn_mem fn) &&
  bool_decide (is_Some (pickDevices (fn_devices fn) (Job_ReqGPUs job) (Job_GPUType job))).

Lemma selectFit_cons job fn l :
  selectFit job (fn :: l) =
    if canHost job fn
    then (λ devs, (O, fn, devs)) <$> pickDevices (fn_devices fn) (Job_ReqGPUs job) (Job_GPUType job)
    else '(i, fn', devs) ← selectFit job l; Some (S i, fn', devs).
Proof.
  unfold canHost; simpl. rewrite !Z.leb_antisym.
  destruct (fn_cpus fn <? Job_ReqCPUs job), (fn_mem fn <? Job_ReqMemBytes job),
    (pickDevices _ _ _) as [ds|]; repeat case_bool_decide; simpl; try done;
    exfalso; naive_solver.
Qed.

Lemma selectFit_Some job l i fn devs :
  selectFit job l = Some (i, fn, devs) ↔
  l !! i = Some fn ∧ canHost job fn = true ∧
  pickDevices (fn_devices fn) (Job_ReqGPUs job) (Job_GPUType job) = Some devs ∧
  ∀ k fn', (k < i)%nat → l !! k = Some fn' → canHost job fn' = false.
Proof.
  revert i; induction l as [|f l IH]; intros i.
  { simpl. split; [done|]. rewrite lookup_nil. by intros [? _]. }
  rewrite selectFit_cons. destruct (canHost job f) eqn:Ef.
  - split.
    + destruct (pickDevices (fn_devices f) _ _) eqn:Ep; simpl; [|done]. intros [= <- <- <-].
      repeat split; try done. intros k fn' Hk. lia.
    + intros (Hi & Hc & Hp & Hk). destruct i as [|i].
      * simpl in Hi. injection Hi as ->. by rewrite Hp.
      * specialize (Hk O f ltac:(lia) eq_refl). congruence.
  - split.
    + destruct (selectFit job l) as [[[i' f'] d']|] eqn:Es; simpl; [|done]. intros [= <- <- <-].
      destruct (proj1 (IH _) eq_refl) as (Hi & Hc & Hp & Hk). repeat split; try done.
      intros [|k] fn' Hlt Hl; simpl in Hl; [by injection Hl as <-|]. eapply Hk; [|done]. lia.
    + intros (Hi & Hc & Hp & Hk). destruct i as [|i]; simpl in Hi; [congruence|].
      assert (selectFit job l = Some (i, fn, devs)) as ->; [|done].
      apply IH. repeat split; try done. intros k fn' Hlt Hl. apply (Hk (S k)); [lia|done].
Qed.

Lemma selectFit_None job l :
  selectFit job l = None ↔ Forall (λ fn, canHost job fn = false) l.
Proof.
  induction l as [|f l IH]; [done|]. rewrite selectFit_cons, Forall_cons.
  destruct (canHost job f) eqn:Ef.
  - split; [|by intros [? _]].
    unfold canHost in Ef. bool_to_prop. match goal with H : is_Some _ |- _ => destruct H as [x ->] end.
    done.
  - rewrite <-IH. destruct (selectFit job l) as [[[??]?]|]; simpl; naive_solver.
Qed.

(** ** Accounting: what the decisions taken so far use on a node *)

(** [ps] pairs each decision with the job it places. *)
Definition load (f : Job → Z) (nid : string) (ps : list (Job * Decision)) : Z :=
  zsum (λ p, if decide (Decision_NodeID p.2 = nid) then f p.1 else 0) ps.

Definition devs_on (nid : string) (ds : list Decision) : list AllocDevice :=
  filter (λ d, Decision_NodeID d = nid) ds ≫= Decision_Devices.

Lemma load_snoc f nid ps j d :
  load f nid (ps ++ [(j, d)]) =
    load f nid ps + (if decide (Decision_NodeID d = nid) then f j else 0).
Proof. unfold load. rewrite zsum_app; simpl. lia. Qed.

Lemma load_filter f nid ps :
  load f nid ps = zsum f (filter (λ p : Job * Decision, Decision_NodeID p.2 = nid) ps).*1.
Proof.
  unfold load. induction ps as [|p ps IH]; [done|]. simpl. rewrite filter_cons.
  case_decide; simpl; rewrite IH; [done|lia].
Qed.

Lemma devs_on_snoc nid ds d :
  devs_on nid (ds ++ [d]) =
    devs_on nid ds ++ (if decide (Decision_NodeID d = nid) then Decision_Devices d else []).
Proof.
  unfold devs_on. rewrite filter_app, bind_app, filter_cons, filter_nil.
  case_decide; csimpl; by rewrite ?app_nil_r.
Qed.

(** The free node [fn] is the initial [fn0] less what [ps] puts on it. *)
Record node_acct (ps : list (Job * Decision)) (fn0 fn : freeNode) : Prop := {
  na_id : fn_id fn = fn_id fn0;
  na_name : fn_name fn = fn_name fn0;
  na_part : fn_partition fn = fn_partition fn0;
  na_cpus : fn_cpus fn = fn_cpus fn0 - load Job_ReqCPUs (fn_id fn0) ps;
  na_mem : fn_mem fn = fn_mem fn0 - load Job_ReqMemBytes (fn_id fn0) ps;
  na_cpus_u32 : is_u32 (fn_cpus fn);
  na_mem_u64 : is_u64 (fn_mem fn);
  na_devs : fn_devices fn = removeFreeDevices (fn_devices fn0) (devs_on (fn_id fn0) ps.*2)
}.

(** A decision puts its job on a node of its partition, on as many matching devices of that
    node as it asks for. *)
Definition placed (order0 : list freeNode) (p : Job * Decision) : Prop :=
  ∃ fn0, fn0 ∈ order0 ∧
    Decision_JobID p.2 = Job_ID p.1 ∧ Decision_NodeID p.2 = fn_id fn0 ∧
    Decision_NodeName p.2 = fn_name fn0 ∧
    (Job_Partition p.1 = "" ∨ Job_Partition p.1 = fn_partition fn0) ∧
    Z.of_nat (length (Decision_Devices p.2)) = Job_ReqGPUs p.1 ∧
    Forall (λ a, ∃ d, d ∈ fn_devices fn0 ∧ alloc_key a = fd_key d ∧
                      matchName (fd_name d) (Job_GPUType p.1) = true) (Decision_Devices p.2).

Record PlanInv (order0 : list freeNode) (st : planState) (ps : list (Job * Decision)) : Prop := {
  pi_decisions : ps_decisions st = ps.*2;
  pi_order : Forall2 (node_acct ps) order0 (ps_order st);
  pi_placed : Forall (placed order0) ps;
  pi_nodup fn0 : fn0 ∈ order0 → NoDup (fd_key <$> fn_devices fn0) →
    NoDup (alloc_key <$> devs_on (fn_id fn0) ps.*2)
}.

Lemma canHost_props job fn :
  canHost job fn = true →
  (Job_Partition job = "" ∨ Job_Partition job = fn_partition fn) ∧
  Job_ReqCPUs job ≤ fn_cpus fn ∧ Job_ReqMemBytes job ≤ fn_mem fn ∧
  is_Some (pickDevices (fn_devices fn) (Job_ReqGPUs job) (Job_GPUType job)).
Proof.
  unfold canHost. intros Hc. bool_to_prop. split; [|done].
  match goal with H : _ || _ = true |- _ => apply orb_true_iff in H as [H|H] end; bool_to_prop; auto.
Qed.

(** What a successful pick is. *)
Lemma pickDevices_Some devs n t out :
  is_u32 n → pickDevices devs n t = Some out →
  ∃ sel, out = to_alloc <$> sel ∧ Z.of_nat (length out) = n ∧
    (∀ d, d ∈ sel → d ∈ devs ∧ matchName (fd_name d) t = true) ∧
    (NoDup (fd_key <$> devs) → NoDup (alloc_key <$> out)).
Proof.
  intros Hn. rewrite pickDevices_spec by done. case_decide as Hl; [|done]. intros [= <-].
  exists (take (Z.to_nat n) (matching t devs)). split; [done|]. split.
  { rewrite length_fmap, length_take. unfold is_u32 in Hn. lia. }
  split.
  - intros d Hd%elem_of_take_list. unfold matching in Hd. apply list_elem_of_filter in Hd. tauto.
  - intros Hnd. rewrite <-list_fmap_compose.
    change (alloc_key ∘ to_alloc) with fd_key. by apply NoDup_fmap_take, NoDup_fmap_filter.
Qed.

Lemma node_acct_consume ps fn0 fn job devs d :
  node_acct ps fn0 fn → Job_wf job → canHost job fn = true →
  Decision_NodeID d = fn_id fn → Decision_Devices d = devs →
  node_acct (ps ++ [(job, d)]) fn0 (consume fn job devs).
Proof.
  intros [] [] Hc Hid Hdv. apply canHost_props in Hc as (_ & Hcpu & Hmem & _).
  unfold is_u32, is_u64 in *.
  split; simpl; try done; rewrite ?load_snoc, ?decide_True by congruence.
  - rewrite subU32_max by (unfold is_u32; lia). lia.
  - rewrite subU64_max by (unfold is_u64; lia). lia.
  - apply subU32_range; unfold is_u32; lia.
  - apply subU64_range; unfold is_u64; lia.
  - rewrite fmap_app; simpl. rewrite devs_on_snoc, decide_True by congruence.
    rewrite na_devs0, removeFreeDevices_app. by subst.
Qed.

Lemma node_acct_other ps fn0 fn job d :
  node_acct ps fn0 fn → Decision_NodeID d ≠ fn_id fn0 → node_acct (ps ++ [(job, d)]) fn0 fn.
Proof.
  intros [] Hid. split; try done; rewrite ?load_snoc, ?decide_False by done; try lia.
  rewrite fmap_app; simpl. by rewrite devs_on_snoc, decide_False, app_nil_r by done.
Qed.

Lemma order_consume ps order0 order i fn job devs d :
  NoDup (fn_id <$> order0) → Forall2 (node_acct ps) order0 order → order !! i = Some fn →
  Job_wf job → canHost job fn = true → Decision_NodeID d = fn_id fn → Decision_Devices d = devs →
  Forall2 (node_acct (ps ++ [(job, d)])) order0 (<[i := consume fn job devs]> order).
Proof.
  intros Hnd HF Hi Hwf Hc Hid Hdv.
  apply Forall2_same_length_lookup. apply Forall2_same_length_lookup in HF as [Hlen HF].
  split; [by rewrite length_insert|].
  intros k fn0 fn' Hk0 Hk. destruct (decide (i = k)) as [<-|Hne].
  - rewrite list_lookup_insert_eq in Hk by (by eapply lookup_lt_Some). injection Hk as <-.
    apply node_acct_consume; try done. by eapply HF.
  - rewrite list_lookup_insert_ne in Hk by done.
    apply node_acct_other; [by eapply HF|]. rewrite Hid. intros E.
    assert (is_Some (order0 !! i)) as [fni Hi0].
    { apply lookup_lt_is_Some. rewrite Hlen. by eapply lookup_lt_Some. }
    rewrite (na_id _ _ _ (HF _ _ _ Hi0 Hi)) in E.
    apply Hne. eapply (NoDup_lookup (fn_id <$> order0)); [done|..];
      rewrite list_lookup_fmap; [by rewrite Hi0|rewrite Hk0; simpl; by rewrite E].
Qed.

(** ** The planning loop preserves the invariant *)

(** The possible effects of one iteration: nothing (but perhaps a reservation), or one
    assignment to the first node that can host the job. *)
Lemma planStep_cases now nodes active policy st job :
  (ps_order (planStep now nodes active policy st job) = ps_order st ∧
   ps_decisions (planStep now nodes active policy st job) = ps_decisions st) ∨
  (∃ i fn devs, selectFit job (ps_order st) = Some (i, fn, devs) ∧
   planStep now nodes active policy st job =
     {| ps_order := <[i := consume fn job devs]> (ps_order st);
        ps_decisions := ps_decisions st ++ [mkDecision (Job_ID job) (fn_id fn) (fn_name fn) devs];
        ps_res := ps_res st |} ∧
   (Policy_Backfill policy = true →
    ∀ t, ps_res st = Some t → backfillAllowed now job t = true)).
Proof.
  unfold planStep. destruct (selectFit job (ps_order st)) as [[[i fn] devs]|] eqn:Es.
  - destruct (Policy_Backfill policy) eqn:Eb; simpl.
    + destruct (ps_res st) as [t|] eqn:Er; simpl.
      * destruct (backfillAllowed now job t) eqn:Ea; simpl; [right|by left].
        exists i, fn, devs. repeat split; try done. naive_solver.
      * right. exists i, fn, devs. repeat split; done.
    + right. exists i, fn, devs. repeat split; done.
  - left. repeat case_match; done.
Qed.

Lemma planStep_inv order0 now nodes active policy st job ps :
  NoDup (fn_id <$> order0) → Job_wf job → PlanInv order0 st ps →
  ∃ ps', PlanInv order0 (planStep now nodes active policy st job) ps' ∧
         (ps' = ps ∨ ∃ d, ps' = ps ++ [(job, d)]).
Proof.
  intros Hnd Hwf [Hds Hord Hpl Hnk].
  destruct (planStep_cases now nodes active policy st job)
    as [[E1 E2]|(i & fn & devs & Hsel & -> & _)].
  { exists ps. split; [|by left]. split; rewrite ?E1, ?E2; done. }
  apply selectFit_Some in Hsel as (Hi & Hc & Hp & _).
  set (d := mkDecision (Job_ID job) (fn_id fn) (fn_name fn) devs).
  exists (ps ++ [(job, d)]). split; [|by eauto].
  assert (is_Some (order0 !! i)) as [fn0 Hi0].
  { apply lookup_lt_is_Some. rewrite (Forall2_length _ _ _ Hord). by eapply lookup_lt_Some. }
  pose proof (Forall2_lookup_lr _ _ _ _ _ _ Hord Hi0 Hi) as Hacct.
  destruct (pickDevices_Some _ _ _ _ (jwf_gpus _ Hwf) Hp) as (sel & Hdevs & Hlen & Hsel & Hndk).
  assert (∀ x, x ∈ fn_devices fn → x ∈ fn_devices fn0 ∧
            fd_key x ∉ alloc_key <$> devs_on (fn_id fn0) ps.*2) as Hsub.
  { intros x. rewrite (na_devs _ _ _ Hacct), removeFreeDevices_filter, list_elem_of_filter. tauto. }
  split; simpl.
  - by rewrite fmap_app, Hds.
  - by eapply order_consume.
  - apply Forall_app; split; [done|]. apply Forall_singleton. exists fn0.
    apply canHost_props in Hc as (Hpart & _ & _ & _).
    rewrite (na_part _ _ _ Hacct) in Hpart.
    repeat split; simpl; try done; [by eapply list_elem_of_lookup_2|apply (na_id _ _ _ Hacct)
      |apply (na_name _ _ _ Hacct)|].
    rewrite Hdevs. apply Forall_fmap, Forall_forall. intros x Hx. simpl.
    destruct (Hsel x Hx) as [Hx1 Hx2]. exists x. repeat split; [by apply Hsub|done].
  - intros fn1 Hin1 Hk1. rewrite fmap_app; simpl. rewrite devs_on_snoc; simpl.
    case_decide as Hid; [|rewrite app_nil_r; by apply Hnk].
    rewrite (na_id _ _ _ Hacct) in Hid.
    assert (fn1 = fn0) as ->.
    { apply list_elem_of_lookup in Hin1 as [k Hk].
      assert (k = i) as ->; [|congruence].
      eapply (NoDup_lookup (fn_id <$> order0)); [done|..]; rewrite list_lookup_fmap;
        [by rewrite Hk|rewrite Hi0; simpl; by rewrite Hid]. }
    rewrite fmap_app. apply NoDup_app_disjoint; [by apply Hnk|..].
    + apply Hndk. rewrite (na_devs _ _ _ Hacct), removeFreeDevices_filter.
      by apply NoDup_fmap_filter.
    + intros x Hx Hx'. rewrite Hdevs, <-list_fmap_compose in Hx'.
      apply list_elem_of_fmap in Hx' as (y & -> & Hy).
      destruct (Hsel y Hy) as [Hy1 _]. by destruct (Hsub y Hy1) as [_ ?].
Qed.

Lemma planRun_inv_gen order0 now nodes active policy jobs st ps :
  NoDup (fn_id <$> order0) → Forall Job_wf jobs → PlanInv order0 st ps →
  ∃ ps', PlanInv order0 (foldl (planStep now nodes active policy) st jobs) (ps ++ ps') ∧
         ps'.*1 `sublist_of` jobs.
Proof.
  intros Hnd Hwf. revert st ps; induction Hwf as [|job jobs Hj Hjobs IH]; intros st ps Hinv; simpl.
  { exists []. rewrite app_nil_r. split; [done|constructor]. }
  destruct (planStep_inv order0 now nodes active policy st job ps) as (ps1 & Hinv1 & Hps1); [done..|].
  destruct (IH _ ps1 Hinv1) as (ps2 & Hinv2 & Hsub).
  destruct Hps1 as [->|[d ->]].
  - exists ps2. split; [done|]. by constructor.
  - exists ((job, d) :: ps2). rewrite <-app_assoc in Hinv2. split; [done|]. by constructor.
Qed.

(** ** The free resources the loop starts from *)

Definition activeOn (nid : string) (active : list Job) : list Job :=
  filter (λ j, Job_NodeID j = nid) active.

(** The node [n] less what the active jobs hold of it. *)
Definition charged (n : Node) (active : list Job) : freeNode :=
  foldl (λ fn j, consume fn j (Job_Devices j)) (freeOf n) (activeOn (Node_ID n) active).

Lemma addNodes_lookup nodes frees id :
  NoDup (Node_ID <$> nodes) →
  foldl addNode frees nodes !! id =
    match list_find (λ n, Node_ID n = id ∧ Node_State n = StateUp) nodes with
    | Some (_, n) => Some (freeOf n)
    | None => frees !! id
    end.
Proof.
  revert frees; induction nodes as [|n nodes IH]; intros frees; [done|].
  rewrite fmap_cons, NoDup_cons. intros [Hn Hnd]. simpl. rewrite IH by done.
  unfold addNode. destruct (decide (Node_State n ≠ StateUp)) as [Hs|Hs].
  - rewrite (decide_False (P := _ ∧ _)) by naive_solver.
    destruct (list_find _ nodes) as [[??]|]; done.
  - apply dec_stable in Hs. destruct (decide (Node_ID n = id)) as [<-|Hid].
    + rewrite decide_True by done. rewrite (proj2 (list_find_None _ _)).
      * by rewrite lookup_insert_eq.
      * apply Forall_forall. intros m Hm [E _]. apply Hn. rewrite <-E.
        by apply list_elem_of_fmap_2.
    + rewrite decide_False by naive_solver.
      destruct (list_find _ nodes) as [[??]|]; simpl; [done|]. by rewrite lookup_insert_ne.
Qed.

Lemma chargeJobs_lookup active frees id :
  foldl chargeJob frees active !! id =
    (λ fn, foldl (λ fn j, consume fn j (Job_Devices j)) fn (activeOn id active)) <$> frees !! id.
Proof.
  revert frees; induction active as [|j active IH]; intros frees; simpl.
  { by destruct (frees !! id). }
  rewrite IH. unfold chargeJob, activeOn. rewrite filter_cons.
  destruct (decide (Job_NodeID j = id)) as [<-|Hne].
  - destruct (frees !! Job_NodeID j) as [fn|] eqn:E; simpl; [|by rewrite E].
    by rewrite lookup_insert_eq.
  - destruct (frees !! Job_NodeID j) as [fn|] eqn:E; simpl; [|done].
    by rewrite lookup_insert_ne.
Qed.

Lemma buildFree_lookup nodes active id fn :
  NoDup (Node_ID <$> nodes) →
  buildFree nodes active !! id = Some fn ↔
  ∃ n, n ∈ nodes ∧ Node_State n = StateUp ∧ Node_ID n = id ∧ fn = charged n active.
Proof.
  intros Hnd. unfold buildFree. rewrite chargeJobs_lookup, addNodes_lookup by done.
  split.
  - destruct (list_find _ nodes) as [[k n]|] eqn:E; simpl; [|by rewrite lookup_empty].
    intros [= <-]. apply list_find_Some in E as (Hk & [<- Hs] & _).
    exists n. repeat split; try done. by eapply list_elem_of_lookup_2.
  - intros (n & Hn & Hs & <- & ->).
    destruct (list_find _ nodes) as [[k m]|] eqn:E.
    + apply list_find_Some in E as (Hk & [Hid Hs'] & _).
      apply list_elem_of_lookup in Hn as [k' Hk'].
      assert (k' = k) as ->; [|by simplify_eq].
      eapply (NoDup_lookup (Node_ID <$> nodes)); [done|..]; rewrite list_lookup_fmap;
        [by rewrite Hk'|by rewrite Hk; simpl; rewrite Hid].
    + apply list_find_None in E. rewrite Forall_forall in E. by destruct (E n Hn).
Qed.

Lemma foldl_consume_static fn jobs :
  fn_id (foldl (λ fn j, consume fn j (Job_Devices j)) fn jobs) = fn_id fn ∧
  fn_name (foldl (λ fn j, consume fn j (Job_Devices j)) fn jobs) = fn_name fn ∧
  fn_partition (foldl (λ fn j, consume fn j (Job_Devices j)) fn jobs) = fn_partition fn.
Proof. revert fn; induction jobs as [|j jobs IH]; intros fn; simpl; [done|]. apply (IH (consume _ _ _)). Qed.

Lemma foldl_consume_res fn jobs :
  is_u32 (fn_cpus fn) → is_u64 (fn_mem fn) → Forall Job_wf jobs →
  let fn' := foldl (λ fn j, consume fn j (Job_Devices j)) fn jobs in
  fn_cpus fn' = Z.max 0 (fn_cpus fn - zsum Job_ReqCPUs jobs) ∧
  fn_mem fn' = Z.max 0 (fn_mem fn - zsum Job_ReqMemBytes jobs) ∧
  fn_devices fn' = removeFreeDevices (fn_devices fn) (jobs ≫= Job_Devices).
Proof.
  intros Hc Hm Hw; revert fn Hc Hm; induction Hw as [|j jobs Hj Hjs IH]; intros fn Hc Hm; simpl.
  { unfold is_u32, is_u64 in *. repeat split; lia. }
  pose proof (jwf_cpus j Hj) as [? ?]. pose proof (jwf_mem j Hj) as [? ?].
  destruct (IH (consume fn j (Job_Devices j))) as (E1 & E2 & E3); simpl; [by apply subU32_range|by apply subU64_range|].
  simpl in *. rewrite E1, E2, E3, subU32_max, subU64_max, removeFreeDevices_app by (done || lia).
  assert (0 ≤ zsum Job_ReqCPUs jobs ∧ 0 ≤ zsum Job_ReqMemBytes jobs) as [? ?].
  { split; apply zsum_nonneg; (eapply Forall_impl; [exact Hjs|]);
      intros ? []; unfold is_u32, is_u64 in *; lia. }
  repeat split; lia.
Qed.

Lemma charged_static n active :
  fn_id (charged n active) = Node_ID n ∧ fn_name (charged n active) = Node_Name n ∧
  fn_partition (charged n active) = Node_Partition n.
Proof. apply foldl_consume_static. Qed.

Lemma charged_res n active :
  Node_wf n → Forall Job_wf active →
  fn_cpus (charged n active) = Z.max 0 (Node_CPUs n - zsum Job_ReqCPUs (activeOn (Node_ID n) active)) ∧
  fn_mem (charged n active) =
    Z.max 0 (Node_MemTotalBytes n - zsum Job_ReqMemBytes (activeOn (Node_ID n) active)) ∧
  fn_devices (charged n active) =
    removeFreeDevices (fn_devices (freeOf n)) (activeOn (Node_ID n) active ≫= Job_Devices).
Proof.
  intros [] Ha. apply foldl_consume_res; [done|done|]. apply Forall_forall. intros j Hj.
  apply list_elem_of_filter in Hj as [_ Hj]. rewrite Forall_forall in Ha. by apply Ha.
Qed.

Lemma elem_of_nodeOrder fn frees : fn ∈ nodeOrder frees ↔ ∃ id, frees !! id = Some fn.
Proof.
  unfold nodeOrder. rewrite elem_of_sort_by, list_elem_of_fmap. split.
  - intros ([id fn'] & -> & Hin). exists id. by apply elem_of_map_to_list.
  - intros [id Hid]. exists (id, fn). split; [done|]. by apply elem_of_map_to_list.
Qed.

Lemma nodeOrder_elem nodes active fn :
  NoDup (Node_ID <$> nodes) →
  fn ∈ nodeOrder (buildFree nodes active) ↔
  ∃ n, n ∈ nodes ∧ Node_State n = StateUp ∧ fn = charged n active.
Proof.
  intros Hnd. rewrite elem_of_nodeOrder. setoid_rewrite (buildFree_lookup nodes active _ fn Hnd).
  split; [intros (? & n & ? & ? & ? & ?); by exists n|].
  intros (n & ? & ? & ?). by exists (Node_ID n), n.
Qed.

Lemma nodeOrder_NoDup nodes active :
  NoDup (Node_ID <$> nodes) → NoDup (fn_id <$> nodeOrder (buildFree nodes active)).
Proof.
  intros Hnd. unfold nodeOrder. rewrite sort_by_perm, <-list_fmap_compose.
  assert (fn_id ∘ snd <$> map_to_list (buildFree nodes active)
          = fst <$> map_to_list (buildFree nodes active)) as ->;
    [|apply NoDup_fst_map_to_list].
  apply list_fmap_ext. intros k [id fn] Hk%list_elem_of_lookup_2%elem_of_map_to_list. simpl.
  apply buildFree_lookup in Hk as (n & _ & _ & <- & ->); [|done]. apply charged_static.
Qed.

Lemma planRun_inv now nodes active pending policy :
  NoDup (Node_ID <$> nodes) → Forall Node_wf nodes → Forall Job_wf active → Forall Job_wf pending →
  ∃ ps, PlanInv (nodeOrder (buildFree nodes active)) (planRun now nodes active pending policy) ps ∧
        ps.*1 `sublist_of` planSorted now pending policy.
Proof.
  intros Hnd Hnw Haw Hpw.
  destruct (planRun_inv_gen (nodeOrder (buildFree nodes active)) now nodes active policy
    (planSorted now pending policy) (planStart nodes active) []) as (ps & Hinv & Hsub).
  - by apply nodeOrder_NoDup.
  - unfold planSorted. by rewrite sort_by_perm.
  - split; simpl; [done| |constructor|intros; constructor].
    apply Forall_Forall2_diag, Forall_forall. intros fn Hfn.
    apply nodeOrder_elem in Hfn as (n & Hn & _ & ->); [|done].
    rewrite Forall_forall in Hnw. destruct (charged_res n active (Hnw n Hn) Haw) as (E1 & E2 & E3).
    destruct (Hnw n Hn) as [Hc Hm]. unfold is_u32, is_u64 in *.
    assert (0 ≤ zsum Job_ReqCPUs (activeOn (Node_ID n) active) ∧
            0 ≤ zsum Job_ReqMemBytes (activeOn (Node_ID n) active)) as [? ?].
    { split; apply zsum_nonneg, Forall_forall; intros j Hj%list_elem_of_filter;
        rewrite Forall_forall in Haw; destruct (Haw j) as []; try apply Hj;
        unfold is_u32, is_u64 in *; lia. }
    split; try done; unfold load; simpl; try lia; unfold is_u32, is_u64; lia.
  - exists ps. by split.
Qed.

(** ** The order of the pending jobs *)

Lemma effPriority_not_nan j now w : is_i32 (Job_Priority j) → is_nan (effPriority j now w) = false.
Proof.
  intros Hp. unfold effPriority.
  destruct (fltb (f64 0) w && negb (IsZero (Job_SubmitAt j))) eqn:E; [|apply f64_not_nan].
  bool_to_prop. destruct (fltb (f64 0) (Minutes _)) eqn:Ew; [|apply f64_not_nan].
  apply fadd_fin_not_nan; [|by apply fmul_pos_not_nan].
  apply f64_int_finite. unfold is_i32 in Hp. lia.
Qed.

#[export] Instance jobLess_strict now w : StrictWeak Job_wf (jobLess now w).
Proof.
  split.
  - intros a b Ha Hb. unfold jobLess.
    pose proof (effPriority_not_nan a now w (jwf_prio a Ha)) as Na.
    pose proof (effPriority_not_nan b now w (jwf_prio b Hb)) as Nb.
    destruct (feqb (effPriority a now w) (effPriority b now w)) eqn:E1;
      destruct (feqb (effPriority b now w) (effPriority a now w)) eqn:E2; simpl;
      rewrite ?feqb_key, ?feqb_nkey, ?fltb_key, ?fltb_nkey in * by done; try congruence.
    + unfold Before. intros H1%Z.ltb_lt. apply Z.ltb_ge. lia.
    + unfold key_lt. lia.
  - intros a b c Ha Hb Hc. unfold jobLess, Before.
    pose proof (effPriority_not_nan a now w (jwf_prio a Ha)) as Na.
    pose proof (effPriority_not_nan b now w (jwf_prio b Hb)) as Nb.
    pose proof (effPriority_not_nan c now w (jwf_prio c Hc)) as Nc.
    destruct (feqb (effPriority b now w) (effPriority a now w)) eqn:E1;
      destruct (feqb (effPriority c now w) (effPriority b now w)) eqn:E2;
      destruct (feqb (effPriority c now w) (effPriority a now w)) eqn:E3; simpl;
      rewrite ?feqb_key, ?feqb_nkey, ?fltb_key, ?fltb_nkey in * by done;
      rewrite ?Z.ltb_ge, ?key_eq in *; unfold key_lt; lia.
Qed.

(** The order in words. *)
Lemma jobLess_sorted_spec now w l :
  StronglySorted (not_after (jobLess now w)) l →
  Forall Job_wf l →
  StronglySorted (λ a b, fltb (effPriority a now w) (effPriority b now w) = false ∧
    (feqb (effPriority a now w) (effPriority b now w) = true →
     Job_SubmitAt a ≤ Job_SubmitAt b)) l.
Proof.
  induction 1 as [|a l Hl IH Ha]; intros Hw; [constructor|].
  inversion Hw as [|? ? Hwa Hwl]; subst. constructor; [by apply IH|].
  rewrite Forall_forall in *. intros b Hb. specialize (Ha b Hb). specialize (Hwl b Hb).
  unfold not_after, jobLess, Before in Ha.
  pose proof (effPriority_not_nan a now w (jwf_prio a Hwa)).
  pose proof (effPriority_not_nan b now w (jwf_prio b Hwl)).
  rewrite fltb_nkey, feqb_key by done.
  destruct (feqb (effPriority b now w) (effPriority a now w)) eqn:E; simpl in Ha;
    rewrite ?feqb_key, ?feqb_nkey, ?fltb_nkey in * by done; bool_to_prop.
  - rewrite E. split; [unfold key_lt; lia|]. lia.
  - split; [done|]. congruence.
Qed.

Lemma planSorted_stable now pending policy a :
  Forall Job_wf pending → a ∈ pending →
  let w := Policy_AgeWeight policy in
  let tie b := feqb (effPriority a now w) (effPriority b now w) = true ∧ Job_SubmitAt a = Job_SubmitAt b in
  filter tie (planSorted now pending policy) = filter tie pending.
Proof.
  intros Hw Ha w tie. rewrite Forall_forall in Hw.
  assert (∀ b, b ∈ pending → tie b ↔ tied (jobLess now w) a b) as Htie.
  { intros b Hb. unfold tie, tied, jobLess, Before.
    pose proof (effPriority_not_nan a now w (jwf_prio a (Hw a Ha))).
    pose proof (effPriority_not_nan b now w (jwf_prio b (Hw b Hb))).
    destruct (feqb (effPriority a now w) (effPriority b now w)) eqn:E1;
      destruct (feqb (effPriority b now w) (effPriority a now w)) eqn:E2; simpl;
      rewrite ?feqb_key, ?feqb_nkey, ?fltb_nkey in * by done; try congruence;
      rewrite ?Z.ltb_ge; [lia|]. unfold key_lt. rewrite key_eq in E1. split; [by intros [? ?]|lia]. }
  assert (∀ l : list Job, (∀ b, b ∈ l → b ∈ pending) →
          filter tie l = filter (tied (jobLess now w) a) l) as Hf.
  { induction l as [|b l IH]; intros Hl; [done|]. rewrite !filter_cons, IH by set_solver.
    specialize (Htie b ltac:(set_solver)).
    repeat case_decide; try done; exfalso; tauto. }
  rewrite !Hf; [|done|].
  - apply (sort_by_stable _ Job_wf); [by apply Hw|by apply Forall_forall].
  - intros b Hb. by apply elem_of_sort_by in Hb.
Qed.

Lemma planSorted_sorted now pending policy :
  Forall Job_wf pending →
  StronglySorted (not_after (jobLess now (Policy_AgeWeight policy))) (planSorted now pending policy).
Proof. intros Hw. by apply (sort_by_sorted _ Job_wf). Qed.

(** ** The reservation of a blocked job *)

Definition occ_wf (o : occupation) : Prop := 0 ≤ occ_cpus o ∧ 0 ≤ occ_mem o ∧ 0 ≤ occ_match o.

(** [a] plus what the occupations [l] give back. *)
Definition plus (a : avail) (l : list occupation) : avail :=
  {| av_cpus := av_cpus a + zsum occ_cpus l; av_mem := av_mem a + zsum occ_mem l;
     av_match := av_match a + zsum occ_match l |}.

(** Counters that stay in range whatever part of [l] is released. *)
Definition in_range (a : avail) (l : list occupation) : Prop :=
  0 ≤ av_cpus a ∧ av_cpus a + zsum occ_cpus l < 2 ^ 32 ∧
  0 ≤ av_mem a ∧ av_mem a + zsum occ_mem l < 2 ^ 64.

Lemma occ_sums l : Forall occ_wf l →
  0 ≤ zsum occ_cpus l ∧ 0 ≤ zsum occ_mem l ∧ 0 ≤ zsum occ_match l.
Proof. induction 1 as [|o l [? [? ?]] _ IH]; simpl; lia. Qed.

Lemma fits_mono b a a' :
  av_cpus a ≤ av_cpus a' → av_mem a ≤ av_mem a' → av_match a ≤ av_match a' →
  fits b a = true → fits b a' = true.
Proof.
  unfold fits. intros H1 H2 H3 Hf. bool_to_prop.
  rewrite !andb_true_iff, !Z.leb_le. lia.
Qed.

Lemma fits_plus_sub b a (P : occupation → Prop) `{∀ o, base.Decision (P o)} l :
  Forall occ_wf l → fits b (plus a (filter P l)) = true → fits b (plus a l) = true.
Proof.
  intros Hl. apply fits_mono; simpl;
    match goal with |- _ + ?x ≤ _ + ?y => enough (x ≤ y) by lia end;
    apply zsum_filter_le; (eapply Forall_impl; [exact Hl|]); by intros o (? & ? & ?).
Qed.

Lemma release_plus a o l :
  in_range a (o :: l) → occ_wf o → Forall occ_wf l →
  release a o = plus a [o] ∧ in_range (release a o) l.
Proof.
  intros (? & Hc & ? & Hm) (? & ? & ?) Hl. destruct (occ_sums l Hl) as (? & ? & ?).
  simpl in Hc, Hm. unfold release, plus, in_range; simpl.
  rewrite !wrapU_small by lia. split; [f_equal; lia|lia].
Qed.

Lemma plus_plus a l1 l2 : plus (plus a l1) l2 = plus a (l1 ++ l2).
Proof. unfold plus; simpl. rewrite !zsum_app. f_equal; lia. Qed.

Lemma releaseUntil_Some b a l t :
  in_range a l → Forall occ_wf l → releaseUntil b a l = Some t →
  ∃ l1 o l2, l = l1 ++ o :: l2 ∧ t = occ_end o ∧ fits b (plus a (l1 ++ [o])) = true ∧
             (l1 ≠ [] → fits b (plus a l1) = false).
Proof.
  intros Hr Hl; revert a Hr. induction Hl as [|o l Ho Hl IH]; intros a Hr; simpl; [done|].
  destruct (release_plus a o l Hr Ho Hl) as [E Hr'].
  destruct (fits b (release a o)) eqn:Ef.
  - intros [= <-]. exists [], o, l. simpl app. by rewrite <-E.
  - intros Hu. destruct (IH _ Hr' Hu) as (l1 & o' & l2 & -> & -> & Hfit & Hnot).
    exists (o :: l1), o', l2. rewrite E, plus_plus in Hfit. split; [done|]. split; [done|].
    split; [done|]. intros _. destruct l1 as [|o1 l1]; [by rewrite <-E|].
    specialize (Hnot ltac:(done)). by rewrite E, plus_plus in Hnot.
Qed.

Lemma releaseUntil_None b a l :
  in_range a l → Forall occ_wf l → l ≠ [] → releaseUntil b a l = None → fits b (plus a l) = false.
Proof.
  intros Hr Hl; revert a Hr. induction Hl as [|o l Ho Hl IH]; intros a Hr Hne; simpl; [done|].
  destruct (release_plus a o l Hr Ho Hl) as [E Hr'].
  destruct (fits b (release a o)) eqn:Ef; [done|]. intros Hu.
  destruct l as [|o' l]; [by rewrite <-E|].
  specialize (IH _ Hr' ltac:(done) Hu). by rewrite E, plus_plus in IH.
Qed.

#[export] Instance occLess_strict : StrictWeak (λ _, True) occLess.
Proof.
  split; unfold occLess, Before; intros; bool_to_prop; rewrite ?Z.ltb_ge in *; lia.
Qed.

(** What is available once every occupation that ends by [t] has ended. *)
Definition availBy (a : avail) (l : list occupation) (t : Time) : avail :=
  plus a (filter (λ o, occ_end o ≤ t) l).

Lemma releaseUntil_least b a l t :
  in_range a l → Forall occ_wf l → fits b a = false →
  releaseUntil b a (sort_by occLess l) = Some t →
  fits b (availBy a l t) = true ∧ ∀ t', t' < t → fits b (availBy a l t') = false.
Proof.
  intros Hr Hl Hf Hu. pose proof (sort_by_perm occLess l) as Hp.
  assert (∀ t', availBy a l t' = availBy a (sort_by occLess l) t') as Eav.
  { intros t'. unfold availBy, plus. f_equal; f_equal; apply zsum_perm; by rewrite Hp. }
  pose proof (sort_by_sorted occLess (λ _, True) l ltac:(by apply Forall_true)) as Hs.
  rewrite Eav. setoid_rewrite Eav. clear Eav.
  assert (in_range a (sort_by occLess l)) as Hr'.
  { destruct Hr as (? & ? & ? & ?). unfold in_range.
    rewrite (zsum_perm occ_cpus _ _ Hp), (zsum_perm occ_mem _ _ Hp). done. }
  rewrite <-Hp in Hl. clear Hr Hp. revert Hl Hs Hr' Hu.
  generalize (sort_by occLess l) as sl. clear l. intros sl Hl Hs Hr Hu.
  destruct (releaseUntil_Some b a sl t Hr Hl Hu) as (l1 & o & l2 & -> & -> & Hfit & Hnot).
  apply StronglySorted_app in Hs as (Hcross & _ & Hs2). apply StronglySorted_cons in Hs2 as [Ho _].
  rewrite Forall_forall in Ho. unfold not_after, occLess, Before in *.
  apply Forall_app in Hl as [Hl1 Hl2]. split.
  - unfold availBy. change (l1 ++ o :: l2) with (l1 ++ [o] ++ l2).
    rewrite app_assoc, filter_app, (filter_id _ (l1 ++ [o])).
    + revert Hfit. apply fits_mono; simpl; rewrite !zsum_app;
        match goal with |- _ ≤ _ + (_ + zsum ?f ?l) => enough (0 ≤ zsum f l) by lia end;
        apply zsum_nonneg, Forall_forall; intros o' [_ Ho']%list_elem_of_filter;
        rewrite Forall_forall in Hl2; destruct (Hl2 o'); set_solver.
    + apply Forall_app; split; [|by constructor]. apply Forall_forall. intros o' Ho'.
      specialize (Hcross o' o Ho' ltac:(set_solver)). bool_to_prop. lia.
  - intros t' Ht'. unfold availBy. rewrite filter_app, (filter_none _ (o :: l2)), app_nil_r.
    + destruct (fits b (plus a (filter _ l1))) eqn:E; [|done]. exfalso.
      apply fits_plus_sub in E; [|done]. destruct l1 as [|o1 l1].
      * assert (plus a [] = a) as E0 by (destruct a; unfold plus; simpl; f_equal; lia). congruence.
      * specialize (Hnot ltac:(done)). congruence.
    + apply Forall_cons; split; [lia|]. apply Forall_forall. intros o' Ho'.
      specialize (Ho o' Ho'). bool_to_prop. lia.
Qed.

(** The active jobs of the node whose estimated end is after [t]. *)
Definition heldAt (now : Time) (n : Node) (active : list Job) (t : Time) : list Job :=
  filter (λ j, t < estEnd now j) (activeOn (Node_ID n) active).

(** What the node has free for [blocked] at [t], if every active job ends when estimated. *)
Definition freeAt (now : Time) (blocked : Job) (n : Node) (active : list Job) (t : Time) : avail :=
  let held := heldAt now n active t in
  {| av_cpus := Node_CPUs n - zsum Job_ReqCPUs held;
     av_mem := Node_MemTotalBytes n - zsum Job_ReqMemBytes held;
     av_match := countMatchingDevices (Node_Devices n) (Job_GPUType blocked)
                 - zsum (λ j, countJobMatching j n (Job_GPUType blocked)) held |}.

(** The active jobs do not exceed what the node has. *)
Definition not_overcommitted (n : Node) (active : list Job) : Prop :=
  zsum Job_ReqCPUs (activeOn (Node_ID n) active) ≤ Node_CPUs n ∧
  zsum Job_ReqMemBytes (activeOn (Node_ID n) active) ≤ Node_MemTotalBytes n.

Lemma estEnd_ge now j : now ≤ estEnd now j.
Proof.
  unfold estEnd. destruct (_ <=? 0).
  - unfold Add, Hour, Minute, Second. lia.
  - destruct (Before _ now) eqn:E; unfold Before in E; bool_to_prop; lia.
Qed.

Lemma occupations_wf now b n active :
  Forall Job_wf active → Forall occ_wf (occupations now b n active).
Proof.
  intros Ha. apply Forall_fmap, Forall_forall. intros j [_ Hj]%list_elem_of_filter.
  rewrite Forall_forall in Ha. destruct (Ha j Hj) as [Hc Hm _ _ _].
  unfold occ_wf, countJobMatching, is_u32, is_u64 in *; simpl. lia.
Qed.

Lemma occupy_all a l :
  Forall occ_wf l → is_u32 (av_cpus a) → is_u64 (av_mem a) →
  zsum occ_cpus l ≤ av_cpus a → zsum occ_mem l ≤ av_mem a →
  foldl occupy a l = {| av_cpus := av_cpus a - zsum occ_cpus l;
                        av_mem := av_mem a - zsum occ_mem l;
                        av_match := av_match a - zsum occ_match l |}.
Proof.
  intros Hl; revert a; induction Hl as [|o l (Ho1 & Ho2 & Ho3) Hl IH]; intros a Hc Hm Sc Sm; simpl.
  { destruct a; simpl; f_equal; lia. }
  destruct (occ_sums l Hl) as (? & ? & ?). simpl in Sc, Sm.
  rewrite IH; simpl; rewrite ?subU32_max, ?subU64_max by done;
    unfold is_u32, is_u64 in *; try lia. f_equal; lia.
Qed.

Lemma availBy_freeAt now b n active t :
  let occs := occupations now b n active in
  availBy {| av_cpus := Node_CPUs n - zsum occ_cpus occs;
             av_mem := Node_MemTotalBytes n - zsum occ_mem occs;
             av_match := countMatchingDevices (Node_Devices n) (Job_GPUType b) - zsum occ_match occs |}
          occs t = freeAt now b n active t.
Proof.
  simpl. unfold availBy, plus, freeAt, heldAt, occupations, activeOn; simpl.
  rewrite !filter_fmap, !zsum_fmap; simpl.
  set (js := filter (λ j, Job_NodeID j = Node_ID n) active).
  assert (∀ f, zsum f js = zsum f (filter (λ j, estEnd now j ≤ t) js)
                           + zsum f (filter (λ j, t < estEnd now j) js)) as E.
  { intros f. rewrite (zsum_filter_split (λ j, estEnd now j ≤ t)). f_equal. f_equal.
    apply list_filter_iff. intros j. lia. }
  f_equal.
  - change (λ a, Job_ReqCPUs a) with Job_ReqCPUs. rewrite (E Job_ReqCPUs). lia.
  - change (λ a, Job_ReqMemBytes a) with Job_ReqMemBytes. rewrite (E Job_ReqMemBytes). lia.
  - rewrite (E (λ j, countJobMatching j n (Job_GPUType b))). lia.
Qed.

(** [nodeReservationTime] with the occupancy computed. *)
Lemma nodeReservationTime_unfold now b n active :
  Node_wf n → Forall Job_wf active → not_overcommitted n active →
  let occs := occupations now b n active in
  let a := {| av_cpus := Node_CPUs n - zsum occ_cpus occs;
              av_mem := Node_MemTotalBytes n - zsum occ_mem occs;
              av_match := countMatchingDevices (Node_Devices n) (Job_GPUType b) - zsum occ_match occs |} in
  in_range a occs ∧ Forall occ_wf occs ∧
  nodeReservationTime now b n active =
    if fits b a then Some now else releaseUntil b a (sort_by occLess occs).
Proof.
  intros [Hc Hm] Ha [Sc Sm]. simpl.
  pose proof (occupations_wf now b n active Ha) as Hwf.
  assert (zsum occ_cpus (occupations now b n active) = zsum Job_ReqCPUs (activeOn (Node_ID n) active)) as Ec
    by (unfold occupations; by rewrite zsum_fmap).
  assert (zsum occ_mem (occupations now b n active) = zsum Job_ReqMemBytes (activeOn (Node_ID n) active)) as Em
    by (unfold occupations; by rewrite zsum_fmap).
  split; [|split]; [|done|].
  - unfold in_range; simpl. unfold is_u32, is_u64 in *. lia.
  - unfold nodeReservationTime. by rewrite occupy_all by (simpl; done || lia).
Qed.

(** ** Free resources only shrink during a run *)

Record fn_le (fn' fn : freeNode) : Prop := {
  fle_part : fn_partition fn' = fn_partition fn;
  fle_cpus : fn_cpus fn' ≤ fn_cpus fn;
  fle_mem : fn_mem fn' ≤ fn_mem fn;
  fle_devs : fn_devices fn' `sublist_of` fn_devices fn
}.
#[export] Instance fn_le_refl : Reflexive fn_le.
Proof. by split. Qed.
#[export] Instance fn_le_trans : Transitive fn_le.
Proof. intros a b c [] []. split; try congruence; try lia. by etrans. Qed.

Definition fn_wf (fn : freeNode) : Prop := is_u32 (fn_cpus fn) ∧ is_u64 (fn_mem fn).

Lemma sublist_length_filter {A} (P : A → Prop) `{∀ x, base.Decision (P x)} (l k : list A) :
  l `sublist_of` k → (length (filter P l) ≤ length (filter P k))%nat.
Proof.
  induction 1 as [|x l k _ IH|x l k _ IH]; [done|..]; rewrite !filter_cons; case_decide; simpl; lia.
Qed.

Lemma canHost_mono job fn' fn :
  is_u32 (Job_ReqGPUs job) → fn_le fn' fn → canHost job fn' = true → canHost job fn = true.
Proof.
  intros Hg [Hp Hc Hm Hd] H1. pose proof (canHost_props _ _ H1) as (Hpart & Hcpu & Hmem & Hpick).
  unfold canHost in *. rewrite !andb_true_iff in *. rewrite !Z.leb_le.
  destruct H1 as [[[H1 _] _] _]. rewrite Hp in H1. split; [split; [split; [done|lia]|lia]|].
  apply bool_decide_eq_true_2. rewrite pickDevices_spec in Hpick |- * by done.
  case_decide as Hl; [|by destruct Hpick]. rewrite decide_True; [by eexists|].
  etrans; [exact Hl|]. by apply sublist_length_filter.
Qed.

Lemma consume_le fn job devs :
  fn_wf fn → Job_wf job → fn_le (consume fn job devs) fn ∧ fn_wf (consume fn job devs).
Proof.
  intros [Hc Hm] [Jc Jm _ _ _].
  pose proof (subU32_max _ (Job_ReqCPUs job) Hc ltac:(unfold is_u32 in Jc; lia)) as Ec.
  pose proof (subU64_max _ (Job_ReqMemBytes job) Hm ltac:(unfold is_u64 in Jm; lia)) as Em.
  unfold is_u32, is_u64 in *. split; [split; simpl; try done|split; simpl; unfold is_u32, is_u64]; try lia.
  rewrite removeFreeDevices_filter. apply sublist_filter.
Qed.

Lemma planStep_le now nodes active policy st job :
  Job_wf job → Forall fn_wf (ps_order st) →
  Forall2 fn_le (ps_order (planStep now nodes active policy st job)) (ps_order st) ∧
  Forall fn_wf (ps_order (planStep now nodes active policy st job)) ∧
  ps_decisions st `prefix_of` ps_decisions (planStep now nodes active policy st job) ∧
  (∀ t, ps_res st = Some t → ps_res (planStep now nodes active policy st job) = Some t).
Proof.
  intros Hj Hw. assert (Forall2 fn_le (ps_order st) (ps_order st)) as Hrefl by done.
  unfold planStep. destruct (selectFit job (ps_order st)) as [[[i fn] devs]|] eqn:Es.
  - case_match; [done|]. simpl.
    apply selectFit_Some in Es as (Hi & _).
    destruct (consume_le fn job devs (proj1 (Forall_lookup _ _) Hw _ _ Hi) Hj) as [Hle Hwf].
    split; [|split; [|split]]; [|by apply Forall_insert|by eexists|done].
    rewrite <-(list_insert_id (ps_order st) i fn Hi) at 2. by apply Forall2_insert.
  - repeat case_match; simpl; repeat split; try done. intros t Ht.
    bool_to_prop. congruence.
Qed.

Lemma planRun_le now nodes active policy st jobs :
  Forall Job_wf jobs → Forall fn_wf (ps_order st) →
  let st' := foldl (planStep now nodes active policy) st jobs in
  Forall2 fn_le (ps_order st') (ps_order st) ∧ Forall fn_wf (ps_order st') ∧
  ps_decisions st `prefix_of` ps_decisions st' ∧
  (∀ t, ps_res st = Some t → ps_res st' = Some t).
Proof.
  intros Hj; revert st; induction Hj as [|job jobs Hjob Hjobs IH]; intros st Hw; simpl; [done|].
  destruct (planStep_le now nodes active policy st job Hjob Hw) as (H1 & H2 & H3 & H4).
  destruct (IH _ H2) as (H5 & H6 & H7 & H8). split; [|split; [|split]]; [by etrans|done|by etrans|auto].
Qed.

Lemma planStart_wf nodes active :
  NoDup (Node_ID <$> nodes) → Forall Node_wf nodes → Forall Job_wf active →
  Forall fn_wf (ps_order (planStart nodes active)).
Proof.
  intros Hnd Hnw Haw. apply Forall_forall. intros fn Hfn. simpl in Hfn.
  apply nodeOrder_elem in Hfn as (n & Hn & _ & ->); [|done]. rewrite Forall_forall in Hnw.
  destruct (charged_res n active (Hnw n Hn) Haw) as (E1 & E2 & _). destruct (Hnw n Hn) as [Hc Hm].
  unfold fn_wf. rewrite E1, E2. unfold is_u32, is_u64 in *.
  assert (0 ≤ zsum Job_ReqCPUs (activeOn (Node_ID n) active) ∧
          0 ≤ zsum Job_ReqMemBytes (activeOn (Node_ID n) active)) as [? ?]; [|lia].
  split; apply zsum_nonneg, Forall_forall; intros j [_ Hj]%list_elem_of_filter;
    rewrite Forall_forall in Haw; destruct (Haw j Hj); unfold is_u32, is_u64 in *; lia.
Qed.

(** A job considered in a state where it does not fit does not fit later either. *)
Lemma unfit_later now nodes active policy st jobs job :
  Forall Job_wf jobs → Job_wf job → Forall fn_wf (ps_order st) →
  Forall (λ fn, canHost job fn = false) (ps_order st) →
  Forall (λ fn, canHost job fn = false)
    (ps_order (foldl (planStep now nodes active policy) st jobs)).
Proof.
  intros Hjs Hj Hw Hno. destruct (planRun_le now nodes active policy st jobs Hjs Hw) as (Hle & _).
  rewrite Forall_forall. intros fn' Hin. apply list_elem_of_lookup in Hin as [i Hi].
  destruct (Forall2_lookup_l _ _ _ _ _ Hle Hi) as (fn & Hfn & Hlefn).
  rewrite Forall_forall in Hno. specialize (Hno fn ltac:(by eapply list_elem_of_lookup_2)).
  destruct (canHost job fn') eqn:E; [|done].
  by rewrite (canHost_mono job fn' fn (jwf_gpus _ Hj) Hlefn E) in Hno.
Qed.

#[export] Instance nodeLess_strict : StrictWeak (λ _, True) nodeLess.
Proof.
  unfold nodeLess. split; intros *.
  - by apply (sw_asym (P := λ _, True) (less := str_ltb)).
  - by apply (sw_trans (P := λ _, True) (less := str_ltb)).
Qed.

(** ** Decisions taken under a reservation *)

Lemma planRun_reserved now nodes active policy t st jobs :
  Policy_Backfill policy = true → ps_res st = Some t →
  ∃ ds, ps_decisions (foldl (planStep now nodes active policy) st jobs) = ps_decisions st ++ ds ∧
        ∀ d, d ∈ ds → ∃ j, j ∈ jobs ∧ Decision_JobID d = Job_ID j ∧ backfillAllowed now j t = true.
Proof.
  intros Hb; revert st; induction jobs as [|job jobs IH]; intros st Hr; simpl.
  { exists []. rewrite app_nil_r. split; [done|]. by intros d ?%elem_of_nil. }
  assert (ps_res (planStep now nodes active policy st job) = Some t) as Hr'.
  { unfold planStep. repeat case_match; simpl; try done. bool_to_prop. congruence. }
  destruct (IH _ Hr') as (ds & E & Hds).
  destruct (planStep_cases now nodes active policy st job)
    as [[_ E2]|(i & fn & devs & _ & E2 & Hbf)].
  - exists ds. rewrite E, E2. split; [done|]. intros d Hd. destruct (Hds d Hd) as (j & ? & ?).
    exists j. split; [set_solver|done].
  - exists (mkDecision (Job_ID job) (fn_id fn) (fn_name fn) devs :: ds).
    rewrite E, E2. simpl. rewrite <-app_assoc. split; [done|].
    intros d [->|Hd]%elem_of_cons.
    + exists job. split; [set_solver|]. split; [done|]. by apply Hbf.
    + destruct (Hds d Hd) as (j & ? & ?). exists j. split; [set_solver|done].
Qed.

Lemma backfillAllowed_true now j t :
  backfillAllowed now j t = true →
  0 < Job_WalltimeSec j ∧ now + seconds (Job_WalltimeSec j) ≤ t.
Proof.
  unfold backfillAllowed, After, Add. destruct (_ <=? 0) eqn:E; [done|]. intros Ha. bool_to_prop. lia.
Qed.

Lemma plus_nil a : plus a [] = a.
Proof. destruct a; unfold plus; simpl; f_equal; lia. Qed.

Lemma plus_sort a l : plus a (sort_by occLess l) = plus a l.
Proof. unfold plus. f_equal; f_equal; apply zsum_perm, sort_by_perm. Qed.

Lemma in_range_sort a l : in_range a l → in_range a (sort_by occLess l).
Proof.
  unfold in_range.
  by rewrite (zsum_perm occ_cpus _ _ (sort_by_perm occLess l)),
             (zsum_perm occ_mem _ _ (sort_by_perm occLess l)).
Qed.

Lemma reservable_fits b n :
  reservable b n = true →
  fits b {| av_cpus := Node_CPUs n; av_mem := Node_MemTotalBytes n;
            av_match := countMatchingDevices (Node_Devices n) (Job_GPUType b) |} = true.
Proof.
  unfold reservable, fits. intros Hr. bool_to_prop. simpl.
  rewrite !andb_true_iff, !Z.leb_le. split; [lia|].
  assert (u32 (countMatchingDevices (Node_Devices n) (Job_GPUType b))
          ≤ countMatchingDevices (Node_Devices n) (Job_GPUType b)); [|lia].
  apply Z.mod_le; [unfold countMatchingDevices; lia|lia].
Qed.
End proofs.

(** ** The facts about plans that the scheduler builds on *)

Section plan_facts.
Context `{UnicodeCase}.

Lemma plan_no_overcommit now nodes active pending policy :
  NoDup (Node_ID <$> nodes) → Forall Node_wf nodes → Forall Job_wf active → Forall Job_wf pending →
  ∃ ps : list (Job * Decision),
    Plan now nodes active pending policy = ps.*2 ∧ ps.*1 ⊆+ pending ∧
    Forall (λ p, Decision_JobID p.2 = Job_ID p.1) ps ∧
    ∀ n, n ∈ nodes → Node_State n = StateUp →
      load Job_ReqCPUs (Node_ID n) ps
        ≤ Z.max 0 (Node_CPUs n - zsum Job_ReqCPUs (activeOn (Node_ID n) active)) ∧
      load Job_ReqMemBytes (Node_ID n) ps
        ≤ Z.max 0 (Node_MemTotalBytes n - zsum Job_ReqMemBytes (activeOn (Node_ID n) active)).
Proof.
  intros Hnd Hnw Haw Hpw.
  destruct (planRun_inv now nodes active pending policy) as (ps & [Hds Hord Hpl _] & Hsub); [done..|].
  exists ps. split; [done|]. split.
  { rewrite <-(sort_by_perm (jobLess now (Policy_AgeWeight policy)) pending).
    by apply sublist_submseteq. }
  split.
  { eapply Forall_impl; [exact Hpl|]. by intros p (fn0 & _ & E & _). }
  intros n Hn Hup.
  assert (charged n active ∈ nodeOrder (buildFree nodes active)) as Hin
    by (apply nodeOrder_elem; [done|by exists n]).
  apply list_elem_of_lookup in Hin as [k Hk].
  destruct (Forall2_lookup_l _ _ _ _ _ Hord Hk) as (fn & _ & Hacct).
  rewrite Forall_forall in Hnw. destruct (charged_res n active (Hnw n Hn) Haw) as (E1 & E2 & _).
  destruct (charged_static n active) as (E3 & _ & _).
  pose proof (na_cpus _ _ _ Hacct). pose proof (na_mem _ _ _ Hacct).
  pose proof (na_cpus_u32 _ _ _ Hacct). pose proof (na_mem_u64 _ _ _ Hacct).
  rewrite E1, E3 in *. rewrite E2 in *. unfold is_u32, is_u64 in *. lia.
Qed.

Lemma plan_devices_exclusive now nodes active pending policy n :
  NoDup (Node_ID <$> nodes) → Forall Node_wf nodes → Forall Job_wf active → Forall Job_wf pending →
  n ∈ nodes → Node_State n = StateUp → NoDup (device_key <$> Node_Devices n) →
  let given := devs_on (Node_ID n) (Plan now nodes active pending policy) in
  NoDup (alloc_key <$> given) ∧
  ∀ a, a ∈ given → alloc_key a ∈ device_key <$> Node_Devices n ∧
    ∀ j, j ∈ activeOn (Node_ID n) active → alloc_key a ∉ alloc_key <$> Job_Devices j.
Proof.
  intros Hnd Hnw Haw Hpw Hn Hup Hk.
  destruct (planRun_inv now nodes active pending policy) as (ps & [Hds Hord Hpl Hnk] & _); [done..|].
  set (fn0 := charged n active). simpl.
  assert (fn0 ∈ nodeOrder (buildFree nodes active)) as Hin
    by (apply nodeOrder_elem; [done|by exists n]).
  destruct (charged_static n active) as (E3 & _ & _). fold fn0 in E3.
  rewrite Forall_forall in Hnw. destruct (charged_res n active (Hnw n Hn) Haw) as (_ & _ & Ed).
  fold fn0 in Ed.
  assert (fd_key <$> fn_devices (freeOf n) = device_key <$> Node_Devices n) as Ek
    by (simpl; by rewrite <-list_fmap_compose).
  unfold Plan. rewrite Hds, <-E3. split.
  { apply Hnk; [done|]. rewrite Ed, removeFreeDevices_filter. apply NoDup_fmap_filter. by rewrite Ek. }
  intros a Ha. unfold devs_on in Ha. apply list_elem_of_bind in Ha as (d & Ha & Hd).
  apply list_elem_of_filter in Hd as [Hid Hd].
  apply list_elem_of_fmap in Hd as ([j d'] & -> & Hp). simpl in *.
  rewrite Forall_forall in Hpl. destruct (Hpl _ Hp) as (fn1 & Hin1 & _ & Hid1 & _ & _ & _ & Hdev).
  simpl in *. assert (fn1 = fn0) as ->.
  { apply list_elem_of_lookup in Hin as [k0 Hk0], Hin1 as [k1 Hk1].
    assert (k0 = k1) as ->; [|by simplify_eq].
    eapply (NoDup_lookup (fn_id <$> _)); [by apply nodeOrder_NoDup|..]; rewrite list_lookup_fmap;
      [by rewrite Hk0|rewrite Hk1; simpl; congruence]. }
  rewrite Forall_forall in Hdev. destruct (Hdev a Ha) as (dv & Hdv & -> & _).
  rewrite Ed, removeFreeDevices_filter, list_elem_of_filter in Hdv. destruct Hdv as [Hfree Hdv].
  split; [rewrite <-Ek; by apply list_elem_of_fmap_2|].
  intros j' Hj' Hin'. apply Hfree. apply list_elem_of_fmap in Hin' as (x & Ex & Hx).
  rewrite Ex. apply list_elem_of_fmap_2, list_elem_of_bind. rewrite E3 in Hj'. by exists j'.
Qed.

Lemma plan_placement now nodes active pending policy d :
  NoDup (Node_ID <$> nodes) → Forall Node_wf nodes → Forall Job_wf active → Forall Job_wf pending →
  d ∈ Plan now nodes active pending policy →
  ∃ j n, j ∈ pending ∧ n ∈ nodes ∧ Node_State n = StateUp ∧
    Decision_JobID d = Job_ID j ∧ Decision_NodeID d = Node_ID n ∧ Decision_NodeName d = Node_Name n ∧
    (Job_Partition j = "" ∨ Job_Partition j = Node_Partition n) ∧
    Z.of_nat (length (Decision_Devices d)) = Job_ReqGPUs j ∧
    Forall (λ a, ∃ dv, dv ∈ Node_Devices n ∧ alloc_key a = device_key dv ∧
                       matchName (Device_Name dv) (Job_GPUType j) = true) (Decision_Devices d).
Proof.
  intros Hnd Hnw Haw Hpw Hd.
  destruct (planRun_inv now nodes active pending policy) as (ps & [Hds Hord Hpl _] & Hsub); [done..|].
  unfold Plan in Hd. rewrite Hds in Hd. apply list_elem_of_fmap in Hd as ([j d'] & -> & Hp). simpl.
  rewrite Forall_forall in Hpl. destruct (Hpl _ Hp) as (fn0 & Hin & H1 & H2 & H3 & H4 & H5 & H6).
  simpl in *. apply nodeOrder_elem in Hin as (n & Hn & Hup & ->); [|done].
  destruct (charged_static n active) as (E1 & E2 & E3).
  rewrite Forall_forall in Hnw. destruct (charged_res n active (Hnw n Hn) Haw) as (_ & _ & Ed).
  exists j, n. rewrite E1, E2, E3 in *. repeat split; try done.
  - apply (elem_of_sort_by (jobLess now (Policy_AgeWeight policy))).
    eapply elem_of_submseteq; [|by apply sublist_submseteq].
    apply list_elem_of_fmap. by exists (j, d').
  - eapply Forall_impl; [exact H6|]. intros a (dv & Hdv & Ea & Hm). simpl in Hdv.
    rewrite Ed, removeFreeDevices_filter, list_elem_of_filter in Hdv. destruct Hdv as [_ Hdv].
    simpl in Hdv. apply list_elem_of_fmap in Hdv as (x & -> & Hx). by exists x.
Qed.

Lemma plan_ids_sublist now nodes active pending policy :
  NoDup (Node_ID <$> nodes) → Forall Node_wf nodes → Forall Job_wf active → Forall Job_wf pending →
  Decision_JobID <$> Plan now nodes active pending policy `sublist_of`
    Job_ID <$> planSorted now pending policy.
Proof.
  intros Hnd Hnw Haw Hpw.
  destruct (planRun_inv now nodes active pending policy) as (ps & [Hds _ Hpl _] & Hsub); [done..|].
  unfold Plan. rewrite Hds, <-list_fmap_compose.
  assert (Decision_JobID ∘ snd <$> ps = Job_ID <$> ps.*1) as ->; [|by apply fmap_sublist].
  rewrite <-list_fmap_compose. apply list_fmap_ext. intros k p Hp.
  rewrite Forall_forall in Hpl. by destruct (Hpl p ltac:(by eapply list_elem_of_lookup_2))
    as (? & _ & E & _).
Qed.

Lemma plan_ids_nodup now nodes active pending policy :
  NoDup (Node_ID <$> nodes) → Forall Node_wf nodes → Forall Job_wf active → Forall Job_wf pending →
  NoDup (Job_ID <$> pending) → NoDup (Decision_JobID <$> Plan now nodes active pending policy).
Proof.
  intros Hnd Hnw Haw Hpw Hq. eapply sublist_NoDup; [|by apply plan_ids_sublist].
  unfold planSorted. by rewrite sort_by_perm.
Qed.
End plan_facts.
