(* ===== verification/PlanTheorems.v ===== *)
(** * What [Plan] guarantees

    The properties of the scheduler's decision function, each with a run on a small cluster
    where its hypotheses hold. *)
From S2P Require Import Prelude GoBase GoStrings GoFloat Event Store Plan PlanProofs.
Local Open Scope Z_scope.

(** ** A small cluster *)

Module Example_cluster.
Definition gpu (i : Z) (name : string) : Device := mkDevice "gpu" "nvidia" i "" 0 name.

Definition node_a : Node :=
  mkNode "ida" "a" "gpu" StateUp "" 8 64 [gpu 0 "A100"; gpu 1 "A100"; gpu 2 "V100"] ∅ "" 1.
Definition node_b : Node := mkNode "idb" "b" "cpu" StateUp "" 4 32 [] ∅ "" 1.
Definition node_c : Node := mkNode "idc" "c" "gpu" StateDown "" 64 512 [gpu 0 "A100"] ∅ "" 1.
Definition nodes : list Node := [node_b; node_a; node_c].

Definition now : Time := timeUnix 1000.

Definition job (id part : string) (prio cpus gpus : Z) (gt : string) (wall submit : Z)
    (state node : string) (devs : list AllocDevice) (start : Z) : Job :=
  mkJob id "" "u" part state prio "true" ∅ "" cpus 1 gpus gt wall node "" devs 0 ""
    (timeUnix submit) (if start =? 0 then 0 else timeUnix start) 0.

(** A running job on node [a] holding the GPU 0 until second 1060. *)
Definition active : list Job :=
  [job "r" "gpu" 0 2 1 "" 100 500 JobRunning "ida" [mkAlloc "gpu" 0] 960].

(** A job that needs both A100s is blocked until then; a 30 s job may be backfilled, a 2 h job
    may not. *)
Definition big : Job := job "big" "gpu" 5 1 2 "a100" 0 600 JobPending "" [] 0.
Definition short : Job := job "short" "gpu" 1 1 1 "" 30 700 JobPending "" [] 0.
Definition long : Job := job "long" "" 1 1 0 "" 7200 650 JobPending "" [] 0.
Definition first : Job := job "first" "cpu" 9 3 0 "" 0 900 JobPending "" [] 0.
Definition pending : list Job := [short; long; big; first].

Definition policy : Policy := mkPolicy true (f64 0).
Definition fifo : Policy := mkPolicy false (f64 1).

Example run : @Plan ascii_case now nodes active pending policy =
  [mkDecision "first" "idb" "b" []; mkDecision "short" "ida" "a" [mkAlloc "gpu" 1]].
Proof. vm_compute. reflexivity. Qed.
End Example_cluster.
Import Example_cluster.

Section theorems.
Context `{UnicodeCase}.

(** [C1] The decisions never promise more of a node than it has left: on every UP node the CPUs
    (and the memory) asked for by the jobs placed there fit in what the active jobs leave
    free, the active demand being subtracted down to zero.  Every decision is for a distinct
    element of the pending list. *)
Theorem Plan_no_overcommit now nodes active pending policy :
  NoDup (Node_ID <$> nodes) → Forall Node_wf nodes → Forall Job_wf active → Forall Job_wf pending →
  ∃ ps : list (Job * Decision),
    Plan now nodes active pending policy = ps.*2 ∧ ps.*1 ⊆+ pending ∧
    Forall (λ p, Decision_JobID p.2 = Job_ID p.1) ps ∧
    ∀ n, n ∈ nodes → Node_State n = StateUp →
      load Job_ReqCPUs (Node_ID n) ps
        ≤ Z.max 0 (Node_CPUs n - zsum Job_ReqCPUs (activeOn (Node_ID n) active)) ∧
      load Job_ReqMemBytes (Node_ID n) ps
        ≤ Z.max 0 (Node_MemTotalBytes n - zsum Job_ReqMemBytes (activeOn (Node_ID n) active)).
Proof. apply plan_no_overcommit. Qed.

(** [C2] Accelerators are handed out exclusively: the devices that the decisions give out on an UP
    node that names each of its devices once are devices of that node, none of them twice, and none held by an active job there. *)
Theorem Plan_devices_exclusive now nodes active pending policy n :
  NoDup (Node_ID <$> nodes) → Forall Node_wf nodes → Forall Job_wf active → Forall Job_wf pending →
  n ∈ nodes → Node_State n = StateUp → NoDup (device_key <$> Node_Devices n) →
  let given := devs_on (Node_ID n) (Plan now nodes active pending policy) in
  NoDup (alloc_key <$> given) ∧
  ∀ a, a ∈ given → alloc_key a ∈ device_key <$> Node_Devices n ∧
    ∀ j, j ∈ activeOn (Node_ID n) active → alloc_key a ∉ alloc_key <$> Job_Devices j.
Proof. apply plan_devices_exclusive. Qed.

(** [C20] Every decision answers a pending job and honours its request: the node is UP and of the
    job's partition (when it names one), and the job gets exactly [ReqGPUs] devices, all of the
    node and of a model that matches [GPUType]. *)
Theorem Plan_placement now nodes active pending policy d :
  NoDup (Node_ID <$> nodes) → Forall Node_wf nodes → Forall Job_wf active → Forall Job_wf pending →
  d ∈ Plan now nodes active pending policy →
  ∃ j n, j ∈ pending ∧ n ∈ nodes ∧ Node_State n = StateUp ∧
    Decision_JobID d = Job_ID j ∧ Decision_NodeID d = Node_ID n ∧ Decision_NodeName d = Node_Name n ∧
    (Job_Partition j = "" ∨ Job_Partition j = Node_Partition n) ∧
    Z.of_nat (length (Decision_Devices d)) = Job_ReqGPUs j ∧
    Forall (λ a, ∃ dv, dv ∈ Node_Devices n ∧ alloc_key a = device_key dv ∧
                       matchName (Device_Name dv) (Job_GPUType j) = true) (Decision_Devices d).
Proof. apply plan_placement. Qed.

(** [C21] Decisions come out in scheduling order: there is an arrangement of the pending jobs, by
    effective priority downwards and submission time upwards, of which the decided jobs are a
    subsequence; ties keep the order of the queue.  A job with an unambiguous id is decided at
    most once. *)
Theorem Plan_priority_order now nodes active pending policy :
  NoDup (Node_ID <$> nodes) → Forall Node_wf nodes → Forall Job_wf active → Forall Job_wf pending →
  let pri j := effPriority j now (Policy_AgeWeight policy) in
  ∃ queue, queue ≡ₚ pending ∧
    StronglySorted (λ a b, fltb (pri a) (pri b) = false ∧
      (feqb (pri a) (pri b) = true → Job_SubmitAt a ≤ Job_SubmitAt b)) queue ∧
    (∀ a, a ∈ pending →
      let tie b := feqb (pri a) (pri b) = true ∧ Job_SubmitAt a = Job_SubmitAt b in
      filter tie queue = filter tie pending) ∧
    Decision_JobID <$> Plan now nodes active pending policy `sublist_of` Job_ID <$> queue ∧
    (NoDup (Job_ID <$> pending) →
     NoDup (Decision_JobID <$> Plan now nodes active pending policy)).
Proof.
  intros Hnd Hnw Haw Hpw pri.
  destruct (planRun_inv now nodes active pending policy) as (ps & [Hds _ Hpl _] & Hsub); [done..|].
  pose proof (plan_ids_sublist now nodes active pending policy Hnd Hnw Haw Hpw) as Hids.
  exists (planSorted now pending policy). split; [apply sort_by_perm|]. split; [|split; [|split]].
  - apply jobLess_sorted_spec; [by apply planSorted_sorted|].
    unfold planSorted. by rewrite sort_by_perm.
  - intros a Ha. by apply planSorted_stable.
  - done.
  - by apply plan_ids_nodup.
Qed.

(** What is left out of a plan. *)
Lemma plan_maximal now nodes active pending policy j :
  NoDup (Node_ID <$> nodes) → Forall Node_wf nodes → Forall Job_wf active → Forall Job_wf pending →
  j ∈ pending →
  let run := planRun now nodes active pending policy in
  Job_ID j ∈ Decision_JobID <$> ps_decisions run ∨
  Forall (λ fn, canHost j fn = false) (ps_order run) ∨
  (Policy_Backfill policy = true ∧
   ∃ t, ps_res run = Some t ∧ backfillAllowed now j t = false).
Proof.
  intros Hnd Hnw Haw Hpw Hj. simpl. unfold planRun.
  pose proof (planStart_wf nodes active Hnd Hnw Haw) as Hw0.
  assert (Forall Job_wf (planSorted now pending policy)) as Hsw
    by (unfold planSorted; by rewrite sort_by_perm).
  assert (j ∈ planSorted now pending policy) as Hjs by by apply elem_of_sort_by.
  apply list_elem_of_split in Hjs as (l1 & l2 & El). rewrite El in *.
  apply Forall_app in Hsw as [Hw1 [Hwj Hw2]%Forall_cons].
  rewrite foldl_app; simpl. set (st1 := foldl _ _ l1).
  destruct (planRun_le now nodes active policy (planStart nodes active) l1 Hw1 Hw0)
    as (_ & Hst1 & _ & _). fold st1 in Hst1.
  destruct (planStep_le now nodes active policy st1 j Hwj Hst1) as (_ & Hst2 & _ & _).
  destruct (planRun_le now nodes active policy (planStep now nodes active policy st1 j) l2 Hw2 Hst2)
    as (_ & _ & [ds Hds] & Hres).
  destruct (selectFit j (ps_order st1)) as [[[i fn] devs]|] eqn:Es.
  - destruct (Policy_Backfill policy && match ps_res st1 with
      | Some t => negb (backfillAllowed now j t) | None => false end) eqn:Eb.
    + right; right. apply andb_true_iff in Eb as [Eb1 Eb2]. split; [done|].
      destruct (ps_res st1) as [t|] eqn:Et; [|done]. exists t. bool_to_prop. split; [|done].
      apply Hres. unfold planStep. rewrite Es, Et, Eb1. simpl. by rewrite Eb2.
    + left. rewrite Hds, fmap_app. unfold planStep. rewrite Es, Eb. simpl.
      rewrite fmap_app. set_solver.
  - right; left. apply selectFit_None in Es. apply unfit_later; [done|done|done|].
    unfold planStep. rewrite (proj2 (selectFit_None j (ps_order st1)) Es).
    by repeat case_match.
Qed.

(** [C17] The plan is maximal: a pending job without a decision does not fit in what the run
    leaves free on any node, unless backfill holds it back because it could not be shown to end
    before the reservation. *)
Theorem Plan_maximal now nodes active pending policy j :
  NoDup (Node_ID <$> nodes) → Forall Node_wf nodes → Forall Job_wf active → Forall Job_wf pending →
  j ∈ pending →
  let run := planRun now nodes active pending policy in
  Job_ID j ∈ Decision_JobID <$> ps_decisions run ∨
  Forall (λ fn, canHost j fn = false) (ps_order run) ∨
  (Policy_Backfill policy = true ∧
   ∃ t, ps_res run = Some t ∧ backfillAllowed now j t = false).
Proof. apply plan_maximal. Qed.

(** [C18] EASY backfill: once a job [b] is blocked and reserved for the instant [t], every job
    that is still started in the same run, all of them behind [b] in the queue, has a bounded
    walltime and, started now, ends by [t]. *)
Theorem Plan_backfill_safe now nodes active pending policy l1 b l2 t :
  Policy_Backfill policy = true →
  planSorted now pending policy = l1 ++ b :: l2 →
  let st := foldl (planStep now nodes active policy) (planStart nodes active) l1 in
  ps_res st = None → selectFit b (ps_order st) = None →
  reservationTime now b nodes active = Some t →
  ∃ ds, Plan now nodes active pending policy = ps_decisions st ++ ds ∧
    ∀ d, d ∈ ds → ∃ j, j ∈ l2 ∧ Decision_JobID d = Job_ID j ∧
      0 < Job_WalltimeSec j ∧ now + seconds (Job_WalltimeSec j) ≤ t.
Proof.
  intros Hb El st Hnone Hsel Hres. unfold Plan, planRun. rewrite El, foldl_app. simpl. fold st.
  assert (planStep now nodes active policy st b =
          {| ps_order := ps_order st; ps_decisions := ps_decisions st; ps_res := Some t |}) as ->.
  { unfold planStep. by rewrite Hsel, Hb, Hnone, Hres. }
  destruct (planRun_reserved now nodes active policy t
    {| ps_order := ps_order st; ps_decisions := ps_decisions st; ps_res := Some t |} l2 Hb eq_refl)
    as (ds & -> & Hds).
  exists ds. split; [done|]. intros d Hd. destruct (Hds d Hd) as (j & Hj & Hid & Ha).
  exists j. by apply backfillAllowed_true in Ha.
Qed.

(** [C19] The reservation on a node whose active jobs do not ask for more than it has is the least
    instant at which the blocked job fits there, if every active job ends at its estimated end;
    it exists whenever the job fits on the empty node.  On an overcommitted node it can be too
    early ([nodeReservationTime_overcommitted]). *)
Theorem nodeReservationTime_least now b n active :
  Node_wf n → Forall Job_wf active → not_overcommitted n active → reservable b n = true →
  ∃ t, nodeReservationTime now b n active = Some t ∧ now ≤ t ∧
    fits b (freeAt now b n active t) = true ∧
    ∀ t', now ≤ t' < t → fits b (freeAt now b n active t') = false.
Proof.
  intros Hn Ha Hno Hres.
  pose proof (nodeReservationTime_unfold now b n active Hn Ha Hno) as (Hr & Hwf & E).
  pose proof (availBy_freeAt now b n active) as Ef. simpl in Hr, E, Ef.
  set (occs := occupations now b n active) in *.
  set (a := {| av_cpus := Node_CPUs n - _; av_mem := _; av_match := _ |}) in *.
  rewrite E. destruct (fits b a) eqn:Efit.
  - exists now. split; [done|]. split; [lia|]. split; [|lia]. rewrite <-Ef. revert Efit.
    destruct (occ_sums (filter (λ o, occ_end o ≤ now) occs)) as (? & ? & ?); [by apply Forall_filter|].
    apply fits_mono; simpl; lia.
  - assert (fits b (plus a occs) = true) as Hall.
    { apply reservable_fits in Hres. revert Hres. apply fits_mono; simpl; lia. }
    destruct (releaseUntil b a (sort_by occLess occs)) as [t|] eqn:Eu.
    + exists t. split; [done|]. pose proof Eu as Et.
      apply releaseUntil_least in Eu as [Hfit Hmin]; [|done..].
      rewrite Ef in Hfit. split; [|split; [done|]].
      * apply releaseUntil_Some in Et as (m1 & o & m2 & Es & -> & _);
          [|by apply in_range_sort|by rewrite sort_by_perm].
        assert (o ∈ occs) as Ho by (apply (elem_of_sort_by occLess); rewrite Es; set_solver).
        apply list_elem_of_fmap in Ho as (j & -> & _). apply estEnd_ge.
      * intros t' [_ Ht']. rewrite <-Ef. by apply Hmin.
    + destruct (decide (occs = [])) as [E0|Hne].
      * exfalso. revert Hall. rewrite E0. rewrite plus_nil. by rewrite Efit.
      * exfalso. apply releaseUntil_None in Eu; [|by apply in_range_sort|by rewrite sort_by_perm|].
        -- rewrite plus_sort in Eu. congruence.
        -- intros En. apply Hne. apply Permutation_nil. by rewrite <-En, sort_by_perm.
Qed.

(** When the active jobs ask for more than the node has, as after its inventory has shrunk, the
    saturating subtraction forgets the excess and each end releases too much: with two jobs of 6
    CPUs on a node of 8, a job of 6 is given a reservation at the end of the first, when only 2
    are free. *)
Theorem nodeReservationTime_overcommitted :
  let held start := job "r" "gpu" 0 6 0 "" 100 500 JobRunning "ida" [] start in
  let active := [held 960; held 990] in
  let blocked := job "big" "gpu" 5 6 0 "" 0 600 JobPending "" [] 0 in
  nodeReservationTime now blocked node_a active = Some (timeUnix 1060) ∧
  av_cpus (freeAt now blocked node_a active (timeUnix 1060)) = 2 ∧
  fits blocked (freeAt now blocked node_a active (timeUnix 1060)) = false.
Proof. split_and!; vm_compute; reflexivity. Qed.

(** When the walltime fits in a [time.Duration], a job is let through the reservation exactly
    if it is bounded and ends by then. *)
Theorem backfillAllowed_exact now j t :
  Job_WalltimeSec j * Second < 2 ^ 63 →
  backfillAllowed now j t = true ↔
  0 < Job_WalltimeSec j ∧ now + Job_WalltimeSec j * Second ≤ t.
Proof.
  intros Hw. unfold backfillAllowed, After, Add, Second in *.
  destruct (Z.leb_spec (Job_WalltimeSec j) 0); [split; [done|lia]|].
  unfold seconds, mul64, Second. rewrite i64_small by (unfold is_i64; lia).
  rewrite negb_true_iff, Z.ltb_ge. lia.
Qed.

(** Beyond that the multiplication wraps: a job that asks for 18446744074 s (584 years) is
    let through a reservation one second away. *)
Theorem backfillAllowed_overflow now j :
  Job_WalltimeSec j = 18446744074 →
  backfillAllowed now j (now + Second) = true ∧ now + Second < now + Job_WalltimeSec j * Second.
Proof.
  intros E. unfold backfillAllowed, After, Add. rewrite E. split; [|unfold Second; lia].
  change (seconds 18446744074) with 290448384. unfold Second. simpl.
  apply negb_true_iff, Z.ltb_ge. lia.
Qed.

(** The order of Go's map iteration is irrelevant: with distinct node names, sorting the free
    nodes gives the same list whatever order they were collected in. *)
Theorem nodeOrder_deterministic (frees : gmap string freeNode) (l : list freeNode) :
  l ≡ₚ (map_to_list frees).*2 → NoDup (fn_name <$> l) → sort_by nodeLess l = nodeOrder frees.
Proof.
  intros Hp Hnd. apply (sort_by_unique nodeLess (λ _, True)); [by apply Forall_true| |done].
  intros a b [i Hi]%list_elem_of_lookup [k Hk]%list_elem_of_lookup H1 H2.
  pose proof (str_ltb_total _ _ H1 H2) as E.
  assert (i = k) as ->; [|congruence].
  eapply (NoDup_lookup (fn_name <$> l)); [done|..]; rewrite list_lookup_fmap;
    [by rewrite Hi|by rewrite Hk; simpl; rewrite E].
Qed.
End theorems.

Lemma Plan_no_overcommit_witness :
  ∃ ps : list (Job * Decision),
    @Plan ascii_case now nodes active pending policy = ps.*2 ∧ ps.*1 ⊆+ pending ∧
    Forall (λ p, Decision_JobID p.2 = Job_ID p.1) ps ∧
    ∀ n, n ∈ nodes → Node_State n = StateUp →
      load Job_ReqCPUs (Node_ID n) ps
        ≤ Z.max 0 (Node_CPUs n - zsum Job_ReqCPUs (activeOn (Node_ID n) active)) ∧
      load Job_ReqMemBytes (Node_ID n) ps
        ≤ Z.max 0 (Node_MemTotalBytes n - zsum Job_ReqMemBytes (activeOn (Node_ID n) active)).
Proof. apply (@Plan_no_overcommit ascii_case); by_decide. Defined.

Lemma Plan_devices_exclusive_witness :
  let given := devs_on "ida" (@Plan ascii_case now nodes active pending policy) in
  given = [mkAlloc "gpu" 1] ∧ NoDup (alloc_key <$> given).
Proof.
  split; [vm_compute; reflexivity|].
  apply (@Plan_devices_exclusive ascii_case now nodes active pending policy node_a); by_decide.
Defined.

Lemma Plan_placement_witness :
  ∃ j n, j ∈ pending ∧ n ∈ nodes ∧ Node_State n = StateUp ∧ "short" = Job_ID j ∧ "ida" = Node_ID n ∧
    "a" = Node_Name n ∧ (Job_Partition j = "" ∨ Job_Partition j = Node_Partition n) ∧
    1 = Job_ReqGPUs j ∧
    Forall (λ a, ∃ dv, dv ∈ Node_Devices n ∧ alloc_key a = device_key dv ∧
                       @matchName ascii_case (Device_Name dv) (Job_GPUType j) = true) [mkAlloc "gpu" 1].
Proof.
  apply (@Plan_placement ascii_case now nodes active pending policy
           (mkDecision "short" "ida" "a" [mkAlloc "gpu" 1])); by_decide.
Defined.

Lemma Plan_priority_order_witness :
  let pri j := effPriority j now (Policy_AgeWeight policy) in
  ∃ queue, queue ≡ₚ pending ∧
    StronglySorted (λ a b, fltb (pri a) (pri b) = false ∧
      (feqb (pri a) (pri b) = true → Job_SubmitAt a ≤ Job_SubmitAt b)) queue ∧
    (∀ a, a ∈ pending →
      let tie b := feqb (pri a) (pri b) = true ∧ Job_SubmitAt a = Job_SubmitAt b in
      filter tie queue = filter tie pending) ∧
    ["first"; "short"] `sublist_of` Job_ID <$> queue ∧
    (NoDup (Job_ID <$> pending) → NoDup ["first"; "short"]).
Proof. apply (@Plan_priority_order ascii_case now nodes active pending policy); by_decide. Defined.

Lemma Plan_maximal_witness :
  let run := @planRun ascii_case now nodes active pending policy in
  Job_ID long ∈ Decision_JobID <$> ps_decisions run ∨
  Forall (λ fn, @canHost ascii_case long fn = false) (ps_order run) ∨
  (Policy_Backfill policy = true ∧
   ∃ t, ps_res run = Some t ∧ backfillAllowed now long t = false).
Proof. apply (@Plan_maximal ascii_case now nodes active pending policy long); by_decide. Defined.

Lemma Plan_backfill_safe_witness :
  ∃ ds, @Plan ascii_case now nodes active pending policy = [mkDecision "first" "idb" "b" []] ++ ds ∧
    ∀ d, d ∈ ds → ∃ j, j ∈ [long; short] ∧ Decision_JobID d = Job_ID j ∧
      0 < Job_WalltimeSec j ∧ now + seconds (Job_WalltimeSec j) ≤ timeUnix 1060.
Proof.
  apply (@Plan_backfill_safe ascii_case now nodes active pending policy
           [first] big [long; short] (timeUnix 1060)); vm_compute; reflexivity.
Defined.

Lemma nodeReservationTime_least_witness :
  ∃ t, @nodeReservationTime ascii_case now big node_a active = Some t ∧ now ≤ t ∧
    fits big (@freeAt ascii_case now big node_a active t) = true ∧
    ∀ t', now ≤ t' < t → fits big (@freeAt ascii_case now big node_a active t') = false.
Proof.
  apply (@nodeReservationTime_least ascii_case now big node_a active); [by_decide|by_decide| |by_decide].
  split; vm_compute; discriminate.
Defined.

Lemma backfillAllowed_exact_witness :
  backfillAllowed now short (timeUnix 1060) = true ↔
  0 < Job_WalltimeSec short ∧ now + Job_WalltimeSec short * Second ≤ timeUnix 1060.
Proof. apply backfillAllowed_exact. vm_compute. reflexivity. Defined.

Lemma backfillAllowed_overflow_witness :
  let j := job "x" "" 0 1 0 "" 18446744074 1 JobPending "" [] 0 in
  backfillAllowed now j (now + Second) = true ∧ now + Second < now + Job_WalltimeSec j * Second.
Proof. apply backfillAllowed_overflow. vm_compute. reflexivity. Defined.

Lemma nodeOrder_deterministic_witness :
  let frees := buildFree nodes active in
  sort_by nodeLess (reverse (map_to_list frees).*2) = nodeOrder frees.
Proof. apply nodeOrder_deterministic; [apply reverse_Permutation|by_decide]. Defined.
