(* ===== verification/SQLite.v ===== *)
(** * internal/store/sqlite*.go: the SQLite implementation of the store

    The four tables are finite maps from the primary key to a row whose fields are the columns
    of the schema.  A statement either fails, leaving the tables unchanged, or has the effect
    its SQL text describes; which statements fail is given by the list [db_faults], consulted
    once per statement.  JSON columns hold the marshalled text; the encoding is the class
    [Json], and binding a [uint64] argument is the driver's [bind_uint64]. *)
From S2P Require Import Prelude GoBase GoStrings Event Store StoreSpec.
Local Open Scope Z_scope.

(** ** JSON columns and the driver *)

Class Json (A : Type) := {
  json_Marshal : A → result string;
  (** What [json.Unmarshal] leaves in a zero destination, errors being ignored. *)
  json_Unmarshal : string → A
}.

(** Encoding succeeds with a non-empty text, which decodes to the value if that was valid;
    decoding yields valid strings, invalid bytes being replaced. *)
Class JsonLaws (A : Type) `{Json A, JsonValid A} : Prop := {
  json_total a : ∃ s, json_Marshal a = Ok s ∧ s ≠ "";
  json_round a s : json_valid a = true → json_Marshal a = Ok s → json_Unmarshal s = a;
  json_decoded s : json_valid (json_Unmarshal s) = true
}.

Class Driver := {
  bind_uint64 : Z → result Z
}.

(** [database/sql] passes a [uint64] through when its high bit is clear. *)
Class DriverLaws `{Driver} : Prop := {
  bind_small z : 0 ≤ z < 2 ^ 63 → bind_uint64 z = Ok z
}.

(** ** Tables *)

Record NodeRow := mkNodeRow {
  nr_id : string; nr_name : string; nr_partition : string; nr_state : string; nr_addr : string;
  nr_cpus : Z; nr_mem_total_bytes : Z; nr_devices_json : string; nr_labels_json : string;
  nr_agent_version : string; nr_last_heartbeat : Z
}.

Record JobRow := mkJobRow {
  jr_id : string; jr_name : string; jr_owner : string; jr_partition : string; jr_state : string;
  jr_priority : Z; jr_command : string; jr_env_json : string; jr_workdir : string;
  jr_req_cpus : Z; jr_req_mem_bytes : Z; jr_req_gpus : Z; jr_gpu_type : string;
  jr_walltime_sec : Z; jr_node_id : string; jr_node_name : string; jr_devices_json : string;
  jr_exit_code : Z; jr_reason : string; jr_submit_at : Z; jr_start_at : Z; jr_end_at : Z
}.

Record EventRow := mkEventRow {
  er_id : string; er_type : string; er_severity : string; er_source : string;
  er_summary : string; er_dedup_key : string; er_labels_json : string; er_ts : Z
}.

Record NotificationRow := mkNotificationRow {
  ntr_id : string; ntr_event_id : string; ntr_event_type : string; ntr_rule : string;
  ntr_channel : string; ntr_recipients : string; ntr_status : string; ntr_error : string;
  ntr_summary : string; ntr_ts : Z
}.

Record DB := mkDB {
  db_nodes : gmap string NodeRow;
  db_jobs : gmap string JobRow;
  db_events : gmap string EventRow;
  db_notifications : gmap string NotificationRow;
  db_faults : list (option string)
}.

Definition emptyDB : DB := mkDB ∅ ∅ ∅ ∅ [].

Definition with_nodes (m : gmap string NodeRow) (db : DB) : DB :=
  mkDB m (db_jobs db) (db_events db) (db_notifications db) (db_faults db).
Definition with_jobs (m : gmap string JobRow) (db : DB) : DB :=
  mkDB (db_nodes db) m (db_events db) (db_notifications db) (db_faults db).
Definition with_events (m : gmap string EventRow) (db : DB) : DB :=
  mkDB (db_nodes db) (db_jobs db) m (db_notifications db) (db_faults db).
Definition with_notifications (m : gmap string NotificationRow) (db : DB) : DB :=
  mkDB (db_nodes db) (db_jobs db) (db_events db) m (db_faults db).
Definition with_faults (fs : list (option string)) (db : DB) : DB :=
  mkDB (db_nodes db) (db_jobs db) (db_events db) (db_notifications db) fs.

(** One statement: it fails if the fault list says so. *)
Definition stmt {A} (f : ST DB (result A)) : ST DB (result A) := λ db,
  match db_faults db with
  | Some e :: fs => (Err e, with_faults fs db)
  | None :: fs => f (with_faults fs db)
  | [] => f db
  end.

(** Reading the rows of an open query to the end, which may fail too; that error is returned as
    it is. *)
Definition fetch {A} (a : A) : ST DB (result A) := stmt (λ db, (Ok a, db)).

(** [UPDATE t SET ... WHERE p]: the rows changed and their number. *)
Definition update_where {R} (p : R → bool) (set : R → R) (t : gmap string R) : gmap string R :=
  (λ r, if p r then set r else r) <$> t.
Definition count_where {R} (p : R → bool) (t : gmap string R) : Z :=
  Z.of_nat (size (filter (λ kr, p kr.2 = true) t)).

(** [SELECT * FROM t WHERE p ORDER BY ...]. *)
Definition rows_where {R} (p : R → bool) (t : gmap string R) : list R :=
  filter (λ r, p r = true) (map_to_list t).*2.

(** ** Opening: pragmas, then [CREATE TABLE IF NOT EXISTS], which keep an existing database *)

Definition quoted (s : string) : string := String (Ascii.ascii_of_nat 34) s +:+ String (Ascii.ascii_of_nat 34) "".

Definition pragmas : list string :=
  ["PRAGMA journal_mode=WAL;"; "PRAGMA busy_timeout=5000;"; "PRAGMA foreign_keys=ON;"].

(** Statements that leave the tables alone, run in order up to the first failure. *)
Fixpoint execAll (prefixes : list string) : ST DB (result unit) :=
  match prefixes with
  | [] => st_ret (Ok tt)
  | p :: ps => wrap_err p (fetch tt) ?;; execAll ps
  end.

(** [openErr] is the failure of [sql.Open]; the result is the store on the same tables. *)
Definition OpenSQLite (openErr : option string) : ST DB (result unit) :=
  match openErr with
  | Some e => st_ret (Err ("open sqlite: " +:+ e))
  | None => execAll (((λ p, "pragma " +:+ quoted p) <$> pragmas) ++ ["migrate"; "migrate"; "migrate"])
  end.

(** The orders of the queries' [ORDER BY] clauses. *)
Definition byName (a b : NodeRow) : bool := str_ltb (nr_name a) (nr_name b).
Definition bySubmitDescId (a b : JobRow) : bool :=
  (jr_submit_at b <? jr_submit_at a) ||
  ((jr_submit_at a =? jr_submit_at b) && str_ltb (jr_id a) (jr_id b)).
Definition bySubmitId (a b : JobRow) : bool :=
  (jr_submit_at a <? jr_submit_at b) ||
  ((jr_submit_at a =? jr_submit_at b) && str_ltb (jr_id a) (jr_id b)).
Definition byPriorityDescSubmitId (a b : JobRow) : bool :=
  (jr_priority b <? jr_priority a) || ((jr_priority a =? jr_priority b) && bySubmitId a b).
Definition eventByTsDescId (a b : EventRow) : bool :=
  (er_ts b <? er_ts a) || ((er_ts a =? er_ts b) && str_ltb (er_id a) (er_id b)).
Definition noteByTsDescId (a b : NotificationRow) : bool :=
  (ntr_ts b <? ntr_ts a) || ((ntr_ts a =? ntr_ts b) && str_ltb (ntr_id a) (ntr_id b)).

(** ** Times *)

Definition unixToTime (u : Z) : Time := if u <=? 0 then 0 else timeUnix u.
Definition unixOf (t : Time) : Z := if IsZero t then 0 else Unix t.

Section sqlite.
Context `{!Json (list Device), !Json smap, !Json (list AllocDevice), !Driver}.

(** [json.Marshal] and a [uint64] argument as steps of a database method. *)
Definition marshal {A} `{Json A} (a : A) : ST DB (result string) := st_ret (json_Marshal a).
Definition bind_u64 (z : Z) : ST DB (result Z) := st_ret (bind_uint64 z).

(** ** Nodes *)

Definition upsertNode (n : Node) (mem : Z) (devices labels : string) : ST DB (result string) := λ db,
  let hb := Unix (Node_LastHeartbeat n) in
  match rows_where (λ r, bool_decide (nr_name r = Node_Name n)) (db_nodes db) with
  | old :: _ =>
      let r := mkNodeRow (nr_id old) (nr_name old) (Node_Partition n) (Node_State n) (Node_Addr n)
                 (Node_CPUs n) mem devices labels (Node_AgentVersion n) hb in
      (Ok (nr_id old), with_nodes (<[nr_id old := r]> (db_nodes db)) db)
  | [] =>
      match db_nodes db !! Node_ID n with
      | Some _ => (Err "UNIQUE constraint failed: node.id", db)
      | None =>
          let r := mkNodeRow (Node_ID n) (Node_Name n) (Node_Partition n) (Node_State n)
                     (Node_Addr n) (Node_CPUs n) mem devices labels (Node_AgentVersion n) hb in
          (Ok (Node_ID n), with_nodes (<[Node_ID n := r]> (db_nodes db)) db)
      end
  end.

Definition RegisterNode (n : Node) : ST DB (result string) :=
  devices <-? marshal (Node_Devices n) ;;
  labels <-? marshal (Node_Labels n) ;;
  wrap_err "register node"
    (mem <-? bind_u64 (Node_MemTotalBytes n) ;; stmt (upsertNode n mem devices labels)).

Definition heartbeatNode (n : Node) (mem : Z) (devices : string) (t : Time) : ST DB (result Z) := λ db,
  let p r := bool_decide (nr_id r = Node_ID n) in
  (Ok (count_where p (db_nodes db)),
   with_nodes (update_where p (λ r,
     mkNodeRow (nr_id r) (nr_name r) (nr_partition r) StateUp (nr_addr r) (Node_CPUs n) mem devices
       (nr_labels_json r) (nr_agent_version r) (Unix t)) (db_nodes db)) db).

Definition Heartbeat (n : Node) (t : Time) : ST DB (result bool) :=
  devices <-? marshal (Node_Devices n) ;;
  affected <-? wrap_err "heartbeat"
    (mem <-? bind_u64 (Node_MemTotalBytes n) ;; stmt (heartbeatNode n mem devices t)) ;;
  st_ret (Ok (0 <? affected)).

Definition scanNode (r : NodeRow) : Node :=
  mkNode (nr_id r) (nr_name r) (nr_partition r) (nr_state r) (nr_addr r) (nr_cpus r)
    (nr_mem_total_bytes r)
    (if decide (nr_devices_json r = "") then [] else json_Unmarshal (nr_devices_json r))
    (if decide (nr_labels_json r = "") then ∅ else json_Unmarshal (nr_labels_json r))
    (nr_agent_version r)
    (if 0 <? nr_last_heartbeat r then timeUnix (nr_last_heartbeat r) else 0).

Definition ListNodes : ST DB (result (list Node)) :=
  rows <-? wrap_err "list nodes" (stmt (λ db,
    (Ok (sort_by byName (map_to_list (db_nodes db)).*2), db))) ;;
  fetch (scanNode <$> rows).

Definition GetNode (id : string) : ST DB (result (option Node)) :=
  wrap_err "get node" (stmt (λ db, (Ok (scanNode <$> db_nodes db !! id), db))).

Definition MarkStaleDown (olderThan : Time) : ST DB (result Z) :=
  wrap_err "mark stale down" (stmt (λ db,
    let p r := (nr_last_heartbeat r <? Unix olderThan) && bool_decide (nr_state r ≠ StateDown) in
    (Ok (count_where p (db_nodes db)),
     with_nodes (update_where p (λ r,
       mkNodeRow (nr_id r) (nr_name r) (nr_partition r) StateDown (nr_addr r) (nr_cpus r)
         (nr_mem_total_bytes r) (nr_devices_json r) (nr_labels_json r) (nr_agent_version r)
         (nr_last_heartbeat r)) (db_nodes db)) db))).

(** ** Jobs *)

Definition scanJob (r : JobRow) : Job :=
  mkJob (jr_id r) (jr_name r) (jr_owner r) (jr_partition r) (jr_state r) (jr_priority r)
    (jr_command r)
    (if decide (jr_env_json r = "") then ∅ else json_Unmarshal (jr_env_json r))
    (jr_workdir r) (jr_req_cpus r) (jr_req_mem_bytes r) (jr_req_gpus r) (jr_gpu_type r)
    (jr_walltime_sec r) (jr_node_id r) (jr_node_name r)
    (if decide (jr_devices_json r = "") then [] else json_Unmarshal (jr_devices_json r))
    (jr_exit_code r) (jr_reason r) (unixToTime (jr_submit_at r)) (unixToTime (jr_start_at r))
    (unixToTime (jr_end_at r)).

Definition insertJob (j : Job) (mem : Z) (env devices : string) : ST DB (result unit) := λ db,
  match db_jobs db !! Job_ID j with
  | Some _ => (Err "UNIQUE constraint failed: job.id", db)
  | None =>
      let r := mkJobRow (Job_ID j) (Job_Name j) (Job_Owner j) (Job_Partition j) (Job_State j)
        (Job_Priority j) (Job_Command j) env (Job_Workdir j) (Job_ReqCPUs j) mem (Job_ReqGPUs j)
        (Job_GPUType j) (Job_WalltimeSec j) (Job_NodeID j) (Job_NodeName j) devices (Job_ExitCode j)
        (Job_Reason j) (unixOf (Job_SubmitAt j)) (unixOf (Job_StartAt j)) (unixOf (Job_EndAt j)) in
      (Ok tt, with_jobs (<[Job_ID j := r]> (db_jobs db)) db)
  end.

Definition CreateJob (j : Job) : ST DB (result unit) :=
  env <-? marshal (Job_Env j) ;;
  devices <-? marshal (Job_Devices j) ;;
  wrap_err "create job"
    (mem <-? bind_u64 (Job_ReqMemBytes j) ;; stmt (insertJob j mem env devices)).

Definition GetJob (id : string) : ST DB (result (option Job)) :=
  wrap_err "get job" (stmt (λ db, (Ok (scanJob <$> db_jobs db !! id), db))).

Definition queryJobs (p : JobRow → bool) (order : list JobRow → list JobRow)
    : ST DB (result (list Job)) :=
  rows <-? wrap_err "query jobs" (stmt (λ db, (Ok (order (rows_where p (db_jobs db))), db))) ;;
  fetch (scanJob <$> rows).

Definition ListJobs (state owner : string) : ST DB (result (list Job)) :=
  queryJobs (λ r, (bool_decide (state = "") || bool_decide (jr_state r = state)) &&
                  (bool_decide (owner = "") || bool_decide (jr_owner r = owner)))
    (sort_by bySubmitDescId).

Definition ListPendingJobs : ST DB (result (list Job)) :=
  queryJobs (λ r, bool_decide (jr_state r = JobPending)) (sort_by byPriorityDescSubmitId).

(** No [ORDER BY]: the rows come in the order of the table. *)
Definition ListActiveJobs : ST DB (result (list Job)) :=
  queryJobs (λ r, bool_decide (jr_state r = JobAssigned) || bool_decide (jr_state r = JobRunning)) id.

Definition ListJobsByNodeState (nodeID state : string) : ST DB (result (list Job)) :=
  queryJobs (λ r, bool_decide (jr_node_id r = nodeID) && bool_decide (jr_state r = state))
    (sort_by bySubmitId).

Definition set_assigned (nodeID nodeName d : string) (r : JobRow) : JobRow :=
  mkJobRow (jr_id r) (jr_name r) (jr_owner r) (jr_partition r) JobAssigned (jr_priority r)
    (jr_command r) (jr_env_json r) (jr_workdir r) (jr_req_cpus r) (jr_req_mem_bytes r)
    (jr_req_gpus r) (jr_gpu_type r) (jr_walltime_sec r) nodeID nodeName d (jr_exit_code r)
    (jr_reason r) (jr_submit_at r) (jr_start_at r) (jr_end_at r).

Definition set_state (state : string) (r : JobRow) : JobRow :=
  mkJobRow (jr_id r) (jr_name r) (jr_owner r) (jr_partition r) state (jr_priority r)
    (jr_command r) (jr_env_json r) (jr_workdir r) (jr_req_cpus r) (jr_req_mem_bytes r)
    (jr_req_gpus r) (jr_gpu_type r) (jr_walltime_sec r) (jr_node_id r) (jr_node_name r)
    (jr_devices_json r) (jr_exit_code r) (jr_reason r) (jr_submit_at r) (jr_start_at r) (jr_end_at r).

Definition set_start (at_ : Z) (r : JobRow) : JobRow :=
  mkJobRow (jr_id r) (jr_name r) (jr_owner r) (jr_partition r) (jr_state r) (jr_priority r)
    (jr_command r) (jr_env_json r) (jr_workdir r) (jr_req_cpus r) (jr_req_mem_bytes r)
    (jr_req_gpus r) (jr_gpu_type r) (jr_walltime_sec r) (jr_node_id r) (jr_node_name r)
    (jr_devices_json r) (jr_exit_code r) (jr_reason r) (jr_submit_at r) at_ (jr_end_at r).

Definition set_end (code : Z) (reason : string) (at_ : Z) (r : JobRow) : JobRow :=
  mkJobRow (jr_id r) (jr_name r) (jr_owner r) (jr_partition r) (jr_state r) (jr_priority r)
    (jr_command r) (jr_env_json r) (jr_workdir r) (jr_req_cpus r) (jr_req_mem_bytes r)
    (jr_req_gpus r) (jr_gpu_type r) (jr_walltime_sec r) (jr_node_id r) (jr_node_name r)
    (jr_devices_json r) code reason (jr_submit_at r) (jr_start_at r) at_.

Definition AssignJob (jobID nodeID nodeName : string) (devices : list AllocDevice)
    : ST DB (result unit) :=
  d <-? marshal devices ;;
  n <-? wrap_err "assign job" (stmt (λ db,
    let p r := bool_decide (jr_id r = jobID) && bool_decide (jr_state r = JobPending) in
    (Ok (count_where p (db_jobs db)),
     with_jobs (update_where p (set_assigned nodeID nodeName d) (db_jobs db)) db))) ;;
  if n =? 0 then st_ret (Err ("assign job " +:+ jobID +:+ ": not in PENDING state"))
  else st_ret (Ok tt).

Definition MarkJobRunning (jobID : string) (t : Time) : ST DB (result unit) :=
  wrap_err "mark running" (stmt (λ db,
    let p r := bool_decide (jr_id r = jobID) && bool_decide (jr_state r = JobAssigned) in
    (Ok tt, with_jobs (update_where p (λ r, set_start (unixOf t) (set_state JobRunning r)) (db_jobs db)) db))).

Definition FinishJob (jobID state : string) (exitCode : Z) (reason : string) (t : Time)
    : ST DB (result unit) :=
  wrap_err "finish job" (stmt (λ db,
    let p r := bool_decide (jr_id r = jobID) in
    (Ok tt, with_jobs (update_where p (λ r, set_end exitCode reason (unixOf t) (set_state state r))
              (db_jobs db)) db))).

(** The transaction: begin, read the state, update, commit.  [now] is the clock read by the
    update; a failure before the end of the commit rolls the tables back. *)
Definition cancelBody (jobID : string) (now : Time) : ST DB (result string) :=
  (stmt (λ db, (Ok tt, db))) ?;;
  state <-? stmt (λ db, match db_jobs db !! jobID with
                        | Some r => (Ok (jr_state r), db)
                        | None => (Err ("job " +:+ jobID +:+ " not found"), db)
                        end) ;;
  newState <-?
    (if decide (state = JobPending) then
       stmt (λ db, (Ok JobCancelled, with_jobs (update_where (λ r, bool_decide (jr_id r = jobID))
         (λ r, set_end (jr_exit_code r) (jr_reason r) (Unix now) (set_state JobCancelled r)) (db_jobs db)) db))
     else if decide (state = JobAssigned ∨ state = JobRunning) then
       stmt (λ db, (Ok JobCancelling, with_jobs (update_where (λ r, bool_decide (jr_id r = jobID))
         (set_state JobCancelling) (db_jobs db)) db))
     else st_ret (Ok state)) ;;
  (stmt (λ db, (Ok tt, db))) ?;;
  st_ret (Ok newState).

Definition CancelJob (jobID : string) (now : Time) : ST DB (result string) := λ db,
  match cancelBody jobID now db with
  | (Ok s, db') => (Ok s, db')
  | (Err e, db') => (Err e, with_faults (db_faults db') db)
  end.

(** ** Events and notifications *)

Definition CreateEvent (e : Event) : ST DB (result unit) :=
  labels <-? marshal (Event_Labels e) ;;
  wrap_err "create event" (stmt (λ db,
    match db_events db !! Event_ID e with
    | Some _ => (Err "UNIQUE constraint failed: event.id", db)
    | None => (Ok tt, with_events (<[Event_ID e :=
        mkEventRow (Event_ID e) (Event_Type e) (Event_Severity e) (Event_Source e)
          (Event_Summary e) (Event_DedupKey e) labels (Unix (Event_Time e))]> (db_events db)) db)
    end)).

Definition scanEvent (r : EventRow) : Event :=
  mkEvent (er_id r) (er_type r) (er_severity r) (er_source r) (er_summary r) (er_dedup_key r)
    (if decide (er_labels_json r = "") then ∅ else json_Unmarshal (er_labels_json r))
    (unixToTime (er_ts r)).

Definition clampLimit (limit : Z) : Z := if limit <=? 0 then 100 else limit.

Definition ListEvents (limit : Z) : ST DB (result (list Event)) :=
  let limit := clampLimit limit in
  rows <-? wrap_err "list events" (stmt (λ db,
    (Ok (take (Z.to_nat limit) (sort_by eventByTsDescId (map_to_list (db_events db)).*2)), db))) ;;
  fetch (scanEvent <$> rows).

Definition CreateNotification (n : Notification) : ST DB (result unit) :=
  wrap_err "create notification" (stmt (λ db,
    match db_notifications db !! Note_ID n with
    | Some _ => (Err "UNIQUE constraint failed: notification.id", db)
    | None => (Ok tt, with_notifications (<[Note_ID n :=
        mkNotificationRow (Note_ID n) (Note_EventID n) (Note_EventType n) (Note_Rule n)
          (Note_Channel n) (Note_Recipients n) (Note_Status n) (Note_Error n) (Note_Summary n)
          (Unix (Note_Time n))]> (db_notifications db)) db)
    end)).

Definition scanNotification (r : NotificationRow) : Notification :=
  mkNotification (ntr_id r) (ntr_event_id r) (ntr_event_type r) (ntr_rule r) (ntr_channel r)
    (ntr_recipients r) (ntr_status r) (ntr_error r) (ntr_summary r) (unixToTime (ntr_ts r)).

Definition ListNotifications (limit : Z) : ST DB (result (list Notification)) :=
  let limit := clampLimit limit in
  rows <-? wrap_err "list notifications" (stmt (λ db,
    (Ok (take (Z.to_nat limit) (sort_by noteByTsDescId (map_to_list (db_notifications db)).*2)), db))) ;;
  fetch (scanNotification <$> rows).

(** ** The interface of the store, implemented *)

#[export] Instance sqliteStore : Store DB := {|
  store_RegisterNode := RegisterNode;
  store_Heartbeat := Heartbeat;
  store_ListNodes := ListNodes;
  store_GetNode := GetNode;
  store_MarkStaleDown := MarkStaleDown;
  store_CreateJob := CreateJob;
  store_GetJob := GetJob;
  store_ListJobs := ListJobs;
  store_ListPendingJobs := ListPendingJobs;
  store_ListActiveJobs := ListActiveJobs;
  store_ListJobsByNodeState := ListJobsByNodeState;
  store_AssignJob := AssignJob;
  store_MarkJobRunning := MarkJobRunning;
  store_FinishJob := FinishJob;
  store_CancelJob := CancelJob;
  store_CreateEvent := CreateEvent;
  store_ListEvents := ListEvents;
  store_CreateNotification := CreateNotification;
  store_ListNotifications := ListNotifications
|}.
End sqlite.
