(* ===== verification/SQLiteProofs.v ===== *)
(** * The store: what its statements do

    Well-formed databases, the effect of every operation, and the job state machine. *)
From S2P Require Import Prelude GoBase GoStrings Event Store StoreSpec SQLite.
Local Open Scope Z_scope.

(** ** Statements *)

Definition same_tables (db db' : DB) : Prop :=
  db_nodes db = db_nodes db' ∧ db_jobs db = db_jobs db' ∧ db_events db = db_events db' ∧
  db_notifications db = db_notifications db'.

#[export] Instance same_tables_equiv : Equivalence same_tables.
Proof. unfold same_tables. split; repeat intro; destruct_and?; split_and!; congruence. Qed.

Lemma with_faults_tables fs db : same_tables db (with_faults fs db).
Proof. done. Qed.

(** A statement either fails with no effect or runs on the same tables. *)
Lemma stmt_cases {A} (f : ST DB (result A)) db :
  (∃ e fs, stmt f db = (Err e, with_faults fs db)) ∨ (∃ fs, stmt f db = f (with_faults fs db)).
Proof.
  unfold stmt. destruct db as [a b c d fs]; simpl. destruct fs as [|[e|] fs]; [|by eauto..].
  right. by exists [].
Qed.

(** Case analysis on the first statement of the goal. *)
Ltac stmt_split := cbv beta iota;
  match goal with
  | |- context [stmt ?f ?d] => destruct (stmt_cases f d) as [(? & ? & ->)|(? & ->)]
  end.

(** A query: it fails with no effect, or yields the rows of the tables it ran on. *)
Lemma query_cases {A B} msg (q : DB → A) (scan : A → B) db r db' :
  (rows <-? wrap_err msg (stmt (λ db, (Ok (q db), db))) ;; fetch (scan rows)) db = (r, db') →
  same_tables db db' ∧ ((∃ e, r = Err e) ∨ ∃ fs, r = Ok (scan (q (with_faults fs db)))).
Proof.
  unfold st_try, wrap_err, fetch. stmt_split; [intros [= <- <-]; split; [done|eauto]|].
  stmt_split; intros [= <- <-]; (split; [done|]); [eauto|].
  match goal with |- context [with_faults ?fs db] => right; by exists fs end.
Qed.

Lemma stmt_nofault {A} (f : ST DB (result A)) db : db_faults db = [] → stmt f db = f db.
Proof. unfold stmt. by intros ->. Qed.

(** ** Rows selected by identifier *)

Lemma update_where_lookup {R} p (f : R → R) t k :
  update_where p f t !! k = (λ r, if p r then f r else r) <$> t !! k.
Proof. unfold update_where. by rewrite lookup_fmap. Qed.

Definition keyed {R} (id : R → string) (t : gmap string R) : Prop := ∀ k r, t !! k = Some r → id r = k.

Lemma keyed_update {R} (id : R → string) p f t :
  (∀ r, id (f r) = id r) → keyed id t → keyed id (update_where p f t).
Proof.
  intros Hf Hk k r. rewrite update_where_lookup. destruct (t !! k) as [r'|] eqn:E; simpl; [|done].
  intros [= <-]. specialize (Hk k r' E). by destruct (p r'); rewrite ?Hf.
Qed.

Lemma keyed_insert {R} (id : R → string) k r t :
  id r = k → keyed id t → keyed id (<[k := r]> t).
Proof.
  intros Hid Hk k' r'. destruct (decide (k = k')) as [<-|Hne].
  - rewrite lookup_insert_eq. congruence.
  - rewrite lookup_insert_ne by done. apply Hk.
Qed.

Lemma keyed_empty {R} (id : R → string) : keyed id ∅.
Proof. intros k r. by rewrite lookup_empty. Qed.
#[export] Hint Resolve keyed_update keyed_insert keyed_empty : skipper.

(** The effect of [UPDATE ... WHERE id = x AND q] is an update of one entry. *)
Lemma update_by_id {R} (id : R → string) (q : R → bool) f t x :
  keyed id t →
  update_where (λ r, bool_decide (id r = x) && q r) f t = alter (λ r, if q r then f r else r) x t.
Proof.
  intros Hk. apply map_eq. intros k. rewrite update_where_lookup.
  destruct (decide (x = k)) as [<-|Hne].
  - rewrite lookup_alter_eq. destruct (t !! x) as [r|] eqn:E; simpl; [|done].
    by rewrite bool_decide_eq_true_2 by (by apply Hk).
  - rewrite lookup_alter_ne by done. destruct (t !! k) as [r|] eqn:E; simpl; [|done].
    rewrite bool_decide_eq_false_2; [done|]. rewrite (Hk k r E). congruence.
Qed.

Lemma update_by_id' {R} (id : R → string) f t x :
  keyed id t → update_where (λ r, bool_decide (id r = x)) f t = alter f x t.
Proof.
  intros Hk. etrans; [|exact (update_by_id id (λ _, true) f t x Hk)]. apply map_eq. intros k.
  rewrite !update_where_lookup. destruct (t !! k); simpl; [|done]. by rewrite andb_true_r.
Qed.

Lemma count_by_id {R} (id : R → string) (q : R → bool) t x :
  keyed id t →
  count_where (λ r, bool_decide (id r = x) && q r) t =
    match t !! x with Some r => if q r then 1 else 0 | None => 0 end.
Proof.
  intros Hk. unfold count_where.
  assert (filter (λ kr : string * R, bool_decide (id kr.2 = x) && q kr.2 = true) t =
          match t !! x with Some r => if q r then {[x := r]} else ∅ | None => ∅ end) as ->.
  { apply map_eq. intros k. apply option_eq. intros r. rewrite map_lookup_filter_Some; simpl.
    destruct (decide (x = k)) as [<-|Hne].
    - destruct (t !! x) as [r'|] eqn:E; [|rewrite lookup_empty; naive_solver].
      destruct (q r') eqn:Eq; [rewrite lookup_singleton_eq|rewrite lookup_empty]; split.
      + by intros [? _].
      + intros [= <-]. by rewrite bool_decide_eq_true_2 by (by apply Hk).
      + intros [[= <-] Hq]. bool_to_prop. congruence.
      + done.
    - split.
      + intros [E Hq]. bool_to_prop. rewrite (Hk k r E) in *. congruence.
      + destruct (t !! x) as [r'|]; [destruct (q r')|];
          rewrite ?lookup_singleton_ne, ?lookup_empty by done; done. }
  destruct (t !! x) as [r|]; [destruct (q r)|];
    rewrite ?map_size_singleton, ?map_size_empty; done.
Qed.

Lemma count_by_id' {R} (id : R → string) t x :
  keyed id t →
  count_where (λ r, bool_decide (id r = x)) t = match t !! x with Some _ => 1 | None => 0 end.
Proof.
  intros Hk. pose proof (count_by_id id (λ _, true) t x Hk) as E.
  etrans; [|exact E]. unfold count_where. f_equal. f_equal. apply map_filter_ext.
  intros k r _. simpl. by rewrite andb_true_r.
Qed.

Lemma elem_of_rows_where {R} (p : R → bool) t r :
  r ∈ rows_where p t ↔ p r = true ∧ ∃ k, t !! k = Some r.
Proof.
  unfold rows_where. rewrite list_elem_of_filter, list_elem_of_fmap. f_equiv. split.
  - intros ([k r'] & -> & Hin). exists k. by apply elem_of_map_to_list.
  - intros [k Hk]. exists (k, r). split; [done|]. by apply elem_of_map_to_list.
Qed.

(** ** Well-formed databases: the keys of the tables, and the UNIQUE node names *)

Record DB_ok (db : DB) : Prop := {
  ok_nodes : keyed nr_id (db_nodes db);
  ok_names k1 k2 r1 r2 : db_nodes db !! k1 = Some r1 → db_nodes db !! k2 = Some r2 →
    nr_name r1 = nr_name r2 → k1 = k2;
  ok_jobs : keyed jr_id (db_jobs db);
  ok_events : keyed er_id (db_events db);
  ok_notes : keyed ntr_id (db_notifications db)
}.

Lemma DB_ok_same db db' : same_tables db db' → DB_ok db → DB_ok db'.
Proof.
  destruct db, db'. intros (E1 & E2 & E3 & E4) []; simpl in *; subst. by split.
Qed.

Lemma emptyDB_ok : DB_ok emptyDB.
Proof. split; simpl; try apply keyed_empty. intros ???? Hk. by rewrite lookup_empty in Hk. Qed.

Lemma DB_ok_with_jobs m db : keyed jr_id m → DB_ok db → DB_ok (with_jobs m db).
Proof. intros Hm []. by split. Qed.

(** ** The effect of the operations on jobs *)

Lemma alter_id {R} (f : R → R) (t : gmap string R) x r : t !! x = Some r → f r = r → alter f x t = t.
Proof. intros E Hf. by rewrite (alter_as_insert f t x r E), Hf, insert_id. Qed.

(** [db'] is [db] with the job [x] replaced by [r]. *)
Definition sets_job (db : DB) (x : string) (r : JobRow) (db' : DB) : Prop :=
  same_tables (with_jobs (<[x := r]> (db_jobs db)) db) db'.

Section sqlite.
Context `{!Json (list Device), !Json smap, !Json (list AllocDevice), !Driver}.

Lemma with_jobs_same m db fs : same_tables (with_jobs m db) (with_jobs m (with_faults fs db)).
Proof. done. Qed.

Lemma AssignJob_effect x nid nname devs db r db' :
  DB_ok db → AssignJob x nid nname devs db = (r, db') →
  (∃ e, r = Err e ∧ same_tables db db') ∨
  (r = Ok tt ∧ ∃ row d, json_Marshal devs = Ok d ∧ db_jobs db !! x = Some row ∧
     jr_state row = JobPending ∧ sets_job db x (set_assigned nid nname d row) db').
Proof.
  intros Hok. unfold AssignJob, st_try, marshal, st_ret, wrap_err.
  destruct (json_Marshal devs) as [d|e]; [|intros [= <- <-]; left; by eexists].
  stmt_split.
  { intros [= <- <-]. left. eexists. split; [done|apply with_faults_tables]. }
  simpl. rewrite (count_by_id jr_id), (update_by_id jr_id) by apply Hok.
  destruct (db_jobs db !! x) as [row|] eqn:E.
  - case_bool_decide as Hs; simpl; intros [= <- <-].
    + right. split; [done|]. exists row, d. repeat split; try done.
      simpl. rewrite (alter_as_insert _ _ _ _ E). by rewrite bool_decide_eq_true_2.
    + left. eexists. split; [done|]. repeat split; try done. simpl.
      rewrite (alter_id _ _ _ _ E); [done|]. by rewrite bool_decide_eq_false_2.
  - simpl. intros [= <- <-]. left. eexists. split; [done|]. repeat split; try done. simpl.
    by rewrite alter_absent.
Qed.

Lemma MarkJobRunning_effect x t db r db' :
  DB_ok db → MarkJobRunning x t db = (r, db') →
  (∃ e, r = Err e ∧ same_tables db db') ∨
  (r = Ok tt ∧
   ((∃ row, db_jobs db !! x = Some row ∧ jr_state row = JobAssigned ∧
        sets_job db x (set_start (unixOf t) (set_state JobRunning row)) db') ∨
    ((∀ row, db_jobs db !! x = Some row → jr_state row ≠ JobAssigned) ∧ same_tables db db'))).
Proof.
  intros Hok. unfold MarkJobRunning, wrap_err.
  stmt_split.
  { intros [= <- <-]. left. eexists. split; [done|apply with_faults_tables]. }
  simpl. rewrite (update_by_id jr_id) by apply Hok. intros [= <- <-]. right. split; [done|].
  destruct (db_jobs db !! x) as [row|] eqn:E.
  - destruct (decide (jr_state row = JobAssigned)) as [Hs|Hs].
    + left. exists row. repeat split; try done. simpl.
      rewrite (alter_as_insert _ _ _ _ E). by rewrite bool_decide_eq_true_2.
    + right. split; [naive_solver|]. repeat split; try done. simpl.
      rewrite (alter_id _ _ _ _ E); [done|]. by rewrite bool_decide_eq_false_2.
  - right. split; [naive_solver|]. repeat split; try done. simpl. by rewrite alter_absent.
Qed.

Lemma FinishJob_effect x s code reason t db r db' :
  DB_ok db → FinishJob x s code reason t db = (r, db') →
  (∃ e, r = Err e ∧ same_tables db db') ∨
  (r = Ok tt ∧
   ((∃ row, db_jobs db !! x = Some row ∧
        sets_job db x (set_end code reason (unixOf t) (set_state s row)) db') ∨
    (db_jobs db !! x = None ∧ same_tables db db'))).
Proof.
  intros Hok. unfold FinishJob, wrap_err.
  stmt_split.
  { intros [= <- <-]. left. eexists. split; [done|apply with_faults_tables]. }
  simpl. rewrite (update_by_id' jr_id) by apply Hok. intros [= <- <-]. right. split; [done|].
  destruct (db_jobs db !! x) as [row|] eqn:E.
  - left. exists row. repeat split; try done. simpl. by rewrite (alter_as_insert _ _ _ _ E).
  - right. repeat split; try done. simpl. by rewrite alter_absent.
Qed.

Lemma CreateJob_effect j db r db' :
  CreateJob j db = (r, db') →
  (∃ e, r = Err e ∧ same_tables db db') ∨
  (r = Ok tt ∧ db_jobs db !! Job_ID j = None ∧ ∃ row, jr_id row = Job_ID j ∧
     jr_state row = Job_State j ∧ sets_job db (Job_ID j) row db').
Proof.
  unfold CreateJob, st_try, wrap_err, marshal, bind_u64, st_ret.
  destruct (json_Marshal (Job_Env j)) as [env|e]; [|intros [= <- <-]; left; by eexists].
  destruct (json_Marshal (Job_Devices j)) as [ds|e]; [|intros [= <- <-]; left; by eexists].
  destruct (bind_uint64 _) as [mem|e]; [|intros [= <- <-]; left; by eexists].
  stmt_split.
  { intros [= <- <-]. left. eexists. split; [done|apply with_faults_tables]. }
  unfold insertJob. simpl. destruct (db_jobs db !! Job_ID j) eqn:E; intros [= <- <-].
  - left. eexists. split; [done|apply with_faults_tables].
  - right. split; [done|]. split; [done|]. eexists. by repeat split.
Qed.

(** What [CancelJob] turns each state into. *)
Definition cancelled_state (s : string) : string :=
  if decide (s = JobPending) then JobCancelled
  else if decide (s = JobAssigned ∨ s = JobRunning) then JobCancelling else s.

Definition cancelled_row (now : Time) (row : JobRow) : JobRow :=
  if decide (jr_state row = JobPending)
  then set_end (jr_exit_code row) (jr_reason row) (Unix now) (set_state JobCancelled row)
  else set_state (cancelled_state (jr_state row)) row.

Lemma set_state_id row : set_state (jr_state row) row = row.
Proof. by destruct row. Qed.

Lemma CancelJob_effect x now db r db' :
  DB_ok db → CancelJob x now db = (r, db') →
  (∃ e, r = Err e ∧ same_tables db db') ∨
  (∃ row, r = Ok (cancelled_state (jr_state row)) ∧ db_jobs db !! x = Some row ∧
     sets_job db x (cancelled_row now row) db').
Proof.
  intros Hok. unfold CancelJob.
  destruct (cancelBody x now db) as [[s|e] db1] eqn:E; intros [= <- <-];
    [|left; eexists; split; [done|apply with_faults_tables]].
  right. revert E. unfold cancelBody, st_try.
  stmt_split; [done|]; simpl.
  stmt_split; [done|]; simpl.
  destruct (db_jobs db !! x) as [row|] eqn:Er; [|done]. simpl.
  destruct (decide (jr_state row = JobPending)) as [Hp|Hp];
    [|destruct (decide (jr_state row = JobAssigned ∨ jr_state row = JobRunning)) as [Ha|Ha]]; simpl.
  1,2: stmt_split; [done|]; simpl; rewrite (update_by_id' jr_id) by apply Hok; rewrite (alter_as_insert _ _ _ _ Er).
  all: stmt_split; [done|]; simpl; intros [= <- <-]; exists row.
  - unfold cancelled_state, cancelled_row. by rewrite !decide_True.
  - unfold cancelled_row, cancelled_state. by rewrite !(decide_False (P := jr_state row = JobPending)),
      !decide_True by done.
  - unfold cancelled_row, cancelled_state. rewrite !(decide_False (P := jr_state row = JobPending)),
      !decide_False by done. split; [done|]. split; [done|]. rewrite set_state_id.
    unfold sets_job. by rewrite insert_id.
Qed.

(** ** The effect of the operations on nodes *)

Definition by_name (name : string) (r : NodeRow) : bool := bool_decide (nr_name r = name).

Lemma rows_by_name_nil t name :
  rows_where (by_name name) t = [] ↔ ∀ k r, t !! k = Some r → nr_name r ≠ name.
Proof.
  split.
  - intros E k r Hk Hn. apply (not_elem_of_nil r). rewrite <-E. apply elem_of_rows_where.
    unfold by_name. rewrite bool_decide_eq_true. eauto.
  - intros Hno. apply elem_of_nil_inv. intros r Hr. apply elem_of_rows_where in Hr as [Hn [k Hk]].
    unfold by_name in Hn. bool_to_prop. by eapply Hno.
Qed.

Lemma rows_by_name_cons t name r rs :
  rows_where (by_name name) t = r :: rs → nr_name r = name ∧ ∃ k, t !! k = Some r.
Proof.
  intros E. assert (r ∈ rows_where (by_name name) t) as Hr by (rewrite E; left).
  apply elem_of_rows_where in Hr as [Hn Hk]. unfold by_name in Hn. by bool_to_prop.
Qed.

(** The row a registration leaves under the identifier [id]. *)
Definition registered_row (id : string) (n : Node) (mem : Z) (devices labels : string) : NodeRow :=
  mkNodeRow id (Node_Name n) (Node_Partition n) (Node_State n) (Node_Addr n) (Node_CPUs n) mem
    devices labels (Node_AgentVersion n) (Unix (Node_LastHeartbeat n)).

Definition sets_node (db : DB) (x : string) (r : NodeRow) (db' : DB) : Prop :=
  same_tables (with_nodes (<[x := r]> (db_nodes db)) db) db'.

(** The identifier under which a registration of [n] is stored: that of the node of the same
    name, if there is one. *)
Definition registered_id (db : DB) (n : Node) (id : string) : Prop :=
  (∃ old, db_nodes db !! id = Some old ∧ nr_name old = Node_Name n) ∨
  (id = Node_ID n ∧ db_nodes db !! id = None ∧
   ∀ k r, db_nodes db !! k = Some r → nr_name r ≠ Node_Name n).

Lemma RegisterNode_effect n db r db' :
  DB_ok db → RegisterNode n db = (r, db') →
  (∃ e, r = Err e ∧ same_tables db db') ∨
  (∃ id mem ds ls, r = Ok id ∧ bind_uint64 (Node_MemTotalBytes n) = Ok mem ∧
     json_Marshal (Node_Devices n) = Ok ds ∧ json_Marshal (Node_Labels n) = Ok ls ∧
     registered_id db n id ∧ sets_node db id (registered_row id n mem ds ls) db').
Proof.
  intros Hok. unfold RegisterNode, st_try, wrap_err, marshal, bind_u64, st_ret.
  destruct (json_Marshal (Node_Devices n)) as [ds|e]; [|intros [= <- <-]; left; by eexists].
  destruct (json_Marshal (Node_Labels n)) as [ls|e]; [|intros [= <- <-]; left; by eexists].
  destruct (bind_uint64 _) as [mem|e]; [|intros [= <- <-]; left; by eexists].
  stmt_split; [intros [= <- <-]; left; by eexists|].
  unfold upsertNode. simpl. fold (by_name (Node_Name n)).
  destruct (rows_where (by_name (Node_Name n)) (db_nodes db)) as [|old rest] eqn:E.
  - destruct (db_nodes db !! Node_ID n) eqn:Ei; intros [= <- <-]; [left; by eexists|].
    right. exists (Node_ID n), mem, ds, ls. split_and!; try done.
    right. split_and!; try done. by apply rows_by_name_nil.
  - apply rows_by_name_cons in E as [En [k Hk]]. intros [= <- <-]. right.
    assert (nr_id old = k) as <- by (by apply (ok_nodes _ Hok)).
    exists (nr_id old), mem, ds, ls. split_and!; try done; [left; by eexists|].
    unfold sets_node, registered_row. by rewrite <-En.
Qed.

Lemma Heartbeat_effect n t db r db' :
  DB_ok db → Heartbeat n t db = (r, db') →
  (∃ e, r = Err e ∧ same_tables db db') ∨
  (∃ mem ds old, r = Ok true ∧ bind_uint64 (Node_MemTotalBytes n) = Ok mem ∧
     json_Marshal (Node_Devices n) = Ok ds ∧ db_nodes db !! Node_ID n = Some old ∧
     sets_node db (Node_ID n) (mkNodeRow (nr_id old) (nr_name old) (nr_partition old) StateUp
       (nr_addr old) (Node_CPUs n) mem ds (nr_labels_json old) (nr_agent_version old) (Unix t)) db') ∨
  (r = Ok false ∧ db_nodes db !! Node_ID n = None ∧ same_tables db db').
Proof.
  intros Hok. unfold Heartbeat, st_try, wrap_err, marshal, bind_u64, st_ret.
  destruct (json_Marshal (Node_Devices n)) as [ds|e]; [|intros [= <- <-]; left; by eexists].
  destruct (bind_uint64 _) as [mem|e]; [|intros [= <- <-]; left; by eexists].
  stmt_split; [intros [= <- <-]; left; by eexists|].
  unfold heartbeatNode. simpl.
  rewrite (count_by_id' nr_id), (update_by_id' nr_id) by apply Hok.
  destruct (db_nodes db !! Node_ID n) as [old|] eqn:E; intros [= <- <-]; right.
  - left. exists mem, ds, old. split_and!; try done. unfold sets_node.
    by rewrite (alter_as_insert _ _ _ _ E).
  - right. split_and!; try done. repeat split; try done. simpl. by rewrite alter_absent.
Qed.

Definition stale (cutoff : Time) (r : NodeRow) : bool :=
  (nr_last_heartbeat r <? Unix cutoff) && bool_decide (nr_state r ≠ StateDown).
Definition set_down (r : NodeRow) : NodeRow :=
  mkNodeRow (nr_id r) (nr_name r) (nr_partition r) StateDown (nr_addr r) (nr_cpus r)
    (nr_mem_total_bytes r) (nr_devices_json r) (nr_labels_json r) (nr_agent_version r)
    (nr_last_heartbeat r).

Lemma MarkStaleDown_effect t db r db' :
  MarkStaleDown t db = (r, db') →
  (∃ e, r = Err e ∧ same_tables db db') ∨
  (r = Ok (count_where (stale t) (db_nodes db)) ∧
   same_tables (with_nodes (update_where (stale t) set_down (db_nodes db)) db) db').
Proof.
  unfold MarkStaleDown, wrap_err. stmt_split; [intros [= <- <-]; left; by eexists|].
  intros [= <- <-]. right. done.
Qed.

(** Queries leave the tables alone. *)
Lemma CreateEvent_effect e db r db' :
  CreateEvent e db = (r, db') →
  (∃ m, r = Err m ∧ same_tables db db') ∨
  (r = Ok tt ∧ db_events db !! Event_ID e = None ∧ ∃ row, er_id row = Event_ID e ∧
     same_tables (with_events (<[Event_ID e := row]> (db_events db)) db) db').
Proof.
  unfold CreateEvent, st_try, wrap_err, marshal, st_ret.
  destruct (json_Marshal (Event_Labels e)) as [ls|m]; [|intros [= <- <-]; left; by eexists].
  stmt_split; [intros [= <- <-]; left; by eexists|]. simpl.
  destruct (db_events db !! Event_ID e) eqn:E; intros [= <- <-]; [left; by eexists|].
  right. split; [done|]. split; [done|]. eexists. by repeat split.
Qed.

Lemma CreateNotification_effect n db r db' :
  CreateNotification n db = (r, db') →
  (∃ m, r = Err m ∧ same_tables db db') ∨
  (r = Ok tt ∧ db_notifications db !! Note_ID n = None ∧ ∃ row, ntr_id row = Note_ID n ∧
     same_tables (with_notifications (<[Note_ID n := row]> (db_notifications db)) db) db').
Proof.
  unfold CreateNotification, wrap_err.
  stmt_split; [intros [= <- <-]; left; by eexists|]. simpl.
  destruct (db_notifications db !! Note_ID n) eqn:E; intros [= <- <-]; [left; by eexists|].
  right. split; [done|]. split; [done|]. eexists. by repeat split.
Qed.
End sqlite.

(** ** Histories of calls *)

Lemma DB_ok_sets_job db x row db' : DB_ok db → jr_id row = x → sets_job db x row db' → DB_ok db'.
Proof.
  intros Hok Hid Hs. eapply DB_ok_same; [exact Hs|]. apply DB_ok_with_jobs; [|done].
  apply keyed_insert; [done|apply Hok].
Qed.

Section histories.
Context `{!Json (list Device), !Json smap, !Json (list AllocDevice), !Driver}.

(** How a call changes the row of a job. *)
Inductive row_step (c : call) (x : string) : JobRow → JobRow → Prop :=
| row_same row : row_step c x row row
| row_assign nid nn ds d row : c = CallAssignJob x nid nn ds → jr_state row = JobPending →
    json_Marshal ds = Ok d → row_step c x row (set_assigned nid nn d row)
| row_run t row : c = CallMarkJobRunning x t → jr_state row = JobAssigned →
    row_step c x row (set_start (unixOf t) (set_state JobRunning row))
| row_finish s code reason t row : c = CallFinishJob x s code reason t →
    row_step c x row (set_end code reason (unixOf t) (set_state s row))
| row_cancel t row : c = CallCancelJob x t → row_step c x row (cancelled_row t row).

Lemma cancelled_row_id now row : jr_id (cancelled_row now row) = jr_id row.
Proof. unfold cancelled_row. by case_decide. Qed.

Lemma row_step_id c x row row' : row_step c x row row' → jr_id row' = jr_id row.
Proof. destruct 1; try done. apply cancelled_row_id. Qed.

(** What a call may do to the jobs: a new row under a fresh identifier, or a step of one row. *)
Definition jobs_step (c : call) (t t' : gmap string JobRow) : Prop :=
  t' = t ∨
  (∃ j row, c = CallCreateJob j ∧ t !! Job_ID j = None ∧ jr_id row = Job_ID j ∧
     jr_state row = Job_State j ∧ t' = <[Job_ID j := row]> t) ∨
  (∃ x row row', t !! x = Some row ∧ row_step c x row row' ∧ t' = <[x := row']> t).

Lemma sets_job_jobs db x row db' : sets_job db x row db' → db_jobs db' = <[x := row]> (db_jobs db).
Proof. by intros (_ & E & _). Qed.

Lemma exec_call_jobs c db :
  DB_ok db → jobs_step c (db_jobs db) (db_jobs (exec_call c db).2).
Proof.
  intros Hok. destruct c; simpl.
  - destruct (RegisterNode n db) as [r db'] eqn:E.
    apply RegisterNode_effect in E as [(? & _ & E)|(? & ? & ? & ? & _ & _ & _ & _ & _ & E)]; [..|done];
      left; symmetry; apply E.
  - destruct (Heartbeat n t db) as [r db'] eqn:E.
    apply Heartbeat_effect in E as [(? & _ & E)|[(? & ? & ? & _ & _ & _ & _ & E)|(_ & _ & E)]]; [..|done];
      left; symmetry; apply E.
  - destruct (MarkStaleDown t db) as [r db'] eqn:E.
    apply MarkStaleDown_effect in E as [(? & _ & E)|(_ & E)]; left; symmetry; apply E.
  - destruct (CreateJob j db) as [r db'] eqn:E.
    apply CreateJob_effect in E as [(? & _ & E)|(_ & Hno & row & Hid & Hst & E)];
      [left; symmetry; apply E|].
    right; left. exists j, row. split_and!; try done. by apply sets_job_jobs.
  - destruct (AssignJob jobID nodeID nodeName devices db) as [r db'] eqn:E.
    apply AssignJob_effect in E as [(? & _ & E)|(_ & row & d & Hd & Hx & Hs & E)]; [..|done];
      [left; symmetry; apply E|].
    right; right. exists jobID, row, (set_assigned nodeID nodeName d row).
    split_and!; [done|by econstructor|by apply sets_job_jobs].
  - destruct (MarkJobRunning jobID t db) as [r db'] eqn:E.
    apply MarkJobRunning_effect in E as [(? & _ & E)|(_ & [(row & Hx & Hs & E)|(_ & E)])]; [..|done];
      [left; symmetry; apply E| |left; symmetry; apply E].
    right; right. exists jobID, row. eexists.
    split_and!; [done|by eapply row_run|by apply sets_job_jobs].
  - destruct (FinishJob jobID state exitCode reason t db) as [r db'] eqn:E.
    apply FinishJob_effect in E as [(? & _ & E)|(_ & [(row & Hx & E)|(_ & E)])]; [..|done];
      [left; symmetry; apply E| |left; symmetry; apply E].
    right; right. exists jobID, row. eexists.
    split_and!; [done|by eapply row_finish|by apply sets_job_jobs].
  - destruct (CancelJob jobID now db) as [r db'] eqn:E.
    apply CancelJob_effect in E as [(? & _ & E)|(row & _ & Hx & E)]; [..|done];
      [left; symmetry; apply E|].
    right; right. exists jobID, row. eexists.
    split_and!; [done|by eapply row_cancel|by apply sets_job_jobs].
  - destruct (CreateEvent e db) as [r db'] eqn:E.
    apply CreateEvent_effect in E as [(? & _ & E)|(_ & _ & ? & _ & E)]; left; symmetry; apply E.
  - destruct (CreateNotification n db) as [r db'] eqn:E.
    apply CreateNotification_effect in E as [(? & _ & E)|(_ & _ & ? & _ & E)];
      left; symmetry; apply E.
Qed.

Lemma registered_ok db n id mem ds ls db' :
  DB_ok db → registered_id db n id → sets_node db id (registered_row id n mem ds ls) db' → DB_ok db'.
Proof.
  intros Hok Hid Hs. eapply DB_ok_same; [exact Hs|]. destruct Hok as [H1 H2 H3 H4 H5].
  split; simpl; try done; [by apply keyed_insert|].
  intros k1 k2 r1 r2 E1 E2 En. apply lookup_insert_Some in E1, E2.
  destruct E1 as [[<- <-]|[N1 E1]], E2 as [[<- <-]|[N2 E2]]; try done; simpl in En.
  - destruct Hid as [(old & Ho & Hn)|(_ & _ & Hno)]; [apply (H2 _ _ old r2); congruence|].
    by destruct (Hno k2 r2).
  - destruct Hid as [(old & Ho & Hn)|(_ & _ & Hno)]; [apply (H2 _ _ r1 old); congruence|].
    by destruct (Hno k1 r1).
  - by eapply H2.
Qed.

Lemma DB_ok_nodes_update m db db' :
  DB_ok db → keyed nr_id m → (∀ k r', m !! k = Some r' → ∃ r, db_nodes db !! k = Some r ∧ nr_name r' = nr_name r) →
  same_tables (with_nodes m db) db' → DB_ok db'.
Proof.
  intros [H1 H2 H3 H4 H5] Hm Hn Hs. eapply DB_ok_same; [exact Hs|]. split; simpl; try done.
  intros k1 k2 r1 r2 E1 E2 En. apply Hn in E1 as (o1 & E1 & N1), E2 as (o2 & E2 & N2).
  eapply H2; [done..|congruence].
Qed.

Lemma exec_call_ok c db : DB_ok db → DB_ok (exec_call c db).2.
Proof.
  intros Hok. destruct c; simpl.
  - destruct (RegisterNode n db) as [r db'] eqn:E.
    apply RegisterNode_effect in E as [(? & _ & E)|(? & ? & ? & ? & _ & _ & _ & _ & Hi & E)]; [..|done];
      [by eapply DB_ok_same|by eapply registered_ok].
  - destruct (Heartbeat n t db) as [r db'] eqn:E.
    apply Heartbeat_effect in E as [(? & _ & E)|[(mem & ds & old & _ & _ & _ & Ho & E)|(_ & _ & E)]];
      [by eapply DB_ok_same| |by eapply DB_ok_same|done].
    eapply DB_ok_nodes_update; [done| | |exact E].
    + apply keyed_insert; [|apply Hok]. simpl. by apply (ok_nodes _ Hok).
    + intros k r' Hk. apply lookup_insert_Some in Hk as [[<- <-]|[_ Hk]]; eauto.
  - destruct (MarkStaleDown t db) as [r db'] eqn:E.
    apply MarkStaleDown_effect in E as [(? & _ & E)|(_ & E)]; [by eapply DB_ok_same|].
    eapply DB_ok_nodes_update; [done| | |exact E].
    + apply keyed_update; [done|apply Hok].
    + intros k r'. rewrite update_where_lookup. destruct (db_nodes db !! k) as [o|]; [|done].
      simpl. intros [= <-]. exists o. split; [done|]. by destruct (stale t o).
  - destruct (CreateJob j db) as [r db'] eqn:E.
    apply CreateJob_effect in E as [(? & _ & E)|(_ & Hno & row & Hid & Hst & E)];
      [by eapply DB_ok_same|by eapply DB_ok_sets_job].
  - destruct (AssignJob jobID nodeID nodeName devices db) as [r db'] eqn:E.
    apply AssignJob_effect in E as [(? & _ & E)|(_ & row & d & Hd & Hx & Hs & E)]; [..|done];
      [by eapply DB_ok_same|]. eapply DB_ok_sets_job; [done| |exact E]. exact (ok_jobs _ Hok _ _ Hx).
  - destruct (MarkJobRunning jobID t db) as [r db'] eqn:E.
    apply MarkJobRunning_effect in E as [(? & _ & E)|(_ & [(row & Hx & Hs & E)|(_ & E)])]; [..|done];
      [by eapply DB_ok_same| |by eapply DB_ok_same].
    eapply DB_ok_sets_job; [done| |exact E]. exact (ok_jobs _ Hok _ _ Hx).
  - destruct (FinishJob jobID state exitCode reason t db) as [r db'] eqn:E.
    apply FinishJob_effect in E as [(? & _ & E)|(_ & [(row & Hx & E)|(_ & E)])]; [..|done];
      [by eapply DB_ok_same| |by eapply DB_ok_same].
    eapply DB_ok_sets_job; [done| |exact E]. exact (ok_jobs _ Hok _ _ Hx).
  - destruct (CancelJob jobID now db) as [r db'] eqn:E.
    apply CancelJob_effect in E as [(? & _ & E)|(row & _ & Hx & E)]; [..|done];
      [by eapply DB_ok_same|]. eapply DB_ok_sets_job; [done| |exact E].
    rewrite cancelled_row_id. exact (ok_jobs _ Hok _ _ Hx).
  - destruct (CreateEvent e db) as [r db'] eqn:E.
    apply CreateEvent_effect in E as [(? & _ & E)|(_ & _ & row & Hid & E)]; [by eapply DB_ok_same|].
    eapply DB_ok_same; [exact E|]. destruct Hok; split; try done. by apply keyed_insert.
  - destruct (CreateNotification n db) as [r db'] eqn:E.
    apply CreateNotification_effect in E as [(? & _ & E)|(_ & _ & row & Hid & E)];
      [by eapply DB_ok_same|].
    eapply DB_ok_same; [exact E|]. destruct Hok; split; try done. by apply keyed_insert.
Qed.

Lemma exec_calls_ok cs db : DB_ok db → DB_ok (exec_calls cs db).
Proof.
  intros Hok. apply (exec_calls_inv _ (λ _, True)); [|by apply Forall_true|done].
  intros c d _. apply exec_call_ok.
Qed.
End histories.

(** ** The orders of the queries *)

#[export] Instance byPriorityDescSubmitId_weak : StrictWeak (λ _, True) byPriorityDescSubmitId.
Proof.
  unfold byPriorityDescSubmitId. apply (lex_desc_weak jr_priority), (lex_asc_weak jr_submit_at).
  apply (str_ltb_on_weak jr_id).
Qed.

#[export] Instance bySubmitId_weak : StrictWeak (λ _, True) bySubmitId.
Proof. apply (lex_asc_weak jr_submit_at), (str_ltb_on_weak jr_id). Qed.

#[export] Instance bySubmitDescId_weak : StrictWeak (λ _, True) bySubmitDescId.
Proof. apply (lex_desc_weak jr_submit_at), (str_ltb_on_weak jr_id). Qed.

#[export] Instance eventByTsDescId_weak : StrictWeak (λ _, True) eventByTsDescId.
Proof. apply (lex_desc_weak er_ts), (str_ltb_on_weak er_id). Qed.

#[export] Instance noteByTsDescId_weak : StrictWeak (λ _, True) noteByTsDescId.
Proof. apply (lex_desc_weak ntr_ts), (str_ltb_on_weak ntr_id). Qed.

Lemma rows_where_ids {R} (id : R → string) p t : keyed id t → NoDup (id <$> rows_where p t).
Proof.
  intros Hk. unfold rows_where. apply NoDup_fmap_filter.
  assert (id <$> (map_to_list t).*2 = (map_to_list t).*1) as ->.
  { rewrite <-list_fmap_compose. apply list_fmap_ext. intros i [k r] Hi. simpl.
    apply Hk. apply elem_of_map_to_list. by eapply list_elem_of_lookup_2. }
  apply NoDup_fst_map_to_list.
Qed.

(** The answer of a query: exactly the selected rows, once each, in the given order. *)
Record answers (p : JobRow → bool) (less : JobRow → JobRow → bool) (db : DB) (rows : list JobRow) : Prop := {
  ans_once : NoDup (jr_id <$> rows);
  ans_exact r : r ∈ rows ↔ p r = true ∧ ∃ k, db_jobs db !! k = Some r;
  ans_order : StronglySorted (not_after less) rows
}.

Lemma queryJobs_answers `{!Json smap, !Json (list AllocDevice)} p less db js db' :
  StrictWeak (λ _, True) less → DB_ok db → queryJobs p (sort_by less) db = (Ok js, db') →
  same_tables db db' ∧ ∃ rows, js = scanJob <$> rows ∧ answers p less db rows.
Proof.
  intros Hw Hok E. apply (query_cases _ (λ db, sort_by less (rows_where p (db_jobs db))) (fmap scanJob)) in E
    as [Hs [[e [=]]|[fs [= ->]]]].
  split; [done|]. eexists. split; [done|]. split.
  - rewrite sort_by_perm. apply rows_where_ids, Hok.
  - intros r. by rewrite elem_of_sort_by, elem_of_rows_where.
  - apply (sort_by_sorted less (λ _, True)). by apply Forall_true.
Qed.

(** ** Stored values *)

Lemma unix_round_trip t : unixToTime (unixOf t) = whole_seconds t.
Proof.
  unfold unixToTime, unixOf, whole_seconds, IsZero.
  pose proof (Z.div_mod t Second ltac:(done)) as Hd.
  pose proof (Z.mod_pos_bound t Second ltac:(done)) as Hm.
  destruct (t =? 0) eqn:E0; bool_to_prop; [subst; done|].
  destruct (t <? timeUnix 1) eqn:E1; bool_to_prop; unfold Unix, timeUnix, Second in *.
  - case_step; [done|]. bool_to_prop. lia.
  - case_step; bool_to_prop; lia.
Qed.

Lemma heartbeat_text u : (if 0 <? u then timeUnix u else 0) = unixToTime u.
Proof. unfold unixToTime. destruct (0 <? u) eqn:E1, (u <=? 0) eqn:E2; bool_to_prop; done || lia. Qed.

Lemma unixToTime_Unix t : unixToTime (Unix t) = whole_seconds t.
Proof.
  rewrite <-unix_round_trip. unfold unixOf, IsZero. case_step; [|done]. bool_to_prop. by subst.
Qed.

Lemma unmarshal_text {A} `{JsonLaws A} (zero : A) a s :
  json_valid a = true → json_Marshal a = Ok s → (if decide (s = "") then zero else json_Unmarshal s) = a.
Proof.
  intros Ha Hs. destruct (json_total a) as (s' & E & Hne).
  rewrite decide_False by congruence. by apply json_round.
Qed.
