(* ===== verification/StoreExample.v ===== *)
(** * Concrete instances of the store's external parts, for the witnesses

    The JSON encoder and the database driver are parameters of the store's model.  This file
    gives concrete functions that satisfy their laws, and a small populated database, so that
    the theorems can be applied to computed inputs. *)
From Stdlib Require Import Ascii.
From stdpp Require Import countable.
From S2P Require Import Prelude GoBase GoStrings Event Store StoreSpec SQLite SQLiteProofs.
Local Open Scope Z_scope.

(** ** An encoder: the binary digits of the countable code *)

Fixpoint pos_text (p : positive) : string :=
  match p with
  | xH => "1"
  | xO p => String "0"%char (pos_text p)
  | xI p => String "1"%char (pos_text p)
  end.

Fixpoint text_pos (s : string) : option positive :=
  match s with
  | String "0"%char s => xO <$> text_pos s
  | String "1"%char "" => Some xH
  | String "1"%char s => xI <$> text_pos s
  | _ => None
  end.

Lemma text_pos_text p : text_pos (pos_text p) = Some p.
Proof. induction p as [p IH|p IH|]; simpl; [rewrite IH; by destruct p|by rewrite IH|done]. Qed.

Definition code_json {A} `{Countable A, JsonValid A} (zero : A) : Json A := {|
  json_Marshal a := Ok (pos_text (encode a));
  json_Unmarshal s := match text_pos s ≫= decode with
                      | Some a => if json_valid a then a else zero
                      | None => zero
                      end
|}.

Lemma code_json_laws {A} `{Countable A, JsonValid A} (zero : A) :
  json_valid zero = true → @JsonLaws A (code_json zero) _.
Proof.
  intros Hz. split; simpl.
  - intros a. eexists. split; [done|]. by destruct (encode a).
  - intros a s Ha [= <-]. by rewrite text_pos_text; simpl; rewrite decode_encode, Ha.
  - intros s. repeat case_step; done.
Qed.

#[export] Instance AllocDevice_countable : Countable AllocDevice.
Proof.
  refine (inj_countable' (λ a, (Alloc_Kind a, Alloc_Index a)) (λ p, mkAlloc p.1 p.2) _).
  by intros [].
Defined.

#[export] Instance Device_countable : Countable Device.
Proof.
  refine (inj_countable'
    (λ d, (Device_Kind d, Device_Vendor d, Device_Index d, Device_UUID d, Device_MemTotalBytes d, Device_Name d))
    (λ '(k, v, i, u, m, n), mkDevice k v i u m n) _).
  by intros [].
Defined.

#[export] Instance json_devices : Json (list Device) := code_json [].
#[export] Instance json_labels : Json smap := code_json ∅.
#[export] Instance json_allocs : Json (list AllocDevice) := code_json [].

#[export] Instance json_devices_laws : JsonLaws (list Device) := code_json_laws [] eq_refl.
#[export] Instance json_labels_laws : JsonLaws smap := code_json_laws ∅ eq_refl.
#[export] Instance json_allocs_laws : JsonLaws (list AllocDevice) := code_json_laws [] eq_refl.

(** ** A driver: [uint64] arguments with the high bit set are refused *)

#[export] Instance sql_driver : Driver := {|
  bind_uint64 z := if z <? 2 ^ 63 then Ok z
    else Err "sql: converting argument: uint64 values with high bit set are not supported"
|}.

#[export] Instance sql_driver_laws : DriverLaws.
Proof.
  split. intros z Hz. simpl. replace (z <? 2 ^ 63) with true; [done|].
  symmetry. apply Z.ltb_lt. lia.
Defined.

(** ** A small database *)

Definition ex_node (id name : string) : Node :=
  mkNode id name "gpu" StateUp "10.0.0.5" 64 1000
    [mkDevice "gpu" "nvidia" 0 "GPU-0" 80 "NVIDIA A100"; mkDevice "gpu" "nvidia" 1 "GPU-1" 80 "NVIDIA A100"]
    {["rack" := "r1"]} "v1" (timeUnix 1000).

Definition ex_job (id : string) (gpus : Z) (at_ : Z) : Job :=
  mkJob id "train" "ana" "gpu" JobPending 0 "python train.py" {["SEED" := "7"]} "/work" 8 100 gpus ""
    3600 "" "" [] 0 "" (timeUnix at_) 0 0.

Definition ex_db : DB :=
  exec_calls [CallRegisterNode (ex_node "n1" "alpha"); CallRegisterNode (ex_node "n2" "beta");
              CallCreateJob (ex_job "j1" 1 1001); CallCreateJob (ex_job "j2" 2 1002)] emptyDB.

Lemma ex_db_ok : DB_ok ex_db.
Proof. apply exec_calls_ok, emptyDB_ok. Qed.
