(* ===== verification/SQLiteRefines.v ===== *)
(** * The SQLite store refines the store's contract

    The abstract state is the decoded tables; every writing call acts on it as its
    specification says or fails and changes nothing, and every query answers from it. *)
From S2P Require Import Prelude GoBase GoStrings Event Store StoreSpec SQLite SQLiteProofs StoreExample.
Local Open Scope Z_scope.

Section refines.
Context `{!Json (list Device), !JsonLaws (list Device)}.
Context `{!Json smap, !JsonLaws smap}.
Context `{!Json (list AllocDevice), !JsonLaws (list AllocDevice)}.
Context `{!Driver, !DriverLaws}.

Definition db_view (db : DB) : View := mkView (scanNode <$> db_nodes db) (scanJob <$> db_jobs db).

Lemma view_same db db' : same_tables db db' → db_view db' = db_view db.
Proof. intros (E1 & E2 & _). unfold db_view. by rewrite E1, E2. Qed.

Lemma view_sets_job db x row db' :
  sets_job db x row db' → db_view db' = set_jobs (<[x := scanJob row]> (v_jobs (db_view db))) (db_view db).
Proof.
  intros (E1 & E2 & _). simpl in *. unfold db_view, set_jobs; simpl. by rewrite <-E1, <-E2, fmap_insert.
Qed.

Lemma view_sets_node db x row db' :
  sets_node db x row db' →
  db_view db' = set_nodes (<[x := scanNode row]> (v_nodes (db_view db))) (db_view db).
Proof.
  intros (E1 & E2 & _). simpl in *. unfold db_view, set_nodes; simpl. by rewrite <-E1, <-E2, fmap_insert.
Qed.

Lemma view_job db x row : db_jobs db !! x = Some row → v_jobs (db_view db) !! x = Some (scanJob row).
Proof. intros E. simpl. by rewrite lookup_fmap, E. Qed.

Lemma view_node db x row : db_nodes db !! x = Some row → v_nodes (db_view db) !! x = Some (scanNode row).
Proof. intros E. simpl. by rewrite lookup_fmap, E. Qed.

Lemma view_job_inv db x j :
  v_jobs (db_view db) !! x = Some j → ∃ row, db_jobs db !! x = Some row ∧ j = scanJob row.
Proof. simpl. rewrite lookup_fmap. destruct (db_jobs db !! x) as [row|]; naive_solver. Qed.

Lemma view_node_inv db x n :
  v_nodes (db_view db) !! x = Some n → ∃ row, db_nodes db !! x = Some row ∧ n = scanNode row.
Proof. simpl. rewrite lookup_fmap. destruct (db_nodes db !! x) as [row|]; naive_solver. Qed.

(** ** Decoding commutes with the updates *)

Lemma scan_assigned nid nn ds d row :
  json_valid ds = true → json_Marshal ds = Ok d →
  scanJob (set_assigned nid nn d row) = job_assigned nid nn ds (scanJob row).
Proof. intros Hv Hd. unfold scanJob, job_assigned; simpl. by rewrite (unmarshal_text _ _ _ Hv Hd). Qed.

Lemma scan_started t row :
  scanJob (set_start (unixOf t) (set_state JobRunning row)) = job_started (whole_seconds t) (scanJob row).
Proof. unfold scanJob, job_started; simpl. by rewrite unix_round_trip. Qed.

Lemma scan_ended st code reason t row :
  scanJob (set_end code reason (unixOf t) (set_state st row)) =
    job_ended st code reason (whole_seconds t) (scanJob row).
Proof. unfold scanJob, job_ended; simpl. by rewrite unix_round_trip. Qed.

Lemma scan_cancelled now row :
  scanJob (cancelled_row now row) = job_cancelled (whole_seconds now) (scanJob row).
Proof.
  unfold cancelled_row, job_cancelled, cancelled_state. change (Job_State (scanJob row)) with (jr_state row).
  destruct (decide (jr_state row = JobPending)).
  - unfold scanJob, job_ended; simpl. by rewrite unixToTime_Unix.
  - destruct (decide (jr_state row = JobAssigned ∨ jr_state row = JobRunning)); [done|].
    by rewrite set_state_id.
Qed.

Lemma scan_registered id n mem ds ls :
  call_ok (CallRegisterNode n) → bind_uint64 (Node_MemTotalBytes n) = Ok mem →
  json_Marshal (Node_Devices n) = Ok ds → json_Marshal (Node_Labels n) = Ok ls →
  scanNode (registered_row id n mem ds ls) = stored_node id n.
Proof.
  intros (Hd & Hl & Hm) Em Ed El. unfold scanNode, stored_node; simpl.
  rewrite (unmarshal_text _ _ _ Hd Ed), (unmarshal_text _ _ _ Hl El), heartbeat_text, unixToTime_Unix.
  rewrite (bind_small _ Hm) in Em. by injection Em as <-.
Qed.

Lemma scan_stale cutoff r :
  timeUnix 1 ≤ cutoff → node_stale cutoff (scanNode r) = stale cutoff r.
Proof.
  intros Hc. unfold node_stale, stale. simpl. f_equal.
  rewrite heartbeat_text. unfold unixToTime. apply Unix_mono in Hc. rewrite Unix_timeUnix in Hc.
  destruct (nr_last_heartbeat r <=? 0) eqn:E; bool_to_prop; [|by rewrite Unix_timeUnix].
  transitivity true; [|symmetry]; apply Z.ltb_lt; [|lia]. change (Unix 0) with (-62135596800). lia.
Qed.

Lemma scan_down cutoff r :
  timeUnix 1 ≤ cutoff →
  scanNode (if stale cutoff r then set_down r else r) =
    if node_stale cutoff (scanNode r) then node_down (scanNode r) else scanNode r.
Proof. intros Hc. rewrite scan_stale by done. by destruct (stale cutoff r). Qed.

(** ** Registration *)

Lemma registered_spec db n id :
  DB_ok db → registered_id db n id →
  match named (Node_Name n) (v_nodes (db_view db)) with
  | Some (id', _) => id' = id
  | None => id = Node_ID n ∧ v_nodes (db_view db) !! id = None
  end.
Proof.
  intros Hok Hid. destruct (named _ _) as [[k m]|] eqn:E.
  - apply named_some in E as [Hk Hn]. apply view_node_inv in Hk as (row & Hk & ->). simpl in Hn.
    destruct Hid as [(old & Ho & Hon)|(_ & _ & Hno)]; [|by destruct (Hno k row Hk)].
    eapply (ok_names _ Hok); [done..|congruence].
  - pose proof (named_none _ _ E) as Hno. destruct Hid as [(old & Ho & Hon)|(-> & Hn & _)].
    + exfalso. by apply (Hno id (scanNode old)); [apply view_node|].
    + split; [done|]. simpl. by rewrite lookup_fmap, Hn.
Qed.

(** ** The writing calls *)

Lemma refines_register n db r db' :
  DB_ok db → call_ok (CallRegisterNode n) → RegisterNode n db = (r, db') →
  if is_ok r then spec_call (CallRegisterNode n) (db_view db) = Some (db_view db')
  else db_view db' = db_view db.
Proof.
  intros Hok Hc E. apply RegisterNode_effect in E
    as [(e & -> & E)|(id & mem & ds & ls & -> & Em & Ed & El & Hid & E)]; [by apply view_same| |done].
  simpl. apply view_sets_node in E. rewrite (scan_registered id n mem ds ls Hc Em Ed El) in E.
  pose proof (registered_spec db n id Hok Hid) as Hn. simpl in Hn.
  destruct (named _ _) as [[id' m]|]; [by rewrite E, Hn|]. destruct Hn as [-> Hn]. by rewrite Hn, E.
Qed.

Lemma refines_heartbeat n t db r db' :
  DB_ok db → call_ok (CallHeartbeat n t) → Heartbeat n t db = (r, db') →
  if is_ok r then spec_call (CallHeartbeat n t) (db_view db) = Some (db_view db')
  else db_view db' = db_view db.
Proof.
  intros Hok [Hv Hm] E. apply Heartbeat_effect in E
    as [(e & -> & E)|[(mem & ds & old & -> & Em & Ed & Ho & E)|(-> & Hno & E)]]; [by apply view_same|..|done];
    simpl.
  - apply view_sets_node in E. rewrite E. simpl. do 2 f_equal.
    rewrite (alter_as_insert _ _ _ _ (view_node _ _ _ Ho)). f_equal. unfold node_heard, scanNode; simpl.
    rewrite (unmarshal_text _ _ _ Hv Ed), heartbeat_text, unixToTime_Unix.
    rewrite (bind_small _ Hm) in Em. by injection Em as <-.
  - rewrite (view_same _ _ E). f_equal. apply set_nodes_id.
    rewrite alter_absent; [done|]. simpl. by rewrite lookup_fmap, Hno.
Qed.

Lemma refines_stale t db r db' :
  call_ok (CallMarkStaleDown t) → MarkStaleDown t db = (r, db') →
  if is_ok r then spec_call (CallMarkStaleDown t) (db_view db) = Some (db_view db')
  else db_view db' = db_view db.
Proof.
  intros Hc E. apply MarkStaleDown_effect in E as [(e & -> & E)|(-> & E1 & E2 & _)]; [by apply view_same|].
  simpl in *. unfold set_nodes, db_view. simpl. rewrite <-E1, <-E2. do 2 f_equal.
  apply map_eq. intros k. rewrite !lookup_fmap, update_where_lookup.
  destruct (db_nodes db !! k) as [row|]; simpl; [|done]. by rewrite scan_down.
Qed.

Lemma refines_create j db r db' :
  call_ok (CallCreateJob j) → CreateJob j db = (r, db') →
  if is_ok r then spec_call (CallCreateJob j) (db_view db) = Some (db_view db')
  else db_view db' = db_view db.
Proof.
  intros (Hv & Hd & Hm). unfold CreateJob, st_try, wrap_err, marshal, bind_u64, st_ret.
  destruct (json_total (Job_Env j)) as (env & Ee & _), (json_total (Job_Devices j)) as (ds & Ed & _).
  rewrite Ee, Ed, (bind_small _ Hm). stmt_split; [by intros [= <- <-]|].
  unfold insertJob. simpl. rewrite lookup_fmap.
  destruct (db_jobs db !! Job_ID j) eqn:E; intros [= <- <-]; [done|]. simpl.
  unfold set_jobs, db_view; simpl. rewrite fmap_insert. do 3 f_equal.
  unfold scanJob, stored_job; simpl.
  by rewrite !unix_round_trip, (unmarshal_text _ _ _ Hv Ee), (unmarshal_text _ _ _ Hd Ed).
Qed.

Lemma refines_assign x nid nn ds db r db' :
  DB_ok db → json_valid ds = true → AssignJob x nid nn ds db = (r, db') →
  if is_ok r then spec_call (CallAssignJob x nid nn ds) (db_view db) = Some (db_view db')
  else db_view db' = db_view db.
Proof.
  intros Hok Hv E. apply AssignJob_effect in E
    as [(e & -> & E)|(-> & row & d & Hd & Hx & Hs & E)]; [by apply view_same| |done].
  apply view_sets_job in E. simpl spec_call. simpl in *. rewrite lookup_fmap, Hx. simpl.
  rewrite decide_True by done. by rewrite E, (scan_assigned nid nn ds d row Hv Hd).
Qed.

Lemma refines_running x t db r db' :
  DB_ok db → MarkJobRunning x t db = (r, db') →
  if is_ok r then spec_call (CallMarkJobRunning x t) (db_view db) = Some (db_view db')
  else db_view db' = db_view db.
Proof.
  intros Hok E. apply MarkJobRunning_effect in E
    as [(e & -> & E)|(-> & [(row & Hx & Hs & E)|(Hno & E)])]; [by apply view_same|..|done]; simpl.
  - apply view_sets_job in E. rewrite E, scan_started. simpl. unfold set_jobs. do 2 f_equal.
    rewrite (alter_as_insert _ _ _ _ (view_job _ _ _ Hx)). simpl. by rewrite decide_True.
  - rewrite (view_same _ _ E). f_equal. apply set_jobs_id.
    destruct (db_jobs db !! x) as [row|] eqn:Ex.
    + apply (alter_id _ _ _ (scanJob row)); [by rewrite lookup_fmap, Ex|]. rewrite decide_False; [done|].
      by apply Hno.
    + apply alter_absent. simpl. by rewrite lookup_fmap, Ex.
Qed.

Lemma refines_finish x st code reason t db r db' :
  DB_ok db → FinishJob x st code reason t db = (r, db') →
  if is_ok r then spec_call (CallFinishJob x st code reason t) (db_view db) = Some (db_view db')
  else db_view db' = db_view db.
Proof.
  intros Hok E. apply FinishJob_effect in E
    as [(e & -> & E)|(-> & [(row & Hx & E)|(Hno & E)])]; [by apply view_same|..|done]; simpl.
  - apply view_sets_job in E. rewrite E, scan_ended. simpl. unfold set_jobs. do 2 f_equal.
    by rewrite (alter_as_insert _ _ _ _ (view_job _ _ _ Hx)).
  - rewrite (view_same _ _ E). f_equal. apply set_jobs_id.
    apply alter_absent. simpl. by rewrite lookup_fmap, Hno.
Qed.

Lemma refines_cancel x now db r db' :
  DB_ok db → CancelJob x now db = (r, db') →
  if is_ok r then spec_call (CallCancelJob x now) (db_view db) = Some (db_view db')
  else db_view db' = db_view db.
Proof.
  intros Hok E. apply CancelJob_effect in E
    as [(e & -> & E)|(row & -> & Hx & E)]; [by apply view_same| |done].
  apply view_sets_job in E. simpl in *. rewrite lookup_fmap, Hx. simpl. by rewrite E, scan_cancelled.
Qed.

Lemma exec_refines c db ok db' :
  DB_ok db → call_ok c → exec_call c db = (ok, db') →
  DB_ok db' ∧ if ok then spec_call c (db_view db) = Some (db_view db') else db_view db' = db_view db.
Proof.
  intros Hok Hc E. split; [pose proof (exec_call_ok c db Hok) as H'; by rewrite E in H'|].
  destruct c; simpl in E; repeat case_step_in E; injection E as <- <-.
  - by eapply refines_register.
  - by eapply refines_heartbeat.
  - by eapply refines_stale.
  - by eapply refines_create.
  - by eapply refines_assign.
  - by eapply refines_running.
  - by eapply refines_finish.
  - by eapply refines_cancel.
  - match goal with H : CreateEvent _ _ = _ |- _ =>
      apply CreateEvent_effect in H as [(? & -> & E)|(-> & _ & ? & _ & E)] end; simpl;
      [by apply view_same|f_equal; destruct E as (E1 & E2 & _); unfold db_view; simpl in *; by rewrite E1, E2].
  - match goal with H : CreateNotification _ _ = _ |- _ =>
      apply CreateNotification_effect in H as [(? & -> & E)|(-> & _ & ? & _ & E)] end; simpl;
      [by apply view_same|f_equal; destruct E as (E1 & E2 & _); unfold db_view; simpl in *; by rewrite E1, E2].
Qed.

(** ** Without statement failures, a call is refused only if its specification refuses it *)

Lemma exec_complete c db ok db' :
  DB_ok db → db_faults db = [] → call_ok c → exec_call c db = (ok, db') →
  db_faults db' = [] ∧ (ok = false → default (db_view db) (spec_call c (db_view db)) = db_view db).
Proof.
  intros Hok Hf Hc. destruct c; simpl in *.
  - destruct Hc as (Hv & Hl & Hm). unfold RegisterNode, st_try, wrap_err, marshal, bind_u64, st_ret.
    destruct (json_total (Node_Devices n)) as (ds & -> & _), (json_total (Node_Labels n)) as (ls & -> & _).
    rewrite (bind_small _ Hm), stmt_nofault by done. unfold upsertNode. fold (by_name (Node_Name n)).
    destruct (rows_where (by_name (Node_Name n)) (db_nodes db)) eqn:E; [|by intros [= <- <-]].
    destruct (db_nodes db !! Node_ID n) as [old|] eqn:Eo; intros [= <- <-]; [|done].
    split; [done|]. intros _. destruct (named _ _) as [[k m]|] eqn:En.
    + exfalso. apply named_some in En as [Hk Hn]. apply view_node_inv in Hk as (row & Hk & ->).
      by eapply rows_by_name_nil.
    + by rewrite lookup_fmap, Eo.
  - destruct Hc as (Hv & Hm). unfold Heartbeat, st_try, wrap_err, marshal, bind_u64, st_ret.
    destruct (json_total (Node_Devices n)) as (ds & -> & _).
    rewrite (bind_small _ Hm), stmt_nofault by done. by intros [= <- <-].
  - unfold MarkStaleDown, wrap_err. rewrite stmt_nofault by done. by intros [= <- <-].
  - destruct Hc as (Hv & Hd & Hm). unfold CreateJob, st_try, wrap_err, marshal, bind_u64, st_ret.
    destruct (json_total (Job_Env j)) as (env & -> & _), (json_total (Job_Devices j)) as (ds & -> & _).
    rewrite (bind_small _ Hm), stmt_nofault by done. unfold insertJob.
    rewrite lookup_fmap. by destruct (db_jobs db !! Job_ID j); intros [= <- <-].
  - unfold AssignJob, st_try, marshal, st_ret, wrap_err. destruct (json_total devices) as (d & -> & _).
    rewrite stmt_nofault by done. simpl. rewrite (count_by_id jr_id) by apply Hok.
    rewrite lookup_fmap. destruct (db_jobs db !! jobID) as [row|] eqn:E; simpl; [|by intros [= <- <-]].
    case_bool_decide as Hs; intros [= <- <-]; [done|]. split; [done|].
    intros _. by rewrite decide_False.
  - unfold MarkJobRunning, wrap_err. rewrite stmt_nofault by done. by intros [= <- <-].
  - unfold FinishJob, wrap_err. rewrite stmt_nofault by done. by intros [= <- <-].
  - rewrite lookup_fmap. unfold CancelJob, cancelBody, st_try.
    repeat (rewrite stmt_nofault by done; cbn beta iota).
    destruct (db_jobs db !! jobID) as [row|] eqn:Ex; [|by intros [= <- <-]]. cbn beta iota.
    repeat case_decide; unfold st_ret; repeat (rewrite stmt_nofault by done; cbn beta iota);
      by intros [= <- <-].
  - unfold CreateEvent, st_try, wrap_err, marshal, st_ret.
    destruct (json_total (Event_Labels e)) as (ls & -> & _). rewrite stmt_nofault by done. simpl.
    by destruct (db_events db !! Event_ID e); intros [= <- <-].
  - unfold CreateNotification, wrap_err. rewrite stmt_nofault by done. simpl.
    by destruct (db_notifications db !! Note_ID n); intros [= <- <-].
Qed.

(** ** The queries *)

Lemma scan_keyed_nodes db : DB_ok db → keyed Node_ID (v_nodes (db_view db)).
Proof. intros Hok k n Hk. apply view_node_inv in Hk as (row & Hk & ->). by apply (ok_nodes _ Hok). Qed.

Lemma scan_keyed_jobs db : DB_ok db → keyed Job_ID (v_jobs (db_view db)).
Proof. intros Hok k j Hk. apply view_job_inv in Hk as (row & Hk & ->). by apply (ok_jobs _ Hok). Qed.

Lemma elem_of_map_values {R} (t : gmap string R) r : r ∈ (map_to_list t).*2 ↔ ∃ k, t !! k = Some r.
Proof.
  rewrite list_elem_of_fmap. split.
  - intros ([k r'] & -> & Hin). exists k. by apply elem_of_map_to_list.
  - intros [k Hk]. exists (k, r). split; [done|]. by apply elem_of_map_to_list.
Qed.

Lemma listed_nodes : answers_with db_view DB_ok ListNodes nodes_listed.
Proof.
  intros db r db' Hok E.
  apply (query_cases _ (λ db, sort_by byName (map_to_list (db_nodes db)).*2) (fmap scanNode)) in E as [Hs Hr].
  split_and!; [by eapply DB_ok_same|by apply view_same|].
  intros ns ->. destruct Hr as [[e [=]]|[fs [= ->]]]. simpl. split.
  - rewrite <-list_fmap_compose. rewrite sort_by_perm.
    assert (Node_ID ∘ scanNode = nr_id) as -> by done.
    pose proof (rows_where_ids nr_id (λ _, true) (db_nodes db) (ok_nodes _ Hok)) as Hn.
    unfold rows_where in Hn. rewrite filter_id in Hn; [done|]. by apply Forall_true.
  - intros n. rewrite list_elem_of_fmap. split.
    + intros (row & -> & Hin). rewrite elem_of_sort_by, elem_of_map_values in Hin.
      destruct Hin as [k Hk]. simpl. rewrite lookup_fmap. by rewrite (ok_nodes _ Hok _ _ Hk), Hk.
    + intros Hn. apply view_node_inv in Hn as (row & Hk & ->). exists row. split; [done|].
      rewrite elem_of_sort_by, elem_of_map_values. eauto.
Qed.

Lemma listed_jobs p q order :
  (∀ row, p row = true ↔ q (scanJob row)) → (∀ l, order l ≡ₚ l) →
  answers_with db_view DB_ok (queryJobs p order) (jobs_listed q).
Proof.
  intros Hpq Ho db r db' Hok E.
  apply (query_cases _ (λ db, order (rows_where p (db_jobs db))) (fmap scanJob)) in E as [Hs Hr].
  split_and!; [by eapply DB_ok_same|by apply view_same|].
  intros js ->. destruct Hr as [[e [=]]|[fs [= ->]]]. simpl. split.
  - rewrite <-list_fmap_compose, Ho. by apply (rows_where_ids jr_id), Hok.
  - intros j. rewrite list_elem_of_fmap. split.
    + intros (row & -> & Hin). rewrite Ho, elem_of_rows_where in Hin. destruct Hin as [Hp [k Hk]].
      split; [|by apply Hpq]. simpl. rewrite lookup_fmap. by rewrite (ok_jobs _ Hok _ _ Hk), Hk.
    + intros [Hj Hq]. apply view_job_inv in Hj as (row & Hk & ->). exists row. split; [done|].
      rewrite Ho, elem_of_rows_where. split; [by apply Hpq|eauto].
Qed.

Lemma listed_any {A B} msg (q : DB → A) (scan : A → B) :
  answers_with db_view DB_ok (rows <-? wrap_err msg (stmt (λ db, (Ok (q db), db))) ;; fetch (scan rows)) (λ _ _, True).
Proof. intros db r db' Hok [Hs _]%query_cases. split_and!; [by eapply DB_ok_same|by apply view_same|done]. Qed.

(** A registration fails only with its statement, when its name is known or its identifier new. *)
Lemma RegisterNode_attempt n db :
  DB_ok db → call_ok (CallRegisterNode n) →
  is_Some (named (Node_Name n) (v_nodes (db_view db))) ∨ v_nodes (db_view db) !! Node_ID n = None →
  match db_faults db with
  | Some e :: fs => ∃ e', RegisterNode n db = (Err e', with_faults fs db)
  | _ => ∃ id db', RegisterNode n db = (Ok id, db')
  end.
Proof.
  intros Hok (Hv & Hl & Hm) Ha. unfold RegisterNode, st_try, wrap_err, marshal, bind_u64, st_ret.
  destruct (json_total (Node_Devices n)) as (ds & -> & _), (json_total (Node_Labels n)) as (ls & -> & _).
  rewrite (bind_small _ Hm). unfold stmt.
  assert (∀ db1, db_nodes db1 = db_nodes db → ∃ id db', upsertNode n (Node_MemTotalBytes n) ds ls db1 = (Ok id, db')) as Hup.
  { intros db1 E. unfold upsertNode. rewrite E. fold (by_name (Node_Name n)).
    destruct (rows_where (by_name (Node_Name n)) (db_nodes db)) as [|old rows] eqn:Er; [|by eexists _, _].
    destruct (db_nodes db !! Node_ID n) as [old|] eqn:Eo; [|by eexists _, _]. exfalso. destruct Ha as [[[k m] En]|Hn].
    - apply named_some in En as [Hk Hn]. apply view_node_inv in Hk as (row & Hk & ->). exact (proj1 (rows_by_name_nil _ _) Er k row Hk Hn).
    - simpl in Hn. by rewrite lookup_fmap, Eo in Hn. }
  destruct (db_faults db) as [|[e|] fs].
  - destruct (Hup db eq_refl) as (id & db' & ->). by eexists _, _.
  - by eexists.
  - destruct (Hup (with_faults fs db) eq_refl) as (id & db' & ->). by eexists _, _.
Qed.

Lemma registered_node n db id db' :
  DB_ok db → call_ok (CallRegisterNode n) → RegisterNode n db = (Ok id, db') →
  v_nodes (db_view db') !! id = Some (stored_node id n).
Proof.
  intros Hok Hc E. apply RegisterNode_effect in E
    as [(e & [=] & _)|(id' & mem & ds & ls & [= <-] & Em & Ed & El & _ & (En & _))]; [|done].
  rewrite <-(scan_registered id n mem ds ls Hc Em Ed El). apply view_node. simpl in En. by rewrite <-En, lookup_insert_eq.
Qed.

Lemma heard_node n t db found db' :
  DB_ok db → call_ok (CallHeartbeat n t) → Heartbeat n t db = (Ok found, db') →
  found = bool_decide (is_Some (v_nodes (db_view db) !! Node_ID n)).
Proof.
  intros Hok _ E. simpl. rewrite lookup_fmap.
  apply Heartbeat_effect in E as [(e & [=] & _)|[(mem & ds & old & [= ->] & _ & _ & -> & _)|([= ->] & Hno & _)]]; try done.
  by rewrite Hno.
Qed.

#[export] Instance sqlite_laws : StoreLaws DB.
Proof.
  refine {| view := db_view; inv := DB_ok |}.
  - intros db k j Hok. by apply scan_keyed_jobs.
  - intros db k n Hok. by apply scan_keyed_nodes.
  - intros db k1 k2 n1 n2 Hok H1 H2 E. apply view_node_inv in H1 as (r1 & H1 & ->), H2 as (r2 & H2 & ->).
    by eapply (ok_names _ Hok).
  - intros db k n Hok Hk. apply view_node_inv in Hk as (row & _ & ->). simpl.
    case_decide; [done|]. apply json_decoded.
  - apply exec_refines.
  - apply registered_node.
  - apply heard_node.
  - apply listed_nodes.
  - intros id db r db' Hok. unfold store_GetNode, sqliteStore, GetNode, wrap_err.
    stmt_split; intros [= <- <-].
    { split_and!; [by eapply DB_ok_same; [apply with_faults_tables|]|done..]. }
    split_and!; [by eapply DB_ok_same; [apply with_faults_tables|]|done|].
    intros o [= <-]. simpl. by rewrite lookup_fmap.
  - intros id db r db' Hok. unfold store_GetJob, sqliteStore, GetJob, wrap_err.
    stmt_split; intros [= <- <-].
    { split_and!; [by eapply DB_ok_same; [apply with_faults_tables|]|done..]. }
    split_and!; [by eapply DB_ok_same; [apply with_faults_tables|]|done|].
    intros o [= <-]. simpl. by rewrite lookup_fmap.
  - apply listed_jobs; [|done]. intros row. unfold active. simpl.
    by rewrite orb_true_iff, !bool_decide_eq_true.
  - apply listed_jobs; [|apply sort_by_perm]. intros row. by rewrite bool_decide_eq_true.
  - intros nid st. apply listed_jobs; [|apply sort_by_perm]. intros row.
    by rewrite andb_true_iff, !bool_decide_eq_true.
  - intros st owner. apply listed_jobs; [|apply sort_by_perm]. intros row.
    rewrite andb_true_iff, !orb_true_iff, !bool_decide_eq_true. simpl. naive_solver.
  - intros n. by apply (listed_any _ (λ db, take (Z.to_nat (clampLimit n))
      (sort_by eventByTsDescId (map_to_list (db_events db)).*2)) (fmap scanEvent)).
  - intros n. by apply (listed_any _ (λ db, take (Z.to_nat (clampLimit n))
      (sort_by noteByTsDescId (map_to_list (db_notifications db)).*2)) (fmap scanNotification)).
Defined.

(** ** Without statement failures the store is up *)

Lemma fetched {A B} msg (q : DB → A) (scan : A → B) (db : DB) :
  db_faults db = [] → (rows <-? wrap_err msg (stmt (λ db, (Ok (q db), db))) ;; fetch (scan rows)) db = (Ok (scan (q db)), db).
Proof. intros Hf. unfold st_try, wrap_err, fetch. by rewrite stmt_nofault, stmt_nofault by done. Qed.

#[export] Instance sqlite_steady : Steady DB.
Proof.
  refine {| steady := λ db : DB, db_faults db = [] |}.
  - intros db _ Hf. do 2 eexists. split; [by apply (fetched _ (λ db, sort_by byName (map_to_list (db_nodes db)).*2))|done].
  - intros db _ Hf. do 2 eexists. split; [by apply (fetched _ (λ db, id (rows_where _ (db_jobs db))))|done].
  - intros db _ Hf. do 2 eexists. split; [by apply (fetched _ (λ db, sort_by _ (rows_where _ (db_jobs db))))|done].
  - intros db x j nid nn ds Hi Hf Hv Hj Hp.
    destruct (exec_call (CallAssignJob x nid nn ds) db) as [ok db'] eqn:E.
    destruct (exec_complete (CallAssignJob x nid nn ds) db ok db' Hi Hf Hv E) as [Hf' Hok].
    assert (spec_call (CallAssignJob x nid nn ds) (db_view db) =
      Some (set_jobs (<[x := job_assigned nid nn ds j]> (v_jobs (db_view db))) (db_view db))) as Hs.
    { unfold spec_call. change (v_jobs (db_view db) !! x) with (v_jobs (view db) !! x). rewrite Hj. simpl. by rewrite decide_True. }
    rewrite Hs in Hok. unfold exec_call in E. destruct (store_AssignJob x nid nn ds db) as [r db1]. injection E as <- <-.
    exists db1. destruct r as [[]|e]; [done|]. exfalso. specialize (Hok eq_refl). simpl default in Hok.
    assert (v_jobs (db_view db) !! x = Some (job_assigned nid nn ds j)) as Hx by (rewrite <-Hok; apply lookup_insert_eq).
    change (v_jobs (db_view db) !! x) with (v_jobs (view db) !! x) in Hx. rewrite Hj in Hx. injection Hx as Hx.
    rewrite Hx in Hp. discriminate.
  - intros db id _ Hf. do 2 eexists. split; [|exact Hf]. simpl. unfold GetNode, wrap_err. by rewrite stmt_nofault.
  - intros db nid st _ Hf. do 2 eexists. split; [by apply (fetched _ (λ db, sort_by _ (rows_where _ (db_jobs db))))|done].
  - intros db id _ Hf. do 2 eexists. split; [|exact Hf]. simpl. unfold GetJob, wrap_err. by rewrite stmt_nofault.
  - intros db x st code reason t _ Hf. simpl. unfold FinishJob, wrap_err. rewrite stmt_nofault by done.
    eexists. split; [reflexivity|exact Hf].
  - intros db n t _ Hf [Hd Hm]. simpl. unfold Heartbeat, st_try, wrap_err, marshal, bind_u64, st_ret.
    destruct (json_total (Node_Devices n)) as (ds & -> & _). rewrite (bind_small _ Hm), stmt_nofault by done.
    do 2 eexists. split; [reflexivity|exact Hf].
Defined.

(** ** The refinement over histories *)

(** A refused call leaves the abstract state alone. *)
Definition spec_calls (cs : list call) (v : View) : View :=
  foldl (λ v c, default v (spec_call c v)) v cs.

(** [C5] (refinement) The SQLite store implements its contract: over any history of calls with
    representable arguments, the decoded tables are those obtained by applying the
    specification of a subsequence of the calls (the others failed and changed nothing); with
    no statement failure it is the specification of all of them, a call being refused exactly
    when its specification refuses it or would change nothing. *)
Theorem sqlite_refines cs db :
  DB_ok db → Forall call_ok cs →
  (∃ done, done `sublist_of` cs ∧ db_view (exec_calls cs db) = spec_calls done (db_view db)) ∧
  (db_faults db = [] → db_view (exec_calls cs db) = spec_calls cs (db_view db)).
Proof.
  intros Hok Hcs. revert db Hok. induction Hcs as [|c cs Hc _ IH]; intros db Hok.
  { split; [exists []; by split|done]. }
  change (exec_calls (c :: cs) db) with (exec_calls cs (exec_call c db).2).
  destruct (exec_call c db) as [ok db1] eqn:E. simpl snd.
  destruct (exec_refines c db ok db1 Hok Hc E) as [Hok1 Hv].
  destruct (IH db1 Hok1) as [(dn & Hsub & Hd) Hnf]. split.
  - destruct ok.
    + exists (c :: dn). split; [by constructor|]. rewrite Hd. simpl. by rewrite Hv.
    + exists dn. split; [by constructor|]. by rewrite Hd, Hv.
  - intros Hf. destruct (exec_complete c db ok db1 Hok Hf Hc E) as [Hf1 Hr].
    rewrite (Hnf Hf1). simpl. f_equal. destruct ok; [by rewrite Hv|]. by rewrite Hv, Hr.
Qed.
End refines.

Lemma sqlite_refines_witness :
  db_view (exec_calls [CallAssignJob "j1" "n1" "alpha" [mkAlloc "gpu" 0]; CallCancelJob "zz" (timeUnix 9)] ex_db) =
    spec_calls [CallAssignJob "j1" "n1" "alpha" [mkAlloc "gpu" 0]; CallCancelJob "zz" (timeUnix 9)] (db_view ex_db).
Proof. apply (sqlite_refines _ ex_db); [exact ex_db_ok|by_decide|reflexivity]. Defined.
