(* ===== verification/SQLiteTheorems.v ===== *)
(** * The store: its properties

    The identifiers and names of the tables, the life cycle of a job over any history of
    calls, the round trips of jobs and nodes, and the exact results of the queries. *)
From S2P Require Import Prelude GoBase GoStrings Event Store StoreSpec SQLite SQLiteProofs StoreExample.
Local Open Scope Z_scope.

(** ** The life cycle of a job *)

(** The states a job passes through, in order. *)
Definition phase (s : string) : nat :=
  if decide (s = JobPending) then 0
  else if decide (s = JobAssigned) then 1
  else if decide (s = JobRunning) then 2
  else if decide (s = JobCancelling) then 3 else 4.

Definition terminal (s : string) : Prop :=
  s = JobCompleted ∨ s = JobFailed ∨ s = JobCancelled ∨ s = JobTimeout.

#[export] Instance terminal_dec s : Decision (terminal s).
Proof. unfold terminal; apply _. Defined.

(** One move of the life cycle. *)
Inductive edge : string → string → Prop :=
| edge_assign : edge JobPending JobAssigned
| edge_run : edge JobAssigned JobRunning
| edge_cancel_pending : edge JobPending JobCancelled
| edge_cancel s : s = JobAssigned ∨ s = JobRunning → edge s JobCancelling
| edge_finish s s' : terminal s' → edge s s'.

(** The calls the control plane makes: [FinishJob] gets a terminal state. *)
Definition finishes_terminal (c : call) : Prop :=
  match c with CallFinishJob _ s _ _ _ => terminal s | _ => True end.

#[export] Instance finishes_terminal_dec c : Decision (finishes_terminal c).
Proof. destruct c; simpl; apply _. Defined.

(** The columns no call after the submission writes. *)
Definition request_of (r : JobRow) :=
  (jr_id r, jr_name r, jr_owner r, jr_partition r, jr_priority r, jr_command r, jr_env_json r,
   jr_workdir r, (jr_req_cpus r, jr_req_mem_bytes r, jr_req_gpus r, jr_gpu_type r,
   jr_walltime_sec r, jr_submit_at r)).

Definition placement_of (r : JobRow) := (jr_node_id r, jr_node_name r, jr_devices_json r).

Lemma edge_phase s s' : edge s s' → (phase s ≤ phase s')%nat.
Proof.
  assert (∀ x, (phase x ≤ 4)%nat) as H4.
  { intros x. unfold phase. repeat case_decide; lia. }
  destruct 1 as [| | |s [->| ->]|s s' Ht]; try (vm_compute; lia).
  destruct Ht as [-> |[-> |[-> | ->]]]; apply H4.
Qed.

Lemma edges_phase s s' : rtc edge s s' → (phase s ≤ phase s')%nat.
Proof. induction 1 as [|s1 s2 s3 Hs _ IH]; [done|]. apply edge_phase in Hs. lia. Qed.

Lemma edge_terminal s s' : edge s s' → terminal s → terminal s'.
Proof.
  destruct 1 as [| | |s [->| ->]|s s' Ht]; try done; intros [?|[?|[?|?]]]; done.
Qed.

Lemma cancelled_edge s : edge s (cancelled_state s) ∨ cancelled_state s = s.
Proof.
  unfold cancelled_state. repeat case_decide; subst; [left; constructor|left; by constructor|by right].
Qed.

Lemma cancelled_row_state now row : jr_state (cancelled_row now row) = cancelled_state (jr_state row).
Proof.
  unfold cancelled_row. case_decide as E; [|done]. simpl. unfold cancelled_state. by rewrite E.
Qed.

Section lifecycle.
Context `{!Json (list Device), !Json smap, !Json (list AllocDevice), !Driver}.

(** What a history keeps of a row: the request; the placement once the job left [PENDING]; and
    the states move along the edges. *)
Definition row_history (r r' : JobRow) : Prop :=
  request_of r' = request_of r ∧ rtc edge (jr_state r) (jr_state r') ∧
  (jr_state r ≠ JobPending → placement_of r' = placement_of r).

#[export] Instance row_history_preorder : PreOrder row_history.
Proof.
  split.
  - intros r. by split_and!; [|reflexivity|].
  - intros r1 r2 r3 (E1 & S1 & P1) (E2 & S2 & P2). split_and!; [congruence|by etrans|].
    intros Hs. rewrite P2, P1; [done..|]. intros H2.
    apply edges_phase in S1. rewrite H2 in S1. unfold phase in S1.
    repeat case_decide; try done; lia.
Qed.

Lemma row_step_history c x row row' :
  finishes_terminal c → row_step c x row row' → row_history row row'.
Proof.
  intros Hc [ |nid nn ds d r -> Hs _|t r -> Hs|s code reason t r ->|t r ->].
  - reflexivity.
  - split_and!; [done| |done]. simpl. rewrite Hs. apply rtc_once, edge_assign.
  - split_and!; [done| |done]. simpl. rewrite Hs. apply rtc_once, edge_run.
  - split_and!; [done| |done]. by apply rtc_once, edge_finish.
  - split_and!.
    + unfold cancelled_row. by case_decide.
    + rewrite cancelled_row_state. destruct (cancelled_edge (jr_state r)) as [He| ->]; [|done].
      by apply rtc_once.
    + unfold cancelled_row. by case_decide.
Qed.

Definition jobs_history (db db' : DB) : Prop :=
  ∀ x row, db_jobs db !! x = Some row → ∃ row', db_jobs db' !! x = Some row' ∧ row_history row row'.

#[export] Instance jobs_history_preorder : PreOrder jobs_history.
Proof.
  split.
  - intros db x row E. by exists row.
  - intros d1 d2 d3 H1 H2 x row E. destruct (H1 x row E) as (r2 & E2 & R2).
    destruct (H2 x r2 E2) as (r3 & E3 & R3). exists r3. split; [done|]. by etrans.
Qed.

Lemma exec_call_history c db :
  finishes_terminal c → DB_ok db → jobs_history db (exec_call c db).2.
Proof.
  intros Hc Hok x row E.
  destruct (exec_call_jobs c db Hok) as [Ej|[(j & r & _ & Hno & _ & _ & Ej)|(y & r & r' & Ey & Hr & Ej)]];
    rewrite Ej.
  - by exists row.
  - exists row. split; [|done]. rewrite lookup_insert_ne by congruence. done.
  - destruct (decide (y = x)) as [->|Hne].
    + exists r'. rewrite lookup_insert_eq. split; [done|]. simplify_eq. by eapply row_step_history.
    + exists row. split; [|done]. by rewrite lookup_insert_ne.
Qed.

Lemma exec_calls_history cs db :
  Forall finishes_terminal cs → DB_ok db → jobs_history db (exec_calls cs db).
Proof.
  intros Hcs Hok. apply (exec_calls_rel jobs_history DB_ok finishes_terminal); [|done..].
  intros c d Hc Hd. split; [by apply exec_call_ok|by apply exec_call_history].
Qed.

(** (invariant) In every database reached from the empty one by any sequence of writing
    calls, whatever statements fail, each table is keyed by the identifier column of its rows
    and no two nodes have the same name. *)
Theorem store_tables_wf fs cs :
  DB_ok (exec_calls cs (with_faults fs emptyDB)).
Proof. apply exec_calls_ok. eapply DB_ok_same; [|apply emptyDB_ok]. done. Qed.

(** [C4] (invariant, safety) The life cycle of a job: over any sequence of calls in which
    [FinishJob] is given terminal states, as the services do, a stored job is never lost and its
    request columns never change; its state moves along the edges PENDING to ASSIGNED or
    CANCELLED, ASSIGNED to RUNNING, ASSIGNED and RUNNING to CANCELLING, and any state to one of
    the four terminal ones, a terminal state included, since [FinishJob] does not look at the
    state it replaces.  So the job never goes back in the order PENDING, ASSIGNED, RUNNING,
    CANCELLING, ended; one that has ended stays ended, though perhaps in another terminal
    state; and one that left PENDING keeps the node and devices it was given. *)
Theorem job_lifecycle cs db x row :
  DB_ok db → Forall finishes_terminal cs → db_jobs db !! x = Some row →
  ∃ row', db_jobs (exec_calls cs db) !! x = Some row' ∧
    request_of row' = request_of row ∧
    rtc edge (jr_state row) (jr_state row') ∧
    (phase (jr_state row) ≤ phase (jr_state row'))%nat ∧
    (terminal (jr_state row) → terminal (jr_state row')) ∧
    (jr_state row ≠ JobPending → placement_of row' = placement_of row).
Proof.
  intros Hok Hcs E. destruct (exec_calls_history cs db Hcs Hok x row E) as (row' & E' & Hr & He & Hp).
  exists row'. split_and!; try done; [by apply edges_phase|].
  clear -He. induction He as [|s1 s2 s3 Hs _ IH]; [done|]. intros Ht. apply IH. by eapply edge_terminal.
Qed.

(** (safety) A job is assigned at most once: after a successful [AssignJob], and any
    further calls that give [FinishJob] terminal states, every [AssignJob] of the same job
    fails and changes no table, and the job still has the node and devices of the first. *)
Theorem AssignJob_once x n1 m1 ds1 n2 m2 ds2 cs db db1 r db3 :
  DB_ok db → AssignJob x n1 m1 ds1 db = (Ok tt, db1) → Forall finishes_terminal cs →
  AssignJob x n2 m2 ds2 (exec_calls cs db1) = (r, db3) →
  is_ok r = false ∧ same_tables (exec_calls cs db1) db3 ∧
  ∃ row, db_jobs db3 !! x = Some row ∧ jr_node_id row = n1 ∧ jr_node_name row = m1 ∧
    json_Marshal ds1 = Ok (jr_devices_json row).
Proof.
  intros Hok Ha Hcs Hb. pose proof (exec_call_ok (CallAssignJob x n1 m1 ds1) db Hok) as Hok1.
  simpl in Hok1. rewrite Ha in Hok1. simpl in Hok1.
  apply AssignJob_effect in Ha as [(e & [=] & _)|(_ & row & d & Hd & _ & _ & Hs)]; [|done].
  apply sets_job_jobs in Hs.
  destruct (exec_calls_history cs db1 Hcs Hok1 x (set_assigned n1 m1 d row))
    as (row' & E' & _ & He & Hp); [by rewrite Hs, lookup_insert_eq|].
  specialize (Hp ltac:(done)). injection Hp as Hp1 Hp2 Hp3.
  apply AssignJob_effect in Hb as [(e & -> & Hsame)|(_ & row2 & _ & _ & E2 & Hst & _)];
    [| |by apply exec_calls_ok].
  - split_and!; [done..|]. exists row'. destruct Hsame as (_ & <- & _). split_and!; congruence.
  - exfalso. simplify_eq. apply edges_phase in He. rewrite Hst in He. vm_compute in He. lia.
Qed.
End lifecycle.

(** ** Round trips and queries *)

Section roundtrip.
Context `{!Json (list Device), !JsonLaws (list Device)}.
Context `{!Json smap, !JsonLaws smap}.
Context `{!Json (list AllocDevice), !JsonLaws (list AllocDevice)}.
Context `{!Driver, !DriverLaws}.

(** (roundtrip) [CreateJob] then [GetJob]: without statement failures, a job with a fresh
    identifier, encodable maps and lists, and a memory request below 2^63 is created, and
    reading it back gives the same job with its times cut to whole seconds (and times before
    1970 to the zero time); every other job reads as before. *)
Theorem CreateJob_GetJob j db :
  db_faults db = [] → db_jobs db !! Job_ID j = None →
  json_valid (Job_Env j) = true → json_valid (Job_Devices j) = true → 0 ≤ Job_ReqMemBytes j < 2 ^ 63 →
  ∃ db', CreateJob j db = (Ok tt, db') ∧
    GetJob (Job_ID j) db' = (Ok (Some (stored_job j)), db') ∧
    (∀ id, id ≠ Job_ID j → (GetJob id db').1 = (GetJob id db).1).
Proof.
  intros Hf Hno Henv Hds Hmem. unfold CreateJob, st_try, wrap_err, marshal, bind_u64, st_ret.
  destruct (json_total (Job_Env j)) as (env & Ee & Hne).
  destruct (json_total (Job_Devices j)) as (ds & Ed & Hnd).
  rewrite Ee, Ed, (bind_small _ Hmem). simpl.
  rewrite stmt_nofault by done. unfold insertJob. rewrite Hno. eexists. split; [done|].
  unfold GetJob, wrap_err. split.
  - rewrite stmt_nofault by done. simpl. rewrite lookup_insert_eq. simpl. unfold scanJob, stored_job. simpl.
    rewrite !unix_round_trip, (unmarshal_text _ _ _ Henv Ee), (unmarshal_text _ _ _ Hds Ed). done.
  - intros id Hid. rewrite !stmt_nofault by done. simpl. by rewrite lookup_insert_ne.
Qed.

Lemma RegisterNode_nofault n db : db_faults db = [] → db_faults (RegisterNode n db).2 = [].
Proof.
  intros Hf. unfold RegisterNode, st_try, wrap_err, marshal, bind_u64, st_ret.
  destruct (json_Marshal (Node_Devices n)); [|done]. destruct (json_Marshal (Node_Labels n)); [|done].
  destruct (bind_uint64 _); [|done]. cbv beta iota. rewrite stmt_nofault by done.
  unfold upsertNode. repeat case_step; done.
Qed.

(** (roundtrip) [RegisterNode] is an upsert by name: when it succeeds, the node is stored
    under the identifier it returns, which is the identifier the name already had, or the new
    one if the name is new; reading that identifier gives the registered node (its heartbeat
    cut to seconds), and every other identifier reads as before. *)
Theorem RegisterNode_GetNode n db id db' :
  DB_ok db → db_faults db = [] → 0 ≤ Node_MemTotalBytes n < 2 ^ 63 →
  json_valid (Node_Devices n) = true → json_valid (Node_Labels n) = true →
  RegisterNode n db = (Ok id, db') →
  (GetNode id db').1 = Ok (Some (stored_node id n)) ∧
  (∀ k r, db_nodes db !! k = Some r → nr_name r = Node_Name n → id = k) ∧
  ((∀ k r, db_nodes db !! k = Some r → nr_name r ≠ Node_Name n) →
     id = Node_ID n ∧ db_nodes db !! id = None) ∧
  (∀ k, k ≠ id → db_nodes db' !! k = db_nodes db !! k).
Proof.
  intros Hok Hf Hmem Hds Hls Hr. pose proof (RegisterNode_nofault n db Hf) as Hf'.
  rewrite Hr in Hf'. simpl in Hf'.
  apply RegisterNode_effect in Hr as [(e & [=] & _)|(id' & mem & ds & ls & [= <-] & Hm & Ed & El & Hid & Hs)];
    [|done].
  destruct Hs as (En & _ & _ & _). simpl in En. split_and!.
  - unfold GetNode, wrap_err. assert (db_nodes db' !! id = Some (registered_row id n mem ds ls)) as Hl
      by (by rewrite <-En, lookup_insert_eq).
    rewrite stmt_nofault by done. simpl. rewrite Hl. simpl. unfold scanNode, stored_node. simpl.
    rewrite (unmarshal_text _ _ _ Hds Ed), (unmarshal_text _ _ _ Hls El), heartbeat_text.
    rewrite unixToTime_Unix. rewrite (bind_small _ Hmem) in Hm. by injection Hm as <-.
  - intros k r Hk Hn. destruct Hid as [(old & Ho & Hon)|(_ & _ & Hno)].
    + eapply (ok_names _ Hok); [done..|congruence].
    + by destruct (Hno k r Hk).
  - intros Hnew. destruct Hid as [(old & Ho & Hon)|(-> & Hno & _)]; [by destruct (Hnew id old Ho)|done].
  - intros k Hk. rewrite <-En. by rewrite lookup_insert_ne.
Qed.
End roundtrip.

(** ** Queries, cancellation, staleness *)

Section queries.
Context `{!Json (list Device), !Json smap, !Json (list AllocDevice), !Driver}.

(** [r1] comes before [r2] in the queue: higher priority, then earlier submission, then the
    smaller identifier. *)
Definition queued_before (r1 r2 : JobRow) : Prop :=
  jr_priority r2 < jr_priority r1 ∨
  (jr_priority r1 = jr_priority r2 ∧
    (jr_submit_at r1 < jr_submit_at r2 ∨
     (jr_submit_at r1 = jr_submit_at r2 ∧ str_ltb (jr_id r1) (jr_id r2) = true))).

Lemma not_after_queued r1 r2 :
  jr_id r1 ≠ jr_id r2 → not_after byPriorityDescSubmitId r1 r2 → queued_before r1 r2.
Proof.
  intros Hid. unfold not_after, byPriorityDescSubmitId, bySubmitId, queued_before. intros E.
  apply orb_false_iff in E as [E1 E2]. apply Z.ltb_ge in E1.
  destruct (Z.eq_dec (jr_priority r1) (jr_priority r2)) as [Ep|]; [|left; lia].
  right. split; [done|]. rewrite Ep, Z.eqb_refl in E2. simpl in E2.
  apply orb_false_iff in E2 as [E2 E3]. apply Z.ltb_ge in E2.
  destruct (Z.eq_dec (jr_submit_at r1) (jr_submit_at r2)) as [Es|]; [|left; lia].
  right. split; [done|]. rewrite Es, Z.eqb_refl in E3. simpl in E3.
  destruct (str_ltb (jr_id r1) (jr_id r2)) eqn:E; [done|]. destruct Hid. symmetry. by apply str_ltb_total.
Qed.

(** (functional) The queue: when [ListPendingJobs] succeeds it leaves the tables alone and
    returns every PENDING job exactly once, by descending priority, then submission time, then
    identifier, so the order is determined by the table. *)
Theorem ListPendingJobs_queue db js db' :
  DB_ok db → ListPendingJobs db = (Ok js, db') →
  same_tables db db' ∧ ∃ rows, js = scanJob <$> rows ∧ NoDup (jr_id <$> rows) ∧
    (∀ r, r ∈ rows ↔ jr_state r = JobPending ∧ db_jobs db !! jr_id r = Some r) ∧
    (∀ i j r1 r2, (i < j)%nat → rows !! i = Some r1 → rows !! j = Some r2 → queued_before r1 r2).
Proof.
  intros Hok Hl. apply queryJobs_answers in Hl as (Hs & rows & -> & [Hn He Ho]); [|apply _|done].
  split; [done|]. exists rows. split_and!; [done..| |].
  - intros r. rewrite He, bool_decide_eq_true. f_equiv. split; [|by eauto].
    intros [k Hk]. by rewrite (ok_jobs _ Hok _ _ Hk).
  - intros i j r1 r2 Hij H1 H2. apply not_after_queued.
    + intros E. assert (i = j); [|lia]. eapply (NoDup_lookup _ i j (jr_id r1) Hn);
        rewrite list_lookup_fmap; [by rewrite H1|by rewrite H2, E].
    + by eapply StronglySorted_lookup.
Qed.

(** [C32] (functional, error) [CancelJob] on every branch: a failure leaves the tables as they
    were (the transaction is rolled back); a success means the job exists and the state
    returned is the one stored, namely CANCELLED for a PENDING job, whose end time is set,
    CANCELLING for an ASSIGNED or RUNNING one, and the old state for the others; nothing else
    changes.  Without statement failures it fails only for an unknown job. *)
Theorem CancelJob_result x now db r db' :
  DB_ok db → CancelJob x now db = (r, db') →
  match r with
  | Err e => same_tables db db' ∧
      (db_faults db = [] → db_jobs db !! x = None ∧ e = "job " +:+ x +:+ " not found")
  | Ok s => ∃ row row', db_jobs db !! x = Some row ∧ s = cancelled_state (jr_state row) ∧
      same_tables (with_jobs (<[x := row']> (db_jobs db)) db) db' ∧
      jr_state row' = s ∧ request_of row' = request_of row ∧ placement_of row' = placement_of row ∧
      jr_exit_code row' = jr_exit_code row ∧ jr_start_at row' = jr_start_at row ∧
      jr_end_at row' = (if decide (jr_state row = JobPending) then Unix now else jr_end_at row)
  end.
Proof.
  intros Hok Hc. pose proof (CancelJob_effect x now db r db' Hok Hc) as [(e & -> & Hs)|(row & -> & Hx & Hs)].
  - split; [done|]. intros Hf. revert Hc. unfold CancelJob, cancelBody, st_try.
    repeat (rewrite stmt_nofault by done; cbn beta iota).
    destruct (db_jobs db !! x) as [row|] eqn:Ex; [|by intros [= <-]]. cbn beta iota.
    repeat case_decide; unfold st_ret; repeat (rewrite stmt_nofault by done; cbn beta iota); done.
  - exists row, (cancelled_row now row).
    split_and!; try done; [apply cancelled_row_state|..]; unfold cancelled_row; by case_decide.
Qed.

(** (functional) [MarkStaleDown] marks exactly the nodes that are not DOWN and whose last
    heartbeat is before the cutoff's second: their state becomes DOWN, no other column of any
    node changes, the count returned is their number, and afterwards every node that is not
    DOWN was heard of since the cutoff; a node whose heartbeat was recorded at or after the
    cutoff is still UP. *)
Theorem MarkStaleDown_result cutoff db c db' n t db0 :
  DB_ok db0 → Heartbeat n t db0 = (Ok true, db) →
  MarkStaleDown cutoff db = (Ok c, db') →
  (∀ k, db_nodes db' !! k = (λ r, if stale cutoff r then set_down r else r) <$> db_nodes db !! k) ∧
  c = Z.of_nat (size (filter (λ kr, stale cutoff kr.2 = true) (db_nodes db))) ∧
  (∀ k r, db_nodes db' !! k = Some r → nr_state r = StateDown ∨ Unix cutoff ≤ nr_last_heartbeat r) ∧
  (cutoff ≤ t → ∃ r, db_nodes db' !! Node_ID n = Some r ∧ nr_state r = StateUp).
Proof.
  intros Hok Hh Hm. apply MarkStaleDown_effect in Hm as [(? & [=] & _)|([= ->] & (En & _))]. simpl in En.
  assert (∀ k, db_nodes db' !! k = (λ r, if stale cutoff r then set_down r else r) <$> db_nodes db !! k) as Hk.
  { intros k. by rewrite <-En, update_where_lookup. }
  split_and!; [done..| |].
  - intros k r. rewrite Hk. destruct (db_nodes db !! k) as [r0|]; [|done]. intros [= <-].
    destruct (stale cutoff r0) eqn:E; [by left|]. unfold stale in E.
    apply andb_false_iff in E as [E|E]; bool_to_prop; [by right|].
    left. by apply dec_stable.
  - intros Ht. rewrite Hk.
    apply Heartbeat_effect in Hh as [(? & [=] & _)|[(mem & ds & old & _ & _ & _ & _ & (E & _))|([=] & _)]]; [|done].
    simpl in E. rewrite <-E, lookup_insert_eq. eexists. split; [done|].
    unfold stale. simpl. apply Unix_mono in Ht. by rewrite (proj2 (Z.ltb_ge _ _)) by lia.
Qed.

(** (functional, bounds) [ListEvents] returns the newest events: at most the limit (100
    for a non-positive one), as many as there are up to it, newest first, and no event it
    leaves out is newer than one it returns. *)
Theorem ListEvents_newest limit db es db' :
  ListEvents limit db = (Ok es, db') →
  same_tables db db' ∧ ∃ rows rest, es = scanEvent <$> rows ∧
    rows ++ rest ≡ₚ (map_to_list (db_events db)).*2 ∧
    Z.of_nat (length es) = Z.min (if limit <=? 0 then 100 else limit) (Z.of_nat (size (db_events db))) ∧
    StronglySorted (λ a b, er_ts b ≤ er_ts a) rows ∧
    (∀ a b, a ∈ rows → b ∈ rest → er_ts b ≤ er_ts a).
Proof.
  intros E. apply (query_cases _ (λ db, take (Z.to_nat (clampLimit limit))
    (sort_by eventByTsDescId (map_to_list (db_events db)).*2)) (fmap scanEvent)) in E as [Hs [[e [=]]|[fs [= ->]]]].
  split; [done|]. simpl.
  set (l := sort_by eventByTsDescId _). set (m := Z.to_nat (clampLimit limit)).
  exists (take m l), (drop m l).
  assert (StronglySorted (λ a b, er_ts b ≤ er_ts a) l) as Hl.
  { eapply StronglySorted_impl; [|apply (sort_by_sorted eventByTsDescId (λ _, True)), Forall_true; done].
    intros a b E. unfold not_after, eventByTsDescId in E. apply orb_false_iff in E as [E _].
    bool_to_prop. lia. }
  split_and!; [done| | | |].
  - rewrite take_drop. apply sort_by_perm.
  - rewrite length_fmap, length_take. unfold l. rewrite sort_by_perm, length_fmap, length_map_to_list.
    unfold m, clampLimit. case_step; bool_to_prop; lia.
  - rewrite <-(take_drop m l) in Hl. by apply StronglySorted_app_1_l in Hl.
  - rewrite <-(take_drop m l) in Hl. intros a b Ha Hb.
    by apply (StronglySorted_app_1_elem_of _ _ _ _ _ Hl).
Qed.
End queries.

(** ** Witnesses on the example database *)

Definition ex_calls : list call :=
  [CallAssignJob "j1" "n1" "alpha" [mkAlloc "gpu" 0]; CallMarkJobRunning "j1" (timeUnix 1010);
   CallFinishJob "j1" JobCompleted 0 "" (timeUnix 1020); CallCancelJob "j1" (timeUnix 1030)].

Lemma job_lifecycle_witness :
  ∃ row row', db_jobs ex_db !! "j1" = Some row ∧ jr_state row = JobPending ∧
    db_jobs (exec_calls ex_calls ex_db) !! "j1" = Some row' ∧ jr_state row' = JobCompleted ∧
    rtc edge (jr_state row) (jr_state row').
Proof.
  assert (∃ row, db_jobs ex_db !! "j1" = Some row ∧ jr_state row = JobPending) as (row & E & Es).
  { eexists. by vm_compute. }
  destruct (job_lifecycle ex_calls ex_db "j1" row ex_db_ok) as (row' & E' & _ & He & _);
    [by_decide|exact E|].
  assert (jr_state row' = JobCompleted) as Es'.
  { assert (jr_state <$> db_jobs (exec_calls ex_calls ex_db) !! "j1" = Some JobCompleted) as Hc
      by (by vm_compute). rewrite E' in Hc. by injection Hc. }
  exists row, row'. split; [exact E|]. split; [exact Es|]. split; [exact E'|]. split; [exact Es'|exact He].
Defined.

Lemma AssignJob_once_witness :
  ∃ db1 r db3, AssignJob "j1" "n1" "alpha" [mkAlloc "gpu" 0] ex_db = (Ok tt, db1) ∧
    AssignJob "j1" "n2" "beta" [] (exec_calls [CallMarkJobRunning "j1" (timeUnix 1010)] db1) = (r, db3) ∧
    is_ok r = false.
Proof.
  assert (∃ db1, AssignJob "j1" "n1" "alpha" [mkAlloc "gpu" 0] ex_db = (Ok tt, db1)) as [db1 E1]
    by (eexists; by vm_compute).
  destruct (AssignJob "j1" "n2" "beta" [] (exec_calls [CallMarkJobRunning "j1" (timeUnix 1010)] db1))
    as [r db3] eqn:E2.
  exists db1, r, db3. split; [exact E1|]. split; [exact E2|].
  eapply (AssignJob_once "j1"); [apply ex_db_ok|exact E1| |exact E2]. by_decide.
Defined.

Lemma CreateJob_GetJob_witness :
  ∃ db', CreateJob (ex_job "j3" 1 1005) ex_db = (Ok tt, db') ∧
    GetJob "j3" db' = (Ok (Some (stored_job (ex_job "j3" 1 1005))), db').
Proof.
  destruct (CreateJob_GetJob (ex_job "j3" 1 1005) ex_db) as (db' & H1 & H2 & _);
    [by vm_compute..|]. exists db'. split; [exact H1|exact H2].
Defined.

Lemma RegisterNode_GetNode_witness :
  ∃ db', RegisterNode (ex_node "n9" "alpha") ex_db = (Ok "n1", db') ∧
    (GetNode "n1" db').1 = Ok (Some (stored_node "n1" (ex_node "n9" "alpha"))).
Proof.
  assert (∃ db', RegisterNode (ex_node "n9" "alpha") ex_db = (Ok "n1", db')) as [db' E]
    by (eexists; by vm_compute).
  exists db'. split; [exact E|].
  destruct (RegisterNode_GetNode (ex_node "n9" "alpha") ex_db "n1" db')
    as [Hg _].
  { exact ex_db_ok. }
  { reflexivity. }
  { by_decide. }
  { by_decide. }
  { by_decide. }
  { exact E. }
  exact Hg.
Defined.

Lemma ListPendingJobs_queue_witness :
  ∃ js db', ListPendingJobs ex_db = (Ok js, db') ∧ Job_ID <$> js = ["j1"; "j2"] ∧ same_tables ex_db db'.
Proof.
  assert (∃ js db', ListPendingJobs ex_db = (Ok js, db') ∧ Job_ID <$> js = ["j1"; "j2"])
    as (js & db' & E & Ej) by (do 2 eexists; by vm_compute).
  exists js, db'. split; [exact E|]. split; [exact Ej|].
  apply (ListPendingJobs_queue ex_db js db' ex_db_ok E).
Defined.

Lemma CancelJob_result_witness :
  ∃ db' row, CancelJob "j1" (timeUnix 1030) ex_db = (Ok JobCancelled, db') ∧
    db_jobs ex_db !! "j1" = Some row ∧ jr_state row = JobPending.
Proof.
  destruct (CancelJob "j1" (timeUnix 1030) ex_db) as [r db'] eqn:E.
  pose proof (CancelJob_result "j1" (timeUnix 1030) ex_db r db' ex_db_ok E) as Hr.
  destruct r as [s|e].
  - destruct Hr as (row & _ & Hx & Hs & _). exists db', row.
    assert (jr_state row = JobPending) as Hp.
    { assert (jr_state <$> db_jobs ex_db !! "j1" = Some JobPending) as Hc by (by vm_compute).
      rewrite Hx in Hc. by injection Hc. }
    split; [by rewrite Hs, Hp|]. split; [exact Hx|exact Hp].
  - exfalso. destruct Hr as [_ Hno]. destruct Hno as [Hno _]; [by vm_compute|]. by vm_compute in Hno.
Defined.

Lemma MarkStaleDown_result_witness :
  ∃ db1 db2, Heartbeat (ex_node "n1" "alpha") (timeUnix 5000) ex_db = (Ok true, db1) ∧
    MarkStaleDown (timeUnix 4970) db1 = (Ok 1, db2) ∧
    ∃ r, db_nodes db2 !! "n1" = Some r ∧ nr_state r = StateUp.
Proof.
  assert (∃ db1, Heartbeat (ex_node "n1" "alpha") (timeUnix 5000) ex_db = (Ok true, db1)) as [db1 E1]
    by (eexists; by vm_compute).
  assert (∃ db2, MarkStaleDown (timeUnix 4970) db1 = (Ok 1, db2)) as [db2 E2].
  { vm_compute in E1. injection E1 as <-. eexists. by vm_compute. }
  exists db1, db2. split; [exact E1|]. split; [exact E2|].
  apply (MarkStaleDown_result (timeUnix 4970) db1 1 db2 (ex_node "n1" "alpha") (timeUnix 5000) ex_db
    ex_db_ok E1 E2). by vm_compute.
Defined.

Lemma ListEvents_newest_witness :
  ∃ es db', ListEvents 10 ex_db = (Ok es, db') ∧ same_tables ex_db db'.
Proof.
  assert (∃ es db', ListEvents 10 ex_db = (Ok es, db')) as (es & db' & E) by (do 2 eexists; by vm_compute).
  exists es, db'. split; [exact E|]. apply (ListEvents_newest 10 ex_db es db' E).
Defined.
