(* ===== verification/Scheduler.v ===== *)
(** * internal/scheduler/scheduler.go: the scheduling pass

    A pass reads the nodes, the active and the pending jobs, plans, and records each decision.
    It is written over any [Store]; [interleaved] is the store seen by a goroutine while others
    call it in between, given as the batches of calls that precede each of its operations. *)
From S2P Require Import Prelude GoBase GoStrings GoFloat Event Store StoreSpec Plan.
Local Open Scope Z_scope.

Record Scheduler := mkScheduler {
  Scheduler_interval : Duration;
  Scheduler_policy : Policy
}.

Definition New (interval : Duration) (policy : Policy) : Scheduler := mkScheduler interval policy.

Section pass.
Context {S : Type} `{!Store S} `{UnicodeCase}.

(** [continue] after a failed assignment: the loop goes on with the next decision. *)
Definition recordDecision (d : Decision) : ST S unit :=
  store_AssignJob (Decision_JobID d) (Decision_NodeID d) (Decision_NodeName d) (Decision_Devices d) ;;;
  st_ret tt.

Definition pass (s : Scheduler) (now : Time) : ST S unit :=
  nodes <- store_ListNodes ;;
  match nodes with
  | Err _ => st_ret tt
  | Ok nodes =>
      active <- store_ListActiveJobs ;;
      match active with
      | Err _ => st_ret tt
      | Ok active =>
          pending <- store_ListPendingJobs ;;
          match pending with
          | Err _ => st_ret tt
          | Ok pending => st_for (Plan now nodes active pending (Scheduler_policy s)) recordDecision
          end
      end
  end.

(** The same, one operation of the store at a time: where the goroutine stands in a pass. *)
Inductive passPhase :=
| Idle
| GotNodes (nodes : list Node)
| GotActive (nodes : list Node) (active : list Job)
| Deciding (ds : list Decision).

Definition passStep (s : Scheduler) (now : Time) (ph : passPhase) : ST S passPhase :=
  match ph with
  | Idle =>
      nodes <- store_ListNodes ;;
      st_ret (match nodes with Ok nodes => GotNodes nodes | Err _ => Idle end)
  | GotNodes nodes =>
      active <- store_ListActiveJobs ;;
      st_ret (match active with Ok active => GotActive nodes active | Err _ => Idle end)
  | GotActive nodes active =>
      pending <- store_ListPendingJobs ;;
      st_ret (match pending with
              | Ok pending => Deciding (Plan now nodes active pending (Scheduler_policy s))
              | Err _ => Idle
              end)
  | Deciding [] => st_ret Idle
  | Deciding (d :: ds) => recordDecision d ;;; st_ret (Deciding ds)
  end.

(** One pass per tick, at the instants [ticks], until the context is cancelled. *)
Definition Run (s : Scheduler) (ticks : list Time) : ST S unit := st_for ticks (pass s).
End pass.

(** ** Interleaving with the other goroutines *)

Section interleaved.
Context {S : Type} `{!Store S}.

Definition interfere (st : S * list (list call)) : S * list (list call) :=
  match st.2 with
  | [] => st
  | cs :: env => (exec_calls cs st.1, env)
  end.

Definition during {A} (op : ST S A) : ST (S * list (list call)) A := λ st,
  let st := interfere st in
  let '(a, s') := op st.1 in (a, (s', st.2)).

#[export] Instance interleaved : Store (S * list (list call)) := {|
  store_RegisterNode n := during (store_RegisterNode n);
  store_Heartbeat n t := during (store_Heartbeat n t);
  store_ListNodes := during store_ListNodes;
  store_GetNode id := during (store_GetNode id);
  store_MarkStaleDown t := during (store_MarkStaleDown t);
  store_CreateJob j := during (store_CreateJob j);
  store_GetJob id := during (store_GetJob id);
  store_ListJobs st ow := during (store_ListJobs st ow);
  store_ListPendingJobs := during store_ListPendingJobs;
  store_ListActiveJobs := during store_ListActiveJobs;
  store_ListJobsByNodeState nid st := during (store_ListJobsByNodeState nid st);
  store_AssignJob x nid nn ds := during (store_AssignJob x nid nn ds);
  store_MarkJobRunning x t := during (store_MarkJobRunning x t);
  store_FinishJob x st ec re t := during (store_FinishJob x st ec re t);
  store_CancelJob x t := during (store_CancelJob x t);
  store_CreateEvent e := during (store_CreateEvent e);
  store_ListEvents n := during (store_ListEvents n);
  store_CreateNotification n := during (store_CreateNotification n);
  store_ListNotifications n := during (store_ListNotifications n)
|}.
End interleaved.
