(* ===== verification/SchedulerProofs.v ===== *)
(** * The scheduling pass: accelerators stay exclusive and nodes are not overcommitted

    Proved against the store's contract, with the other goroutines' calls interleaved between
    the operations of the pass. *)
From S2P Require Import Prelude GoBase GoStrings GoFloat Event Store StoreSpec Plan PlanProofs.
From S2P Require Import Scheduler SQLite SQLiteProofs StoreExample SQLiteRefines.
Local Open Scope Z_scope.

(** ** The invariant *)

(** Machine ranges, and nodes that name each device once. *)
Record view_ok (v : View) : Prop := {
  vo_nodes k n : v_nodes v !! k = Some n → Node_wf n ∧ NoDup (device_key <$> Node_Devices n);
  vo_jobs k j : v_jobs v !! k = Some j → Job_wf j
}.

(** No two active jobs of a node share a device. *)
Definition exclusive (v : View) : Prop :=
  ∀ x y jx jy, x ≠ y → v_jobs v !! x = Some jx → v_jobs v !! y = Some jy →
    active jx → active jy → Job_NodeID jx = Job_NodeID jy →
    ∀ a b, a ∈ Job_Devices jx → b ∈ Job_Devices jy → alloc_key a ≠ alloc_key b.

(** The calls of the other goroutines: anything but [AssignJob]; submitted jobs are PENDING and
    jobs finish in a state that is not active. *)
Definition env_call (c : call) : Prop :=
  call_ok c ∧
  match c with
  | CallRegisterNode n | CallHeartbeat n _ => Node_wf n ∧ NoDup (device_key <$> Node_Devices n)
  | CallCreateJob j => Job_wf j ∧ Job_State j = JobPending
  | CallAssignJob _ _ _ _ => False
  | CallFinishJob _ st _ _ _ => st ≠ JobAssigned ∧ st ≠ JobRunning
  | _ => True
  end.

#[export] Instance env_call_dec c : base.Decision (env_call c).
Proof. unfold env_call; destruct c; apply _. Defined.

(** What the pass reads of a job. *)
Definition demand (j : Job) := (Job_ReqCPUs j, Job_ReqMemBytes j).

(** From [v] to [v'] no job became active, active jobs kept their placement, and no job was lost
    or changed its demand. *)
Record quiet (v v' : View) : Prop := {
  q_active x j' : v_jobs v' !! x = Some j' → active j' →
    ∃ j, v_jobs v !! x = Some j ∧ active j ∧ Job_NodeID j' = Job_NodeID j ∧ Job_Devices j' = Job_Devices j;
  q_demand x j : v_jobs v !! x = Some j → ∃ j', v_jobs v' !! x = Some j' ∧ demand j' = demand j
}.

#[export] Instance quiet_preorder : PreOrder quiet.
Proof.
  split.
  - intros v. split; [|by eauto]. intros x j Hj Ha. exists j. by split_and!.
  - intros v1 v2 v3 [A1 D1] [A2 D2]. split.
    + intros x j3 H3 Ha3. destruct (A2 x j3 H3 Ha3) as (j2 & H2 & Ha2 & N2 & V2).
      destruct (A1 x j2 H2 Ha2) as (j1 & H1 & Ha1 & N1 & V1). exists j1. split_and!; congruence.
    + intros x j1 H1. destruct (D1 x j1 H1) as (j2 & H2 & E2). destruct (D2 x j2 H2) as (j3 & H3 & E3).
      exists j3. split; congruence.
Qed.

(** ** The calls of the others are quiet *)

(** One job replaced by one of the same demand that is no more active. *)
Lemma quiet_insert v x j j' :
  v_jobs v !! x = Some j → demand j' = demand j →
  (active j' → active j ∧ Job_NodeID j' = Job_NodeID j ∧ Job_Devices j' = Job_Devices j) →
  quiet v (set_jobs (<[x := j']> (v_jobs v)) v).
Proof.
  intros Hx Hd Ha. split; simpl.
  - intros y jy Hy Hay. apply lookup_insert_Some in Hy as [[<- <-]|[_ Hy]].
    + exists j. naive_solver.
    + exists jy. by split_and!.
  - intros y jy Hy. destruct (decide (x = y)) as [<-|Hne].
    + exists j'. rewrite lookup_insert_eq. split; congruence.
    + exists jy. by rewrite lookup_insert_ne.
Qed.

Lemma view_ok_set_job v x j j' :
  view_ok v → v_jobs v !! x = Some j → (Job_wf j → Job_wf j') →
  view_ok (set_jobs (<[x := j']> (v_jobs v)) v).
Proof.
  intros [Hn Hj] Hx Hw. split; simpl; [done|]. intros k jk Hk.
  apply lookup_insert_Some in Hk as [[<- <-]|[_ Hk]]; [apply Hw|]; by eapply Hj.
Qed.

(** The shape of the updates of one job. *)
Lemma alter_quiet v x (f : Job → Job) :
  (∀ j, demand (f j) = demand j) →
  (∀ j, active (f j) → active j ∧ Job_NodeID (f j) = Job_NodeID j ∧ Job_Devices (f j) = Job_Devices j) →
  (∀ j, Job_wf j → Job_wf (f j)) →
  view_ok v → view_ok (set_jobs (alter f x (v_jobs v)) v) ∧ quiet v (set_jobs (alter f x (v_jobs v)) v).
Proof.
  intros Hd Ha Hw Hv. destruct (v_jobs v !! x) as [j|] eqn:E.
  - rewrite (alter_as_insert f _ _ _ E). split; [by eapply view_ok_set_job; eauto|].
    by eapply quiet_insert; eauto.
  - rewrite alter_absent by done. rewrite set_jobs_id by done. done.
Qed.

Lemma quiet_nodes v m : quiet v (set_nodes m v).
Proof. split; simpl; [|by eauto]. intros x j Hj Ha. exists j. by split_and!. Qed.

Lemma view_ok_set_node v k n :
  view_ok v → Node_wf n ∧ NoDup (device_key <$> Node_Devices n) →
  view_ok (set_nodes (<[k := n]> (v_nodes v)) v).
Proof.
  intros [Hn Hj] Hw. split; simpl; [|done]. intros k' n' Hk.
  apply lookup_insert_Some in Hk as [[<- <-]|[_ Hk]]; [done|]. by eapply Hn.
Qed.

Lemma stored_job_wf j : Job_wf j → Job_wf (stored_job j).
Proof. by intros []. Qed.

Lemma spec_call_env c v v' :
  env_call c → view_ok v → spec_call c v = Some v' → view_ok v' ∧ quiet v v'.
Proof.
  intros [Hc He] Hv. destruct c; simpl in *.
  - destruct (named _ _) as [[id m]|].
    + intros [= <-]. split; [|apply quiet_nodes]. apply view_ok_set_node; [done|].
      destruct He as [[] Hd]. done.
    + case_step; [done|]. intros [= <-]. split; [|apply quiet_nodes]. apply view_ok_set_node; [done|].
      destruct He as [[] Hd]. done.
  - intros [= <-]. split; [|apply quiet_nodes]. destruct (v_nodes v !! Node_ID n) as [old|] eqn:E.
    + rewrite (alter_as_insert _ _ _ _ E). apply view_ok_set_node; [done|]. destruct He as [[] Hd]. done.
    + rewrite alter_absent by done. by rewrite set_nodes_id.
  - intros [= <-]. split; [|apply quiet_nodes]. destruct Hv as [Hn Hj]. split; simpl; [|done].
    intros k n. rewrite lookup_fmap. destruct (v_nodes v !! k) as [m|] eqn:E; [|done].
    intros [= <-]. destruct (Hn k m E) as [[] Hd]. by destruct (node_stale t m).
  - destruct (v_jobs v !! Job_ID j) eqn:E; [done|]. intros [= <-]. destruct He as [Hw Hp]. split.
    + destruct Hv as [Hn Hj]. split; simpl; [done|]. intros k jk Hk.
      apply lookup_insert_Some in Hk as [[<- <-]|[_ Hk]]; [by apply stored_job_wf|by eapply Hj].
    + split; simpl.
      * intros y jy Hy [Ha|Ha]; apply lookup_insert_Some in Hy as [[<- <-]|[_ Hy]];
          try (simpl in Ha; rewrite Hp in Ha; done); exists jy; split_and!; try done; first [by left|by right].
      * intros y jy Hy. exists jy. split; [|done]. rewrite lookup_insert_ne by congruence. done.
  - done.
  - intros [= <-]. apply alter_quiet; [| | |done]; intros j; case_decide; try done.
    + intros _. split; [by left|done].
    + by intros [].
  - intros [= <-]. destruct He as [H1 H2]. apply alter_quiet; [done| | |done]; intros j.
    + by intros [?|?].
    + by intros [].
  - destruct (v_jobs v !! jobID) as [j|] eqn:E; simpl; [|done]. intros [= <-].
    split; [eapply view_ok_set_job; [done..|]|eapply quiet_insert; [done|..]]; unfold job_cancelled;
      repeat case_decide; try done; try (by intros []); by intros [?|?].
  - by intros [= <-].
  - by intros [= <-].
Qed.

Lemma exclusive_quiet v v' : quiet v v' → exclusive v → exclusive v'.
Proof.
  intros [Hq _] He x y jx jy Hne Hx Hy Hax Hay Hn a b Ha Hb.
  destruct (Hq x jx Hx Hax) as (jx0 & Hx0 & Hax0 & Nx & Dx).
  destruct (Hq y jy Hy Hay) as (jy0 & Hy0 & Hay0 & Ny & Dy).
  rewrite Dx in Ha. rewrite Dy in Hb. by eapply (He x y jx0 jy0); try done; congruence.
Qed.

(** ** Against the contract *)

Section contract.
Context {S : Type} `{!Store S, !StoreLaws S} `{UnicodeCase}.

(** A reachable state. *)
Definition good (s : S) : Prop := inv s ∧ view_ok (view s).

Lemma exec_env cs s :
  good s → Forall env_call cs → good (exec_calls cs s) ∧ quiet (view s) (view (exec_calls cs s)).
Proof.
  intros Hg Hcs. revert s Hg. induction Hcs as [|c cs Hc _ IH]; intros s Hg; [done|].
  change (exec_calls (c :: cs) s) with (exec_calls cs (exec_call c s).2).
  destruct (exec_call c s) as [ok s1] eqn:E. simpl snd. destruct Hg as [Hi Hv].
  destruct (refines c s ok s1 Hi ltac:(apply Hc) E) as [Hi1 Hs].
  assert (good s1 ∧ quiet (view s) (view s1)) as [Hg1 Hq1].
  { destruct ok; [|by unfold good; rewrite Hs].
    destruct (spec_call_env c (view s) (view s1) Hc Hv Hs) as [H1 H2]. done. }
  destruct (IH s1 Hg1) as [Hg2 Hq2]. split; [done|]. by etrans.
Qed.

Definition env_ok (env : list (list call)) : Prop := Forall (Forall env_call) env.

Lemma interfere_quiet (st : S * list (list call)) :
  good st.1 → env_ok st.2 →
  good (interfere st).1 ∧ env_ok (interfere st).2 ∧ quiet (view st.1) (view (interfere st).1).
Proof.
  destruct st as [s [|cs env]]; simpl; intros Hg He; [done|].
  inversion He as [|? ? Hcs He']; subst. destruct (exec_env cs s Hg Hcs). done.
Qed.

(** A query with interference: it answers from a state reached quietly. *)
Lemma during_query {A} (q : ST S (result A)) P (st : S * list (list call)) r st' :
  answers_with view inv q P → good st.1 → env_ok st.2 → during q st = (r, st') →
  good st'.1 ∧ env_ok st'.2 ∧ quiet (view st.1) (view st'.1) ∧ ∀ a, r = Ok a → P (view st'.1) a.
Proof.
  intros Hq Hg He E. destruct (interfere_quiet st Hg He) as ([Hi Hv] & He' & Hqt).
  unfold during in E. destruct (q (interfere st).1) as [r1 s1] eqn:Eq. injection E as <- <-. simpl.
  destruct (Hq _ _ _ Hi Eq) as (Hi1 & Hv1 & Ha). unfold good. rewrite Hv1. naive_solver.
Qed.

(** It answers from the state that the others' calls have left. *)
Lemma during_view {A} (q : ST S (result A)) P (st : S * list (list call)) r st' :
  answers_with view inv q P → good st.1 → env_ok st.2 → during q st = (r, st') → view st'.1 = view (interfere st).1.
Proof.
  intros Hq Hg He E. destruct (interfere_quiet st Hg He) as ([Hi _] & _ & _).
  unfold during in E. destruct (q (interfere st).1) as [r1 s1] eqn:Eq. injection E as <- <-. by apply (Hq _ _ _ Hi Eq).
Qed.

(** ** The loop over the decisions *)

Section loop.
Context (act pend : list Job).

(** After the decisions [ds]: every active job is one of [act] or a recorded decision, and the
    jobs that were read are still there with their demands. *)
Record recorded (ds : list Decision) (st : S * list (list call)) : Prop := {
  rec_good : good st.1;
  rec_env : env_ok st.2;
  rec_from x j : v_jobs (view st.1) !! x = Some j → active j →
    (∃ a, a ∈ act ∧ Job_ID a = x ∧ Job_NodeID j = Job_NodeID a ∧ Job_Devices j = Job_Devices a) ∨
    (∃ d, d ∈ ds ∧ Decision_JobID d = x ∧ Job_NodeID j = Decision_NodeID d ∧
          Job_Devices j = Decision_Devices d);
  rec_demand p : p ∈ act ∨ p ∈ pend → ∃ j, v_jobs (view st.1) !! Job_ID p = Some j ∧ demand j = demand p
}.

Lemma recorded_quiet ds st st' :
  good st'.1 → env_ok st'.2 → quiet (view st.1) (view st'.1) → recorded ds st → recorded ds st'.
Proof.
  intros Hg He [Hqa Hqd] [_ _ Hf Hd]. split; [done..| |].
  - intros x j Hx Ha. destruct (Hqa x j Hx Ha) as (j0 & Hx0 & Ha0 & -> & ->). by apply Hf.
  - intros p Hp. destruct (Hd p Hp) as (j & Hj & Ej). destruct (Hqd _ j Hj) as (j' & Hj' & Ej').
    exists j'. split; [done|]. congruence.
Qed.

Lemma recordDecision_recorded ds d st :
  json_valid (Decision_Devices d) = true → recorded ds st →
  recorded (ds ++ [d]) (recordDecision d st).2.
Proof.
  intros Hv Hr. destruct (interfere_quiet st (rec_good _ _ Hr) (rec_env _ _ Hr)) as (Hg & He & Hq).
  assert (recorded ds (interfere st)) as [[Hi Hw] _ Hf Hd] by (by eapply recorded_quiet). clear Hr Hq.
  unfold recordDecision, st_bind, st_ret. simpl. unfold during.
  destruct (store_AssignJob (Decision_JobID d) (Decision_NodeID d) (Decision_NodeName d)
    (Decision_Devices d) (interfere st).1) as [r s1] eqn:E. simpl.
  destruct (refines (CallAssignJob (Decision_JobID d) (Decision_NodeID d) (Decision_NodeName d)
    (Decision_Devices d)) (interfere st).1 (is_ok r) s1 Hi Hv) as [Hi1 Hs]; [simpl; by rewrite E|].
  destruct (is_ok r); simpl in Hs.
  - destruct (v_jobs (view (interfere st).1) !! Decision_JobID d) as [j|] eqn:Ej; [|done]. simpl in Hs.
    case_decide; [|done]. injection Hs as Hs. split; simpl; try rewrite <-Hs.
    + split; [done|]. rewrite <-Hs. eapply view_ok_set_job; [done..|]. by intros [].
    + done.
    + simpl. intros x jx Hx Ha. apply lookup_insert_Some in Hx as [[<- <-]|[_ Hx]].
      * right. exists d. split_and!; try done. apply elem_of_app. right. by left.
      * destruct (Hf x jx Hx Ha) as [?|(d' & Hin & ?)]; [by left|]. right. exists d'.
        split; [|done]. apply elem_of_app. by left.
    + simpl. intros p Hp. destruct (Hd p Hp) as (jp & Hjp & Ep).
      destruct (decide (Decision_JobID d = Job_ID p)) as [Ex|Hne].
      * rewrite Ex in *. rewrite lookup_insert_eq. eexists. split; [done|]. rewrite <-Ep.
        by simplify_eq.
      * rewrite lookup_insert_ne by done. eauto.
  - split; simpl; try rewrite Hs; [split; [done|by rewrite Hs]|done| |done].
    intros x jx Hx Ha. destruct (Hf x jx Hx Ha) as [?|(d' & Hin & ?)]; [by left|]. right. exists d'.
    split; [|done]. apply elem_of_app. by left.
Qed.

Lemma loop_recorded ds2 ds1 st :
  Forall (λ d, json_valid (Decision_Devices d) = true) ds2 → recorded ds1 st →
  recorded (ds1 ++ ds2) (st_for ds2 recordDecision st).2.
Proof.
  intros Hv; revert ds1 st; induction Hv as [|d ds2 Hd _ IH]; intros ds1 st Hr.
  { by rewrite app_nil_r. }
  pose proof (recordDecision_recorded ds1 d st Hd Hr) as Hr1. simpl. unfold st_bind.
  destruct (recordDecision d st) as [u st1]. simpl in Hr1.
  rewrite cons_middle, app_assoc. by apply IH.
Qed.
End loop.

(** ** The pass *)

(** How a pass ended that read the nodes when the store held [v1]: nothing happened but the calls of
    the others, or the plan was made from what was read and recorded. *)
Definition passed (now : Time) (policy : Policy) (v1 : View) (st' : S * list (list call)) : Prop :=
  (good st'.1 ∧ env_ok st'.2 ∧ quiet v1 (view st'.1)) ∨
  ∃ nodes act pend v2 v3,
    nodes_listed v1 nodes ∧ (∀ n, n ∈ nodes → json_valid (Node_Devices n) = true) ∧
    jobs_listed active v2 act ∧ view_ok v2 ∧ quiet v1 v2 ∧
    jobs_listed (λ j, Job_State j = JobPending) v3 pend ∧ view_ok v3 ∧ quiet v2 v3 ∧
    recorded act pend (Plan now nodes act pend policy) st'.

Lemma listed_wf p v js : view_ok v → jobs_listed p v js → Forall Job_wf js.
Proof.
  intros Hv [_ Hl]. apply Forall_forall. intros j Hj. apply Hl in Hj as [Hj _]. by eapply vo_jobs.
Qed.

Lemma listed_nodes_wf v ns : view_ok v → nodes_listed v ns → Forall Node_wf ns.
Proof.
  intros Hv [_ Hl]. apply Forall_forall. intros n Hn. apply Hl in Hn. by eapply vo_nodes.
Qed.

Lemma decisions_encodable now nodes act pend policy :
  NoDup (Node_ID <$> nodes) → Forall Node_wf nodes → Forall Job_wf act → Forall Job_wf pend →
  (∀ n, n ∈ nodes → json_valid (Node_Devices n) = true) →
  Forall (λ d, json_valid (Decision_Devices d) = true) (Plan now nodes act pend policy).
Proof.
  intros Hnd Hnw Haw Hpw Hv. apply Forall_forall. intros d Hd.
  destruct (plan_placement now nodes act pend policy d) as (j & n & _ & Hn & _ & _ & _ & _ & _ & _ & Hdev);
    [done..|]. specialize (Hv n Hn).
  apply forallb_forall. intros a Ha%list_elem_of_In.
  rewrite Forall_forall in Hdev. destruct (Hdev a Ha) as (dv & Hdv & Ek & _).
  unfold json_valid, json_valid_devices in Hv. rewrite forallb_forall in Hv.
  specialize (Hv dv ltac:(by apply list_elem_of_In)). injection Ek as -> _. bool_to_prop. done.
Qed.

Lemma pass_passed sched now st st' :
  good st.1 → env_ok st.2 → pass sched now st = (tt, st') →
  let v1 := view (interfere st).1 in
  view_ok v1 ∧ quiet (view st.1) v1 ∧ passed now (Scheduler_policy sched) v1 st'.
Proof.
  intros Hg He Ep v1. destruct (interfere_quiet st Hg He) as ([_ Hv1] & _ & Hq0). split; [done|]. split; [done|].
  revert Ep. unfold pass, st_bind, st_ret. simpl.
  destruct (during store_ListNodes st) as [rn st1] eqn:E1.
  destruct (during_query _ _ _ _ _ lists_nodes Hg He E1) as (Hg1 & He1 & Hq1 & Hn).
  pose proof (during_view _ _ _ _ _ lists_nodes Hg He E1) as Ev. fold v1 in Ev. unfold passed. rewrite <-Ev. clear Hq1 Hq0.
  destruct rn as [nodes|e]; [|intros [= <-]; by left]. specialize (Hn nodes eq_refl).
  destruct (during store_ListActiveJobs st1) as [ra st2] eqn:E2.
  destruct (during_query _ _ _ _ _ lists_active Hg1 He1 E2) as (Hg2 & He2 & Hq2 & Ha).
  destruct ra as [act|e]; [|intros [= <-]; left; split_and!; done].
  specialize (Ha act eq_refl).
  destruct (during store_ListPendingJobs st2) as [rp st3] eqn:E3.
  destruct (during_query _ _ _ _ _ lists_pending Hg2 He2 E3) as (Hg3 & He3 & Hq3 & Hp).
  destruct rp as [pend|e]; [|intros [= <-]; left; split_and!; [done..|by etrans]].
  specialize (Hp pend eq_refl). intros E. right.
  assert (∀ n, n ∈ nodes → json_valid (Node_Devices n) = true) as Hv.
  { intros n Hin. apply Hn in Hin. eapply view_encodable; [apply Hg1|done]. }
  exists nodes, act, pend, (view st2.1), (view st3.1).
  split_and!; try done; [apply Hg2|apply Hg3|].
  replace st' with (st_for (Plan now nodes act pend (Scheduler_policy sched)) recordDecision st3).2
    by (by rewrite E).
  apply (loop_recorded act pend _ []).
  { apply decisions_encodable; [apply Hn|by eapply listed_nodes_wf; [apply Hg1|]|
      by eapply listed_wf; [apply Hg2|]|by eapply listed_wf; [apply Hg3|]|done]. }
  split; [done..| |].
  - intros x j Hx Haj. left. destruct Hq3 as [Hqa _].
    destruct (Hqa x j Hx Haj) as (j0 & Hx0 & Ha0 & -> & ->). exists j0.
    pose proof (view_job_id _ _ _ (proj1 Hg2) Hx0) as Hid.
    split_and!; try done. apply Ha. by rewrite Hid.
  - intros p [Hin|Hin].
    + apply Ha in Hin as [Hin _]. by apply Hq3.
    + apply Hp in Hin as [Hin _]. by exists p.
Qed.
End contract.
