(* ===== verification/SchedulerTheorems.v ===== *)
(** * The scheduler: its properties

    Exclusive accelerators and bounded load, after a pass, over a whole run, and on the SQLite
    store from an empty database; and the case the active list does not cover. *)
From S2P Require Import Prelude GoBase GoStrings GoFloat Event Store StoreSpec Plan PlanProofs.
From S2P Require Import Scheduler SQLite SQLiteProofs StoreExample SQLiteRefines SchedulerProofs.
Local Open Scope Z_scope.

(** The active jobs of a node. *)
Definition jobs_on (nid : string) (v : View) : list Job :=
  filter (λ j, active j ∧ Job_NodeID j = nid) (map_to_list (v_jobs v)).*2.

Section theorems.
Context {S : Type} `{!Store S, !StoreLaws S} `{UnicodeCase}.

(** The decisions of a plan and the jobs that were active hold disjoint devices. *)
Lemma plan_active_disjoint now nodes act pend policy v1 d a x y :
  nodes_listed v1 nodes → view_ok v1 → Forall Job_wf act → Forall Job_wf pend →
  d ∈ Plan now nodes act pend policy → a ∈ act → Job_NodeID a = Decision_NodeID d →
  x ∈ Decision_Devices d → y ∈ Job_Devices a → alloc_key x ≠ alloc_key y.
Proof.
  intros Hn Hv Haw Hpw Hd Ha En Hx Hy E. pose proof (listed_nodes_wf _ _ Hv Hn) as Hnw.
  destruct (plan_placement now nodes act pend policy d) as (j & n & _ & Hin & Hup & _ & Enid & _);
    [by apply Hn|done..|].
  destruct (plan_devices_exclusive now nodes act pend policy n) as [_ Hex];
    [by apply Hn|done..|eapply vo_nodes; [done|by apply Hn]|].
  destruct (Hex x) as [_ Hno].
  { unfold devs_on. apply list_elem_of_bind. exists d. split; [done|]. by apply list_elem_of_filter. }
  apply (Hno a); [apply list_elem_of_filter; split; [congruence|done]|].
  rewrite E. by apply list_elem_of_fmap_2.
Qed.

(** Two decisions hold disjoint devices of a node. *)
Lemma plan_decisions_disjoint now nodes act pend policy v1 d1 d2 x y :
  nodes_listed v1 nodes → view_ok v1 → Forall Job_wf act → Forall Job_wf pend →
  d1 ∈ Plan now nodes act pend policy → d2 ∈ Plan now nodes act pend policy → d1 ≠ d2 →
  Decision_NodeID d1 = Decision_NodeID d2 →
  x ∈ Decision_Devices d1 → y ∈ Decision_Devices d2 → alloc_key x ≠ alloc_key y.
Proof.
  intros Hn Hv Haw Hpw H1 H2 Hne En Hx Hy. pose proof (listed_nodes_wf _ _ Hv Hn) as Hnw.
  destruct (plan_placement now nodes act pend policy d1) as (j & n & _ & Hin & Hup & _ & Enid & _);
    [by apply Hn|done..|].
  destruct (plan_devices_exclusive now nodes act pend policy n) as [Hnd _];
    [by apply Hn|done..|eapply vo_nodes; [done|by apply Hn]|].
  unfold devs_on in Hnd.
  eapply (NoDup_bind_disjoint _ _ _ d1 d2); [exact Hnd|..]; try done; apply list_elem_of_filter; split; congruence.
Qed.

(** While the decisions of a plan are being recorded, whatever has been read since. *)
Lemma recorded_exclusive now policy nodes act pend v1 v2 v3 ds st :
  nodes_listed v1 nodes → view_ok v1 → jobs_listed active v2 act → view_ok v2 → exclusive v2 →
  jobs_listed (λ j, Job_State j = JobPending) v3 pend → view_ok v3 →
  ds ⊆ Plan now nodes act pend policy → recorded act pend ds st → exclusive (view st.1).
Proof.
  intros Hn Hv1 Ha Hv2 Hex2 Hp Hv3 Hds Hr.
  pose proof (listed_wf _ _ _ Hv2 Ha) as Haw. pose proof (listed_wf _ _ _ Hv3 Hp) as Hpw.
  intros x y jx jy Hne Hx Hy Hax Hay En a b Hda Hdb.
  destruct (rec_from _ _ _ _ Hr x jx Hx Hax) as [(ax & Hinx & Ix & Nx & Dx)|(dx & Hinx%Hds & Ix & Nx & Dx)],
    (rec_from _ _ _ _ Hr y jy Hy Hay) as [(ay & Hiny & Iy & Ny & Dy)|(dy & Hiny%Hds & Iy & Ny & Dy)];
    rewrite Dx in Hda; rewrite Dy in Hdb.
  - apply Ha in Hinx as [Lx Ax], Hiny as [Ly Ay].
    by eapply (Hex2 _ _ ax ay); [|exact Lx|exact Ly|..]; try done; congruence.
  - apply not_eq_sym. by eapply (plan_active_disjoint now nodes act pend policy v1 dy ax); try done; congruence.
  - by eapply (plan_active_disjoint now nodes act pend policy v1 dx ay); try done; congruence.
  - eapply (plan_decisions_disjoint now nodes act pend policy v1 dx dy); try done; congruence.
Qed.

Lemma passed_exclusive now policy v1 st' :
  view_ok v1 → passed now policy v1 st' → exclusive v1 → exclusive (view st'.1).
Proof.
  intros Hv1 [(_ & _ & Hq)|(nodes & act & pend & v2 & v3 & Hn & _ & Ha & Hv2 & Hq2 & Hp & Hv3 & _ & Hr)] Hex.
  { by eapply exclusive_quiet. }
  eapply recorded_exclusive; [exact Hn|done|exact Ha|done| |exact Hp|done|reflexivity|done]. by eapply exclusive_quiet.
Qed.

(** [C3] (invariant, safety) Accelerators are exclusive under concurrency: over any number of
    scheduling passes, while the other goroutines register nodes, report heartbeats, submit,
    start, finish and cancel jobs in between any two operations of a pass, and whatever calls
    of the store fail, no two ASSIGNED or RUNNING jobs ever hold the same device of a node. *)
Theorem Run_exclusive sched ticks s env s' env' :
  inv s → view_ok (view s) → exclusive (view s) → Forall (Forall env_call) env →
  Run sched ticks (s, env) = (tt, (s', env')) →
  inv s' ∧ view_ok (view s') ∧ exclusive (view s').
Proof.
  intros Hi Hv Hx He E.
  pose (P (st : S * list (list call)) := good st.1 ∧ env_ok st.2 ∧ exclusive (view st.1)).
  assert (P (s', env')) as ([] & _ & ?); [|done].
  replace (s', env') with (Run sched ticks (s, env)).2 by (by rewrite E).
  apply (st_for_inv P); [|done]. intros now st _ (Hg & Hen & Hex).
  destruct (pass sched now st) as [[] st1] eqn:Ep.
  destruct (pass_passed sched now st st1 Hg Hen Ep) as (Hv1 & Hq & Hp).
  pose proof (passed_exclusive _ _ _ _ Hv1 Hp (exclusive_quiet _ _ Hq Hex)).
  destruct Hp as [(? & ? & _)|(? & ? & ? & ? & ? & _ & _ & _ & _ & _ & _ & _ & _ & [])]; done.
Qed.

Lemma NoDup_job_ids s : inv s → NoDup (Job_ID <$> (map_to_list (v_jobs (view s))).*2).
Proof.
  intros Hi. assert (Job_ID <$> (map_to_list (v_jobs (view s))).*2 = (map_to_list (v_jobs (view s))).*1) as ->.
  { rewrite <-list_fmap_compose. apply list_fmap_ext. intros i [k j] Hl. simpl.
    apply (view_job_id s); [done|]. apply elem_of_map_to_list. by eapply list_elem_of_lookup_2. }
  apply NoDup_fst_map_to_list.
Qed.

(** The load of a node after a pass, for a demand bounded by the plan. *)
Lemma passed_load now policy st' nodes act pend n ps (f : Job → Z) :
  (∀ j, Job_wf j → 0 ≤ f j) → (∀ j j', demand j = demand j' → f j = f j') →
  Forall Job_wf act → Forall Job_wf pend → inv st'.1 →
  recorded act pend (Plan now nodes act pend policy) st' →
  Plan now nodes act pend policy = ps.*2 → ps.*1 ⊆+ pend →
  Forall (λ p, Decision_JobID p.2 = Job_ID p.1) ps →
  zsum f (jobs_on (Node_ID n) (view st'.1)) ≤
    zsum f (activeOn (Node_ID n) act) + load f (Node_ID n) ps.
Proof.
  intros Hpos Hdem Haw Hpw Hi [_ _ Hfrom Hd] Eps Hsub Hids.
  rewrite load_filter, <-zsum_app. apply (zsum_key_le Job_ID).
  - unfold jobs_on. apply NoDup_fmap_filter. by apply NoDup_job_ids.
  - rewrite Forall_forall in Haw, Hpw. apply Forall_app. split; apply Forall_forall; intros j Hj.
    + apply Hpos, Haw. by apply list_elem_of_filter in Hj as [_ Hj].
    + apply list_elem_of_fmap in Hj as (p & -> & Hp). apply list_elem_of_filter in Hp as [_ Hp].
      apply Hpos, Hpw. eapply elem_of_submseteq; [|done]. by apply list_elem_of_fmap_2.
  - intros j Hj. unfold jobs_on in Hj. apply list_elem_of_filter in Hj as [[Ha Hnid] Hj].
    apply elem_of_map_values in Hj as [k Hk]. pose proof (view_job_id _ _ _ Hi Hk) as Hid.
    destruct (Hfrom k j Hk Ha) as [(a & Hin & Ia & Na & _)|(d & Hin & Id & Nd & _)].
    + destruct (Hd a (or_introl Hin)) as (j' & Hj' & Ej). exists a. split_and!; [|congruence|].
      * apply elem_of_app. left. apply list_elem_of_filter. split; [congruence|done].
      * rewrite Ia in Hj'. assert (j' = j) as -> by congruence. by rewrite (Hdem _ _ Ej).
    + rewrite Eps in Hin. apply list_elem_of_fmap in Hin as (p & -> & Hp).
      rewrite Forall_forall in Hids. specialize (Hids p Hp).
      assert (p.1 ∈ pend) as Hpp by (eapply elem_of_submseteq; [|done]; by apply list_elem_of_fmap_2).
      destruct (Hd p.1 (or_intror Hpp)) as (j' & Hj' & Ej). exists p.1. split_and!; [|congruence|].
      * apply elem_of_app. right. apply list_elem_of_fmap_2, list_elem_of_filter. split; [congruence|done].
      * rewrite <-Hids, Id in Hj'. assert (j' = j) as -> by congruence. by rewrite (Hdem _ _ Ej).
Qed.

(** The jobs of a list that are active on a node, or were and have been read since, ask for no more
    than those of an earlier view. *)
Lemma quiet_load v v' nid (f : Job → Z) js :
  (∀ j, Job_wf j → 0 ≤ f j) → (∀ j j', demand j = demand j' → f j = f j') → view_ok v →
  (∀ x j, v_jobs v !! x = Some j → Job_ID j = x) → quiet v v' → NoDup (Job_ID <$> js) →
  (∀ j, j ∈ js → v_jobs v' !! Job_ID j = Some j ∧ active j ∧ Job_NodeID j = nid) →
  zsum f js ≤ zsum f (jobs_on nid v).
Proof.
  intros Hpos Hdem Hv Hid [Hqa Hqd] Hnd Hjs. apply (zsum_key_le Job_ID); [done| |].
  - apply Forall_forall. intros j [_ [k Hk]%elem_of_map_values]%list_elem_of_filter. by eapply Hpos, vo_jobs.
  - intros j Hj. destruct (Hjs j Hj) as (Hl & Ha & En). destruct (Hqa _ _ Hl Ha) as (j0 & H0 & Ha0 & E0 & _).
    exists j0. split_and!.
    + apply list_elem_of_filter. split; [split; [done|congruence]|]. apply elem_of_map_values. by eexists.
    + symmetry. by apply Hid.
    + destruct (Hqd _ _ H0) as (j1 & H1 & E1). assert (j1 = j) as -> by congruence. by rewrite (Hdem _ _ E1).
Qed.

(** What a plan may place on a node beside the active jobs, of a demand with that capacity. *)
Definition within (f : Job → Z) (cap : Z) (nid : string) (act : list Job) (ps : list (Job * Decision)) : Prop :=
  load f nid ps ≤ Z.max 0 (cap - zsum f (activeOn nid act)).

(** The load that a pass leaves on a node, for a demand that the plan bounds by a capacity. *)
Lemma pass_load now policy v1 st' n (f : Job → Z) (cap : Z) :
  (∀ j, Job_wf j → 0 ≤ f j) → (∀ j j', demand j = demand j' → f j = f j') →
  (∀ act ps, within Job_ReqCPUs (Node_CPUs n) (Node_ID n) act ps ∧ within Job_ReqMemBytes (Node_MemTotalBytes n) (Node_ID n) act ps →
     within f cap (Node_ID n) act ps) →
  view_ok v1 → (∀ x j, v_jobs v1 !! x = Some j → Job_ID j = x) → inv st'.1 →
  v_nodes v1 !! Node_ID n = Some n → Node_State n = StateUp → passed now policy v1 st' →
  zsum f (jobs_on (Node_ID n) (view st'.1)) ≤ Z.max cap (zsum f (jobs_on (Node_ID n) v1)).
Proof.
  intros Hpos Hdem Hcap Hv1 Hid Hi Hin Hup [(_ & _ & Hq)|(nodes & act & pend & v2 & v3 & Hn & _ & Ha & Hv2 & Hq2 & Hp & Hv3 & _ & Hr)].
  - etrans; [|apply Z.le_max_r]. apply (quiet_load v1 (view st'.1)); try done.
    + unfold jobs_on. apply NoDup_fmap_filter. by apply NoDup_job_ids.
    + intros j [[Haj En] [k Hk]%elem_of_map_values]%list_elem_of_filter. by rewrite (view_job_id _ _ _ Hi Hk).
  - pose proof (listed_wf _ _ _ Hv2 Ha) as Haw. pose proof (listed_wf _ _ _ Hv3 Hp) as Hpw.
    destruct (plan_no_overcommit now nodes act pend policy) as (ps & Eps & Hsub & Hids & Hload);
      [apply Hn|exact (listed_nodes_wf _ _ Hv1 Hn)|done..|].
    pose proof (passed_load now policy st' nodes act pend n ps f Hpos Hdem Haw Hpw Hi Hr Eps Hsub Hids) as Hb.
    specialize (Hcap act ps (Hload n (proj2 (proj2 Hn n) Hin) Hup)). unfold within in Hcap.
    assert (zsum f (activeOn (Node_ID n) act) ≤ zsum f (jobs_on (Node_ID n) v1)); [|lia].
    apply (quiet_load v1 v2); try done.
    + unfold activeOn. apply NoDup_fmap_filter. apply Ha.
    + intros j [En Hj]%list_elem_of_filter. by apply Ha in Hj as [? ?].
Qed.

(** [C23] (safety, bounds) A pass does not overcommit: let other goroutines register nodes, submit,
    start, finish and cancel jobs before and between the operations of a pass, and let any
    statement fail.  With [v] what the store holds when the pass lists the nodes, after the
    calls that come before it: on every node that is UP then, what the active jobs ask for after
    the pass, in CPUs and in memory, is within what the node has, or within what the jobs active
    there in [v] asked for already if they exceeded it. *)
Theorem pass_no_overcommit sched now s env s' env' n :
  inv s → view_ok (view s) → Forall (Forall env_call) env →
  pass sched now (s, env) = (tt, (s', env')) →
  let v := view (interfere (s, env)).1 in
  v_nodes v !! Node_ID n = Some n → Node_State n = StateUp →
  zsum Job_ReqCPUs (jobs_on (Node_ID n) (view s')) ≤
    Z.max (Node_CPUs n) (zsum Job_ReqCPUs (jobs_on (Node_ID n) v)) ∧
  zsum Job_ReqMemBytes (jobs_on (Node_ID n) (view s')) ≤
    Z.max (Node_MemTotalBytes n) (zsum Job_ReqMemBytes (jobs_on (Node_ID n) v)).
Proof.
  intros Hi Hv He E v Hn Hup. assert (good s) as Hg by done.
  destruct (pass_passed sched now (s, env) (s', env') Hg He E) as (Hv1 & _ & Hp). fold v in Hv1, Hp.
  destruct (interfere_quiet (s, env) Hg He) as ([Hi1 _] & _ & _).
  assert (inv s') as Hi'.
  { destruct Hp as [([] & _)|(? & ? & ? & ? & ? & _ & _ & _ & _ & _ & _ & _ & _ & Hr)]; [done|apply (rec_good _ _ _ _ Hr)]. }
  assert (∀ x j, v_jobs v !! x = Some j → Job_ID j = x) as Hid by (intros x j Hx; exact (view_job_id _ _ _ Hi1 Hx)).
  split; eapply (pass_load _ _ v (s', env')); try done.
  - by intros j [[? ?]].
  - by intros j j' [= -> _].
  - by intros act ps [].
  - by intros j [? [? ?]].
  - by intros j j' [= _ ->].
  - by intros act ps [].
Qed.
End theorems.

(** ** Runs on the SQLite store *)

Definition ex_sched : Scheduler := New (5 * Second) (mkPolicy true (f64 0)).

(** A node with two GPUs registers before the first pass, two one-GPU jobs arrive before the
    active jobs are read, and the first is cancelled before the second pass. *)
Definition ex_env : list (list call) :=
  [[CallRegisterNode (ex_node "n1" "alpha")];
   [CallCreateJob (ex_job "j1" 1 1001); CallCreateJob (ex_job "j2" 1 1002)];
   []; []; []; [CallCancelJob "j1" (timeUnix 1100)]; [CallCreateJob (ex_job "j3" 1 1101)]].

Lemma emptyDB_start : inv emptyDB ∧ view_ok (view emptyDB) ∧ exclusive (view emptyDB).
Proof.
  split_and!; [apply emptyDB_ok| |].
  - split; simpl; intros *; by rewrite fmap_empty, lookup_empty.
  - intros x y jx jy _ Hx. simpl in Hx. by rewrite fmap_empty, lookup_empty in Hx.
Qed.

Definition placement (db : DB) (x : string) :=
  (λ j, (Job_State j, Job_NodeID j, Job_Devices j)) <$> v_jobs (db_view db) !! x.

Lemma Run_exclusive_witness :
  ∃ s' env', @Run _ (interleaved (S := DB)) ascii_case ex_sched [timeUnix 1050; timeUnix 1110] (emptyDB, ex_env)
    = (tt, (s', env')) ∧
    placement s' "j2" = Some (JobAssigned, "n1", [mkAlloc "gpu" 1]) ∧ exclusive (view s').
Proof.
  destruct (@Run _ (interleaved (S := DB)) ascii_case ex_sched [timeUnix 1050; timeUnix 1110] (emptyDB, ex_env))
    as [[] [s' env']] eqn:E.
  exists s', env'. split; [reflexivity|]. split.
  - assert (placement (@Run _ (interleaved (S := DB)) ascii_case ex_sched [timeUnix 1050; timeUnix 1110]
      (emptyDB, ex_env)).2.1 "j2" = Some (JobAssigned, "n1", [mkAlloc "gpu" 1])) as Hp by (by vm_compute).
    rewrite E in Hp. exact Hp.
  - destruct emptyDB_start as (H1 & H2 & H3).
    refine (proj2 (proj2 (Run_exclusive ex_sched _ emptyDB ex_env s' env' H1 H2 H3 _ E))). by_decide.
Defined.

Lemma pass_no_overcommit_witness :
  ∃ s' env', @pass _ (interleaved (S := DB)) ascii_case ex_sched (timeUnix 1050) (emptyDB, ex_env) = (tt, (s', env')) ∧
    let v := view (interfere (emptyDB, ex_env)).1 in
    v_nodes v !! "n1" = Some (ex_node "n1" "alpha") ∧
    zsum Job_ReqCPUs (jobs_on "n1" (view s')) ≤ Z.max 64 (zsum Job_ReqCPUs (jobs_on "n1" v)).
Proof.
  destruct (@pass _ (interleaved (S := DB)) ascii_case ex_sched (timeUnix 1050) (emptyDB, ex_env))
    as [[] [s' env']] eqn:E.
  exists s', env'. split; [reflexivity|]. destruct emptyDB_start as (H1 & H2 & _).
  assert (Forall (Forall env_call) ex_env) as He by by_decide. intros v.
  assert (v_nodes v !! "n1" = Some (ex_node "n1" "alpha")) as Hn by (vm_compute; reflexivity). split; [exact Hn|].
  exact (proj1 (pass_no_overcommit ex_sched (timeUnix 1050) emptyDB ex_env s' env' (ex_node "n1" "alpha") H1 H2 He E Hn eq_refl)).
Defined.

(** (safety) A CANCELLING job's devices are not protected: the active list holds only
    ASSIGNED and RUNNING jobs, so once a running job is cancelled, and before its agent has
    reported the end of its process, the next pass gives its device to another job.  In the run
    below the single GPU of the node is given to the second job while the first, still
    CANCELLING, has it too. *)
Theorem cancelling_device_reassigned :
  let node := mkNode "n1" "alpha" "gpu" StateUp "" 64 1000 [mkDevice "gpu" "nvidia" 0 "" 80 "A100"] ∅ "" (timeUnix 1000) in
  let db1 := exec_calls [CallRegisterNode node; CallCreateJob (ex_job "j1" 1 1001)] emptyDB in
  let db2 := (@pass _ _ ascii_case ex_sched (timeUnix 1010) db1).2 in
  let db3 := exec_calls [CallMarkJobRunning "j1" (timeUnix 1011); CallCreateJob (ex_job "j2" 1 1012);
                         CallCancelJob "j1" (timeUnix 1013)] db2 in
  let db4 := (@pass _ _ ascii_case ex_sched (timeUnix 1015) db3).2 in
  placement db4 "j1" = Some (JobCancelling, "n1", [mkAlloc "gpu" 0]) ∧
  placement db4 "j2" = Some (JobAssigned, "n1", [mkAlloc "gpu" 0]).
Proof. split; vm_compute; reflexivity. Qed.
