(* ===== verification/SchedulerProgress.v ===== *)
(** * The scheduler conserves work: what stays in the queue fits nowhere

    Proved against a store that is up ([Steady]), which the SQLite store is when its statements
    do not fail. *)
From S2P Require Import Prelude GoBase GoStrings GoFloat Event Store StoreSpec Plan PlanProofs PlanTheorems.
From S2P Require Import Scheduler SQLite SQLiteProofs StoreExample SQLiteRefines SchedulerProofs SchedulerTheorems.
Local Open Scope Z_scope.

(** ** Room on a node *)

Section progress.
Context `{UnicodeCase}.

(** The devices of a node of a type that none of the jobs holds. *)
Definition free_matching (n : Node) (js : list Job) (t : string) : list Device :=
  filter (λ d, matchName (Device_Name d) t = true ∧ device_key d ∉ alloc_key <$> (js ≫= Job_Devices)) (Node_Devices n).

(** Beside the jobs [js] the node has what [j] asks for. *)
Definition room (n : Node) (js : list Job) (j : Job) : Prop :=
  (Job_Partition j = "" ∨ Job_Partition j = Node_Partition n) ∧
  zsum Job_ReqCPUs js + Job_ReqCPUs j ≤ Node_CPUs n ∧
  zsum Job_ReqMemBytes js + Job_ReqMemBytes j ≤ Node_MemTotalBytes n ∧
  Job_ReqGPUs j ≤ Z.of_nat (length (free_matching n js (Job_GPUType j))).

(** The devices of a node that are not [used], as the plan counts them. *)
Lemma matching_free n used js t :
  (∀ k, k ∈ alloc_key <$> used → k ∈ alloc_key <$> (js ≫= Job_Devices)) →
  (length (free_matching n js t) ≤ length (matching t (removeFreeDevices (fn_devices (freeOf n)) used)))%nat.
Proof.
  intros Hu. rewrite removeFreeDevices_filter. unfold matching, free_matching. simpl.
  rewrite list_filter_filter, filter_fmap, length_fmap. apply length_filter_mono.
  intros d [Hm Hk]. simpl. split; [done|]. intros Hin. by apply Hk, Hu.
Qed.

(** A node as the plan leaves it hosts a job that it has room for beside jobs that hold all that
    the plan takes as held. *)
Lemma room_canHost n act ps fn js j :
  Node_wf n → Forall Job_wf act → Job_wf j → node_acct ps (charged n act) fn →
  (∀ f : Job → Z, f = Job_ReqCPUs ∨ f = Job_ReqMemBytes →
     zsum f (activeOn (Node_ID n) act) + load f (Node_ID n) ps ≤ zsum f js ∧ 0 ≤ load f (Node_ID n) ps) →
  (∀ k, k ∈ alloc_key <$> ((activeOn (Node_ID n) act ≫= Job_Devices) ++ devs_on (Node_ID n) ps.*2) →
     k ∈ alloc_key <$> (js ≫= Job_Devices)) →
  room n js j → canHost j fn = true.
Proof.
  intros Hn Ha Hj [Hid _ Hpart Hcpus Hmem _ _ Hdevs] Hf Hk (Rp & Rc & Rm & Rd).
  destruct (charged_static n act) as (Sid & _ & Spart), (charged_res n act Hn Ha) as (Ec & Em & Ed).
  rewrite Sid in *. destruct (Hf _ (or_introl eq_refl)) as [Lc Pc], (Hf _ (or_intror eq_refl)) as [Lm Pm].
  pose proof (jwf_cpus j Hj) as [? _]. pose proof (jwf_mem j Hj) as [? _].
  unfold canHost. rewrite !andb_true_iff, orb_true_iff, !bool_decide_eq_true, !Z.leb_le, Hpart, Spart, Hcpus, Hmem, Ec, Em.
  split_and!; [done|lia|lia|].
  rewrite pickDevices_spec by apply Hj. rewrite decide_True; [by eexists|].
  rewrite Hdevs, Ed, removeFreeDevices_app. pose proof (matching_free n _ js (Job_GPUType j) Hk). lia.
Qed.

(** ** Recording a plan *)

Context {S : Type} `{Steady S}.

(** A decision about a PENDING job is recorded and changes nothing else. *)
Lemma record_one d (s : S) j :
  inv s → steady s → json_valid (Decision_Devices d) = true →
  v_jobs (view s) !! Decision_JobID d = Some j → Job_State j = JobPending →
  inv (recordDecision d s).2 ∧ steady (recordDecision d s).2 ∧
  view (recordDecision d s).2 =
    set_jobs (<[Decision_JobID d := job_assigned (Decision_NodeID d) (Decision_NodeName d) (Decision_Devices d) j]>
      (v_jobs (view s))) (view s).
Proof.
  intros Hi Hs Hv Hj Hp. destruct (steady_assign s _ j (Decision_NodeID d) (Decision_NodeName d) _ Hi Hs Hv Hj Hp) as (s' & E & Hs').
  unfold recordDecision, st_bind, st_ret. rewrite E. simpl.
  destruct (refines (CallAssignJob (Decision_JobID d) (Decision_NodeID d) (Decision_NodeName d) (Decision_Devices d)) s true s' Hi Hv)
    as [Hi' Hspec]; [simpl; by rewrite E|]. simpl in Hspec. rewrite Hj in Hspec. simpl in Hspec.
  rewrite decide_True in Hspec by done. injection Hspec as Hspec. by rewrite <-Hspec.
Qed.

Lemma record_all ds (s : S) :
  inv s → steady s → NoDup (Decision_JobID <$> ds) → Forall (λ d, json_valid (Decision_Devices d) = true) ds →
  (∀ d, d ∈ ds → ∃ j, v_jobs (view s) !! Decision_JobID d = Some j ∧ Job_State j = JobPending) →
  let s' := (st_for ds recordDecision s).2 in
  inv s' ∧ steady s' ∧ v_nodes (view s') = v_nodes (view s) ∧
  (∀ x, x ∉ Decision_JobID <$> ds → v_jobs (view s') !! x = v_jobs (view s) !! x) ∧
  ∀ d, d ∈ ds → v_jobs (view s') !! Decision_JobID d =
    job_assigned (Decision_NodeID d) (Decision_NodeName d) (Decision_Devices d) <$> v_jobs (view s) !! Decision_JobID d.
Proof.
  intros Hi Hs Hnd Hv. revert s Hi Hs. induction ds as [|d ds IH]; intros s Hi Hs Hp; simpl.
  { split_and!; try done. by intros d ?%elem_of_nil. }
  rewrite fmap_cons, NoDup_cons in Hnd. destruct Hnd as [Hd Hnd]. inversion Hv as [|? ? Hvd Hvds]; subst.
  destruct (Hp d ltac:(by left)) as (j & Hj & Hpj). destruct (record_one d s j Hi Hs Hvd Hj Hpj) as (Hi1 & Hs1 & Ev).
  unfold st_bind. destruct (recordDecision d s) as [u s1] eqn:E. simpl in *.
  assert (∀ d', d' ∈ ds → Decision_JobID d' ≠ Decision_JobID d) as Hne.
  { intros d' Hd' En. apply Hd. rewrite <-En. by apply list_elem_of_fmap_2. }
  destruct (IH Hnd Hvds s1 Hi1 Hs1) as (Hi' & Hs' & Hn' & Hother & Hown).
  { intros d' Hd'. rewrite Ev. simpl. rewrite lookup_insert_ne by (by apply not_eq_sym, Hne). apply Hp. by right. }
  rewrite Ev in *. simpl in *. split_and!; try done.
  - intros x [Hx Hx']%not_elem_of_cons. rewrite Hother by done. by rewrite lookup_insert_ne.
  - intros d' [->|Hd']%elem_of_cons.
    + rewrite Hother by done. by rewrite lookup_insert_eq, Hj.
    + rewrite Hown by done. by rewrite lookup_insert_ne by (by apply not_eq_sym, Hne).
Qed.

(** An uninterrupted pass of a store that is up: what it read, and what it left. *)
Lemma pass_steady sched now (s s' : S) :
  inv s → view_ok (view s) → steady s → pass sched now s = (tt, s') →
  ∃ nodes act pend, nodes_listed (view s) nodes ∧ jobs_listed active (view s) act ∧
    jobs_listed (λ j, Job_State j = JobPending) (view s) pend ∧
    let ds := Plan now nodes act pend (Scheduler_policy sched) in
    inv s' ∧ steady s' ∧ v_nodes (view s') = v_nodes (view s) ∧
    (∀ x, x ∉ Decision_JobID <$> ds → v_jobs (view s') !! x = v_jobs (view s) !! x) ∧
    ∀ d, d ∈ ds → v_jobs (view s') !! Decision_JobID d =
      job_assigned (Decision_NodeID d) (Decision_NodeName d) (Decision_Devices d) <$> v_jobs (view s) !! Decision_JobID d.
Proof.
  intros Hi Hv Hs. unfold pass, st_bind, st_ret.
  destruct (steady_nodes s Hi Hs) as (nodes & s1 & E1 & Hs1). rewrite E1.
  destruct (lists_nodes s _ s1 Hi E1) as (Hi1 & V1 & Hn). specialize (Hn nodes eq_refl).
  destruct (steady_active s1 Hi1 Hs1) as (act & s2 & E2 & Hs2). rewrite E2.
  destruct (lists_active s1 _ s2 Hi1 E2) as (Hi2 & V2 & Ha). specialize (Ha act eq_refl). rewrite V1 in Ha.
  destruct (steady_pending s2 Hi2 Hs2) as (pend & s3 & E3 & Hs3). rewrite E3.
  destruct (lists_pending s2 _ s3 Hi2 E3) as (Hi3 & V3 & Hp). specialize (Hp pend eq_refl). rewrite V2, V1 in Hp.
  intros E. exists nodes, act, pend. split; [done|]. split; [done|]. split; [done|].
  assert (s' = (st_for (Plan now nodes act pend (Scheduler_policy sched)) recordDecision s3).2) as -> by (by rewrite E).
  assert (view s3 = view s) as V by congruence. rewrite <-V in *.
  pose proof (listed_nodes_wf _ _ Hv Hn) as Hnw. pose proof (listed_wf _ _ _ Hv Ha) as Haw. pose proof (listed_wf _ _ _ Hv Hp) as Hpw.
  apply record_all; [done|done|apply plan_ids_nodup; [apply Hn|done..|apply Hp]| |].
  - apply decisions_encodable; try done; [apply Hn|]. intros n Hin. apply Hn in Hin. by eapply view_encodable.
  - intros d Hd. destruct (plan_placement now nodes act pend (Scheduler_policy sched) d) as (j & n & Hj & _ & _ & Eid & _);
      [by apply Hn|done..|]. apply Hp in Hj as [Hj Hst]. rewrite Eid. by exists j.
Qed.

Lemma pending_inactive j : Job_State j = JobPending → ¬ active j.
Proof. intros Ep [Ea|Ea]; rewrite Ep in Ea; discriminate. Qed.

(** After such a pass the active jobs of a node hold at least what the plan took as held there. *)
Lemma held_after (s s' : S) act pend ps nid :
  inv s → inv s' → jobs_listed active (view s) act → jobs_listed (λ j, Job_State j = JobPending) (view s) pend →
  Forall (λ p, Decision_JobID p.2 = Job_ID p.1) ps → ps.*1 ⊆+ pend →
  (∀ x, x ∉ Decision_JobID <$> ps.*2 → v_jobs (view s') !! x = v_jobs (view s) !! x) →
  (∀ d, d ∈ ps.*2 → v_jobs (view s') !! Decision_JobID d =
    job_assigned (Decision_NodeID d) (Decision_NodeName d) (Decision_Devices d) <$> v_jobs (view s) !! Decision_JobID d) →
  (∀ a, a ∈ activeOn nid act → a ∈ jobs_on nid (view s')) ∧
  (∀ p, p ∈ ps → Decision_NodeID p.2 = nid →
     job_assigned (Decision_NodeID p.2) (Decision_NodeName p.2) (Decision_Devices p.2) p.1 ∈ jobs_on nid (view s')).
Proof.
  intros Hi Hi' Ha Hp Hids Hsub Hother Hown. rewrite Forall_forall in Hids.
  assert (∀ p, p ∈ ps → v_jobs (view s) !! Job_ID p.1 = Some p.1 ∧ Job_State p.1 = JobPending) as Hpend.
  { intros p Hin. apply Hp. eapply elem_of_submseteq; [|exact Hsub]. by apply list_elem_of_fmap_2. }
  split.
  - intros a [Hn Hin]%list_elem_of_filter. apply Ha in Hin as [Hl Hact]. apply list_elem_of_filter. split; [done|].
    apply elem_of_map_values. exists (Job_ID a). rewrite Hother; [done|].
    intros (d & Ed & (p & -> & Hp')%list_elem_of_fmap)%list_elem_of_fmap. rewrite (Hids p Hp') in Ed.
    destruct (Hpend p Hp') as [Hl' Hs']. rewrite <-Ed, Hl in Hl'. injection Hl' as ->. by destruct (pending_inactive _ Hs').
  - intros p Hin Hn. apply list_elem_of_filter. split; [split; [by left|done]|]. apply elem_of_map_values.
    exists (Decision_JobID p.2). rewrite Hown by (by apply list_elem_of_fmap_2). rewrite (Hids p Hin).
    by rewrite (proj1 (Hpend p Hin)).
Qed.

Lemma held_load (s s' : S) act pend ps nid (f : Job → Z) :
  inv s → inv s' → jobs_listed active (view s) act → jobs_listed (λ j, Job_State j = JobPending) (view s) pend →
  NoDup (Job_ID <$> ps.*1) → ps.*1 ⊆+ pend →
  (∀ a, a ∈ activeOn nid act → a ∈ jobs_on nid (view s')) →
  (∀ p, p ∈ ps → Decision_NodeID p.2 = nid →
     job_assigned (Decision_NodeID p.2) (Decision_NodeName p.2) (Decision_Devices p.2) p.1 ∈ jobs_on nid (view s')) →
  (∀ j, j ∈ jobs_on nid (view s') → 0 ≤ f j) → (∀ nid nn ds j, f (job_assigned nid nn ds j) = f j) →
  zsum f (activeOn nid act) + load f nid ps ≤ zsum f (jobs_on nid (view s')).
Proof.
  intros Hi Hi' Ha Hp Hnd Hsub Hact Hdec Hpos Hf. rewrite load_filter, <-zsum_app. apply (zsum_key_le Job_ID).
  - rewrite fmap_app. apply NoDup_app_disjoint.
    + apply NoDup_fmap_filter, Ha.
    + eapply sublist_NoDup; [exact Hnd|]. by apply fmap_sublist, fmap_sublist, sublist_filter.
    + intros x (a & -> & [_ Hina]%list_elem_of_filter)%list_elem_of_fmap (j & Ej & Hj)%list_elem_of_fmap.
      apply list_elem_of_fmap in Hj as (p & -> & [_ Hp']%list_elem_of_filter).
      assert (p.1 ∈ pend) as Hin by (eapply elem_of_submseteq; [|exact Hsub]; by apply list_elem_of_fmap_2).
      apply Ha in Hina as [La Aa]. apply Hp in Hin as [Lp Sp]. rewrite <-Ej, La in Lp. injection Lp as Lp.
      rewrite <-Lp in Sp. by destruct (pending_inactive _ Sp).
  - apply Forall_forall. done.
  - intros j [Hj|Hj]%elem_of_app; [exists j; split; [by apply Hact|done]|].
    apply list_elem_of_fmap in Hj as (p & -> & [Hn Hin]%list_elem_of_filter). eexists. split; [by apply Hdec|].
    split; [done|]. rewrite Hf. lia.
Qed.

Lemma pair_ids (ps : list (Job * Decision)) :
  Forall (λ p, Decision_JobID p.2 = Job_ID p.1) ps → Decision_JobID <$> ps.*2 = Job_ID <$> ps.*1.
Proof.
  intros Hids. rewrite <-!list_fmap_compose. apply list_fmap_ext. intros i p Hip. simpl.
  rewrite Forall_forall in Hids. apply Hids. by eapply list_elem_of_lookup_2.
Qed.

(** The jobs are well formed after such a pass as before. *)
Lemma wf_after (s s' : S) (ds : list Decision) nid j :
  view_ok (view s) →
  (∀ x, x ∉ Decision_JobID <$> ds → v_jobs (view s') !! x = v_jobs (view s) !! x) →
  (∀ d, d ∈ ds → v_jobs (view s') !! Decision_JobID d =
    job_assigned (Decision_NodeID d) (Decision_NodeName d) (Decision_Devices d) <$> v_jobs (view s) !! Decision_JobID d) →
  j ∈ jobs_on nid (view s') → Job_wf j.
Proof.
  intros Hv Hother Hown [_ [i Hi]%elem_of_map_values]%list_elem_of_filter.
  destruct (decide (i ∈ Decision_JobID <$> ds)) as [(d & -> & Hd)%list_elem_of_fmap|Hd].
  - rewrite Hown in Hi by done. destruct (v_jobs (view s) !! Decision_JobID d) as [j0|] eqn:E0; [|done].
    injection Hi as <-. destruct (vo_jobs _ Hv _ _ E0). by split.
  - rewrite Hother in Hi by done. by eapply vo_jobs.
Qed.

(** Beside what is held after such a pass there is no more room than the plan has left. *)
Lemma room_left now policy (s s' : S) nodes act pend ps n fn j :
  inv s → inv s' → view_ok (view s) → nodes_listed (view s) nodes → jobs_listed active (view s) act →
  jobs_listed (λ j, Job_State j = JobPending) (view s) pend → Plan now nodes act pend policy = ps.*2 →
  Forall (λ p, Decision_JobID p.2 = Job_ID p.1) ps → ps.*1 ⊆+ pend →
  (∀ x, x ∉ Decision_JobID <$> ps.*2 → v_jobs (view s') !! x = v_jobs (view s) !! x) →
  (∀ d, d ∈ ps.*2 → v_jobs (view s') !! Decision_JobID d =
    job_assigned (Decision_NodeID d) (Decision_NodeName d) (Decision_Devices d) <$> v_jobs (view s) !! Decision_JobID d) →
  n ∈ nodes → j ∈ pend → node_acct ps (charged n act) fn → room n (jobs_on (Node_ID n) (view s')) j → canHost j fn = true.
Proof.
  intros Hi Hi' Hv Hn Ha Hp Hds Hids Hsub Hother Hown Hnin Hin Hacct.
  pose proof (listed_nodes_wf _ _ Hv Hn) as Hnw. pose proof (listed_wf _ _ _ Hv Ha) as Haw. pose proof (listed_wf _ _ _ Hv Hp) as Hpw.
  destruct (held_after s s' act pend ps (Node_ID n) Hi Hi' Ha Hp Hids Hsub Hother Hown) as [Hact Hdec].
  assert (∀ jo, jo ∈ jobs_on (Node_ID n) (view s') → Job_wf jo) as Hw by (intros jo; by eapply wf_after).
  apply (room_canHost n act ps fn); [by rewrite Forall_forall in Hnw; apply Hnw|done|by rewrite Forall_forall in Hpw; apply Hpw|done| |].
  - intros f Hfm. split.
    + apply (held_load s s' act pend); try done; [|intros jo Hjo%Hw|intros; by destruct Hfm as [-> | ->]].
      * rewrite <-(pair_ids ps Hids), <-Hds. apply plan_ids_nodup; [apply Hn|done..|apply Hp].
      * destruct Hfm as [-> | ->]; apply Hjo.
    + rewrite load_filter. apply zsum_nonneg, Forall_forall. intros jo (p & -> & [_ Hp']%list_elem_of_filter)%list_elem_of_fmap.
      rewrite Forall_forall in Hpw. assert (Job_wf p.1) as Hwp.
      { apply Hpw. eapply elem_of_submseteq; [|exact Hsub]. by apply list_elem_of_fmap_2. }
      destruct Hfm as [-> | ->]; apply Hwp.
  - intros key (a & -> & [Hka|Hka]%elem_of_app)%list_elem_of_fmap; apply list_elem_of_fmap_2, list_elem_of_bind.
    + apply list_elem_of_bind in Hka as (b & Hab & Hb). exists b. split; [done|by apply Hact].
    + unfold devs_on in Hka. apply list_elem_of_bind in Hka as (d & Had & [Hdn Hd]%list_elem_of_filter).
      apply list_elem_of_fmap in Hd as (p & -> & Hpp). eexists. split; [|by apply Hdec]. exact Had.
Qed.

(** The pass from [v] holds a job back behind a blocked one: it could not be shown to end by the
    instant reserved. *)
Definition held_back sched now (v : View) (j : Job) : Prop :=
  Policy_Backfill (Scheduler_policy sched) = true ∧ ∃ nodes act pend t,
     nodes_listed v nodes ∧ jobs_listed active v act ∧ jobs_listed (λ j, Job_State j = JobPending) v pend ∧
     ps_res (planRun now nodes act pend (Scheduler_policy sched)) = Some t ∧ backfillAllowed now j t = false.

(** What an uninterrupted pass of a store that is up leaves in the queue. *)
Lemma left_in_queue sched now (s s' : S) x j :
  inv s → view_ok (view s) → steady s → pass sched now s = (tt, s') →
  v_jobs (view s') !! x = Some j → Job_State j = JobPending →
  (∀ nid n, v_nodes (view s') !! nid = Some n → Node_State n = StateUp → ¬ room n (jobs_on nid (view s')) j) ∨
  held_back sched now (view s) j.
Proof.
  intros Hi Hv Hs E Hj Hst.
  destruct (pass_steady sched now s s' Hi Hv Hs E) as (nodes & act & pend & Hn & Ha & Hp & Hi' & _ & Hnodes & Hother & Hown).
  pose proof (listed_nodes_wf _ _ Hv Hn) as Hnw. pose proof (listed_wf _ _ _ Hv Ha) as Haw. pose proof (listed_wf _ _ _ Hv Hp) as Hpw.
  set (policy := Scheduler_policy sched) in *. assert (Job_ID j = x) as Ex by (by eapply view_job_id). subst x.
  assert (Job_ID j ∉ Decision_JobID <$> Plan now nodes act pend policy) as Hout.
  { intros (d & Ed & Hd)%list_elem_of_fmap. specialize (Hown d Hd). rewrite <-Ed, Hj in Hown.
    destruct (v_jobs (view s) !! Job_ID j); [|done]. injection Hown as ->. discriminate. }
  rewrite Hother in Hj by done. assert (j ∈ pend) as Hin by (by apply Hp).
  destruct (plan_maximal now nodes act pend policy j) as [Hd|[Hno|[Hb (t & Et & Hf)]]]; [by apply Hn|done..| | |].
  { by destruct Hout. }
  2: { right. split; [done|]. by exists nodes, act, pend, t. }
  left. intros nid n Hnid Hup. rewrite Hnodes in Hnid. pose proof (view_node_id _ _ _ Hi Hnid) as <-.
  assert (n ∈ nodes) as Hnin by (by apply Hn).
  destruct (planRun_inv now nodes act pend policy) as (ps & [Hds Hord Hpl _] & Hsub); [by apply Hn|done..|].
  change (ps_decisions (planRun now nodes act pend policy)) with (Plan now nodes act pend policy) in Hds. rewrite Hds in *.
  assert (Forall (λ p, Decision_JobID p.2 = Job_ID p.1) ps) as Hids.
  { eapply Forall_impl; [exact Hpl|]. by intros p (fn0 & _ & ? & _). }
  assert (ps.*1 ⊆+ pend) as Hsub'.
  { rewrite <-(sort_by_perm (jobLess now (Policy_AgeWeight policy)) pend). by apply sublist_submseteq. }
  assert (charged n act ∈ nodeOrder (buildFree nodes act)) as Hin0 by (apply nodeOrder_elem; [apply Hn|by exists n]).
  apply list_elem_of_lookup in Hin0 as [k Hk].
  destruct (Forall2_lookup_l _ _ _ _ _ Hord Hk) as (fn & Hfn & Hacct).
  intros Hroom. rewrite Forall_forall in Hno. specialize (Hno fn ltac:(by eapply list_elem_of_lookup_2)).
  by rewrite (room_left now policy s s' nodes act pend ps n fn j) in Hno.
Qed.

(** [C22] (liveness) The scheduler conserves work: after an uninterrupted pass of a store that is up,
    a job that is still PENDING has no room on any UP node beside the jobs that are ASSIGNED or RUNNING
    there then (its partition, its CPUs, its memory or its devices are missing), unless the policy is to
    backfill, the plan reserved an instant for a job that could not be placed, and this one could not be
    shown to end by then. *)
Theorem pass_conserves_work sched now (s s' : S) x j :
  inv s → view_ok (view s) → steady s → pass sched now s = (tt, s') →
  v_jobs (view s') !! x = Some j → Job_State j = JobPending →
  (∀ nid n, v_nodes (view s') !! nid = Some n → Node_State n = StateUp → ¬ room n (jobs_on nid (view s')) j) ∨
  held_back sched now (view s) j.
Proof. apply left_in_queue. Qed.
End progress.

(** ** An example: two devices, three jobs *)

Definition ex_queue : DB := exec_calls [CallRegisterNode (ex_node "n1" "alpha"); CallCreateJob (ex_job "j1" 1 1001);
  CallCreateJob (ex_job "j2" 1 1002); CallCreateJob (ex_job "j3" 1 1003)] emptyDB.
Definition ex_greedy : Scheduler := New (5 * Second) (mkPolicy false (f64 0)).
Definition ex_passed : DB := (@pass _ _ ascii_case ex_greedy (timeUnix 1050) ex_queue).2.

Lemma ex_queue_steady : db_faults ex_queue = [].
Proof. vm_compute. reflexivity. Qed.

Lemma unit_pair {A} (p : unit * A) : p = (tt, p.2).
Proof. by destruct p as [[] ?]. Qed.

Lemma ex_passed_j3 : Job_State <$> v_jobs (view ex_passed) !! "j3" = Some JobPending.
Proof. vm_compute. reflexivity. Qed.

Lemma pass_conserves_work_witness :
  ∃ j, v_jobs (view ex_passed) !! "j3" = Some j ∧
    ∀ nid n, v_nodes (view ex_passed) !! nid = Some n → Node_State n = StateUp → ¬ @room ascii_case n (jobs_on nid (view ex_passed)) j.
Proof.
  destruct (proj1 (fmap_Some _ _ _) ex_passed_j3) as (j & Ej & Hs). exists j. split; [exact Ej|].
  destruct emptyDB_start as (H1 & H2 & _).
  destruct (exec_env [CallRegisterNode (ex_node "n1" "alpha"); CallCreateJob (ex_job "j1" 1 1001);
    CallCreateJob (ex_job "j2" 1 1002); CallCreateJob (ex_job "j3" 1 1003)] emptyDB (conj H1 H2) ltac:(by_decide)) as [[Hi Hv] _].
  refine (match pass_conserves_work (H := ascii_case) (S := DB) ex_greedy (timeUnix 1050) ex_queue ex_passed "j3" j Hi Hv
    ex_queue_steady (unit_pair _) Ej (eq_sym Hs) with or_introl Hno => Hno | or_intror (conj Hb _) => _ end).
  discriminate Hb.
Defined.
