(* ===== verification/World.v ===== *)
(** * The process around the components: store, clock, randomness

    The readings of the wall clock and of the random source are given as sequences; a
    component's operation takes the next one.  The store is any implementation of [Store]. *)
From S2P Require Import Prelude GoBase GoStrings Event Store.
Local Open Scope Z_scope.

Record World (S : Type) := mkWorld {
  w_store : S;
  w_now : nat → Time;
  w_tick : nat;
  w_rand : nat → list Z;
  w_drawn : nat
}.
Arguments mkWorld {S} _ _ _ _ _.
Arguments w_store {S} _.
Arguments w_now {S} _ _.
Arguments w_tick {S} _.
Arguments w_rand {S} _ _.
Arguments w_drawn {S} _.

Section world.
Context {S : Type}.

(** [time.Now()] *)
Definition time_Now : ST (World S) Time := λ w,
  (w_now w (w_tick w), mkWorld (w_store w) (w_now w) (Datatypes.S (w_tick w)) (w_rand w) (w_drawn w)).

(** [store.NewID()]: eight random bytes. *)
Definition newID : ST (World S) string := λ w,
  (NewID (w_rand w (w_drawn w)),
   mkWorld (w_store w) (w_now w) (w_tick w) (w_rand w) (Datatypes.S (w_drawn w))).

(** An operation of the store. *)
Definition on_store {A} (op : ST S A) : ST (World S) A := λ w,
  let '(a, s') := op (w_store w) in (a, mkWorld s' (w_now w) (w_tick w) (w_rand w) (w_drawn w)).

(** What [time.Now()] answers next. *)
Definition next_reading (w : World S) : Time := w_now w (w_tick w).

(** The clock never goes back. *)
Definition monotone_clock (w : World S) : Prop := ∀ i j, (i ≤ j)%nat → w_now w i ≤ w_now w j.

(** The same clock, later. *)
Definition later (w w' : World S) : Prop := w_now w' = w_now w ∧ (w_tick w ≤ w_tick w')%nat.

#[export] Instance later_preorder : PreOrder later.
Proof. split; [done|]. intros w1 w2 w3 [E1 L1] [E2 L2]. split; [congruence|lia]. Qed.

Lemma later_monotone w w' : later w w' → monotone_clock w → monotone_clock w'.
Proof. intros [E _] H i j. rewrite E. apply H. Qed.

Lemma time_Now_later w t w' : time_Now w = (t, w') → later w w' ∧ t = w_now w (w_tick w) ∧ w_tick w' = Datatypes.S (w_tick w).
Proof. intros [= <- <-]. split; [split; simpl; [done|lia]|done]. Qed.

Lemma newID_later w id w' : newID w = (id, w') → later w w' ∧ w_store w' = w_store w.
Proof. by intros [= <- <-]. Qed.

Lemma on_store_later {A} (op : ST S A) w a w' :
  on_store op w = (a, w') → later w w' ∧ op (w_store w) = (a, w_store w').
Proof. unfold on_store. destruct (op (w_store w)) as [b s]. by intros [= <- <-]. Qed.
End world.

(** ** Two parts of a state *)

Definition on_fst {A B X} (op : ST A X) : ST (A * B) X := λ '(a, b),
  let '(x, a') := op a in (x, (a', b)).
Definition on_snd {A B X} (op : ST B X) : ST (A * B) X := λ '(a, b),
  let '(x, b') := op b in (x, (a, b')).

(** ** Computations that leave the clock running

    [wd] is where the process is in the state. *)
Definition ticked {S St} (wd : St → World S) : relation St := λ st st', later (wd st) (wd st').
Notation ticks wd := (keeps (λ _, True) (ticked wd)).

#[export] Instance ticked_preorder {S St} (wd : St → World S) : PreOrder (ticked wd).
Proof. split; [intros st; unfold ticked; reflexivity|]. intros s1 s2 s3. unfold ticked. by etrans. Qed.

Lemma ticks_same {S St A} (wd : St → World S) (op : ST St A) : (∀ st, wd (op st).2 = wd st) → ticks wd op.
Proof. intros E st _. split; [done|]. unfold ticked. by rewrite E. Qed.

Lemma ticks_time_Now {S} : ticks id (@time_Now S).
Proof. intros w _. split; [done|]. by eapply time_Now_later. Qed.

Lemma ticks_newID {S} : ticks id (@newID S).
Proof. intros w _. split; [done|]. by eapply newID_later. Qed.

Lemma ticks_on_store {S A} (op : ST S A) : ticks id (on_store op).
Proof. intros w _. split; [done|]. destruct (on_store op w) as [a w'] eqn:E. by eapply on_store_later. Qed.

Lemma ticks_on_fst {S A B X} (wd : A → World S) (op : ST A X) : ticks wd op → ticks (λ st : A * B, wd st.1) (on_fst op).
Proof. intros Hop [a b] _. specialize (Hop a I). unfold on_fst. by destruct (op a). Qed.

Lemma ticks_on_snd {S A B X} (wd : B → World S) (op : ST B X) : ticks wd op → ticks (λ st : A * B, wd st.2) (on_snd op).
Proof. intros Hop [a b] _. specialize (Hop b I). unfold on_snd. by destruct (op b). Qed.
