(* ===== verification/Collector.v ===== *)
(** * internal/collector: what a node measures

    The collectors fill one snapshot in turn.  The outputs of the tools and of the system library
    are inputs: the text of nvidia-smi and npu-smi, the counters of gopsutil. *)
From Stdlib Require Import Ascii.
From S2P Require Import Prelude GoBase GoStrings GoFloat GoParse Event Proto.
Local Open Scope Z_scope.

(** ** nvidia.go *)

Definition parseFloat (s : string) : float64 := default (f64 0) (ParseFloat (TrimSpace s)).
Definition parseUint (s : string) : Z := default 0 (ParseUint (TrimSpace s)).
Definition mibToBytes (s : string) : Z := u64 (u64 (parseUint s * 1024) * 1024).

Definition newline : ascii := Ascii.ascii_of_nat 10.

(** One line: [None] if it is skipped. *)
Definition parseNvidiaLine (line : string) : option pbDeviceStats :=
  let line := TrimSpace line in
  if decide (line = "") then None
  else match TrimSpace <$> Split line "," with
       | f0 :: f1 :: f2 :: f3 :: f4 :: f5 :: f6 :: f7 :: _ =>
           Some {| pbDeviceStats_Kind := "gpu"; pbDeviceStats_Vendor := "nvidia";
                   pbDeviceStats_Index := u32 (parseUint f0); pbDeviceStats_Uuid := f1;
                   pbDeviceStats_Name := f2; pbDeviceStats_Utilization := parseFloat f3;
                   pbDeviceStats_MemTotalBytes := mibToBytes f4; pbDeviceStats_MemUsedBytes := mibToBytes f5;
                   pbDeviceStats_TemperatureC := parseFloat f6; pbDeviceStats_PowerWatts := parseFloat f7 |}
       | _ => None
       end.

Definition parseNvidiaCSV (s : string) : list pbDeviceStats := omap parseNvidiaLine (Split s newline).

(** ** ascend.go *)

Record npuRowA := mkNpuRowA { row_index : Z; row_name : string; row_power : float64; row_temp : float64 }.

Definition splitCells (line : string) : list string :=
  filter (λ p, p ≠ "") (TrimSpace <$> Split line "|").

Definition headerWords : list string := ["name"; "health"; "aicore"; "bus-id"; "process"; "npu-smi"].

Definition isHeaderCell `{UnicodeCase} (cells : list string) : bool :=
  let joined := ToLower (Join cells " ") in
  existsb (Contains joined) headerWords.

(** The groups "used / total" of the fields: what stands before and after a slash inside. *)
Fixpoint usageGroups (prev : option string) (fields : list string) : list (Z * Z) :=
  match fields with
  | [] => []
  | f :: rest =>
      (match prev, rest with
       | Some p, n :: _ => if decide (f = "/") then [(parseUint p, parseUint n)] else []
       | _, _ => []
       end) ++ usageGroups (Some f) rest
  end.

(** The last group of the largest total. *)
Definition largest (best : Z * Z) (group : Z * Z) : Z * Z :=
  if best.2 <=? group.2 then group else best.

(** [(util, usedMB, totalMB)] *)
Definition parseDeviceRow (cell : string) : float64 * Z * Z :=
  match Fields (ReplaceAll cell "/" " / ") with
  | [] => (f64 0, 0, 0)
  | (f0 :: _) as fields =>
      let '(used, total) := foldl largest (0, 0) (usageGroups None fields) in
      (parseFloat f0, used, total)
  end.

Definition npuDevice (a : npuRowA) (cell : string) : pbDeviceStats :=
  let '(util, used, total) := parseDeviceRow cell in
  {| pbDeviceStats_Kind := "npu"; pbDeviceStats_Vendor := "ascend";
     pbDeviceStats_Index := row_index a; pbDeviceStats_Uuid := ""; pbDeviceStats_Name := row_name a;
     pbDeviceStats_Utilization := util;
     pbDeviceStats_MemTotalBytes := u64 (u64 (total * 1024) * 1024);
     pbDeviceStats_MemUsedBytes := u64 (u64 (used * 1024) * 1024);
     pbDeviceStats_TemperatureC := row_temp a; pbDeviceStats_PowerWatts := row_power a |}.

(** The kinds of lines of the table. *)
Inductive npuLine :=
| LineOther
| LineDevice (cell : string)
| LineName (a : npuRowA).

Definition npuLineOf `{UnicodeCase} (line : string) : npuLine :=
  if negb (HasPrefix (TrimSpace line) "|") then LineOther
  else
    let cells := splitCells line in
    match cells with
    | c0 :: c1 :: c2 :: _ =>
        if isHeaderCell cells then LineOther
        else if Contains c1 ":" then LineDevice c2
        else match Fields c0, Fields c2 with
             | n0 :: n1 :: _, p0 :: p1 :: _ =>
                 LineName (mkNpuRowA (u32 (parseUint n0)) n1 (parseFloat p0) (parseFloat p1))
             | _, _ => LineOther
             end
    | _ => LineOther
    end.

(** The loop: [pending] is the name row waiting for its device row. *)
Fixpoint npuLoop `{UnicodeCase} (pending : option npuRowA) (lines : list string) : list pbDeviceStats :=
  match lines with
  | [] => []
  | line :: lines' =>
      match npuLineOf line, pending with
      | LineOther, _ => npuLoop pending lines'
      | LineDevice _, None => npuLoop None lines'
      | LineDevice cell, Some a => npuDevice a cell :: npuLoop None lines'
      | LineName a, _ => npuLoop (Some a) lines'
      end
  end.

Definition parseNpuSmi `{UnicodeCase} (s : string) : list pbDeviceStats := npuLoop None (Split s newline).

(** ** The collectors *)

(** [Collect]: the snapshot filled in, and the error, with which it may have been filled too. *)
Definition Collector : Type := pbMetricsSnapshot → pbMetricsSnapshot * option string.

Definition with_devices (ds : list pbDeviceStats) (snap : pbMetricsSnapshot) : pbMetricsSnapshot :=
  mkPbMetricsSnapshot (pbMetricsSnapshot_TimestampUnix snap) (pbMetricsSnapshot_Cpu snap)
    (pbMetricsSnapshot_Mem snap) (pbMetricsSnapshot_Disks snap) (pbMetricsSnapshot_Devices snap ++ ds).

(** [output] is the output of the tool, or its failure. *)
Definition nvidiaCollector (output : result string) : Collector := λ snap,
  match output with
  | Err e => (snap, Some e)
  | Ok out => (with_devices (parseNvidiaCSV out) snap, None)
  end.

Definition ascendCollector `{UnicodeCase} (output : result string) : Collector := λ snap,
  match output with
  | Err e => (snap, Some e)
  | Ok out => (with_devices (parseNpuSmi out) snap, None)
  end.

(** ** system.go *)

Definition cpuCollector (numCPU : Z) (percent : result (list float64)) (avg : result (float64 * float64 * float64)) :
    Collector := λ snap,
  let util := match percent with Ok (p :: _) => p | _ => f64 0 end in
  let '(l1, l5, l15) := match avg with Ok l => l | Err _ => (f64 0, f64 0, f64 0) end in
  (mkPbMetricsSnapshot (pbMetricsSnapshot_TimestampUnix snap)
     (Some (mkPbCPUStats util l1 l5 l15 (u32 numCPU)))
     (pbMetricsSnapshot_Mem snap) (pbMetricsSnapshot_Disks snap) (pbMetricsSnapshot_Devices snap), None).

(** [vm] is (total, used, available, used percent). *)
Definition memCollector (vm : result (Z * Z * Z * float64)) : Collector := λ snap,
  match vm with
  | Err e => (snap, Some e)
  | Ok (total, used, available, pct) =>
      (mkPbMetricsSnapshot (pbMetricsSnapshot_TimestampUnix snap) (pbMetricsSnapshot_Cpu snap)
         (Some (mkPbMemStats total used available pct))
         (pbMetricsSnapshot_Disks snap) (pbMetricsSnapshot_Devices snap), None)
  end.

Record Usage := mkUsage { u_total : Z; u_used : Z; u_usedPercent : float64; u_inodesPercent : float64 }.

(** One partition (mount point, file system): the mounts seen and the disks so far. *)
Definition collectDisk (usage : string → result Usage) (st : list string * list pbDiskStats) (p : string * string) :
    list string * list pbDiskStats :=
  let '(seen, disks) := st in
  if decide (p.1 ∈ seen) then st
  else match usage p.1 with
       | Err _ => st
       | Ok u =>
           if u_total u =? 0 then st
           else (p.1 :: seen,
                 disks ++ [mkPbDiskStats p.1 p.2 (u_total u) (u_used u) (u_usedPercent u) (u_inodesPercent u)])
       end.

Definition collectDisks (usage : string → result Usage) (parts : list (string * string)) : list pbDiskStats :=
  (foldl (collectDisk usage) ([], []) parts).2.

Definition diskCollector (parts : result (list (string * string))) (usage : string → result Usage) : Collector :=
  λ snap,
  match parts with
  | Err e => (snap, Some e)
  | Ok ps =>
      (mkPbMetricsSnapshot (pbMetricsSnapshot_TimestampUnix snap) (pbMetricsSnapshot_Cpu snap)
         (pbMetricsSnapshot_Mem snap) (pbMetricsSnapshot_Disks snap ++ collectDisks usage ps)
         (pbMetricsSnapshot_Devices snap), None)
  end.

(** ** collector.go *)

(** [Default]: the system collectors, then those of the tools that are installed. *)
Definition Default (cpu mem disk nvidia ascend : Collector) (hasNvidia hasAscend : bool) : list Collector :=
  [cpu; mem; disk] ++ (if hasNvidia then [nvidia] else []) ++ (if hasAscend then [ascend] else []).

(** A failed collector is only logged. *)
Definition CollectAll (now : Time) (cs : list Collector) : pbMetricsSnapshot :=
  foldl (λ snap c, (c snap).1) (mkPbMetricsSnapshot (Unix now) None None [] []) cs.

Definition deviceOf (d : pbDeviceStats) : pbDevice :=
  mkPbDevice (pbDeviceStats_Kind d) (pbDeviceStats_Vendor d) (pbDeviceStats_Index d) (pbDeviceStats_Uuid d)
    (pbDeviceStats_MemTotalBytes d) (pbDeviceStats_Name d).

Definition ResourcesFromSnapshot (snap : option pbMetricsSnapshot) : pbResources :=
  mkPbResources
    (get pbCPUStats_Cores 0 (get pbMetricsSnapshot_Cpu None snap))
    (get pbMemStats_TotalBytes 0 (get pbMetricsSnapshot_Mem None snap))
    (deviceOf <$> get pbMetricsSnapshot_Devices [] snap).

Definition nvidia_sample : string :=
  "0, GPU-1a2b3c, NVIDIA A100-SXM4-40GB, 37, 40960, 1234, 45, 123.45" +:+ String newline
  "1, GPU-4d5e6f, NVIDIA A100-SXM4-40GB, 0, 40960, 0, 30, [N/A]" +:+ String newline "".

Example parseNvidiaCSV_sample :
  (λ d, (pbDeviceStats_Index d, pbDeviceStats_Uuid d, pbDeviceStats_MemUsedBytes d, pbDeviceStats_PowerWatts d)) <$>
    parseNvidiaCSV nvidia_sample =
  [(0, "GPU-1a2b3c", 1234 * 1024 * 1024, f64_dec false 12345 (-2)); (1, "GPU-4d5e6f", 0, f64 0)].
Proof. vm_compute. reflexivity. Qed.

Definition npu_sample : string :=
  "| NPU   Name                | Health        | Power(W)    Temp(C)           Hugepages-Usage(page)|" +:+ String newline
  "| Chip                      | Bus-Id        | AICore(%)   Memory-Usage(MB)  HBM-Usage(MB)        |" +:+ String newline
  "+===========================+===============+====================================================+" +:+ String newline
  "| 0     910B3               | OK            | 105.7       40                0    / 0             |" +:+ String newline
  "| 0                         | 0000:C1:00.0  | 12          0    / 0          53202/ 65536         |" +:+ String newline
  "| NPU     Chip              | Process id    | Process name             | Process memory(MB)      |" +:+ String newline
  "| 0       0                 | 1282855       | python                   | 49853                   |" +:+ String newline "".

Example parseNpuSmi_sample :
  (λ d, (pbDeviceStats_Index d, pbDeviceStats_Name d, pbDeviceStats_MemUsedBytes d, pbDeviceStats_MemTotalBytes d,
         pbDeviceStats_Utilization d, pbDeviceStats_TemperatureC d)) <$> parseNpuSmi (H := ascii_case) npu_sample =
  [(0, "910B3", 53202 * 1024 * 1024, 65536 * 1024 * 1024, f64 12, f64 40)].
Proof. vm_compute. reflexivity. Qed.
