(* ===== verification/CollectorTheorems.v ===== *)
(** * The collectors: reading back nvidia-smi, disks, memory of an NPU *)
From Stdlib Require Import Ascii.
From S2P Require Import Prelude GoBase GoStrings GoFloat GoParse Event Proto Collector.
Local Open Scope Z_scope.

(** ** nvidia-smi *)

(** What the tool prints of one GPU: the cells of a line. *)
Record gpuRow := mkGpuRow {
  gr_index : Z; gr_uuid : string; gr_name : string; gr_util : string;
  gr_total : Z; gr_used : Z; gr_temp : string; gr_power : string
}.

Definition gpuCells (r : gpuRow) : list string :=
  [itoa (gr_index r); gr_uuid r; gr_name r; gr_util r; itoa (gr_total r); itoa (gr_used r); gr_temp r; gr_power r].

(** One line with "noheader,nounits". *)
Definition gpuLine (r : gpuRow) : string := Join (gpuCells r) ", ".

Fixpoint gpuOutput (rs : list gpuRow) : string :=
  match rs with [] => "" | r :: rs' => gpuLine r +:+ String newline (gpuOutput rs') end.

(** A cell: no comma, no newline, no white space at its ends. *)
Definition is_cell (s : string) : bool :=
  tight s && negb (str_exists (Ascii.eqb ",") s) && negb (str_exists (Ascii.eqb newline) s).

Definition gpuRow_ok (r : gpuRow) : Prop :=
  is_u32 (gr_index r) ∧ 0 ≤ gr_total r < 2 ^ 44 ∧ 0 ≤ gr_used r < 2 ^ 44 ∧
  is_cell (gr_uuid r) = true ∧ is_cell (gr_name r) = true ∧ is_cell (gr_util r) = true ∧
  is_cell (gr_temp r) = true ∧ is_cell (gr_power r) = true.

(** A number that may be missing ("[N/A]") counts as 0. *)
Definition number (s : string) : float64 := default (f64 0) (ParseFloat s).

Definition gpuStats (r : gpuRow) : pbDeviceStats :=
  {| pbDeviceStats_Kind := "gpu"; pbDeviceStats_Vendor := "nvidia";
     pbDeviceStats_Index := gr_index r; pbDeviceStats_Uuid := gr_uuid r; pbDeviceStats_Name := gr_name r;
     pbDeviceStats_Utilization := number (gr_util r);
     pbDeviceStats_MemTotalBytes := gr_total r * 1024 * 1024; pbDeviceStats_MemUsedBytes := gr_used r * 1024 * 1024;
     pbDeviceStats_TemperatureC := number (gr_temp r); pbDeviceStats_PowerWatts := number (gr_power r) |}.

Lemma is_cell_inv s : is_cell s = true →
  tight s = true ∧ str_exists (Ascii.eqb ",") s = false ∧ str_exists (Ascii.eqb newline) s = false.
Proof. unfold is_cell. intros H. bool_to_prop. auto. Qed.

Lemma itoa_cell n : 0 ≤ n → is_cell (itoa n) = true.
Proof.
  intros Hn. unfold is_cell. rewrite itoa_tight by done. destruct (itoa_digits n Hn) as (Hd & _ & _).
  by rewrite !str_exists_digits by done.
Qed.

Lemma gpuCells_ok r : gpuRow_ok r → Forall (λ c, is_cell c = true) (gpuCells r).
Proof.
  intros (Hi & Ht & Hu & ? & ? & ? & ? & ?). unfold is_u32 in Hi. unfold gpuCells.
  repeat constructor; try done; apply itoa_cell; lia.
Qed.

(** Cells joined with a comma and a space. *)
Lemma Split_cells w ws :
  Forall (λ c, is_cell c = true) (w :: ws) → Split (Join (w :: ws) ", ") "," = w :: (String " " <$> ws).
Proof.
  revert w; induction ws as [|w' ws IH]; intros w [Hw Hws]%Forall_cons.
  - apply Split_plain. by apply is_cell_inv.
  - change (Join (w :: w' :: ws) ", ") with (w +:+ String "," (String " " (Join (w' :: ws) ", "))).
    rewrite Split_app_sep, Split_plain by by apply is_cell_inv.
    change (Split (String " " (Join (w' :: ws) ", ")) ",") with
      (match Split (Join (w' :: ws) ", ") "," with [] => [String " " ""] | x :: xs => String " " x :: xs end).
    by rewrite IH.
Qed.

Lemma TrimSpace_cells w ws :
  Forall (λ c, is_cell c = true) (w :: ws) → TrimSpace <$> w :: (String " " <$> ws) = w :: ws.
Proof.
  intros [Hw Hws]%Forall_cons. csimpl. f_equal; [apply TrimSpace_tight; by apply is_cell_inv|].
  induction Hws as [|c cs Hc _ IH]; [done|]. csimpl. f_equal; [|done]. apply TrimSpace_space. by apply is_cell_inv.
Qed.

Lemma Join_cells_tight w ws : Forall (λ c, is_cell c = true) (w :: ws) → tight (Join (w :: ws) ", ") = true.
Proof.
  revert w; induction ws as [|w' ws IH]; intros w [Hw Hws]%Forall_cons; [by apply is_cell_inv|].
  change (Join (w :: w' :: ws) ", ") with (w +:+ ", " +:+ Join (w' :: ws) ", ").
  apply tight_app; [by apply is_cell_inv|by apply IH].
Qed.

Lemma Join_cells_newline ws :
  Forall (λ c, is_cell c = true) ws → str_exists (Ascii.eqb newline) (Join ws ", ") = false.
Proof.
  induction 1 as [|w ws Hw Hws IH]; [done|]. apply is_cell_inv in Hw as (_ & _ & Hn). destruct ws as [|w' ws]; [done|].
  change (Join (w :: w' :: ws) ", ") with (w +:+ ", " +:+ Join (w' :: ws) ", ").
  by rewrite !str_exists_app, Hn, IH.
Qed.

Lemma parseUint_itoa n : 0 ≤ n < 2 ^ 64 → parseUint (itoa n) = n.
Proof. intros Hn. unfold parseUint. rewrite TrimSpace_tight by (apply itoa_tight; lia). by rewrite ParseUint_itoa. Qed.

Lemma mibToBytes_itoa n : 0 ≤ n < 2 ^ 44 → mibToBytes (itoa n) = n * 1024 * 1024.
Proof.
  intros Hn. unfold mibToBytes. rewrite parseUint_itoa by lia.
  rewrite (u64_small (n * 1024)) by (unfold is_u64; lia). apply u64_small. unfold is_u64; lia.
Qed.

Lemma parseFloat_cell s : is_cell s = true → parseFloat s = number s.
Proof. intros (Ht & _)%is_cell_inv. unfold parseFloat. by rewrite TrimSpace_tight. Qed.

Lemma parseNvidiaLine_print r : gpuRow_ok r → parseNvidiaLine (gpuLine r) = Some (gpuStats r).
Proof.
  intros Hr. pose proof (gpuCells_ok r Hr) as Hc. unfold parseNvidiaLine, gpuLine. unfold gpuCells in *.
  pose proof (Join_cells_tight _ _ Hc) as Ht. rewrite TrimSpace_tight by done. rewrite decide_False.
  - rewrite Split_cells, TrimSpace_cells by done. cbn beta iota. f_equal. unfold gpuStats.
    destruct Hr as (Hi & Htot & Hu & Hc1 & Hc2 & Hc3 & Hc4 & Hc5).
    rewrite !parseFloat_cell, !mibToBytes_itoa, parseUint_itoa by (done || (unfold is_u32 in Hi; lia)).
    by rewrite u32_small.
  - intros E. by rewrite E in Ht.
Qed.

(** (roundtrip) Reading nvidia-smi: for every list of GPUs whose cells hold no comma, newline
    or outer white space and whose memory in MiB is below 2^44, the parser applied to the printed
    table returns exactly those GPUs, in order, with the memory in bytes and a missing number
    (such as "[N/A]") as 0. *)
Theorem parseNvidiaCSV_print rs :
  Forall gpuRow_ok rs → parseNvidiaCSV (gpuOutput rs) = gpuStats <$> rs.
Proof.
  unfold parseNvidiaCSV. induction 1 as [|r rs Hr _ IH]; [done|].
  change (gpuOutput (r :: rs)) with (gpuLine r +:+ String newline (gpuOutput rs)).
  rewrite Split_app_sep, omap_app, IH, Split_plain by by apply Join_cells_newline, gpuCells_ok.
  cbn [omap list_omap]. by rewrite parseNvidiaLine_print.
Qed.

Definition ex_gpus : list gpuRow :=
  [mkGpuRow 0 "GPU-1a2b3c" "NVIDIA A100-SXM4-40GB" "37" 40960 1234 "45" "123.45";
   mkGpuRow 1 "GPU-4d5e6f" "NVIDIA A100-SXM4-40GB" "0" 40960 0 "30" "[N/A]"].

Example parseNvidiaCSV_print_witness :
  gpuOutput ex_gpus = nvidia_sample ∧ parseNvidiaCSV (gpuOutput ex_gpus) = gpuStats <$> ex_gpus.
Proof.
  split; [vm_compute; reflexivity|]. apply parseNvidiaCSV_print.
  repeat constructor; simpl; try lia; by vm_compute.
Defined.

(** ** npu-smi *)

Lemma largest_max gs best :
  let r := foldl largest best gs in
  (r = best ∨ r ∈ gs) ∧ best.2 ≤ r.2 ∧ Forall (λ g, g.2 ≤ r.2) gs ∧ (gs ≠ [] → best.2 ≤ 0 → Forall (λ g, 0 ≤ g.2) gs → r ∈ gs).
Proof.
  revert best; induction gs as [|g gs IH]; intros best; simpl; [split_and!; [by left|lia|constructor|done]|].
  destruct (IH (largest best g)) as (Hin & Hle & Hall & _).
  assert (best.2 ≤ (largest best g).2 ∧ g.2 ≤ (largest best g).2) as [H1 H2]
    by (unfold largest; case_step; bool_to_prop; lia).
  split_and!; [|lia|constructor; [lia|done]|].
  - destruct Hin as [->|Hin]; [|set_solver]. unfold largest. case_step; set_solver.
  - intros _ Hb [Hg Hgs]%Forall_cons. destruct Hin as [->|Hin]; [|set_solver].
    unfold largest. rewrite (proj2 (Z.leb_le _ _)) by lia. set_solver.
Qed.

Lemma parseUint_nonneg s : 0 ≤ parseUint s.
Proof.
  unfold parseUint, ParseUint. destruct (TrimSpace s) as [|a t]; [done|].
  destruct (parse_digits (String a t) 0) as [n|] eqn:E; [|done]. destruct (n <? 2 ^ 64); [|done]. simpl.
  assert (∀ t acc v, 0 ≤ acc → parse_digits t acc = Some v → 0 ≤ v) as Hp; [|by eapply Hp; [|exact E]].
  clear. induction t as [|c t IH]; intros acc v Ha; simpl; [by intros [= <-]|].
  destruct (is_digit c) eqn:Ec; [|done]. apply is_digit_val in Ec. apply IH. lia.
Qed.

Lemma usageGroups_nonneg prev fields : Forall (λ g, 0 ≤ g.2) (usageGroups prev fields).
Proof.
  revert prev; induction fields as [|f fields IH]; intros prev; simpl; [constructor|].
  apply Forall_app. split; [|apply IH]. destruct prev as [p|]; [|constructor]. destruct fields as [|n fs]; [constructor|].
  case_decide; repeat constructor. apply parseUint_nonneg.
Qed.

(** (functional) The memory of an NPU is the "used / total" group of the largest capacity
    among the groups of the cell (so the HBM of a training card, whose general memory reads 0 / 0),
    and 0 / 0 when the cell has no group. *)
Theorem parseDeviceRow_memory cell util used total :
  parseDeviceRow cell = (util, used, total) →
  let groups := usageGroups None (Fields (ReplaceAll cell "/" " / ")) in
  if decide (groups = []) then (used, total) = (0, 0)
  else (used, total) ∈ groups ∧ ∀ u t, (u, t) ∈ groups → t ≤ total.
Proof.
  unfold parseDeviceRow. destruct (Fields _) as [|f fs] eqn:Ef; [by intros [= _ <- <-]|].
  destruct (foldl largest (0, 0) (usageGroups None (f :: fs))) as [u0 t0] eqn:Eg. intros [= _ -> ->].
  pose proof (largest_max (usageGroups None (f :: fs)) (0, 0)) as (_ & _ & Hmax & Hin). rewrite Eg in *.
  case_decide as E; [rewrite E in Eg; simpl in Eg; congruence|]. split.
  - apply Hin; [done|done|apply usageGroups_nonneg].
  - intros u t Hut. rewrite Forall_forall in Hmax. exact (Hmax _ Hut).
Qed.

Example parseDeviceRow_memory_witness :
  parseDeviceRow "12   0    / 0          53202/ 65536" = (f64 12, 53202, 65536) ∧
  (53202, 65536) ∈ usageGroups None (Fields (ReplaceAll "12   0    / 0          53202/ 65536" "/" " / ")).
Proof.
  assert (parseDeviceRow "12   0    / 0          53202/ 65536" = (f64 12, 53202, 65536)) as E by (vm_compute; reflexivity).
  split; [exact E|]. pose proof (parseDeviceRow_memory _ _ _ _ E) as H. cbv zeta in H.
  rewrite decide_False in H by by_decide. exact (proj1 H).
Defined.

(** ** Disks *)

Definition usable (usage : string → result Usage) (m : string) : Prop :=
  ∃ u, usage m = Ok u ∧ u_total u ≠ 0.

(** The invariant of the loop over the partitions read so far. *)
Record disks_ok (usage : string → result Usage) (parts : list (string * string))
    (st : list string * list pbDiskStats) : Prop := {
  do_seen m : m ∈ st.1 ↔ m ∈ pbDiskStats_Mount <$> st.2;
  do_nodup : NoDup (pbDiskStats_Mount <$> st.2);
  do_mounts m : m ∈ pbDiskStats_Mount <$> st.2 ↔ m ∈ parts.*1 ∧ usable usage m;
  do_stats d : d ∈ st.2 → ∃ u, usage (pbDiskStats_Mount d) = Ok u ∧ pbDiskStats_TotalBytes d = u_total u ∧
                 pbDiskStats_UsedBytes d = u_used u ∧ pbDiskStats_UsedPercent d = u_usedPercent u
}.

Lemma collectDisk_ok usage parts st p :
  disks_ok usage parts st → disks_ok usage (parts ++ [p]) (collectDisk usage st p).
Proof.
  intros [H1 H2 H3 H4]. destruct st as [seen disks]. simpl in *.
  assert (∀ m, m ∈ (parts ++ [p]).*1 ↔ m ∈ parts.*1 ∨ m = p.1) as Hp by (intros m; rewrite fmap_app; set_solver).
  assert ((usable usage p.1 → p.1 ∈ seen) → disks_ok usage (parts ++ [p]) (seen, disks)) as Hskip.
  { intros Hs. split; simpl; try done. intros m. rewrite Hp, H3. split; [tauto|].
    intros [[Hm| ->] Hu]; [done|]. apply H3, H1. auto. }
  unfold collectDisk. case_decide as Es; [by apply Hskip|].
  destruct (usage p.1) as [u|e] eqn:Eu; [|apply Hskip; intros (v & Ev & _); congruence].
  destruct (u_total u =? 0) eqn:Et; bool_to_prop; [apply Hskip; intros (v & Ev & Hv); congruence|].
  split; simpl.
  - intros m. rewrite fmap_app. simpl. set_solver.
  - rewrite fmap_app. apply NoDup_app. split; [done|]. split; [|apply NoDup_singleton].
    intros m Hm. simpl. set_solver.
  - intros m. rewrite fmap_app, Hp. simpl. rewrite elem_of_app, H3, list_elem_of_singleton. split.
    + intros [[? ?]| ->]; [tauto|]. split; [by right|]. by exists u.
    + intros [[?| ->] Hu]; [by left|by right].
  - intros d [Hd|Hd]%elem_of_app; [by apply H4|]. apply list_elem_of_singleton in Hd as ->. by exists u.
Qed.

(** (functional) The disk collector reports each mount point at most once, exactly those of the
    listed partitions whose usage can be read and is not of size 0, with the measured sizes. *)
Theorem collectDisks_spec usage parts :
  let disks := collectDisks usage parts in
  NoDup (pbDiskStats_Mount <$> disks) ∧
  (∀ m, m ∈ pbDiskStats_Mount <$> disks ↔ m ∈ parts.*1 ∧ usable usage m) ∧
  (∀ d, d ∈ disks → ∃ u, usage (pbDiskStats_Mount d) = Ok u ∧ pbDiskStats_TotalBytes d = u_total u ∧
     pbDiskStats_UsedBytes d = u_used u ∧ pbDiskStats_UsedPercent d = u_usedPercent u).
Proof.
  simpl. assert (disks_ok usage parts (foldl (collectDisk usage) ([], []) parts)) as [_ H2 H3 H4]; [|done].
  induction parts as [|p parts IH] using rev_ind.
  - split; simpl; [done|constructor|set_solver|set_solver].
  - rewrite foldl_app. simpl. by apply collectDisk_ok.
Qed.
