(* ===== verification/Convert.v ===== *)
(** * internal/server/convert*.go: between the wire messages and the store *)
From S2P Require Import Prelude GoBase GoStrings GoFloat Event Proto Store Collector.
Local Open Scope Z_scope.

Definition deviceFromProto (d : pbDevice) : Device :=
  mkDevice (pbDevice_Kind d) (pbDevice_Vendor d) (pbDevice_Index d) (pbDevice_Uuid d)
    (pbDevice_MemTotalBytes d) (pbDevice_Name d).

Definition deviceToProto (d : Device) : pbDevice :=
  mkPbDevice (Device_Kind d) (Device_Vendor d) (Device_Index d) (Device_UUID d)
    (Device_MemTotalBytes d) (Device_Name d).

Definition with_resources (cpus mem : Z) (ds : list Device) (n : Node) : Node :=
  mkNode (Node_ID n) (Node_Name n) (Node_Partition n) (Node_State n) (Node_Addr n) cpus mem ds
    (Node_Labels n) (Node_AgentVersion n) (Node_LastHeartbeat n).

(** Nil resources leave the node alone; the devices are replaced. *)
Definition resourcesFromProto (n : Node) (r : option pbResources) : Node :=
  match r with
  | None => n
  | Some r => with_resources (pbResources_Cpus r) (pbResources_MemTotalBytes r)
                (deviceFromProto <$> pbResources_Devices r) n
  end.

(** The part of the snapshot that is there; the devices are appended. *)
Definition nodeFromSnapshot (n : Node) (snap : option pbMetricsSnapshot) : Node :=
  match snap with
  | None => n
  | Some snap =>
      with_resources
        (match pbMetricsSnapshot_Cpu snap with Some c => pbCPUStats_Cores c | None => Node_CPUs n end)
        (match pbMetricsSnapshot_Mem snap with Some m => pbMemStats_TotalBytes m | None => Node_MemTotalBytes n end)
        (Node_Devices n ++
         ((λ d, mkDevice (pbDeviceStats_Kind d) (pbDeviceStats_Vendor d) (pbDeviceStats_Index d)
                  (pbDeviceStats_Uuid d) (pbDeviceStats_MemTotalBytes d) (pbDeviceStats_Name d)) <$>
          pbMetricsSnapshot_Devices snap)) n
  end.

Definition unixOrZero (t : Time) : Z := if IsZero t then 0 else Unix t.

Definition nodeToProto (n : Node) : pbNode :=
  mkPbNode (Node_ID n) (Node_Name n) (Node_Partition n) (Node_State n) (Node_Addr n)
    (Some (mkPbResources (Node_CPUs n) (Node_MemTotalBytes n) (deviceToProto <$> Node_Devices n)))
    (Node_Labels n) (unixOrZero (Node_LastHeartbeat n)) (Node_AgentVersion n).

Definition allocDevicesToProto (ds : list AllocDevice) : list pbDeviceAssignment :=
  (λ d, mkPbDeviceAssignment (Alloc_Kind d) (Alloc_Index d)) <$> ds.

Definition jobToProto (j : Job) : pbJob :=
  mkPbJob (Job_ID j) (Job_Name j) (Job_Owner j) (Job_Partition j) (Job_State j) (Job_Priority j)
    (Job_Command j) (Job_Env j) (Job_Workdir j)
    (Some (mkPbResourceRequest (Job_ReqCPUs j) (Job_ReqMemBytes j) (Job_ReqGPUs j) (Job_GPUType j) (Job_WalltimeSec j)))
    (Job_NodeID j) (Job_NodeName j) (allocDevicesToProto (Job_Devices j)) (Job_ExitCode j) (Job_Reason j)
    (unixOrZero (Job_SubmitAt j)) (unixOrZero (Job_StartAt j)) (unixOrZero (Job_EndAt j)).

Definition assignmentToProto (j : Job) : pbAssignment :=
  mkPbAssignment (Job_ID j) (Job_Command j) (Job_Env j) (Job_Workdir j)
    (allocDevicesToProto (Job_Devices j)) (Job_WalltimeSec j).

(** The bodies of the loops of [ListEvents] and [ListNotifications]. *)
Definition eventToProto (e : Event) : pbEvent :=
  mkPbEvent (Event_ID e) (Event_Type e) (Event_Severity e) (Event_Source e) (Event_Summary e)
    (Event_Labels e) (unixOrZero (Event_Time e)).

Definition notificationToProto (n : Notification) : pbNotification :=
  mkPbNotification (Note_ID n) (Note_EventID n) (Note_EventType n) (Note_Rule n) (Note_Channel n)
    (Note_Recipients n) (Note_Status n) (Note_Error n) (Note_Summary n) (unixOrZero (Note_Time n)).

(** ** Inventory *)

(** A node record as the handlers make it before reading the inventory. *)
Definition no_inventory (n : Node) : Prop := Node_CPUs n = 0 ∧ Node_MemTotalBytes n = 0 ∧ Node_Devices n = [].

(** (equivalence) A node's inventory does not depend on the way it is reported: for a fresh node
    record, reading the resource list that the agent derives from a snapshot for registration is
    the same as reading the snapshot itself in the handler of a metrics report. *)
Theorem inventory_agrees n snap :
  no_inventory n → resourcesFromProto n (Some (ResourcesFromSnapshot (Some snap))) = nodeFromSnapshot n (Some snap).
Proof.
  intros (Hc & Hm & Hd). unfold resourcesFromProto, nodeFromSnapshot, ResourcesFromSnapshot. simpl.
  rewrite Hd, Hc, Hm. simpl. unfold get. f_equal. by rewrite <-list_fmap_compose.
Qed.

Example inventory_agrees_witness :
  let n := mkNode "n1" "gpu-1" "" "" "" 0 0 [] ∅ "" 0 in
  let snap := mkPbMetricsSnapshot 0 (Some (mkPbCPUStats (f64 0) (f64 0) (f64 0) (f64 0) 64)) None []
                [mkPbDeviceStats "gpu" "nvidia" 0 "GPU-1" "A100" (f64 0) 42949672960 0 (f64 30) (f64 50)] in
  Node_CPUs (nodeFromSnapshot n (Some snap)) = 64 ∧
  resourcesFromProto n (Some (ResourcesFromSnapshot (Some snap))) = nodeFromSnapshot n (Some snap).
Proof. intros n snap. split; [reflexivity|]. apply (inventory_agrees n snap). split_and!; reflexivity. Defined.

(** (safety) A failed collector empties the inventory: when the memory cannot be read and
    the GPU tool fails in one cycle, the report of that cycle makes the server record a node
    without memory and without devices. *)
Theorem failed_collectors_empty_inventory n now numCPU pct avg e1 e2 disk :
  no_inventory n → (∀ snap, pbMetricsSnapshot_Mem (disk snap).1 = pbMetricsSnapshot_Mem snap ∧
                            pbMetricsSnapshot_Devices (disk snap).1 = pbMetricsSnapshot_Devices snap) →
  let snap := CollectAll now [cpuCollector numCPU pct avg; memCollector (Err e1); disk; nvidiaCollector (Err e2)] in
  Node_MemTotalBytes (nodeFromSnapshot n (Some snap)) = 0 ∧ Node_Devices (nodeFromSnapshot n (Some snap)) = [].
Proof.
  intros (Hc & Hm & Hd) Hdisk. unfold CollectAll. cbn [foldl memCollector nvidiaCollector fst].
  set (s0 := (cpuCollector _ _ _ _).1). destruct (Hdisk s0) as [E1 E2]. unfold nodeFromSnapshot, with_resources. simpl.
  rewrite E1, E2. assert (pbMetricsSnapshot_Mem s0 = None ∧ pbMetricsSnapshot_Devices s0 = []) as [-> ->].
  { unfold s0, cpuCollector. destruct avg as [[[? ?] ?]|]; done. }
  by rewrite Hd.
Qed.

Example failed_collectors_empty_inventory_witness :
  let snap := CollectAll 0 [cpuCollector 64 (Err "") (Err ""); memCollector (Err "no /proc/meminfo");
                diskCollector (Err "") (λ _, Err ""); nvidiaCollector (Err "exit status 9")] in
  Node_Devices (nodeFromSnapshot (mkNode "n1" "gpu-1" "" "" "" 0 0 [] ∅ "" 0) (Some snap)) = [].
Proof.
  apply (failed_collectors_empty_inventory (mkNode "n1" "gpu-1" "" "" "" 0 0 [] ∅ "" 0));
    [split_and!; reflexivity|intros snap; split; reflexivity].
Defined.
