(* ===== verification/Config.v ===== *)
(** * internal/config/config.go: server and agent configuration

    Reading a file, decoding YAML into a configuration and the environment are parameters; the
    defaults, the order in which file and environment apply, and [time.ParseDuration] are
    modelled. *)
From Stdlib Require Import Ascii.
From S2P Require Import Prelude GoBase GoStrings GoFloat GoFormat Event.
Local Open Scope Z_scope.

(** ** [time.ParseDuration]; [None] is an error *)

Definition unitMap (u : string) : option Z :=
  if decide (u = "ns") then Some 1
  else if decide (u = "us" ∨ u = "µs" ∨ u = "μs") then Some 1000
  else if decide (u = "ms") then Some Millisecond
  else if decide (u = "s") then Some Second
  else if decide (u = "m") then Some Minute
  else if decide (u = "h") then Some Hour
  else None.

(** The digits of [s], as a number, and the rest; [None] on overflow. *)
Fixpoint leadingInt (s : string) (x : Z) : option (Z * string) :=
  match s with
  | String a s' =>
      if is_digit a then
        if 2 ^ 63 / 10 <? x then None
        else let x := x * 10 + digit_val a in if 2 ^ 63 <? x then None else leadingInt s' x
      else Some (x, s)
  | "" => Some (x, "")
  end.

(** The digits of a fraction, [value = x / scale]; digits past overflow are skipped. *)
Fixpoint leadingFraction (s : string) (x : Z) (scale : float64) (overflow : bool) : Z * float64 * string :=
  match s with
  | String a s' =>
      if is_digit a then
        if overflow then leadingFraction s' x scale true
        else if (2 ^ 63 - 1) / 10 <? x then leadingFraction s' x scale true
        else
          let y := x * 10 + digit_val a in
          if 2 ^ 63 <? y then leadingFraction s' x scale true
          else leadingFraction s' y (fmul scale (f64 10)) false
      else (x, scale, s)
  | "" => (x, scale, "")
  end.

(** The unit: up to the next digit or point. *)
Fixpoint unitOf (s : string) : string * string :=
  match s with
  | String a s' =>
      if is_digit a || bool_decide (a = "."%char) then ("", s)
      else let '(u, r) := unitOf s' in (String a u, r)
  | "" => ("", "")
  end.

Section with_conversion.
Context `{FloatToInt}.

(** One [number unit] group: the nanoseconds and the rest. *)
Definition parseGroup (s : string) : option (Z * string) :=
  match s with
  | "" => None
  | String a _ =>
      if negb (bool_decide (a = "."%char) || is_digit a) then None
      else
        '(v, s1) ← leadingInt s 0;
        let pre := negb (Nat.eqb (strlen s) (strlen s1)) in
        let '(f, scale, s2, post) :=
          match s1 with
          | String b s1' =>
              if decide (b = "."%char) then
                let '(f, scale, s2) := leadingFraction s1' 0 (f64 1) false in
                (f, scale, s2, negb (Nat.eqb (strlen s1') (strlen s2)))
              else (0, f64 1, s1, false)
          | "" => (0, f64 1, s1, false)
          end in
        if negb pre && negb post then None
        else
          let '(u, s3) := unitOf s2 in
          if decide (u = "") then None
          else
            unit ← unitMap u;
            if 2 ^ 63 / unit <? v then None
            else
              let v := v * unit in
              let v := if 0 <? f then v + f2u (fmul (f64 f) (fdiv (f64 unit) scale)) else v in
              if 2 ^ 63 <? v then None else Some (v, s3)
  end.

(** Every group consumes at least one byte: the length of the string is enough fuel. *)
Fixpoint parseGroups (fuel : nat) (s : string) (d : Z) : option Z :=
  match s, fuel with
  | "", _ => Some d
  | _, O => None
  | _, S fuel' =>
      '(v, s') ← parseGroup s;
      let d := u64 (d + v) in
      if 2 ^ 63 <? d then None else parseGroups fuel' s' d
  end.

Definition ParseDuration (s : string) : option Duration :=
  let '(neg, s) :=
    match s with
    | String a s' => if decide (a = "-"%char) then (true, s') else if decide (a = "+"%char) then (false, s') else (false, s)
    | "" => (false, "")
    end in
  if decide (s = "0") then Some 0
  else if decide (s = "") then None
  else
    d ← parseGroups (strlen s) s 0;
    if neg : bool then Some (- d) else if 2 ^ 63 - 1 <? d then None else Some d.

(** ** YAML scalars *)

(** [Duration.UnmarshalYAML] and [StringOrSlice.UnmarshalYAML]: [asString] and [asList] are the
    results of [value.Decode] into a string and into a list. *)
Definition Duration_UnmarshalYAML `{ErrorText} (asString : result string) : result Duration :=
  match asString with
  | Err e => Err e
  | Ok s => match ParseDuration s with Some v => Ok v | None => Err ("invalid duration " +:+ Quote s +:+ ": " +:+ ParseDuration_error s) end
  end.
End with_conversion.

Definition StringOrSlice_UnmarshalYAML (asString : result string) (asList : result (list string))
    : result (list string) :=
  match asString with
  | Ok one => Ok [one]
  | Err _ => match asList with Ok many => Ok many | Err e => Err e end
  end.

(** ** The configuration records *)

Record RuleMatch := mkRuleMatch {
  Match_Type : list string;
  Match_Labels : smap;
  Match_MinSeverity : string
}.

Record NotifyRule := mkNotifyRule {
  Rule_Name : string;
  Rule_Match : RuleMatch;
  Rule_To : list string;
  Rule_Channels : list string;
  Rule_Cooldown : Duration
}.

Record NotifyConfig := mkNotifyConfig {
  Notify_Channels : list string;
  Notify_Interval : Duration;
  Notify_DiskThreshold : float64;
  Notify_DeviceIdleUtil : float64;
  Notify_DeviceIdleDuration : Duration;
  Notify_Rules : list NotifyRule
}.

Record SSHNodeConfig := mkSSHNodeConfig {
  SSHNode_Name : string;
  SSHNode_Addr : string;
  SSHNode_User : string;
  SSHNode_Key : string;
  SSHNode_KnownHost : string;
  SSHNode_RemoteListen : string;
  SSHNode_Provision : bool;
  SSHNode_AgentBin : string;
  SSHNode_RemotePath : string;
  SSHNode_Partition : string;
  SSHNode_AgentArgs : string;
  SSHNode_AutoRestart : bool
}.

Record DiagnosticsConfig := mkDiagnosticsConfig {
  Diag_Enabled : bool;
  Diag_AfterDown : Duration;
  Diag_Cooldown : Duration
}.

Record ServerConfig := mkServerConfig {
  Server_Listen_GRPC : string;
  Server_Store_Driver : string;
  Server_Store_DSN : string;
  Server_Metrics_HTTP : string;
  Server_Web_HTTP : string;
  Server_Scheduler_Interval : Duration;
  Server_Scheduler_Backfill : bool;
  Server_Scheduler_AgeWeight : float64;
  Server_Jobs_LogsDir : string;
  Server_Heartbeat_Timeout : Duration;
  Server_Heartbeat_ReapInterval : Duration;
  Server_SSHNodes : list SSHNodeConfig;
  Server_Diagnostics : DiagnosticsConfig;
  Server_Notify : NotifyConfig;
  Server_Log_Level : string
}.

Record AgentConfig := mkAgentConfig {
  Agent_Server_Addr : string;
  Agent_Node_Name : string;
  Agent_Node_Partition : string;
  Agent_Node_Labels : smap;
  Agent_Collectors_Interval : Duration;
  Agent_Jobs_PollInterval : Duration;
  Agent_Log_Level : string
}.

Definition DefaultServer : ServerConfig := {|
  Server_Listen_GRPC := ":7443";
  Server_Store_Driver := "sqlite";
  Server_Store_DSN := "skipper.db";
  Server_Metrics_HTTP := ":9100";
  Server_Web_HTTP := ":8080";
  Server_Scheduler_Interval := 2 * Second;
  Server_Scheduler_Backfill := true;
  Server_Scheduler_AgeWeight := f64 0;
  Server_Jobs_LogsDir := "job-logs";
  Server_Heartbeat_Timeout := 30 * Second;
  Server_Heartbeat_ReapInterval := 10 * Second;
  Server_SSHNodes := [];
  Server_Diagnostics := mkDiagnosticsConfig true (60 * Second) (2 * Minute);
  Server_Notify := {|
    Notify_Channels := ["log"];
    Notify_Interval := 15 * Second;
    Notify_DiskThreshold := f64_dec false 9 (-1);
    Notify_DeviceIdleUtil := f64_dec false 5 (-2);
    Notify_DeviceIdleDuration := 30 * Minute;
    Notify_Rules := [] |};
  Server_Log_Level := "info"
|}.

Definition DefaultAgent : AgentConfig := {|
  Agent_Server_Addr := "127.0.0.1:7443";
  Agent_Node_Name := "";
  Agent_Node_Partition := "default";
  Agent_Node_Labels := ∅;
  Agent_Collectors_Interval := 10 * Second;
  Agent_Jobs_PollInterval := 2 * Second;
  Agent_Log_Level := "info"
|}.

(** ** Loading *)

(** [if v := os.Getenv(name); v != "" { field = v }] *)
Definition overridden (getenv : string → string) (name : string) (old : string) : string :=
  if decide (getenv name = "") then old else getenv name.

(** The file applied over the defaults; on an error the configuration reached so far is returned
    with it, the environment not being applied. *)
Definition loadFile {C : Type} (readFile : string → result string) (unmarshal : string → C → C * option string)
    (path : string) (c : C) : C * option string :=
  if decide (path = "") then (c, None)
  else match readFile path with
       | Err e => (c, Some ("read config: " +:+ e))
       | Ok b => match unmarshal b c with
                 | (c', Some e) => (c', Some ("parse config: " +:+ e))
                 | (c', None) => (c', None)
                 end
       end.

Definition serverEnv (getenv : string → string) (c : ServerConfig) : ServerConfig := {|
  Server_Listen_GRPC := overridden getenv "SKIPPER_LISTEN_GRPC" (Server_Listen_GRPC c);
  Server_Store_Driver := Server_Store_Driver c;
  Server_Store_DSN := overridden getenv "SKIPPER_STORE_DSN" (Server_Store_DSN c);
  Server_Metrics_HTTP := overridden getenv "SKIPPER_METRICS_HTTP" (Server_Metrics_HTTP c);
  Server_Web_HTTP := overridden getenv "SKIPPER_WEB_HTTP" (Server_Web_HTTP c);
  Server_Scheduler_Interval := Server_Scheduler_Interval c;
  Server_Scheduler_Backfill := Server_Scheduler_Backfill c;
  Server_Scheduler_AgeWeight := Server_Scheduler_AgeWeight c;
  Server_Jobs_LogsDir := overridden getenv "SKIPPER_JOBS_LOGS_DIR" (Server_Jobs_LogsDir c);
  Server_Heartbeat_Timeout := Server_Heartbeat_Timeout c;
  Server_Heartbeat_ReapInterval := Server_Heartbeat_ReapInterval c;
  Server_SSHNodes := Server_SSHNodes c;
  Server_Diagnostics := Server_Diagnostics c;
  Server_Notify := Server_Notify c;
  Server_Log_Level := overridden getenv "SKIPPER_LOG_LEVEL" (Server_Log_Level c)
|}.

Definition agentEnv (getenv : string → string) (c : AgentConfig) : AgentConfig := {|
  Agent_Server_Addr := overridden getenv "SKIPPER_SERVER_ADDR" (Agent_Server_Addr c);
  Agent_Node_Name := overridden getenv "SKIPPER_NODE_NAME" (Agent_Node_Name c);
  Agent_Node_Partition := overridden getenv "SKIPPER_NODE_PARTITION" (Agent_Node_Partition c);
  Agent_Node_Labels := Agent_Node_Labels c;
  Agent_Collectors_Interval := Agent_Collectors_Interval c;
  Agent_Jobs_PollInterval := Agent_Jobs_PollInterval c;
  Agent_Log_Level := overridden getenv "SKIPPER_LOG_LEVEL" (Agent_Log_Level c)
|}.

Definition LoadServer (readFile : string → result string)
    (unmarshal : string → ServerConfig → ServerConfig * option string)
    (getenv : string → string) (path : string) : ServerConfig * option string :=
  match loadFile readFile unmarshal path DefaultServer with
  | (c, Some e) => (c, Some e)
  | (c, None) => (serverEnv getenv c, None)
  end.

Definition LoadAgent (readFile : string → result string)
    (unmarshal : string → AgentConfig → AgentConfig * option string)
    (getenv : string → string) (path : string) : AgentConfig * option string :=
  match loadFile readFile unmarshal path DefaultAgent with
  | (c, Some e) => (c, Some e)
  | (c, None) => (agentEnv getenv c, None)
  end.
