(* ===== verification/ConfigTheorems.v ===== *)
(** * Configuration: durations are read back *)
From Stdlib Require Import Ascii.
From S2P Require Import Prelude GoBase GoStrings GoFloat GoFormat Event Config.
Local Open Scope Z_scope.

Lemma str_app_nil_l s : "" +:+ s = s.
Proof. done. Qed.

Section durations.
Context `{FloatToInt}.

(** A string that does not go on with a digit. *)
Definition no_digit_first (s : string) : Prop :=
  match s with String a _ => is_digit a = false | "" => True end.

Lemma leadingInt_digits p rest acc :
  str_forall is_digit p = true → no_digit_first rest → 0 ≤ acc → dec_val p acc ≤ 2 ^ 63 →
  leadingInt (p +:+ rest) acc = Some (dec_val p acc, rest).
Proof.
  revert acc; induction p as [|a p IH]; intros acc Hd Hr Ha Hv; simpl in *.
  { destruct rest as [|b rest]; [done|]. simpl in *. by rewrite Hr. }
  apply andb_true_iff in Hd as [Hd1 Hd2]. rewrite Hd1. pose proof (is_digit_val a Hd1).
  pose proof (dec_val_ge p (acc * 10 + digit_val a) Hd2 ltac:(lia)).
  assert ((2 ^ 63 / 10 <? acc) = false) as ->.
  { apply Z.ltb_ge. apply Z.div_le_lower_bound; lia. }
  assert ((2 ^ 63 <? acc * 10 + digit_val a) = false) as -> by (apply Z.ltb_ge; lia).
  apply IH; try done; lia.
Qed.

Lemma itoa_first n rest : 0 ≤ n → ∃ a s, itoa n +:+ rest = String a s ∧ is_digit a = true.
Proof.
  intros Hn. destruct (itoa_digits n Hn) as (Hd & _ & Hne). destruct (itoa n) as [|a s]; [done|].
  simpl in Hd. apply andb_true_iff in Hd as [Hd _]. exists a, (s +:+ rest). done.
Qed.

(** A group written as a number and a unit. *)
Lemma parseGroup_unit n u unit rest :
  0 ≤ n → u = "h" ∨ u = "m" ∨ u = "s" → unitMap u = Some unit → n * unit ≤ 2 ^ 63 →
  (rest = "" ∨ ∃ a s, rest = String a s ∧ is_digit a = true) →
  parseGroup (itoa n +:+ u +:+ rest) = Some (n * unit, rest).
Proof.
  intros Hn Hu Hun Hle Hrest.
  assert (0 < unit) as Hpos by (destruct_or! Hu; subst; vm_compute in Hun; injection Hun as <-; done).
  assert (no_digit_first (u +:+ rest) ∧ unitOf (u +:+ rest) = (u, rest)) as [Hnd Huo].
  { assert (unitOf rest = ("", rest)) as Hr0.
    { destruct Hrest as [->|(a & s & -> & Ha)]; [done|]. simpl. by rewrite Ha. }
    destruct_or! Hu; subst u; simpl; rewrite Hr0; done. }
  destruct (itoa_digits n Hn) as (Hd & Hv & Hne).
  destruct (itoa_first n (u +:+ rest) Hn) as (a & s & E & Ha).
  assert (n ≤ 2 ^ 63) as Hn63 by nia.
  unfold parseGroup. rewrite E. rewrite Ha, orb_true_r. cbn [negb]. rewrite <-E.
  rewrite leadingInt_digits by (rewrite ?Hv; done || lia). rewrite Hv. simpl.
  assert (Nat.eqb (strlen (itoa n +:+ u +:+ rest)) (strlen (u +:+ rest)) = false) as Hlen.
  { apply Nat.eqb_neq. rewrite strlen_app. destruct (itoa n); [done|]. unfold strlen at 1. simpl. lia. }
  rewrite Hlen. cbn [negb andb].
  assert (∃ b t, u +:+ rest = String b t ∧ b ≠ "."%char) as (b & t & Eb & Hb).
  { destruct_or! Hu; subst u; simpl; eexists _, _; done. }
  rewrite Eb. rewrite decide_False by done. cbn [negb andb]. rewrite <-Eb, Huo.
  rewrite decide_False by (destruct_or! Hu; subst u; done). rewrite Hun. simpl.
  assert ((2 ^ 63 / unit <? n) = false) as ->.
  { apply Z.ltb_ge. apply Z.div_le_lower_bound; lia. }
  assert ((2 ^ 63 <? n * unit) = false) as -> by (apply Z.ltb_ge; lia). done.
Qed.

Lemma digits_zeros n : fmtFrac (n * Second) 9 = "".
Proof.
  unfold fmtFrac. assert (digits 9 (n * Second) = "000000000") as ->; [|done].
  assert (∀ k c, c mod 10 = 0 → digits (S k) (n * c) = digits k (n * (c / 10)) +:+ "0") as Hstep.
  { intros k c Hc. simpl. apply Z.mod_divide in Hc as [q ->]; [|lia].
    rewrite Z.div_mul, Z.mul_assoc, Z.div_mul, Z.mod_mul by lia. done. }
  do 9 (rewrite Hstep by done; match goal with |- context [?c / 10] => let v := eval vm_compute in (c / 10) in change (c / 10) with v end).
  done.
Qed.

(** One group of a longer string. *)
Lemma parseGroups_step fuel n u unit rest d :
  0 ≤ n → u = "h" ∨ u = "m" ∨ u = "s" → unitMap u = Some unit → 0 ≤ d → d + n * unit < 2 ^ 63 →
  (rest = "" ∨ ∃ a s, rest = String a s ∧ is_digit a = true) →
  parseGroups (S fuel) (itoa n +:+ u +:+ rest) d = parseGroups fuel rest (d + n * unit).
Proof.
  intros Hn Hu Hun Hd Hle Hrest. destruct (itoa_first n (u +:+ rest) Hn) as (a & s & E & _).
  assert (0 < unit) by (destruct_or! Hu; subst; vm_compute in Hun; injection Hun as <-; done).
  assert (parseGroup (itoa n +:+ u +:+ rest) = Some (n * unit, rest)) as Hg
    by (apply parseGroup_unit; try done; lia).
  rewrite E in *. cbn [parseGroups]. rewrite Hg. simpl.
  rewrite u64_small by (unfold is_u64; nia).
  assert ((2 ^ 63 <? d + n * unit) = false) as -> by (apply Z.ltb_ge; lia). done.
Qed.

(** [Duration.String] of [n] whole seconds, [n] positive, without sign. *)
Definition hms (n : Z) : string :=
  let m := n / 60 in
  let h := m / 60 in
  (if 0 <? h then itoa h +:+ "h" else "") +:+ (if 0 <? m then itoa (m mod 60) +:+ "m" else "") +:+
  itoa (n mod 60) +:+ "s".

Lemma Duration_String_hms n :
  n ≠ 0 → Duration_String (n * Second) = (if n <? 0 then "-" else "") +:+ hms (Z.abs n).
Proof.
  intros Hn. unfold Duration_String, hms. rewrite Z.abs_mul. change (Z.abs Second) with Second.
  assert (Second = 1000000000) as HS by done.
  assert ((Z.abs n * Second =? 0) = false) as -> by (apply Z.eqb_neq; lia).
  assert ((Z.abs n * Second <? Second) = false) as -> by (apply Z.ltb_ge; lia).
  rewrite Z.div_mul by lia. rewrite digits_zeros. simpl.
  assert ((n * Second <? 0) = (n <? 0)) as ->; [|done].
  destruct (n <? 0) eqn:E; bool_to_prop; [apply Z.ltb_lt|apply Z.ltb_ge]; lia.
Qed.

Lemma itoa_ne_empty n rest : 0 ≤ n → itoa n +:+ rest ≠ "".
Proof. intros Hn. destruct (itoa_first n rest Hn) as (a & s & -> & _). done. Qed.

Lemma parseGroups_hms n fuel :
  0 < n → n * Second < 2 ^ 63 → parseGroups (S (S (S fuel))) (hms n) 0 = Some (n * Second).
Proof.
  intros Hn Hle. unfold hms. set (m := n / 60). set (h := m / 60).
  pose proof (Z.div_mod n 60 ltac:(lia)) as E1. pose proof (Z.mod_pos_bound n 60 ltac:(lia)) as B1.
  pose proof (Z.div_mod m 60 ltac:(lia)) as E2. pose proof (Z.mod_pos_bound m 60 ltac:(lia)) as B2.
  fold m in E1. fold h in E2.
  assert (0 ≤ m) as Hm by (apply Z.div_pos; lia). assert (0 ≤ h) as Hh by (apply Z.div_pos; lia).
  assert (Second = 1000000000 ∧ Minute = 60000000000 ∧ Hour = 3600000000000) as (S1 & S2 & S3) by done.
  assert (∀ f d, 0 ≤ d → d + n mod 60 * Second < 2 ^ 63 →
    parseGroups (S f) (itoa (n mod 60) +:+ "s") d = Some (d + n mod 60 * Second)) as Hs.
  { intros f d Hd Hb. rewrite <-(str_app_nil_r "s"), (parseGroups_step f _ "s" Second "") by (done || lia || tauto).
    by destruct f. }
  assert (∀ f d, 0 ≤ d → d + m mod 60 * Minute + n mod 60 * Second < 2 ^ 63 →
    parseGroups (S (S f)) (itoa (m mod 60) +:+ "m" +:+ itoa (n mod 60) +:+ "s") d =
      Some (d + m mod 60 * Minute + n mod 60 * Second)) as Hms.
  { intros f d Hd Hb. rewrite (parseGroups_step (S f) _ "m" Minute) by
      (done || lia || tauto || (right; apply itoa_first; lia)). apply Hs; lia. }
  destruct (0 <? h) eqn:Eh; bool_to_prop.
  - assert ((0 <? m) = true) as -> by (apply Z.ltb_lt; lia). rewrite !str_app_assoc.
    rewrite (parseGroups_step (S (S fuel)) h "h" Hour) by
      (done || lia || tauto || (right; apply itoa_first; lia)). rewrite Hms by lia. f_equal. lia.
  - destruct (0 <? m) eqn:Em; bool_to_prop; rewrite !str_app_nil_l, ?str_app_assoc.
    + rewrite Hms by lia. f_equal. lia.
    + rewrite Hs by lia. f_equal. lia.
Qed.

Lemma hms_first n : 0 < n → ∃ a s, hms n = String a s ∧ is_digit a = true ∧ s ≠ "".
Proof.
  intros Hn. assert (∀ k u rest, 0 ≤ k → u ≠ "" → ∃ a s, itoa k +:+ u +:+ rest = String a s ∧ is_digit a = true ∧ s ≠ "") as Hg.
  { intros k u rest Hk Hu. destruct (itoa_digits k Hk) as (Hd & _ & Hne). destruct (itoa k) as [|a s]; [done|].
    simpl in Hd. apply andb_true_iff in Hd as [Hd _]. exists a, (s +:+ u +:+ rest). split_and!; [done..|].
    destruct s; [|done]. by destruct u. }
  unfold hms. destruct (0 <? n / 60 / 60) eqn:Eh; bool_to_prop.
  - rewrite str_app_assoc. apply Hg; [lia|done].
  - simpl. destruct (0 <? n / 60) eqn:Em; bool_to_prop.
    + rewrite str_app_assoc. apply Hg; [apply Z.mod_pos_bound; lia|done].
    + simpl. rewrite <-(str_app_nil_r "s"). apply Hg; [apply Z.mod_pos_bound; lia|done].
Qed.

(** Every group consumes at least one byte, so the length of the string is enough fuel. *)
Lemma leadingInt_length s x v r : leadingInt s x = Some (v, r) → (strlen r ≤ strlen s)%nat.
Proof.
  unfold strlen. revert x; induction s as [|a s IH]; intros x; simpl; [by intros [= _ <-]|].
  destruct (is_digit a); [|intros [= _ <-]; simpl; lia].
  repeat (case_step; [done|]). intros E%IH. lia.
Qed.

Lemma leadingFraction_length s x sc o v sc' r :
  leadingFraction s x sc o = (v, sc', r) → (strlen r ≤ strlen s)%nat.
Proof.
  unfold strlen. revert x sc o; induction s as [|a s IH]; intros x sc o; simpl; [by intros [= _ _ <-]|].
  destruct (is_digit a); [|intros [= _ _ <-]; simpl; lia].
  repeat case_step; intros E%IH; lia.
Qed.

Lemma unitOf_length s u r : unitOf s = (u, r) → strlen s = (strlen u + strlen r)%nat.
Proof.
  unfold strlen. revert u; induction s as [|a s IH]; intros u; simpl; [by intros [= <- <-]|].
  destruct (_ || _); [by intros [= <- <-]|]. destruct (unitOf s) as [u' r']. intros [= <- <-].
  simpl. by rewrite (IH u').
Qed.

Lemma parseGroup_length s v r : parseGroup s = Some (v, r) → (strlen r < strlen s)%nat.
Proof.
  unfold parseGroup. destruct s as [|a s]; [done|]. case_step; [done|].
  destruct (leadingInt (String a s) 0) as [[x s1]|] eqn:E1; [|done]. apply leadingInt_length in E1. cbn [mbind option_bind].
  destruct (match s1 with
    | "" => (0, f64 1, s1, false)
    | String b s1' => if decide (b = "."%char) then
        let '(f, scale, s2) := leadingFraction s1' 0 (f64 1) false in
        (f, scale, s2, negb (Nat.eqb (strlen s1') (strlen s2)))
      else (0, f64 1, s1, false)
    end) as [[[f sc] s2] post] eqn:E2.
  assert (strlen s2 ≤ strlen s1)%nat as L2.
  { destruct s1 as [|b s1]; [by injection E2 as <- <- <- <-|].
    destruct (decide (b = "."%char)); [|by injection E2 as <- <- <- <-].
    destruct (leadingFraction s1 0 (f64 1) false) as [[f' sc'] s2'] eqn:E3.
    injection E2 as <- <- <- <-. apply leadingFraction_length in E3. unfold strlen in *; simpl; lia. }
  case_step; [done|]. destruct (unitOf s2) as [u s3] eqn:E3. apply unitOf_length in E3.
  destruct (decide (u = "")); [done|]. destruct (unitMap u); [|done]. simpl.
  assert (strlen u ≠ 0%nat) by (by destruct u). repeat case_step; try done; intros [= _ <-]; unfold strlen in *; simpl in *; lia.
Qed.

Lemma parseGroups_enough f s d r : parseGroups f s d = Some r → parseGroups (strlen s) s d = Some r.
Proof.
  assert (∀ n f s d, (strlen s ≤ n)%nat → parseGroups f s d = Some r → parseGroups n s d = Some r) as Hgen;
    [|intros E; by eapply Hgen].
  clear. induction n as [|n IH]; intros f s d Hn E.
  { destruct s as [|a s]; [by destruct f|]. unfold strlen in Hn; simpl in Hn; lia. }
  destruct s as [|a s]; [by destruct f|]. destruct f as [|f]; [done|]. cbn [parseGroups] in *.
  destruct (parseGroup (String a s)) as [[v s']|] eqn:Eg; [|done]. apply parseGroup_length in Eg. simpl in *.
  case_step; [done|]. eapply IH; [|done]. unfold strlen in *. simpl in *. lia.
Qed.

(** For every whole number of seconds whose nanoseconds fit an [int64], parsing what
    [Duration.String] prints gives the duration again. *)
Lemma ParseDuration_String n :
  - 2 ^ 63 < n * Second < 2 ^ 63 → ParseDuration (Duration_String (n * Second)) = Some (n * Second).
Proof.
  intros Hn. destruct (Z.eq_dec n 0) as [->|Hz]; [by vm_compute|].
  rewrite Duration_String_hms by done.
  assert (0 < Z.abs n) as Ha by lia. destruct (hms_first _ Ha) as (a & s & E & Hd & Hs).
  assert (parseGroups (strlen (hms (Z.abs n))) (hms (Z.abs n)) 0 = Some (Z.abs n * Second)) as Hp.
  { apply (parseGroups_enough 3). apply parseGroups_hms; lia. }
  assert (hms (Z.abs n) ≠ "0" ∧ hms (Z.abs n) ≠ "") as [H0 H1] by (rewrite E; split; congruence).
  unfold ParseDuration. destruct (n <? 0) eqn:Es; bool_to_prop; simpl.
  - rewrite !decide_False by done. rewrite Hp. simpl. f_equal. lia.
  - rewrite E. assert (a ≠ "-"%char ∧ a ≠ "+"%char) as [Hm Hpl] by (split; intros ->; done).
    rewrite !(decide_False (P := a = _)) by done. rewrite <-E. rewrite !decide_False by done.
    rewrite Hp. simpl. assert ((2 ^ 63 - 1 <? Z.abs n * Second) = false) as -> by (apply Z.ltb_ge; lia).
    f_equal. lia.
Qed.

(** (roundtrip) Durations in configuration files: the text that the program prints for a
    duration of whole seconds is read back as that duration, for every one that fits an [int64];
    a scalar that is not a string is an error, and so is a text that begins with no number, such as
    a unit alone. *)
Theorem Duration_UnmarshalYAML_String `{ErrorText} n :
  - 2 ^ 63 < n * Second < 2 ^ 63 →
  Duration_UnmarshalYAML (Ok (Duration_String (n * Second))) = Ok (n * Second) ∧
  (∀ e, Duration_UnmarshalYAML (Err e) = Err e) ∧
  (∀ a s, is_digit a = false → a ∉ ["-"; "+"; "."]%char →
     Duration_UnmarshalYAML (Ok (String a s)) = Err ("invalid duration " +:+ Quote (String a s) +:+ ": " +:+ ParseDuration_error (String a s))).
Proof.
  intros Hn. split_and!; [unfold Duration_UnmarshalYAML; by rewrite ParseDuration_String|done|].
  intros a s Hd Ha. assert (a ≠ "0"%char) by (intros ->; done).
  assert (a ≠ "-"%char ∧ a ≠ "+"%char ∧ a ≠ "."%char) as (? & ? & ?) by set_solver.
  unfold Duration_UnmarshalYAML, ParseDuration. rewrite !(decide_False (P := a = _)) by done.
  rewrite !decide_False by congruence. cbn [strlen String.length parseGroups].
  unfold parseGroup. rewrite Hd, bool_decide_eq_false_2 by done. done.
Qed.

End durations.

Lemma Duration_UnmarshalYAML_String_witness :
  Duration_String (5400 * Second) = "1h30m0s" ∧ @Duration_UnmarshalYAML amd64 some_wording (Ok "1h30m0s") = Ok (5400 * Second).
Proof.
  split; [by vm_compute|]. change "1h30m0s" with (Duration_String (5400 * Second)).
  apply (@Duration_UnmarshalYAML_String amd64 some_wording 5400). by_decide.
Defined.
