(* ===== verification/Notify.v ===== *)
(** * internal/notify: rules, the event engine, the detector

    The engine and the detector act on a process state (store, clock, random source).  A
    notifier is the answer it gives to the n-th message handed out; the messages handed out are
    recorded in [e_sent].  Writing the structured log is not modelled.  What a component needs
    of the engine is the class [EventSink]. *)
From S2P Require Import Prelude GoBase GoStrings GoFloat GoFormat Event Proto Store World Config.
Local Open Scope Z_scope.

(** ** rule.go *)

(** [severityRank[s]]: 0 for an unknown severity. *)
Definition severityRank (s : Severity) : Z :=
  if decide (s = SevWarning) then 1 else if decide (s = SevCritical) then 2 else 0.

Definition contains (ss : list string) (x : string) : bool := bool_decide (x ∈ ss).

Definition matches (r : NotifyRule) (ev : Event) : bool :=
  let m := Rule_Match r in
  if negb (bool_decide (Match_Type m = [])) && negb (contains (Match_Type m) (Event_Type ev)) then false
  else if negb (forallb (λ kv, bool_decide (map_get (Event_Labels ev) kv.1 = kv.2)) (map_to_list (Match_Labels m)))
  then false
  else if negb (bool_decide (Match_MinSeverity m = "")) &&
          (severityRank (Event_Severity ev) <? severityRank (Match_MinSeverity m)) then false
  else true.

(** The value of one entry of [to]. *)
Definition recipient (ev : Event) (t : string) : string :=
  if HasPrefix t "${" && HasSuffix t "}"
  then match str_slice t 2 (Z.of_nat (strlen t) - 1) with
       | Some label => map_get (Event_Labels ev) label
       | None => ""
       end
  else t.

(** The loop body: [out] so far; [seen] is the set of its elements. *)
Definition addRecipient (ev : Event) (out : list string) (t : string) : list string :=
  let v := recipient ev t in
  if decide (v = "") then out else if decide (v ∈ out) then out else out ++ [v].

Definition resolveRecipients (to : list string) (ev : Event) : list string :=
  foldl (addRecipient ev) [] to.

Definition DefaultRules : list NotifyRule :=
  [mkNotifyRule "disk-full" (mkRuleMatch [TypeDiskFull] ∅ "") ["admins"] [] Hour;
   mkNotifyRule "job-finished" (mkRuleMatch [TypeJobCompleted; TypeJobFailed] ∅ "") ["${owner}"] [] 0;
   mkNotifyRule "device-idle-allocated" (mkRuleMatch [TypeDeviceIdle] {["allocated" := "true"]} "")
     ["${owner}"] [] (2 * Hour);
   mkNotifyRule "device-idle-free" (mkRuleMatch [TypeDeviceIdle] {["allocated" := "false"]} "")
     ["admins"] [] (2 * Hour);
   mkNotifyRule "node-down" (mkRuleMatch [TypeNodeDown] ∅ "") ["admins"] [] (10 * Minute);
   mkNotifyRule "node-diagnosed" (mkRuleMatch [TypeNodeDiagnosed] ∅ "") ["admins"] [] (10 * Minute)].

(** ** notifier.go *)

Record Message := mkMessage {
  Message_Event : Event;
  Message_Recipients : list string;
  Message_Title : string;
  Message_Body : string
}.

(** The error a notifier returns for the n-th message handed out, if any. *)
Definition Notifier : Type := nat → Message → option string.

(** [logNotifier.Notify] writes a log line and succeeds. *)
Definition logNotifier : Notifier := λ _ _, None.

(** ** engine.go *)

Record Engine := mkEngine {
  e_cfg : NotifyConfig;
  e_rules : list NotifyRule;
  e_notifiers : gmap string Notifier;
  e_cooldown : gmap string Time;
  e_sent : list (string * Message)
}.

Definition Register (name : string) (n : Notifier) (e : Engine) : Engine :=
  mkEngine (e_cfg e) (e_rules e) (<[name := n]> (e_notifiers e)) (e_cooldown e) (e_sent e).

Definition NewEngine (cfg : NotifyConfig) : Engine :=
  let rules := if decide (Notify_Rules cfg = []) then DefaultRules else Notify_Rules cfg in
  Register "log" logNotifier (mkEngine cfg rules ∅ ∅ []).

Section engine.
Context {S : Type} `{!Store S}.

Definition cooldownKey (r : NotifyRule) (ev : Event) : string := Rule_Name r +:+ "|" +:+ Event_DedupKey ev.

(** The cooldown entry of a key, and its update. *)
Definition cooldownOf (key : string) : ST (World S * Engine) (option Time) := λ st,
  (e_cooldown st.2 !! key, st).
Definition setCooldown (key : string) (t : Time) : ST (World S * Engine) unit := λ '(w, e),
  (tt, (w, mkEngine (e_cfg e) (e_rules e) (e_notifiers e) (<[key := t]> (e_cooldown e)) (e_sent e))).

Definition allow (r : NotifyRule) (ev : Event) : ST (World S * Engine) bool :=
  let cd := Rule_Cooldown r in
  if cd <=? 0 then st_ret true
  else
    let key := cooldownKey r ev in
    last <- cooldownOf key ;;
    recent <- (match last with
               | Some t => now <- on_fst time_Now ;; st_ret (Sub now t <? cd)
               | None => st_ret false
               end) ;;
    if recent : bool then st_ret false
    else now <- on_fst time_Now ;; setCooldown key now ;;; st_ret true.

(** Handing a message to a notifier. *)
Definition notify (channel : string) (n : Notifier) (msg : Message) : ST (World S * Engine) (option string) :=
  λ '(w, e), (n (length (e_sent e)) msg,
    (w, mkEngine (e_cfg e) (e_rules e) (e_notifiers e) (e_cooldown e) (e_sent e ++ [(channel, msg)]))).

Definition notifierOf (channel : string) : ST (World S * Engine) (option Notifier) := λ st,
  (e_notifiers st.2 !! channel, st).

Definition deliver (rule : string) (ev : Event) (channel : string) (recipients : list string)
    : ST (World S * Engine) unit :=
  n <- notifierOf channel ;;
  id <- on_fst newID ;;
  now <- on_fst time_Now ;;
  outcome <- (match n with
              | None => st_ret ("failed", "no such channel")
              | Some n =>
                  err <- notify channel n (mkMessage ev recipients (Event_Type ev) (Event_Summary ev)) ;;
                  st_ret (match err with Some e => ("failed", e) | None => ("sent", "") end)
              end) ;;
  on_fst (on_store (store_CreateNotification
    (mkNotification id (Event_ID ev) (Event_Type ev) rule channel (Join recipients ",")
       outcome.1 outcome.2 (Event_Summary ev) now))) ;;;
  st_ret tt.

Definition channelsOf (r : NotifyRule) (e : Engine) : list string :=
  let channels := if decide (Rule_Channels r = []) then Notify_Channels (e_cfg e) else Rule_Channels r in
  if decide (channels = []) then ["log"] else channels.

(** One rule of the loop of [Emit]. *)
Definition applyRule (ev : Event) (r : NotifyRule) : ST (World S * Engine) unit :=
  if negb (matches r ev) then st_ret tt
  else
    ok <- allow r ev ;;
    if negb ok then st_ret tt
    else λ st, st_for (channelsOf r st.2)
           (λ ch, deliver (Rule_Name r) ev ch (resolveRecipients (Rule_To r) ev)) st.

Definition withID (ev : Event) (id : string) : Event :=
  mkEvent id (Event_Type ev) (Event_Severity ev) (Event_Source ev) (Event_Summary ev)
    (Event_DedupKey ev) (Event_Labels ev) (Event_Time ev).
Definition withTime (ev : Event) (t : Time) : Event :=
  mkEvent (Event_ID ev) (Event_Type ev) (Event_Severity ev) (Event_Source ev) (Event_Summary ev)
    (Event_DedupKey ev) (Event_Labels ev) t.

Definition Emit (ev : Event) : ST (World S * Engine) unit :=
  ev <- (if decide (Event_ID ev = "") then id <- on_fst newID ;; st_ret (withID ev id) else st_ret ev) ;;
  ev <- (if IsZero (Event_Time ev) then now <- on_fst time_Now ;; st_ret (withTime ev now) else st_ret ev) ;;
  on_fst (on_store (store_CreateEvent ev)) ;;;
  λ st, st_for (e_rules st.2) (applyRule ev) st.
End engine.

(** ** What the detector and the server need of the engine *)

Class EventSink (E : Type) := {
  sink_emit : Event → ST E unit;
  sink_now : ST E Time
}.

#[export] Instance engine_sink {S} `{!Store S} : EventSink (World S * Engine) := {|
  sink_emit := Emit;
  sink_now := on_fst time_Now
|}.

(** ** metrics/store.go *)

(** A report may carry a nil snapshot, which is stored as such. *)
Definition MetricsStore : Type := gmap string (option pbMetricsSnapshot).

Definition metrics_New : MetricsStore := ∅.
Definition metrics_Put (nodeID : string) (snap : option pbMetricsSnapshot) (m : MetricsStore) : MetricsStore :=
  <[nodeID := snap]> m.
(** The snapshot and whether there is an entry. *)
Definition metrics_Get (nodeID : string) (m : MetricsStore) : option pbMetricsSnapshot * bool :=
  match m !! nodeID with Some snap => (snap, true) | None => (None, false) end.
Definition metrics_Delete (nodeID : string) (m : MetricsStore) : MetricsStore := delete nodeID m.

(** ** detector.go *)

Record Detector := mkDetector {
  d_cfg : NotifyConfig;
  d_diskFull : gmap string bool;
  d_idleSince : gmap string Time
}.

Definition NewDetector (cfg : NotifyConfig) : Detector := mkDetector cfg ∅ ∅.

Definition set_diskFull (m : gmap string bool) (d : Detector) : Detector :=
  mkDetector (d_cfg d) m (d_idleSince d).
Definition set_idleSince (m : gmap string Time) (d : Detector) : Detector :=
  mkDetector (d_cfg d) (d_diskFull d) m.

Definition allocationOf (nodeID kind : string) (index : Z) (active : list Job) : bool * string :=
  match filter (λ j, Job_NodeID j = nodeID ∧
                     existsb (λ a, bool_decide (Alloc_Kind a = kind) && (Alloc_Index a =? index)) (Job_Devices j) = true)
          active with
  | j :: _ => (true, Job_Owner j)
  | [] => (false, "")
  end.

Section detector.
Context {E : Type} `{!EventSink E}.

Definition diskEvent (typ : string) (sev : Severity) (node : string) (summary key : string) (labels : smap) : Event :=
  mkEvent "" typ sev node summary key labels 0.

(** One disk of [checkDisks]. *)
Definition checkDisk (node : string) (disk : pbDiskStats) : ST (Detector * E) unit := λ '(d, e),
  let threshold := fmul (Notify_DiskThreshold (d_cfg d)) (f64 100) in
  let mount := pbDiskStats_Mount disk in
  let used := pbDiskStats_UsedPercent disk in
  let key := node +:+ "|" +:+ mount in
  let full := fleb threshold used in
  let was := default false (d_diskFull d !! key) in
  if full && negb was then
    on_snd (sink_emit (diskEvent TypeDiskFull SevWarning node
      ("节点 " +:+ node +:+ " 磁盘 " +:+ mount +:+ " 使用率 " +:+ format_f 0 used +:+ "% 超过阈值") key
      (<["node" := node]> (<["mount" := mount]> {["used_pct" := format_f 0 used]}))))
      (set_diskFull (<[key := true]> (d_diskFull d)) d, e)
  else if negb full && was then
    on_snd (sink_emit (diskEvent TypeDiskRecovered SevInfo node
      ("节点 " +:+ node +:+ " 磁盘 " +:+ mount +:+ " 使用率回落到 " +:+ format_f 0 used +:+ "%") key
      (<["node" := node]> {["mount" := mount]})))
      (set_diskFull (delete key (d_diskFull d)) d, e)
  else (tt, (d, e)).

Definition checkDisks (n : Node) (snap : pbMetricsSnapshot) : ST (Detector * E) unit :=
  st_for (pbMetricsSnapshot_Disks snap) (checkDisk (Node_Name n)).

Definition deviceKey (node : string) (dev : pbDeviceStats) : string :=
  node +:+ "|" +:+ pbDeviceStats_Kind dev +:+ "|" +:+ itoa (pbDeviceStats_Index dev).

Definition idleEvent (n : Node) (dev : pbDeviceStats) (active : list Job) (dur : Duration) (key : string) : Event :=
  let kind := pbDeviceStats_Kind dev in
  let index := pbDeviceStats_Index dev in
  let '(allocated, owner) := allocationOf (Node_ID n) kind index active in
  let labels : smap := <["node" := Node_Name n]> (<["kind" := kind]>
    (<["index" := itoa index]> {["allocated" := format_t allocated]})) in
  if allocated then
    mkEvent "" TypeDeviceIdle SevWarning (Node_Name n)
      ("节点 " +:+ Node_Name n +:+ " 的 " +:+ kind +:+ itoa index +:+ " 已分配给 " +:+ owner +:+
       " 但空置超过 " +:+ Duration_String dur +:+ "，请确认是否释放")
      key (<["owner" := owner]> labels) 0
  else
    mkEvent "" TypeDeviceIdle SevWarning (Node_Name n)
      ("节点 " +:+ Node_Name n +:+ " 的 " +:+ kind +:+ itoa index +:+ " 空闲超过 " +:+
       Duration_String dur +:+ "（可用资源）") key labels 0.

(** One device of [checkDevices], at the instant read before the loop. *)
Definition checkDevice (n : Node) (active : list Job) (now : Time) (dev : pbDeviceStats)
    : ST (Detector * E) unit := λ '(d, e),
  let idleUtil := fmul (Notify_DeviceIdleUtil (d_cfg d)) (f64 100) in
  let dur := Notify_DeviceIdleDuration (d_cfg d) in
  let key := deviceKey (Node_Name n) dev in
  if fleb idleUtil (pbDeviceStats_Utilization dev) then
    (tt, (set_idleSince (delete key (d_idleSince d)) d, e))
  else match d_idleSince d !! key with
       | None => (tt, (set_idleSince (<[key := now]> (d_idleSince d)) d, e))
       | Some first =>
           if Sub now first <? dur then (tt, (d, e))
           else on_snd (sink_emit (idleEvent n dev active dur key)) (d, e)
       end.

Definition checkDevices (n : Node) (snap : pbMetricsSnapshot) (active : list Job) : ST (Detector * E) unit :=
  now <- on_snd sink_now ;;
  st_for (pbMetricsSnapshot_Devices snap) (checkDevice n active now).

Definition scanNodeMetrics (metrics : MetricsStore) (active : list Job) (n : Node) : ST (Detector * E) unit :=
  if decide (Node_State n ≠ StateUp) then st_ret tt
  else match metrics_Get (Node_ID n) metrics with
       | (Some snap, true) => checkDisks n snap ;;; checkDevices n snap active
       | _ => st_ret tt
       end.

(** [scan], on the results of its two queries: a failed [ListNodes] ends it, a failed
    [ListActiveJobs] leaves no active jobs. *)
Definition scan (listNodes : ST E (result (list Node))) (listActive : ST E (result (list Job)))
    (metrics : MetricsStore) : ST (Detector * E) unit :=
  nodes <- on_snd listNodes ;;
  match nodes with
  | Err _ => st_ret tt
  | Ok nodes =>
      active <- on_snd listActive ;;
      st_for nodes (scanNodeMetrics metrics (match active with Ok js => js | Err _ => [] end))
  end.
End detector.

(** The detector of the control plane: its queries go to the store. *)
Definition detector_scan {S} `{!Store S} (metrics : MetricsStore) : ST (Detector * (World S * Engine)) unit :=
  scan (on_fst (on_store store_ListNodes)) (on_fst (on_store store_ListActiveJobs)) metrics.

(** [Detector.Run]: one scan per tick, with the metrics as they are at that tick. *)
Definition detector_Run {S} `{!Store S} (ticks : list MetricsStore) : ST (Detector * (World S * Engine)) unit :=
  st_for ticks detector_scan.
