(* ===== verification/EngineFacts.v ===== *)
(** * What announcing an event keeps

    The engine reads the clock, draws identifiers and adds events and notifications to the store;
    whatever these keep of the process, announcing an event keeps. *)
From S2P Require Import Prelude GoBase GoStrings Event Store World Config Notify.
Local Open Scope Z_scope.

(** A relation on a part of the state. *)
Definition pulled {A B} (R : relation B) (f : A → B) : relation A := λ a a', R (f a) (f a').

#[export] Instance pulled_preorder {A B} (R : relation B) (f : A → B) : PreOrder R → PreOrder (pulled R f).
Proof. intros HR. split; [intros a; unfold pulled; reflexivity|]. intros a b c. unfold pulled. apply HR. Qed.

Definition anywhere {A} : relation A := λ _ _, True.
#[export] Instance anywhere_preorder {A} : PreOrder (@anywhere A).
Proof. by split. Qed.

(** The part of a state that an operation works on. *)
Lemma keeps_part {St1 St2 A} (P : St1 → Prop) (R : relation St1) (get_ : St2 → St1) (op : ST St1 A) (op2 : ST St2 A) :
  (∀ st, get_ (op2 st).2 = (op (get_ st)).2) → keeps P R op → keeps (λ st, P (get_ st)) (pulled R get_) op2.
Proof. intros E Hop st Hst. unfold pulled. rewrite E. by apply Hop. Qed.

(** The rest of the state. *)
Lemma keeps_rest {St1 St2 A} (P : St1 → Prop) (R : relation St1) `{!Reflexive R} (get_ : St2 → St1) (op2 : ST St2 A) :
  (∀ st, get_ (op2 st).2 = get_ st) → keeps (λ st, P (get_ st)) (pulled R get_) op2.
Proof. intros E st Hst. unfold pulled. by rewrite E. Qed.

Create HintDb engine.

(** Through the code of a computation: its loops, branches and calls. *)
Ltac keeping :=
  repeat first
    [ solve [eauto with engine]
    | apply keeps_ret; apply _
    | apply keeps_bind; [apply _| |intros ?]
    | apply keeps_for; [apply _|intros ?]
    | apply keeps_rest; [apply _|intros [? ?]; reflexivity]
    | case_step ].

Section engine.
Context {S : Type} `{!Store S} (P : World S → Prop) (R : relation (World S)) `{!PreOrder R}.
Context (Hnow : keeps P R time_Now) (Hid : keeps P R newID).
Context (Hevent : ∀ ev, keeps P R (on_store (store_CreateEvent ev))).
Context (Hnote : ∀ n, keeps P R (on_store (store_CreateNotification n))).

Notation engine_keeps := (keeps (λ st : World S * Engine, P st.1) (pulled R fst)).

Lemma keeps_engine {A} (op : ST (World S) A) : keeps P R op → engine_keeps (on_fst op).
Proof. apply keeps_part. intros [w e]. unfold on_fst. simpl. by destruct (op w). Qed.

#[local] Hint Resolve keeps_engine : engine.

Lemma keeps_deliver rule ev ch to : engine_keeps (deliver rule ev ch to).
Proof using All. unfold deliver. keeping. Qed.

Lemma keeps_allow r ev : engine_keeps (allow r ev).
Proof using All. unfold allow. keeping. Qed.

#[local] Hint Resolve keeps_deliver keeps_allow : engine.

Lemma keeps_applyRule ev r : engine_keeps (applyRule ev r).
Proof using All.
  unfold applyRule. case_step; [apply keeps_ret, _|]. apply keeps_bind; [apply _|apply keeps_allow|]. intros ok.
  case_step; [apply keeps_ret, _|]. apply (keeps_state _ _ (λ st, st_for (channelsOf r st.2) _)). intros st. keeping.
Qed.

#[local] Hint Resolve keeps_applyRule : engine.

Lemma keeps_Emit ev : engine_keeps (Emit ev).
Proof using All.
  unfold Emit. keeping. apply (keeps_state _ _ (λ st, st_for (e_rules st.2) _)). intros st. keeping.
Qed.
End engine.
