(* ===== verification/NotifyTheorems.v ===== *)
(** * Notifications: routing, cooldown, and what the detector reports *)
From Stdlib Require Import SpecFloat.
From S2P Require Import Prelude GoBase GoStrings GoFloat GoFormat Event Proto Store World Config Notify.
From S2P Require Import StoreSpec SQLite SQLiteProofs StoreExample.
Local Open Scope Z_scope.

(** ** Recipients *)

(** (functional) Recipients: the result has no empty name and no duplicates; it holds
    exactly the non-empty values of the entries, where an entry [${label}] stands for the
    event's label and any other for itself, in the order of their first entries. *)
Theorem resolveRecipients_spec to ev :
  let out := resolveRecipients to ev in
  NoDup out ∧ (∀ v, v ∈ out ↔ v ≠ "" ∧ ∃ t, t ∈ to ∧ recipient ev t = v) ∧
  out `sublist_of` (recipient ev <$> to).
Proof.
  induction to as [|t to IH] using rev_ind; simpl.
  { split_and!; [constructor| |constructor]. set_solver. }
  unfold resolveRecipients in *. rewrite foldl_app, fmap_app. simpl in *.
  destruct IH as (Hn & Hv & Hs). unfold addRecipient at 1 3 5.
  destruct (decide (recipient ev t = "")) as [E|E].
  { split_and!; [done| |by apply sublist_inserts_r]. intros v. rewrite Hv. set_solver. }
  destruct (decide (recipient ev t ∈ foldl (addRecipient ev) [] to)) as [Hin|Hin].
  { split_and!; [done| |by apply sublist_inserts_r]. intros v. rewrite Hv. apply Hv in Hin. set_solver. }
  split_and!.
  - apply NoDup_app. split_and!; [done| |apply NoDup_singleton]. set_solver.
  - intros v. rewrite elem_of_app, Hv, list_elem_of_singleton. set_solver.
  - by apply sublist_app.
Qed.

(** ** Cooldown *)

Section cooldown.
Context {S : Type} `{!Store S}.
Implicit Types st : World S * Engine.

(** What [allow] did: no cooldown; allowed with a clock reading recorded; or refused. *)
Lemma allow_effect r ev st b st' :
  allow r ev st = (b, st') → 0 < Rule_Cooldown r →
  let key := cooldownKey r ev in
  w_now st'.1 = w_now st.1 ∧ w_store st'.1 = w_store st.1 ∧
  match b with
  | true =>
      ∃ i j, (w_tick st.1 ≤ i ≤ j)%nat ∧ w_tick st'.1 = Datatypes.S j ∧
        e_cooldown st'.2 = <[key := w_now st.1 j]> (e_cooldown st.2) ∧
        ∀ t, e_cooldown st.2 !! key = Some t → Rule_Cooldown r ≤ Sub (w_now st.1 i) t
  | false => w_tick st'.1 = Datatypes.S (w_tick st.1) ∧ e_cooldown st'.2 = e_cooldown st.2 ∧
      ∃ t, e_cooldown st.2 !! key = Some t ∧ Sub (w_now st.1 (w_tick st.1)) t < Rule_Cooldown r
  end.
Proof.
  destruct st as [w e]. unfold allow. intros E Hcd.
  rewrite (proj2 (Z.leb_gt _ _)) in E by lia. unfold st_bind, cooldownOf, st_ret, on_fst, setCooldown in E. simpl in *.
  destruct (e_cooldown e !! cooldownKey r ev) as [t|] eqn:Ek.
  - simpl in E. destruct (Sub (w_now w (w_tick w)) t <? Rule_Cooldown r) eqn:Es; bool_to_prop;
      injection E as <- <-; simpl; (split; [done|]); (split; [done|]).
    + eauto.
    + exists (w_tick w), (Datatypes.S (w_tick w)). split_and!; try done; [lia|]. by intros t' [= <-].
  - injection E as <- <-. simpl. split; [done|]. split; [done|].
    exists (w_tick w), (w_tick w). by split_and!.
Qed.

Lemma allow_free r ev st b st' :
  allow r ev st = (b, st') → Rule_Cooldown r ≤ 0 → b = true ∧ st' = st.
Proof. unfold allow. intros E Hcd. rewrite (proj2 (Z.leb_le _ _)) in E by done. by injection E as <- <-. Qed.

(** The calls of [allow] by the goroutines that emit, in the order the lock admits them. *)
Definition run_allow (cs : list (NotifyRule * Event)) (st : World S * Engine) : World S * Engine :=
  foldl (λ st c, (allow c.1 c.2 st).2) st cs.

(** The entry of [key] is a clock reading of the past, not before [t1]. *)
Definition stamped (key : string) (t1 : Time) st : Prop :=
  ∃ i, (i < w_tick st.1)%nat ∧ e_cooldown st.2 !! key = Some (w_now st.1 i) ∧ t1 ≤ w_now st.1 i.

Lemma allow_stamped key t1 r ev st b st' :
  monotone_clock st.1 → stamped key t1 st → allow r ev st = (b, st') →
  monotone_clock st'.1 ∧ stamped key t1 st'.
Proof.
  intros Hm (i & Hi & Hk & Ht) E. destruct (Z.le_gt_cases (Rule_Cooldown r) 0) as [Hc|Hc].
  { apply allow_free in E as [_ ->]; [|done]. split; [done|]. by exists i. }
  apply allow_effect in E as (En & _ & E); [|done].
  split; [intros x y; rewrite En; apply Hm|]. destruct b.
  - destruct E as (i' & j & Hij & Htick & Hcd & _). destruct (decide (cooldownKey r ev = key)) as [<-|Hne].
    + exists j. rewrite Htick, Hcd, lookup_insert_eq, En. split_and!; [lia|done|].
      etrans; [exact Ht|]. apply Hm. lia.
    + exists i. rewrite Htick, Hcd, lookup_insert_ne, En by done. split_and!; [lia|done..].
  - destruct E as (Htick & Hcd & _). exists i. rewrite Htick, Hcd, En. split_and!; [lia|done..].
Qed.

Lemma run_stamped key t1 cs st :
  monotone_clock st.1 → stamped key t1 st →
  monotone_clock (run_allow cs st).1 ∧ stamped key t1 (run_allow cs st).
Proof.
  revert st; induction cs as [|[r ev] cs IH]; intros st Hm Hs; [done|].
  simpl. destruct (allow r ev st) as [b st1] eqn:E.
  destruct (allow_stamped key t1 r ev st b st1 Hm Hs E). by apply IH.
Qed.

(** (safety, liveness) Cooldown: with a clock that does not go back, two permissions for the
    same rule and deduplication key are at least the cooldown apart, whatever other events are
    emitted in between and by whichever goroutine; and a call is refused only if a permission
    was recorded for the key less than the cooldown ago. *)
Theorem allow_spaced r ev r' ev' cs st0 st1 st3 b :
  monotone_clock st0.1 → 0 < Rule_Cooldown r → 0 < Rule_Cooldown r' →
  cooldownKey r' ev' = cooldownKey r ev →
  allow r ev st0 = (true, st1) → allow r' ev' (run_allow cs st1) = (b, st3) →
  ∃ t1, e_cooldown st1.2 !! cooldownKey r ev = Some t1 ∧
    if b then ∃ t3, e_cooldown st3.2 !! cooldownKey r ev = Some t3 ∧ t1 + Rule_Cooldown r' ≤ t3
    else ∃ t now, e_cooldown (run_allow cs st1).2 !! cooldownKey r ev = Some t ∧ t1 ≤ t ∧
           now = w_now st3.1 (w_tick (run_allow cs st1).1) ∧ Sub now t < Rule_Cooldown r'.
Proof.
  intros Hm Hc Hc' Hkey E1 E2.
  apply allow_effect in E1 as (En1 & _ & (i & j & Hij & Htick & Hcd & _)); [|done].
  exists (w_now st0.1 j). split; [by rewrite Hcd, lookup_insert_eq|].
  assert (monotone_clock st1.1) as Hm1 by (intros x y; rewrite En1; apply Hm).
  destruct (run_stamped (cooldownKey r ev) (w_now st0.1 j) cs st1 Hm1) as (Hm2 & (k & Hk & Hck & Htk)).
  { exists j. rewrite Htick, Hcd, lookup_insert_eq, En1. split_and!; [lia|done..]. }
  apply allow_effect in E2 as (En2 & _ & E2); [|done]. rewrite Hkey in E2. destruct b.
  - destruct E2 as (i' & j' & Hij' & Htick' & Hcd' & Hlast). specialize (Hlast _ Hck).
    eexists. rewrite Hcd', lookup_insert_eq. split; [done|].
    pose proof (Hm2 i' j' ltac:(lia)). unfold Sub, minDuration, maxDuration in Hlast. lia.
  - destruct E2 as (_ & _ & t & Ht & Hs). exists t, (w_now st3.1 (w_tick (run_allow cs st1).1)).
    rewrite En2. rewrite Hck in Ht. injection Ht as <-. by split_and!.
Qed.
End cooldown.

(** ** The detector's reports

    The events the detector emits do not feed back into it, so they are observed with a sink
    that records them. *)

Record Trace := mkTrace { tr_events : list Event; tr_clock : nat → Time; tr_tick : nat }.

#[export] Instance trace_sink : EventSink Trace := {|
  sink_emit ev t := (tt, mkTrace (tr_events t ++ [ev]) (tr_clock t) (tr_tick t));
  sink_now t := (tr_clock t (tr_tick t), mkTrace (tr_events t) (tr_clock t) (S (tr_tick t)))
|}.

(** The disk events of a key, as booleans: full or recovered. *)
Definition disk_report (key : string) (ev : Event) : option bool :=
  if decide (Event_DedupKey ev = key) then
    if decide (Event_Type ev = TypeDiskFull) then Some true
    else if decide (Event_Type ev = TypeDiskRecovered) then Some false else None
  else None.

(** Full, recovered, full, ... starting with full; the current state is the last. *)
Fixpoint alternates (cur : bool) (l : list bool) (final : bool) : Prop :=
  match l with
  | [] => cur = final
  | b :: l' => b = negb cur ∧ alternates b l' final
  end.

Lemma alternates_snoc cur l fin b : alternates cur l fin → b = negb fin → alternates cur (l ++ [b]) b.
Proof. revert cur; induction l as [|x l IH]; intros cur; simpl; [by intros -> ->|]. naive_solver. Qed.

Definition disk_ok (key : string) (st : Detector * Trace) : Prop :=
  alternates false (omap (disk_report key) (tr_events st.2)) (default false (d_diskFull st.1 !! key)).

(** One disk: an event and a change of the flag together, or neither. *)
Lemma checkDisk_effect node disk d t :
  let k := node +:+ "|" +:+ pbDiskStats_Mount disk in
  let was := default false (d_diskFull d !! k) in
  (checkDisk node disk (d, t)).2 = (d, t) ∨
  ∃ ev, disk_report k ev = Some (negb was) ∧ Event_DedupKey ev = k ∧
    (checkDisk node disk (d, t)).2 =
      (set_diskFull (if was then delete k (d_diskFull d) else <[k := true]> (d_diskFull d)) d,
       mkTrace (tr_events t ++ [ev]) (tr_clock t) (tr_tick t)).
Proof.
  intros k was. unfold checkDisk. fold k. cbv zeta. fold was.
  destruct (fleb _ _), was; cbn [andb negb]; try (by left); right; eexists; (split; [|split; [|reflexivity]]);
    [|reflexivity| |reflexivity]; unfold disk_report, diskEvent; cbn [Event_DedupKey Event_Type];
    rewrite decide_True by done; done.
Qed.

Lemma disk_report_other key k ev : Event_DedupKey ev = k → k ≠ key → disk_report key ev = None.
Proof. intros <- Hne. unfold disk_report. by rewrite decide_False. Qed.

Lemma checkDisk_ok key node disk st : disk_ok key st → disk_ok key (checkDisk node disk st).2.
Proof.
  destruct st as [d t]. intros H. pose proof (checkDisk_effect node disk d t) as He. cbv zeta in He.
  set (k := node +:+ "|" +:+ pbDiskStats_Mount disk) in *.
  destruct He as [->|(ev & Hr & Hk & ->)]; [done|]. unfold disk_ok in *. cbn [fst snd tr_events] in *.
  rewrite omap_app. cbn [omap list_omap]. destruct (decide (k = key)) as [<-|Hne].
  - rewrite Hr. eapply alternates_snoc in H; [|reflexivity].
    destruct (default false (d_diskFull d !! k)); cbn [d_diskFull set_diskFull negb] in *;
      [rewrite lookup_delete_eq|rewrite lookup_insert_eq]; exact H.
  - rewrite (disk_report_other key k ev Hk Hne), app_nil_r.
    destruct (default false (d_diskFull d !! k)); cbn [d_diskFull set_diskFull];
      [by rewrite lookup_delete_ne|by rewrite lookup_insert_ne].
Qed.

Lemma checkDevice_disk key n active now dev st : disk_ok key st → disk_ok key (checkDevice n active now dev st).2.
Proof.
  destruct st as [d t]. unfold disk_ok, checkDevice. csimpl. intros H. destruct (fleb _ _); [done|].
  destruct (d_idleSince d !! _); [|done]. case_step; [done|]. csimpl. rewrite omap_app. csimpl.
  assert (disk_report key (idleEvent n dev active (Notify_DeviceIdleDuration (d_cfg d)) (deviceKey (Node_Name n) dev)) = None) as ->;
    [|by rewrite app_nil_r].
  unfold disk_report, idleEvent. destruct (allocationOf _ _ _ _) as [[] owner]; by case_decide.
Qed.

Lemma scanNode_disk key metrics active n st : disk_ok key st → disk_ok key (scanNodeMetrics metrics active n st).2.
Proof.
  intros H. unfold scanNodeMetrics. case_decide; [done|]. destruct (metrics_Get _ _) as [[snap|] []]; try done.
  unfold st_bind, checkDisks. destruct (st_for _ _ st) as [u st1] eqn:E.
  assert (disk_ok key st1) as H1.
  { replace st1 with (st_for (pbMetricsSnapshot_Disks snap) (checkDisk (Node_Name n)) st).2 by (by rewrite E).
    apply st_for_inv; [|done]. intros; by apply checkDisk_ok. }
  unfold checkDevices, st_bind. destruct st1 as [d1 t1]. simpl.
  apply st_for_inv; [|done]. intros; by apply checkDevice_disk.
Qed.

(** (invariant) Disk alerts are paired: over any sequence of scans, of any nodes, metrics and
    active jobs, the disk.full and disk.recovered events of one key (node and mount) alternate,
    beginning with disk.full, and the detector's flag for the key says which came last. *)
Theorem disk_events_alternate scans cfg clock key :
  let st := foldl (λ st s, (st_for s.1.1 (scanNodeMetrics s.1.2 s.2) st).2)
              (NewDetector cfg, mkTrace [] clock 0) scans in
  alternates false (omap (disk_report key) (tr_events st.2)) (default false (d_diskFull st.1 !! key)).
Proof.
  simpl. change (disk_ok key (foldl (λ st s, (st_for s.1.1 (scanNodeMetrics s.1.2 s.2) st).2)
              (NewDetector cfg, mkTrace [] clock 0) scans)).
  assert (disk_ok key (NewDetector cfg, mkTrace [] clock 0)) as H0 by done. revert H0.
  generalize (NewDetector cfg, mkTrace [] clock 0). induction scans as [|s scans IH]; intros st Hst; [done|].
  simpl. apply IH. apply st_for_inv; [|done]. intros; by apply scanNode_disk.
Qed.

(** ** Idle devices *)

(** One reading of a device. *)
Record Reading := mkReading { rd_node : Node; rd_active : list Job; rd_now : Time; rd_dev : pbDeviceStats }.

Definition rd_key (r : Reading) : string := deviceKey (Node_Name (rd_node r)) (rd_dev r).

Definition read_device (st : Detector * Trace) (r : Reading) : Detector * Trace :=
  (checkDevice (rd_node r) (rd_active r) (rd_now r) (rd_dev r) st).2.

Section idle.
Context (cfg : NotifyConfig) (key : string).

(** The device is not below the idle threshold. *)
Definition busy (r : Reading) : bool :=
  fleb (fmul (Notify_DeviceIdleUtil cfg) (f64 100)) (pbDeviceStats_Utilization (rd_dev r)).

(** The readings of the key. *)
Definition of_key (rs : list Reading) : list Reading := filter (λ r, rd_key r = key) rs.

(** The key has been idle in every reading since [t0], the first after a busy one. *)
Definition idle_since (rs : list Reading) (t0 : Time) : Prop :=
  ∃ pre r0 mid, rs = pre ++ r0 :: mid ∧ rd_now r0 = t0 ∧ busy r0 = false ∧
    (pre = [] ∨ ∃ pre' b, pre = pre' ++ [b] ∧ busy b = true) ∧ Forall (λ r, busy r = false) mid.

Lemma idle_since_busy rs r t0 : busy r = true → ¬ idle_since (rs ++ [r]) t0.
Proof.
  intros Hb (pre & r0 & mid & E & _ & Hr0 & _ & Hmid). destruct mid as [|x mid _] using rev_ind.
  - apply app_inj_tail in E as [_ ->]. congruence.
  - rewrite app_comm_cons, app_assoc in E. apply app_inj_tail in E as [_ ->].
    apply Forall_app in Hmid as [_ Hx]. inversion Hx; congruence.
Qed.

Lemma idle_since_extend rs r t0 : busy r = false → idle_since rs t0 → idle_since (rs ++ [r]) t0.
Proof.
  intros Hb (pre & r0 & mid & -> & Ht & Hr0 & Hpre & Hmid). exists pre, r0, (mid ++ [r]).
  split_and!; try done; [by rewrite <-app_assoc|]. apply Forall_app. split; [done|]. by repeat constructor.
Qed.

Lemma idle_since_inv rs r t0 : idle_since (rs ++ [r]) t0 → idle_since rs t0 ∨ (t0 = rd_now r ∧ ∀ t, ¬ idle_since rs t).
Proof.
  intros (pre & r0 & mid & E & Ht & Hr0 & Hpre & Hmid). destruct mid as [|x mid _] using rev_ind.
  - right. apply app_inj_tail in E as [-> ->]. split; [done|]. intros t.
    destruct Hpre as [->|(pre' & b & -> & Hb)]; [|by apply idle_since_busy].
    intros (p & ? & m & E & _). by destruct p.
  - left. rewrite app_comm_cons, app_assoc in E. apply app_inj_tail in E as [-> ->].
    apply Forall_app in Hmid as [Hmid _]. by exists pre, r0, mid.
Qed.

Lemma idle_since_start rs : (∀ t, ¬ idle_since rs t) → rs = [] ∨ ∃ pre b, rs = pre ++ [b] ∧ busy b = true.
Proof.
  induction rs as [|r rs IH] using rev_ind; intros Hno; [by left|].
  right. exists rs, r. split; [done|]. destruct (busy r) eqn:Hb; [done|]. exfalso.
  destruct IH as [->|(pre & b & -> & Hb')].
  - intros t Ht. by apply (Hno t), idle_since_extend.
  - apply (Hno (rd_now r)). exists [], r, []. split_and!; try done. by left.
  - apply (Hno (rd_now r)). exists (pre ++ [b]), r, []. split_and!; try done. right. eauto.
Qed.

(** The detector's table is the declarative notion. *)
Definition idle_ok (rs : list Reading) (st : Detector * Trace) : Prop :=
  d_cfg st.1 = cfg ∧ ∀ t, d_idleSince st.1 !! key = Some t ↔ idle_since (of_key rs) t.

Lemma of_key_snoc_eq rs r : rd_key r = key → of_key (rs ++ [r]) = of_key rs ++ [r].
Proof. intros E. unfold of_key. by rewrite filter_app, filter_cons_True. Qed.
Lemma of_key_snoc_ne rs r : rd_key r ≠ key → of_key (rs ++ [r]) = of_key rs.
Proof. intros E. unfold of_key. by rewrite filter_app, filter_cons_False, filter_nil, app_nil_r. Qed.

(** One reading: what it emits and what it does to the table. *)
Lemma read_device_effect d t r :
  d_cfg d = cfg →
  let since := d_idleSince d !! rd_key r in
  let reported := negb (busy r) && match since with
    | Some t0 => Notify_DeviceIdleDuration cfg <=? Sub (rd_now r) t0 | None => false end in
  read_device (d, t) r =
    (set_idleSince (if busy r then delete (rd_key r) (d_idleSince d)
                    else match since with Some _ => d_idleSince d
                         | None => <[rd_key r := rd_now r]> (d_idleSince d) end) d,
     if reported then mkTrace (tr_events t ++ [idleEvent (rd_node r) (rd_dev r) (rd_active r)
                                 (Notify_DeviceIdleDuration cfg) (rd_key r)]) (tr_clock t) (tr_tick t)
     else t).
Proof.
  intros Hcfg. unfold read_device, checkDevice, busy, rd_key. rewrite Hcfg. cbv zeta.
  destruct (fleb _ _); [done|]. cbn [negb andb].
  destruct (d_idleSince d !! deviceKey (Node_Name (rd_node r)) (rd_dev r)) as [t0|] eqn:E; [|done].
  assert (set_idleSince (d_idleSince d) d = d) as Hd by (by destruct d).
  rewrite Z.leb_antisym. destruct (Sub (rd_now r) t0 <? Notify_DeviceIdleDuration cfg); cbn [negb]; by rewrite Hd.
Qed.

Lemma read_device_ok rs st r : idle_ok rs st → idle_ok (rs ++ [r]) (read_device st r).
Proof.
  destruct st as [d t]. intros [Hcfg Hok]. simpl in Hcfg. rewrite (read_device_effect d t r Hcfg).
  split; [done|]. cbn [fst d_idleSince set_idleSince] in *. intros t0.
  destruct (decide (rd_key r = key)) as [Ek|Ek].
  - rewrite (of_key_snoc_eq _ _ Ek), Ek. destruct (busy r) eqn:Hb.
    + rewrite lookup_delete_eq. split; [done|]. intros H. by apply idle_since_busy in H.
    + destruct (d_idleSince d !! key) as [t1|] eqn:E1.
      * rewrite E1. split.
        -- intros [= <-]. apply idle_since_extend; [done|]. by apply Hok.
        -- intros [H|[_ H]]%idle_since_inv; [by apply Hok in H|]. destruct (H t1). by apply Hok.
      * rewrite lookup_insert_eq. assert (∀ t, ¬ idle_since (of_key rs) t) as Hno.
        { intros t' H. apply Hok in H. congruence. }
        split.
        -- intros [= <-]. exists (of_key rs), r, []. split_and!; try done. by apply idle_since_start.
        -- intros [H|[-> _]]%idle_since_inv; [by apply Hno in H|done].
  - rewrite (of_key_snoc_ne _ _ Ek). rewrite <-Hok.
    destruct (busy r); [by rewrite lookup_delete_ne|]. destruct (d_idleSince d !! rd_key r); [done|].
    by rewrite lookup_insert_ne.
Qed.

(** [C40] (functional) Devices with a low utilisation are reported exactly when due: after any sequence
    of readings of any devices, a further reading of a device emits an event if and only if its
    utilisation is below the threshold now, and has been in every reading since some instant, the
    first after a reading that was not, that is at least the configured duration ago; and it is
    the only event that reading emits.  Whether a process runs on the device, which
    docs/NOTIFICATIONS.md asks for as well, is not looked at. *)
Theorem device_idle_exact rs r clock :
  rd_key r = key →
  let st := foldl read_device (NewDetector cfg, mkTrace [] clock 0) rs in
  let due := busy r = false ∧
    ∃ t0, idle_since (of_key rs) t0 ∧ Notify_DeviceIdleDuration cfg ≤ Sub (rd_now r) t0 in
  (due → tr_events (read_device st r).2 = tr_events st.2 ++
     [idleEvent (rd_node r) (rd_dev r) (rd_active r) (Notify_DeviceIdleDuration cfg) key]) ∧
  (¬ due → tr_events (read_device st r).2 = tr_events st.2).
Proof.
  intros Hk st due. assert (idle_ok rs st) as Hok.
  { unfold st. clear. induction rs as [|r rs IH] using rev_ind.
    - split; [done|]. intros t. split; [simpl; by rewrite lookup_empty|]. intros (pre & ? & ? & E & _). by destruct pre.
    - rewrite foldl_app. by apply read_device_ok. }
  destruct st as [d t]. destruct Hok as [Hcfg Hs]. simpl in Hcfg. rewrite (read_device_effect d t r Hcfg).
  cbn [snd]. rewrite Hk. cbn [fst] in Hs. split.
  - intros [Hb (t0 & Hi & Hd)]. apply Hs in Hi. rewrite Hb, Hi. cbn [negb andb].
    by rewrite (proj2 (Z.leb_le _ _)).
  - intros Hn. destruct (_ && _) eqn:Ed; [|done]. exfalso. apply Hn. bool_to_prop. split; [done|].
    destruct (d_idleSince d !! key) as [t0|] eqn:E; [|done]. bool_to_prop. exists t0. split; [by apply Hs|done].
Qed.
End idle.

(** ** Routing by the default rules *)

(** The rules an event matches, with the recipients they resolve to. *)
Definition routed (rules : list NotifyRule) (ev : Event) : list (string * list string) :=
  (λ r, (Rule_Name r, resolveRecipients (Rule_To r) ev)) <$> filter (λ r, matches r ev = true) rules.

Lemma matches_other_type types labels min name to chs cd ev :
  types ≠ [] → Event_Type ev ∉ types →
  matches (mkNotifyRule name (mkRuleMatch types labels min) to chs cd) ev = false.
Proof.
  intros Hne Hin. unfold matches, contains. simpl.
  by rewrite (bool_decide_eq_false_2 (types = [])), (bool_decide_eq_false_2 (Event_Type ev ∈ types)).
Qed.

Lemma matches_labelled typ ev k v name to chs cd :
  Event_Type ev = typ →
  matches (mkNotifyRule name (mkRuleMatch [typ] {[k := v]} "") to chs cd) ev =
    bool_decide (map_get (Event_Labels ev) k = v).
Proof.
  intros E. unfold matches, contains. simpl.
  rewrite (bool_decide_eq_true_2 (Event_Type ev ∈ [typ])) by (rewrite E; left).
  rewrite map_to_list_singleton. simpl. rewrite andb_true_r.
  by destruct (bool_decide (map_get (Event_Labels ev) k = v)).
Qed.

(** (functional) An idle device reaches the right people: by the default rules the event for
    a device held by an active job goes to exactly one rule and to the owner of that job, and
    the event for a free device to exactly one rule and to the administrators. *)
Theorem idle_event_routed n dev act dur key :
  let '(allocated, owner) := allocationOf (Node_ID n) (pbDeviceStats_Kind dev) (pbDeviceStats_Index dev) act in
  routed DefaultRules (idleEvent n dev act dur key) =
    if allocated then [("device-idle-allocated", if decide (owner = "") then [] else [owner])]
    else [("device-idle-free", ["admins"])].
Proof.
  destruct (allocationOf _ _ _ _) as [al owner] eqn:Ea.
  assert (∃ ev, idleEvent n dev act dur key = ev ∧ Event_Type ev = TypeDeviceIdle ∧
    map_get (Event_Labels ev) "allocated" = format_t al ∧ (al = true → map_get (Event_Labels ev) "owner" = owner))
    as (ev & -> & Et & Hal & How).
  { eexists. split; [reflexivity|]. unfold idleEvent. rewrite Ea. unfold map_get.
    destruct al; cbn [Event_Type Event_Labels]; split_and!; try done; intros; by simplify_map_eq. }
  unfold routed, DefaultRules.
  repeat first
    [ rewrite filter_cons_False by (rewrite matches_other_type; [done|done|rewrite Et; by_decide])
    | rewrite filter_cons, (matches_labelled TypeDeviceIdle ev) by done; rewrite Hal ].
  rewrite filter_nil. destruct al; cbn [format_t]; repeat case_decide; try done; csimpl.
  all: unfold resolveRecipients; cbn [foldl Rule_To]; unfold addRecipient, recipient; cbn -[map_get decide].
  all: rewrite ?How by done; repeat case_decide; try done; set_solver.
Qed.

(** ** Witnesses *)

(** A process whose clock advances ten minutes at each reading. *)
Definition ex_world : World DB := mkWorld emptyDB (λ i, timeUnix (1000 + 600 * Z.of_nat i)) 0 (λ i, [Z.of_nat i; 1; 2; 3; 4; 5; 6; 7]) 0.
Definition ex_rule : NotifyRule := mkNotifyRule "disk-full" (mkRuleMatch [TypeDiskFull] ∅ "") ["admins"] [] Hour.
Definition ex_event : Event := mkEvent "" TypeDiskFull SevWarning "alpha" "full" "alpha|/data" ∅ 0.

Lemma allow_spaced_witness :
  ∃ st1 st3, allow ex_rule ex_event (ex_world, NewEngine (Server_Notify DefaultServer)) = (true, st1) ∧
    allow ex_rule ex_event (run_allow [(ex_rule, ex_event)] st1) = (false, st3) ∧
    ∃ t1, e_cooldown st1.2 !! cooldownKey ex_rule ex_event = Some t1.
Proof.
  destruct (allow ex_rule ex_event (ex_world, NewEngine (Server_Notify DefaultServer))) as [b1 st1] eqn:E1.
  assert (b1 = true) as ->.
  { pose proof (f_equal fst E1) as H. vm_compute in H. by symmetry. }
  destruct (allow ex_rule ex_event (run_allow [(ex_rule, ex_event)] st1)) as [b st3] eqn:E2.
  assert (b = false) as ->.
  { pose proof (f_equal snd E1) as H. simpl in H. subst st1. pose proof (f_equal fst E2) as H.
    vm_compute in H. by symmetry. }
  exists st1, st3. split; [reflexivity|]. split; [exact E2|].
  destruct (allow_spaced ex_rule ex_event ex_rule ex_event [(ex_rule, ex_event)]
    (ex_world, NewEngine (Server_Notify DefaultServer)) st1 st3 false) as (t1 & Ht & _);
    [|by_decide|by_decide|reflexivity|exact E1|exact E2|by exists t1].
  intros i j Hij. simpl. unfold timeUnix, Second. lia.
Defined.

Definition ex_reading (minutes : Z) (util : Z) : Reading :=
  mkReading (ex_node "n1" "alpha") [] (timeUnix (60 * minutes))
    (mkPbDeviceStats "gpu" "nvidia" 0 "" "A100" (f64 util) 80 0 (f64 40) (f64 60)).

Lemma device_idle_exact_witness :
  let rs := [ex_reading 10 90; ex_reading 20 0; ex_reading 30 1] in
  tr_events (read_device (foldl read_device (NewDetector (Server_Notify DefaultServer), mkTrace [] (λ _, 0) 0) rs)
    (ex_reading 51 2)).2 =
  tr_events (foldl read_device (NewDetector (Server_Notify DefaultServer), mkTrace [] (λ _, 0) 0) rs).2 ++
    [idleEvent (ex_node "n1" "alpha") (rd_dev (ex_reading 51 2)) [] (30 * Minute) "alpha|gpu|0"].
Proof.
  intros rs.
  apply (device_idle_exact (Server_Notify DefaultServer) "alpha|gpu|0" rs (ex_reading 51 2)); [by vm_compute|].
  split; [by vm_compute|]. exists (timeUnix 1200). split; [|by vm_compute].
  exists [ex_reading 10 90], (ex_reading 20 0), [ex_reading 30 1].
  split; [by vm_compute|]. split; [done|]. split; [by vm_compute|]. split.
  - right. exists [], (ex_reading 10 90). split; [done|by vm_compute].
  - constructor; [by vm_compute|constructor].
Defined.
