(* ===== verification/Transport.v ===== *)
(** * internal/transport: SSH tunnels, provisioning, diagnosis

    The SSH library and the operating system are parameters: how keys are parsed, what a dial, a
    session and a remote command answer.  A connection to the remote scp is the bytes still to be
    read from it, the error that ends them, the bytes written so far and the outcome of each
    write. *)
From Stdlib Require Import Ascii.
From S2P Require Import Prelude GoBase GoStrings GoFormat GoPath Event.
Local Open Scope Z_scope.

Definition newline : ascii := Ascii.ascii_of_nat 10.
Definition dquote : string := String (Ascii.ascii_of_nat 34) "".

(** ** ssh.go *)

Record SSHConfig := mkSSHConfig {
  SSH_Name : string;
  SSH_Addr : string;
  SSH_User : string;
  SSH_KeyPath : string;
  SSH_KnownHost : string;
  SSH_RemoteListen : string
}.

Section dial.
Context {Signer PublicKey Client : Type}.
Variable readFile : string → result string.
Variable ParsePrivateKey : string → result Signer.
Variable ParseAuthorizedKey : string → result PublicKey.
(** The dial of an address as a user with a key; [None] accepts every host key. *)
Variable Dial : string → string → Signer → option PublicKey → result Client.

Definition loadSigner (path : string) : result Signer :=
  match readFile path with Err e => Err e | Ok b => ParsePrivateKey b end.

Definition parseHostKey (line : string) : result PublicKey :=
  match ParseAuthorizedKey line with
  | Ok pk => Ok pk
  | Err _ =>
      let bad := Err ("invalid host key " +:+ Quote line) in
      match Fields line with
      | _ :: ((_ :: _ :: _) as rest) =>
          match ParseAuthorizedKey (Join rest " ") with Ok pk => Ok pk | Err _ => bad end
      | _ => bad
      end
  end.

(** The key a host must present; [None] for none. *)
Definition hostKeyCallback (known : string) : result (option PublicKey) :=
  if decide (TrimSpace known = "") then Ok None
  else match parseHostKey known with Ok pk => Ok (Some pk) | Err e => Err e end.

Definition dialSSH (cfg : SSHConfig) : result Client :=
  match loadSigner (SSH_KeyPath cfg) with
  | Err e => Err ("load key: " +:+ e)
  | Ok signer =>
      match hostKeyCallback (SSH_KnownHost cfg) with
      | Err e => Err ("host key: " +:+ e)
      | Ok hostKey =>
          match Dial (SSH_Addr cfg) (SSH_User cfg) signer hostKey with
          | Err e => Err ("ssh dial: " +:+ e)
          | Ok client => Ok client
          end
      end
  end.
End dial.

(** [Run]: what is slept after each attempt, given how long each [serveOnce] lasted. *)
Fixpoint tunnelDelays (backoff : Duration) (lasted : list Duration) : list Duration :=
  match lasted with
  | [] => []
  | d :: lasted' =>
      let backoff := if 30 * Second <? d then Second else backoff in
      backoff :: tunnelDelays (backoffNext (30 * Second) backoff) lasted'
  end.

Definition tunnel_Run (lasted : list Duration) : list Duration := tunnelDelays Second lasted.

(** ** provision.go *)

Record ProvisionSpec := mkProvisionSpec {
  Spec_LocalBin : string;
  Spec_RemotePath : string;
  Spec_ServerAddr : string;
  Spec_NodeName : string;
  Spec_Partition : string;
  Spec_ExtraArgs : string;
  Spec_LogPath : string;
  Spec_PidPath : string
}.

Definition scpTimeout : Duration := 60 * Second.

Definition shellQuote (s : string) : string := "'" +:+ ReplaceAll s "'" "'\''" +:+ "'".

Definition launchCommand (spec : ProvisionSpec) : string :=
  "nohup " +:+ shellQuote (Spec_RemotePath spec) +:+ " --server " +:+ shellQuote (Spec_ServerAddr spec) +:+
  " --name " +:+ shellQuote (Spec_NodeName spec) +:+
  (if decide (Spec_Partition spec = "") then "" else " --partition " +:+ shellQuote (Spec_Partition spec)) +:+
  (if decide (TrimSpace (Spec_ExtraArgs spec) = "") then "" else " " +:+ TrimSpace (Spec_ExtraArgs spec)) +:+
  " </dev/null >" +:+ shellQuote (Spec_LogPath spec) +:+ " 2>&1 & echo $! > " +:+ shellQuote (Spec_PidPath spec).

(** [session] opens a session, [output] runs the command: its combined output and its error. *)
Definition runCommand (session : result unit) (output : string → string * option string) (cmd : string) : result unit :=
  match session with
  | Err e => Err e
  | Ok _ => match output cmd with
            | (out, Some e) => Err (e +:+ ": " +:+ TrimSpace out)
            | (_, None) => Ok tt
            end
  end.

(** *** The scp protocol *)

Record Conn := mkConn {
  c_in : string;                    (** bytes to come from the remote side *)
  c_end : string;                   (** the error after them, [io.EOF] at the end *)
  c_out : string;                   (** bytes written *)
  c_writes : list (option (nat * string));
    (** how the next writes fail: after how many bytes, with what error; success when it is empty *)
  c_closed : bool
}.

Definition set_in (s : string) (c : Conn) : Conn := mkConn s (c_end c) (c_out c) (c_writes c) (c_closed c).

(** One write: all the bytes, or some of them and an error. *)
Definition conn_write (s : string) : ST Conn (result unit) := λ c,
  match c_writes c with
  | Some (n, e) :: ws => (Err e, mkConn (c_in c) (c_end c) (c_out c +:+ str_take n s) ws (c_closed c))
  | None :: ws => (Ok tt, mkConn (c_in c) (c_end c) (c_out c +:+ s) ws (c_closed c))
  | [] => (Ok tt, mkConn (c_in c) (c_end c) (c_out c +:+ s) [] (c_closed c))
  end.

(** Bytes up to a newline, which is consumed, or up to the end. *)
Fixpoint takeLine (s : string) : string * string :=
  match s with
  | EmptyString => ("", "")
  | String c s' => if Ascii.eqb c newline then ("", s')
                   else let '(l, r) := takeLine s' in (String c l, r)
  end.

(** The message read; its error is not used by the caller. *)
Definition readLine : ST Conn string := λ c, let '(l, r) := takeLine (c_in c) in (l, set_in r c).

Definition readAck : ST Conn (result unit) := λ c,
  match c_in c with
  | EmptyString => (Err (c_end c), c)
  | String b rest =>
      let c := set_in rest c in
      let v := byte_val b in
      if v =? 0 then (Ok tt, c)
      else if (v =? 1) || (v =? 2) then let '(msg, c) := readLine c in (Err ("scp remote: " +:+ msg), c)
      else (Err ("scp protocol: unexpected response 0x" +:+ hex_digit (v / 16) +:+ hex_digit (v mod 16)), c)
  end.

Definition scpControl (size : Z) (name : string) : string :=
  "C0755 " +:+ itoa size +:+ " " +:+ name +:+ String newline "".

(** [io.Copy] of the file: what each read gives is written, if it is not empty, until the end of the
    file or the error of reading it. *)
Fixpoint copyContent (reads : list string) (readErr : option string) : ST Conn (result unit) :=
  match reads with
  | [] => st_ret (match readErr with Some e => Err e | None => Ok tt end)
  | chunk :: reads' =>
      (if decide (chunk = "") then st_ret (Ok tt) else conn_write chunk) ?;;
      copyContent reads' readErr
  end.

Definition conn_close : ST Conn unit := λ c, (tt, mkConn (c_in c) (c_end c) (c_out c) (c_writes c) true).

Definition writeSCP (reads : list string) (readErr : option string) (size : Z) (name : string) : ST Conn (result unit) :=
  wrap_err "await ready" readAck ?;;
  wrap_err "send control" (conn_write (scpControl size name)) ?;;
  wrap_err "await control ack" readAck ?;;
  wrap_err "send data" (copyContent reads readErr) ?;;
  wrap_err "send end" (conn_write (String (Ascii.ascii_of_nat 0) "")) ?;;
  wrap_err "await data ack" readAck ?;;
  conn_close ;;; st_ret (Ok tt).

(** [file] is what the reads of the local file give, the error that ends them, and its size; [start]
    starts the remote command, [conn] is the connection to it; [late] says that the protocol did
    not end within [scpTimeout]. *)
Definition uploadSCP (file : string → result (list string * option string * Z))
    (session stdin stdout : result unit) (start : string → result unit) (conn : Conn) (late : bool)
    (localPath remotePath : string) : result unit :=
  match file localPath with
  | Err e => Err e
  | Ok (reads, readErr, size) =>
      match session, stdin, stdout, start ("scp -t " +:+ shellQuote remotePath) with
      | Err e, _, _, _ => Err ("new session: " +:+ e)
      | _, Err e, _, _ => Err ("stdin pipe: " +:+ e)
      | _, _, Err e, _ => Err ("stdout pipe: " +:+ e)
      | _, _, _, Err e => Err ("start: " +:+ e)
      | Ok _, Ok _, Ok _, Ok _ =>
          if late then Err ("scp upload timed out after " +:+ Duration_String scpTimeout)
          else (writeSCP reads readErr size (Base remotePath) conn).1
      end
  end.

(** [ctxErr] is the error of the context; [dial], [upload] and [run] are the steps above. *)
Definition Provision {Client} (ctxErr : option string) (dial : SSHConfig → result Client)
    (upload : Client → string → string → result unit) (run : Client → string → result unit)
    (cfg : SSHConfig) (spec : ProvisionSpec) : result unit :=
  if decide (Spec_LocalBin spec = "") then Err "provision: agent_bin 未配置"
  else match ctxErr with
       | Some e => Err e
       | None =>
           match dial cfg with
           | Err e => Err e
           | Ok client =>
               match upload client (Spec_LocalBin spec) (Spec_RemotePath spec) with
               | Err e => Err ("scp agent binary: " +:+ e)
               | Ok _ =>
                   match run client (launchCommand spec) with
                   | Err e => Err ("launch agent: " +:+ e)
                   | Ok _ => Ok tt
                   end
               end
           end
       end.

(** ** diagnose.go *)

Notation DiagCause := string (only parsing).

Definition DiagSSHDown : DiagCause := "ssh-down".
Definition DiagAgentKilled : DiagCause := "agent-killed".
Definition DiagOther : DiagCause := "other".

Record Diagnosis := mkDiagnosis { Diagnosis_Cause : DiagCause; Diagnosis_Detail : string }.

Definition diagClassify (dialErr procErr : option string) (alive : bool) : Diagnosis :=
  match dialErr, procErr with
  | Some e, _ => mkDiagnosis DiagSSHDown ("SSH 连接失败: " +:+ e)
  | None, Some e => mkDiagnosis DiagOther ("SSH 正常，但无法确认 agent 进程状态: " +:+ e)
  | None, None =>
      if negb alive then mkDiagnosis DiagAgentKilled "SSH 正常，但 agent 进程未在运行（可能被杀 / 崩溃 / OOM）"
      else mkDiagnosis DiagOther "SSH 与 agent 进程均正常，但控制平面仍未收到心跳（疑似隧道或回环异常）"
  end.

Definition aliveCommand (pidPath agentPath : string) : string :=
  "p=$(cat " +:+ shellQuote pidPath +:+ " 2>/dev/null); if [ -n " +:+ dquote +:+ "$p" +:+ dquote +:+
  " ] && kill -0 " +:+ dquote +:+ "$p" +:+ dquote +:+
  " 2>/dev/null; then echo ALIVE; exit 0; fi; for c in /proc/[0-9]*/cmdline; do if tr '\0' ' ' < " +:+
  dquote +:+ "$c" +:+ dquote +:+ " 2>/dev/null | grep -qF " +:+ shellQuote agentPath +:+
  "; then echo ALIVE; exit 0; fi; done; echo DEAD".

(** [output] is what the remote command prints, or its failure. *)
Definition agentAlive (session : result unit) (output : string → result string) (pidPath agentPath : string) : result bool :=
  match session with
  | Err e => Err e
  | Ok _ => match output (aliveCommand pidPath agentPath) with
            | Err e => Err e
            | Ok out => Ok (Contains out "ALIVE")
            end
  end.

Definition Diagnose {Client} (ctxErr : option string) (dial : SSHConfig → result Client)
    (alive : Client → string → string → result bool) (cfg : SSHConfig) (pidPath agentPath : string) : Diagnosis :=
  match ctxErr with
  | Some e => mkDiagnosis DiagOther ("诊断被取消: " +:+ e)
  | None =>
      match dial cfg with
      | Err e => diagClassify (Some e) None false
      | Ok client =>
          match alive client pidPath agentPath with
          | Ok a => diagClassify None None a
          | Err e => diagClassify None (Some e) false
          end
      end
  end.

Example shellQuote_1 : shellQuote "it's" = "'it'\''s'".
Proof. reflexivity. Qed.
Example scpControl_1 : scpControl 100 "skipper-agent" = "C0755 100 skipper-agent" +:+ String newline "".
Proof. reflexivity. Qed.
