(* ===== verification/TransportTheorems.v ===== *)
(** * Transport: quoting is safe, scp is spoken correctly, retries are bounded *)
From Stdlib Require Import Ascii.
From S2P Require Import Prelude GoBase GoStrings GoFormat GoPath Event Transport.
Local Open Scope Z_scope.

(** ** Shell words

    The POSIX rules for splitting a command line into tokens, on what the commands use: blanks,
    the operators [< > & ;], single quotes, backslash. *)

Inductive token := Word (s : string) | Op (c : ascii).

Inductive lstate :=
| LBlank                  (** between tokens *)
| LWord (acc : string)    (** inside a word, outside quotes *)
| LQuote (acc : string)   (** inside single quotes *)
| LEsc (acc : string).    (** after a backslash *)

Definition is_op (c : ascii) : bool :=
  Ascii.eqb c "<" || Ascii.eqb c ">" || Ascii.eqb c "&" || Ascii.eqb c ";".

Definition snoc (s : string) (c : ascii) : string := s +:+ String c "".

Fixpoint lex (st : lstate) (s : string) : option (list token) :=
  match s with
  | EmptyString =>
      match st with LBlank => Some [] | LWord acc => Some [Word acc] | LQuote _ | LEsc _ => None end
  | String c s' =>
      match st with
      | LBlank =>
          if Ascii.eqb c " " then lex LBlank s'
          else if is_op c then ts ← lex LBlank s'; Some (Op c :: ts)
          else if Ascii.eqb c "'" then lex (LQuote "") s'
          else if Ascii.eqb c "\" then lex (LEsc "") s'
          else lex (LWord (String c "")) s'
      | LWord acc =>
          if Ascii.eqb c " " then ts ← lex LBlank s'; Some (Word acc :: ts)
          else if is_op c then ts ← lex LBlank s'; Some (Word acc :: Op c :: ts)
          else if Ascii.eqb c "'" then lex (LQuote acc) s'
          else if Ascii.eqb c "\" then lex (LEsc acc) s'
          else lex (LWord (snoc acc c)) s'
      | LQuote acc => if Ascii.eqb c "'" then lex (LWord acc) s' else lex (LQuote (snoc acc c)) s'
      | LEsc acc => lex (LWord (snoc acc c)) s'
      end
  end.

Lemma snoc_app acc c s : snoc acc c +:+ s = acc +:+ String c s.
Proof. unfold snoc. by rewrite str_app_assoc. Qed.

(** Inside the quotes, every byte of the argument is taken as it is. *)
Lemma lex_quoted s acc rest :
  lex (LQuote acc) (ReplaceAll s "'" "'\''" +:+ "'" +:+ rest) = lex (LWord (acc +:+ s)) rest.
Proof.
  revert acc; induction s as [|c s IH]; intros acc.
  - change (ReplaceAll "" "'" "'\''" +:+ "'" +:+ rest) with (String "'" rest). simpl. by rewrite str_app_nil_r.
  - cbn [ReplaceAll]. destruct (Ascii.eqb c "'") eqn:E.
    + apply Ascii.eqb_eq in E as ->. rewrite str_app_assoc.
      change ("'\''" +:+ ?x) with (String "'" (String "\" (String "'" (String "'" x)))).
      cbn [lex Ascii.eqb Bool.eqb is_op]. simpl. rewrite IH. by rewrite snoc_app.
    + change (String c (ReplaceAll s "'" "'\''") +:+ "'" +:+ rest) with
        (String c (ReplaceAll s "'" "'\''" +:+ "'" +:+ rest)). cbn [lex]. rewrite E, IH. by rewrite snoc_app.
Qed.

(** A quoted argument is one word, whatever it contains. *)
Lemma lex_shellQuote s rest : lex LBlank (shellQuote s +:+ rest) = lex (LWord s) rest.
Proof.
  unfold shellQuote. rewrite !str_app_assoc. change ("'" +:+ ?x) with (String "'" x) at 1.
  change (lex LBlank (String "'" ?x)) with (lex (LQuote "") x). by rewrite lex_quoted.
Qed.

(** Tokens before those of the rest. *)
Definition emit (ts : list token) (o : option (list token)) : option (list token) := app ts <$> o.

Lemma emit_emit ts1 ts2 o : emit ts1 (emit ts2 o) = emit (ts1 ++ ts2) o.
Proof. destruct o as [ts|]; [|done]. unfold emit. csimpl. by rewrite app_assoc. Qed.

(** A literal piece of a command, evaluated. *)
Ltac lex_literal := intros; cbn; unfold snoc; cbn;
  match goal with |- context [lex LBlank ?x] => by destruct (lex LBlank x) end.

Lemma lex_nohup x : lex LBlank ("nohup " +:+ x) = emit [Word "nohup"] (lex LBlank x).
Proof. lex_literal. Qed.
Lemma lex_server w x : lex (LWord w) (" --server " +:+ x) = emit [Word w; Word "--server"] (lex LBlank x).
Proof. lex_literal. Qed.
Lemma lex_name w x : lex (LWord w) (" --name " +:+ x) = emit [Word w; Word "--name"] (lex LBlank x).
Proof. lex_literal. Qed.
Lemma lex_partition w x : lex (LWord w) (" --partition " +:+ x) = emit [Word w; Word "--partition"] (lex LBlank x).
Proof. lex_literal. Qed.
Lemma lex_redirect w x :
  lex (LWord w) (" </dev/null >" +:+ x) = emit [Word w; Op "<"; Word "/dev/null"; Op ">"] (lex LBlank x).
Proof. lex_literal. Qed.
Lemma lex_background w x :
  lex (LWord w) (" 2>&1 & echo $! > " +:+ x) =
  emit [Word w; Word "2"; Op ">"; Op "&"; Word "1"; Op "&"; Word "echo"; Word "$!"; Op ">"] (lex LBlank x).
Proof. lex_literal. Qed.

(** (safety) Provisioning cannot be injected: whatever bytes the remote path, the server address,
    the node name, the partition and the log and pid paths contain (quotes, blanks, operators),
    the shell reads the launch command as exactly these words and redirections. *)
Theorem launchCommand_tokens spec :
  TrimSpace (Spec_ExtraArgs spec) = "" →
  lex LBlank (launchCommand spec) = Some (
    [Word "nohup"; Word (Spec_RemotePath spec); Word "--server"; Word (Spec_ServerAddr spec);
     Word "--name"; Word (Spec_NodeName spec)] ++
    (if decide (Spec_Partition spec = "") then [] else [Word "--partition"; Word (Spec_Partition spec)]) ++
    [Op "<"; Word "/dev/null"; Op ">"; Word (Spec_LogPath spec); Word "2"; Op ">"; Op "&"; Word "1"; Op "&";
     Word "echo"; Word "$!"; Op ">"; Word (Spec_PidPath spec)]).
Proof.
  intros Hx. unfold launchCommand. rewrite (decide_True _ _ Hx).
  assert (lex LBlank (shellQuote (Spec_PidPath spec)) = Some [Word (Spec_PidPath spec)]) as Hpid.
  { by rewrite <-(str_app_nil_r (shellQuote _)), lex_shellQuote. }
  rewrite lex_nohup, lex_shellQuote, lex_server, lex_shellQuote, lex_name, lex_shellQuote. case_decide.
  - repeat change ("" +:+ ?x) with x. by rewrite lex_redirect, lex_shellQuote, lex_background, Hpid.
  - change ("" +:+ ?x) with x.
    by rewrite str_app_assoc, lex_partition, lex_shellQuote, lex_redirect, lex_shellQuote, lex_background, Hpid.
Qed.

Definition ex_spec : ProvisionSpec :=
  mkProvisionSpec "bin/agent" "/tmp/a; rm -rf 'x'" "127.0.0.1:7600" "n'1 $(id)" "gpu" " " "/tmp/a.log" "/tmp/a.pid".

Example launchCommand_tokens_witness :
  ∃ ts, lex LBlank (launchCommand ex_spec) =
    Some (Word "nohup" :: Word "/tmp/a; rm -rf 'x'" :: Word "--server" :: Word "127.0.0.1:7600" ::
          Word "--name" :: Word "n'1 $(id)" :: Word "--partition" :: Word "gpu" :: ts).
Proof.
  assert (TrimSpace (Spec_ExtraArgs ex_spec) = "") as Hx by (vm_compute; reflexivity).
  eexists. exact (launchCommand_tokens ex_spec Hx).
Defined.

(** ** scp *)

Definition zero : ascii := Ascii.ascii_of_nat 0.

(** The sink of the protocol: a control line "C<mode> <size> <name>", as many bytes, a zero byte. *)
Definition scp_sink (s : string) : option (string * string * string) :=
  let '(line, rest) := takeLine s in
  match line with
  | String "C" ctl =>
      '(mode, r) ← Cut ctl " ";
      '(sz, name) ← Cut r " ";
      size ← ParseUint sz;
      let content := str_take (Z.to_nat size) rest in
      if decide (str_drop (Z.to_nat size) rest = String zero "" ∧ strlen content = Z.to_nat size)
      then Some (mode, name, content) else None
  | _ => None
  end.

Lemma readAck_ok c c' : readAck c = (Ok tt, c') ↔ ∃ rest, c_in c = String zero rest ∧ c' = set_in rest c.
Proof.
  unfold readAck, readLine. split.
  - destruct (c_in c) as [|b rest]; [done|]. destruct (byte_val b =? 0) eqn:E0; bool_to_prop.
    + intros [= <-]. exists rest. split; [|done]. f_equal. by apply byte_val_inj.
    + case_step; [|done]. by destruct (takeLine _).
  - intros (rest & -> & ->). done.
Qed.

(** The next [n] writes succeed. *)
Definition writes_ok (n : nat) (ws : list (option (nat * string))) : Prop := Forall (λ o, o = None) (take n ws).

Lemma writes_ok_add n m ws : writes_ok (n + m) ws ↔ writes_ok n ws ∧ writes_ok m (drop n ws).
Proof. unfold writes_ok. rewrite <-Forall_app, take_take_drop. done. Qed.

(** The connection after [n] writes of these bytes. *)
Definition wrote (n : nat) (s : string) (c : Conn) : Conn :=
  mkConn (c_in c) (c_end c) (c_out c +:+ s) (drop n (c_writes c)) (c_closed c).

Lemma wrote_wrote n m s t c : wrote m t (wrote n s c) = wrote (n + m) (s +:+ t) c.
Proof. unfold wrote. simpl. by rewrite str_app_assoc, drop_drop. Qed.

Lemma conn_write_ok s c c' : conn_write s c = (Ok tt, c') ↔ writes_ok 1 (c_writes c) ∧ c' = wrote 1 s c.
Proof.
  unfold conn_write, writes_ok, wrote. destruct (c_writes c) as [|[[n e]|] ws]; simpl; rewrite ?drop_0.
  - split; [intros [= <-]; by split; [constructor|]|by intros [_ ->]].
  - split; [done|]. intros [H _]. by inversion H.
  - split; [intros [= <-]; by split; [repeat constructor|]|by intros [_ ->]].
Qed.

Lemma try_ok {S A B} (m : ST S (result A)) (k : A → ST S (result B)) s b s' :
  st_try m k s = (Ok b, s') ↔ ∃ a s1, m s = (Ok a, s1) ∧ k a s1 = (Ok b, s').
Proof. unfold st_try. destruct (m s) as [[a|e] s1]; naive_solver. Qed.

Lemma wrap_ok {S A} msg (m : ST S (result A)) s a s' : wrap_err msg m s = (Ok a, s') ↔ m s = (Ok a, s').
Proof. unfold wrap_err. destruct (m s) as [[b|e] s1]; naive_solver. Qed.

(** The writes that [io.Copy] makes. *)
Definition copies (reads : list string) : nat := length (filter (λ s, s ≠ "") reads).

Lemma copyContent_ok reads readErr c c' :
  copyContent reads readErr c = (Ok tt, c') ↔
  readErr = None ∧ writes_ok (copies reads) (c_writes c) ∧ c' = wrote (copies reads) (str_concat reads) c.
Proof.
  unfold copies. revert c; induction reads as [|s reads IH]; intros c; cbn [copyContent].
  - unfold st_ret, writes_ok, wrote. simpl. rewrite str_app_nil_r. destruct readErr, c; naive_solver.
  - rewrite try_ok. destruct (decide (s = "")) as [->|Hs].
    + rewrite filter_cons_False by naive_solver. unfold st_ret. rewrite <-IH. naive_solver.
    + rewrite filter_cons_True by done. cbn [length]. change (Datatypes.S ?n) with (1 + n)%nat. rewrite writes_ok_add.
      change (str_concat (s :: reads)) with (s +:+ str_concat reads). rewrite <-wrote_wrote. split.
      * intros ([] & s1 & [? ->]%conn_write_ok & (? & ? & ->)%IH). done.
      * intros (? & (? & ?) & ->). exists tt, (wrote 1 s c). split; [by apply conn_write_ok|by apply IH].
Qed.

Lemma writeSCP_ok reads readErr size name c c' :
  writeSCP reads readErr size name c = (Ok tt, c') ↔
  ∃ rest, c_in c = String zero (String zero (String zero rest)) ∧ readErr = None ∧
    writes_ok (2 + copies reads) (c_writes c) ∧
    c' = mkConn rest (c_end c) (c_out c +:+ scpControl size name +:+ str_concat reads +:+ String zero "")
           (drop (2 + copies reads) (c_writes c)) true.
Proof.
  replace (2 + copies reads)%nat with (1 + (copies reads + 1))%nat by lia. repeat setoid_rewrite writes_ok_add.
  unfold writeSCP. generalize (scpControl size name); intros ctl.
  split.
  - intros ([] & s1 & H1%wrap_ok & ([] & s2 & H2%wrap_ok & ([] & s3 & H3%wrap_ok & ([] & s4 & H4%wrap_ok & ([] & s5 & H5%wrap_ok
      & ([] & s6 & H6%wrap_ok & [= <-])%try_ok)%try_ok)%try_ok)%try_ok)%try_ok)%try_ok.
    apply readAck_ok in H1 as (r1 & E1 & ->). apply conn_write_ok in H2 as (W2 & ->).
    apply readAck_ok in H3 as (r3 & E3 & ->). apply copyContent_ok in H4 as (-> & W4 & ->).
    apply conn_write_ok in H5 as (W5 & ->). apply readAck_ok in H6 as (r6 & E6 & ->). simpl in *. subst r1 r3. exists r6.
    rewrite !str_app_assoc, !drop_drop. rewrite !drop_drop in W5. done.
  - intros (rest & Ei & -> & (W1 & W2 & W3) & ->).
    apply try_ok. eexists tt, _. split; [apply wrap_ok, readAck_ok; by eexists|].
    apply try_ok. eexists tt, _. split; [by apply wrap_ok, conn_write_ok|].
    apply try_ok. eexists tt, _. split; [apply wrap_ok, readAck_ok; by eexists|].
    apply try_ok. eexists tt, _. split; [by apply wrap_ok, copyContent_ok|].
    apply try_ok. eexists tt, _. split; [by apply wrap_ok, conn_write_ok|].
    apply try_ok. eexists tt, _. split; [apply wrap_ok, readAck_ok; by eexists|].
    unfold conn_close, st_bind, st_ret, wrote. simpl. by rewrite !str_app_assoc, !drop_drop.
Qed.

Lemma takeLine_newline s t :
  str_exists (Ascii.eqb newline) s = false → takeLine (s +:+ String newline t) = (s, t).
Proof.
  induction s as [|c s IH]; [done|]. cbn [str_exists]. intros [E1 E2]%orb_false_iff.
  change (String c s +:+ String newline t) with (String c (s +:+ String newline t)). cbn [takeLine].
  rewrite Ascii.eqb_sym, E1. by rewrite IH.
Qed.

Lemma scp_sink_control content name :
  str_exists (Ascii.eqb newline) name = false → Z.of_nat (strlen content) < 2 ^ 63 →
  scp_sink (scpControl (Z.of_nat (strlen content)) name +:+ content +:+ String zero "") = Some ("0755", name, content).
Proof.
  intros Hn Hlen. set (n := Z.of_nat (strlen content)) in *.
  destruct (itoa_digits n) as (Hd & _ & _); [lia|].
  assert (scpControl n name +:+ content +:+ String zero "" =
    ("C0755 " +:+ itoa n +:+ " " +:+ name) +:+ String newline (content +:+ String zero "")) as ->.
  { unfold scpControl. by rewrite !str_app_assoc. }
  unfold scp_sink. rewrite takeLine_newline.
  2:{ rewrite !str_exists_app, Hn, (str_exists_digits newline (itoa n) eq_refl Hd). reflexivity. }
  change ("C0755 " +:+ itoa n +:+ " " +:+ name) with (String "C" ("0755" +:+ String " " (itoa n +:+ String " " name))).
  cbn beta iota. rewrite Cut_app by done. cbn [mbind option_bind].
  rewrite Cut_app by by apply str_exists_digits. cbn [mbind option_bind]. rewrite ParseUint_itoa by lia.
  cbn [mbind option_bind]. unfold n. rewrite Nat2Z.id, str_take_app, str_drop_app. by rewrite decide_True.
Qed.

(** [C38] (roundtrip) The upload of a file of the size announced: speaking the protocol succeeds exactly when the remote side
    acknowledges the start, the control line and the data with zero bytes, the file can be read
    to its end and all the writes go through, those of the control line, of what each read of the
    file gave and of the final zero byte; and then a protocol sink decodes what was sent as the
    file of mode 0755, of that name (which has no newline) and with exactly the bytes read, and
    the stream is closed. *)
Theorem writeSCP_delivers reads readErr name c r c' :
  let content := str_concat reads in
  let size := Z.of_nat (strlen content) in
  c_out c = "" → str_exists (Ascii.eqb newline) name = false → size < 2 ^ 63 →
  writeSCP reads readErr size name c = (r, c') →
  (r = Ok tt ↔ (∃ rest, c_in c = String zero (String zero (String zero rest))) ∧ readErr = None ∧
     writes_ok (2 + copies reads) (c_writes c)) ∧
  (r = Ok tt → scp_sink (c_out c') = Some ("0755", name, content) ∧ c_closed c' = true).
Proof.
  intros content size Ho Hn Hs E. split.
  - split.
    + intros ->. apply writeSCP_ok in E as (rest & Hi & Hr & Hw & _). eauto.
    + intros ((rest & Hi) & Hr & Hw). edestruct (writeSCP_ok reads readErr size name c) as [_ H].
      rewrite H in E by eauto. by injection E.
  - intros ->. apply writeSCP_ok in E as (rest & _ & _ & _ & ->). split; [|done]. simpl.
    rewrite Ho. change ("" +:+ ?x) with x. by apply scp_sink_control.
Qed.

Definition ex_conn : Conn := mkConn (String zero (String zero (String zero ""))) "EOF" "" [] false.

Example writeSCP_delivers_witness :
  scp_sink (c_out (writeSCP ["bin"; "ary"] None 6 "skipper-agent" ex_conn).2) = Some ("0755", "skipper-agent", "binary").
Proof.
  assert ((writeSCP ["bin"; "ary"] None 6 "skipper-agent" ex_conn).1 = Ok tt) as E by (vm_compute; reflexivity).
  destruct (writeSCP ["bin"; "ary"] None 6 "skipper-agent" ex_conn) as [r c'] eqn:Ew. simpl in E. subst r.
  exact (proj1 (proj2 (writeSCP_delivers ["bin"; "ary"] None "skipper-agent" ex_conn (Ok tt) c' eq_refl eq_refl ltac:(done) Ew) eq_refl)).
Defined.

(** ** Looking for the agent *)

Lemma prefix_app s t : String.prefix s (s +:+ t) = true.
Proof. induction s as [|c s IH]; [by destruct t|]. cbn. destruct (ascii_dec c c); [done|congruence]. Qed.

Lemma prefix_split s t : String.prefix s t = true → ∃ u, t = s +:+ u.
Proof.
  revert t; induction s as [|c s IH]; intros t; [by exists t|]. destruct t as [|d t]; [done|]. cbn.
  destruct (ascii_dec c d) as [->|]; [|done]. intros [u ->]%IH. by exists u.
Qed.

Lemma Contains_mid s sub t : Contains (s +:+ sub +:+ t) sub = true.
Proof.
  induction s as [|c s IH].
  - change ("" +:+ sub +:+ t) with (sub +:+ t). pose proof (prefix_app sub t) as H.
    destruct (sub +:+ t); unfold HasPrefix in *; cbn [Contains]; by rewrite H.
  - change (String c s +:+ sub +:+ t) with (String c (s +:+ sub +:+ t)). cbn [Contains]. rewrite IH. apply orb_true_r.
Qed.

Lemma Contains_split s sub : Contains s sub = true → ∃ a b, s = a +:+ sub +:+ b.
Proof.
  induction s as [|c s IH].
  - cbn [Contains]. destruct sub; [by exists "", ""|done].
  - cbn [Contains]. intros [H|H]%orb_true_iff.
    + apply prefix_split in H as [t E]. exists "", t. done.
    + destruct (IH H) as (a & b & ->). by exists (String c a), b.
Qed.

Lemma Contains_after a s sub : Contains s sub = true → Contains (a +:+ s) sub = true.
Proof.
  intros (x & y & ->)%Contains_split. rewrite <-str_app_assoc. apply Contains_mid.
Qed.

Lemma Contains_before s t sub : Contains s sub = true → Contains (s +:+ t) sub = true.
Proof.
  intros (x & y & ->)%Contains_split. rewrite !str_app_assoc. apply Contains_mid.
Qed.

Lemma ReplaceAll_plain s c new : str_exists (Ascii.eqb c) s = false → ReplaceAll s c new = s.
Proof.
  induction s as [|a s IH]; [done|]. cbn [str_exists ReplaceAll]. intros [E1 E2]%orb_false_iff.
  by rewrite Ascii.eqb_sym, E1, IH.
Qed.

(** (safety) The probe finds itself: the text of the command that looks for the agent in the
    command lines of all processes contains the path it greps for, so every process whose command
    line holds the command, such as the shell that runs it, matches, and the fallback answers
    ALIVE whether the agent runs or not. *)
Theorem aliveCommand_finds_itself pidPath agentPath before after :
  str_exists (Ascii.eqb "'") agentPath = false →
  Contains (before +:+ aliveCommand pidPath agentPath +:+ after) agentPath = true.
Proof.
  intros Hq. unfold aliveCommand, shellQuote. rewrite (ReplaceAll_plain agentPath) by done.
  apply Contains_after, Contains_before. cbv [dquote].
  repeat match goal with
  | |- Contains (?a +:+ _) ?p = true => lazymatch a with context [p] => fail | _ => apply Contains_after end
  end.
  apply Contains_before. apply Contains_mid.
Qed.

Example aliveCommand_finds_itself_witness :
  Contains ("sh -c " +:+ aliveCommand "/tmp/skipper-agent.pid" "/tmp/skipper-agent" +:+ "") "/tmp/skipper-agent" = true.
Proof. apply aliveCommand_finds_itself. reflexivity. Defined.

(** ** Reconnecting *)

(** A delay of the tunnel: a power of two of seconds, from 1 to 32. *)
Definition tunnel_delay (d : Duration) : Prop := ∃ k, 0 ≤ k ≤ 5 ∧ d = 2 ^ k * Second.

Lemma tunnel_delay_next d : tunnel_delay d → tunnel_delay (backoffNext (30 * Second) d).
Proof.
  intros (k & Hk & ->). assert (k = 0 ∨ k = 1 ∨ k = 2 ∨ k = 3 ∨ k = 4 ∨ k = 5) as Hc by lia.
  destruct Hc as [->|[->|[->|[->|[->| ->]]]]];
    [exists 1|exists 2|exists 3|exists 4|exists 5|exists 5]; (split; [lia|reflexivity]).
Qed.

Lemma tunnelDelays_ok b lasted :
  tunnel_delay b → length (tunnelDelays b lasted) = length lasted ∧ Forall tunnel_delay (tunnelDelays b lasted) ∧
  ∀ i d, lasted !! i = Some d → 30 * Second < d → tunnelDelays b lasted !! i = Some Second.
Proof.
  revert b; induction lasted as [|d lasted IH]; intros b Hb; simpl; [done|].
  set (b' := if 30 * Second <? d then Second else b).
  assert (tunnel_delay b') as Hb' by (unfold b'; case_step; [exists 0; done|done]).
  destruct (IH (backoffNext (30 * Second) b') (tunnel_delay_next b' Hb')) as (Hl & Hf & Hi).
  split; [by rewrite Hl|]. split; [by constructor|]. intros [|i] d'; simpl; [|by apply Hi].
  intros [= ->] Hd. unfold b'. by rewrite (proj2 (Z.ltb_lt _ _) Hd).
Qed.

(** (bounds) Reconnecting a tunnel: one pause per attempt, each a power of two between 1 and 32
    seconds, and after an attempt that lasted more than 30 seconds the pause is back at 1 second. *)
Theorem tunnel_backoff lasted :
  length (tunnel_Run lasted) = length lasted ∧ Forall tunnel_delay (tunnel_Run lasted) ∧
  ∀ i d, lasted !! i = Some d → 30 * Second < d → tunnel_Run lasted !! i = Some Second.
Proof. apply tunnelDelays_ok. by exists 0. Qed.
