(* ===== verification/Tunnel.v ===== *)
(** * internal/transport/ssh.go: the goroutines of a tunnel

    [Run] with the sessions that [serveOnce] opens one after the other, the two goroutines each session
    starts, and [proxy] with its two copies.  A step is a turn of one goroutine up to its next blocking
    operation, or something that happens on the network; a turn that has to wait is no step.  The SSH
    library and the network answer as the events say: an established client works until it is closed
    or lost; a dial, a request to listen, the request that ends the listening and a keepalive wait for the
    peer's answer, or for the end of the connection, without a deadline; [Accept] hands out the queued
    connections of an open client and fails when there is nothing left to wait for, a read that is not at the
    end of a connection waits.  The contents of a connection are bytes; flow control is left out. *)
From S2P Require Import Prelude GoBase GoStrings Transport.
Local Open Scope Z_scope.

(** ** Connections and io.Copy *)

(** This side's end of a [net.Conn]: what was read, what has arrived and was not read, whether the
    peer has finished or is gone, what was written, whether this side has not closed it. *)
Record netConn := mkNetConn {
  nc_got : string;
  nc_in : string;
  nc_fin : bool;
  nc_written : string;
  nc_open : bool
}.

Definition newConn : netConn := mkNetConn "" "" false "" true.

Definition conn_read (n : nat) (c : netConn) : netConn :=
  mkNetConn (nc_got c +:+ str_take n (nc_in c)) (str_drop n (nc_in c)) (nc_fin c) (nc_written c) (nc_open c).
Definition conn_wrote (s : string) (c : netConn) : netConn :=
  mkNetConn (nc_got c) (nc_in c) (nc_fin c) (nc_written c +:+ s) (nc_open c).
Definition conn_close (c : netConn) : netConn :=
  mkNetConn (nc_got c) (nc_in c) (nc_fin c) (nc_written c) false.
Definition conn_fin (c : netConn) : netConn :=
  mkNetConn (nc_got c) (nc_in c) true (nc_written c) (nc_open c).
Definition conn_arrive (s : string) (c : netConn) : netConn :=
  mkNetConn (nc_got c) (nc_in c +:+ s) (nc_fin c) (nc_written c) (nc_open c).

(** What the peer does: it sends, or finishes. *)
Inductive peerAct := Sends (s : string) | Finishes.

Definition peerStep (a : peerAct) (c : netConn) : option netConn :=
  match a with
  | Sends s => if nc_open c && negb (nc_fin c) then Some (conn_arrive s c) else None
  | Finishes => Some (conn_fin c)
  end.

(** A goroutine [io.Copy(dst, src); done <- struct{}{}]: about to read, about to write what it read
    (and whether the read also ended the source), about to signal, gone. *)
Inductive copier :=
| Reading
| Writing (buf : string) (last : bool)
| Copied
| Signalled.

#[export] Instance copier_eq_dec : EqDecision copier.
Proof. solve_decision. Defined.

(** A turn of it: a read of [n] bytes, with an error or [io.EOF]; a write of which [n] bytes were
    taken; the signal. *)
Inductive copyTurn :=
| ReadTurn (n : nat) (err : bool)
| WriteTurn (n : nat) (err : bool)
| DoneTurn.

(** The buffer of [io.Copy]. *)
Definition copyBuffer : nat := Z.to_nat 32768.

(** [done] is the number of signals in the channel, which holds two. *)
Definition copyStep (t : copyTurn) (src dst : netConn) (done : nat) (c : copier) :
    option (netConn * netConn * nat * copier) :=
  match t, c with
  | ReadTurn n err, Reading =>
      if bool_decide (n ≤ copyBuffer)%nat && bool_decide (n ≤ strlen (nc_in src))%nat &&
         (bool_decide (0 < n)%nat || err) && (negb err || nc_fin src || negb (nc_open src))
      then Some (conn_read n src, dst, done,
                 if decide (n = O) then Copied else Writing (str_take n (nc_in src)) err)
      else None
  | WriteTurn n err, Writing buf last =>
      if bool_decide (n ≤ strlen buf)%nat && (err || nc_open dst)
      then Some (src, conn_wrote (str_take n buf) dst, done,
                 if err || negb (bool_decide (n = strlen buf)) || last then Copied else Reading)
      else None
  | DoneTurn, Copied => if decide (done < 2)%nat then Some (src, dst, S done, Signalled) else None
  | _, _ => None
  end.

(** ** proxy *)

(** Where its own goroutine stands: in [net.Dial], at [<-done], in its deferred calls, gone. *)
Inductive proxyMain := PxDialling | PxWaiting | PxClosingLocal | PxClosingRemote | PxEnded.

(** The connection to the local gRPC server and the two copies. *)
Record link := mkLink {
  lk_local : netConn;
  lk_up : copier;      (** [io.Copy(local, remote)] *)
  lk_down : copier;    (** [io.Copy(remote, local)] *)
  lk_done : nat
}.

Record proxy := mkProxy {
  px_session : nat;    (** the session whose listener accepted [remote] *)
  px_main : proxyMain;
  px_remote : netConn;
  px_link : option link
}.

Definition newProxy (i : nat) : proxy := mkProxy i PxDialling newConn None.

Inductive direction := Up | Down.

Inductive proxyEvent :=
| PxDial (r : result unit)
| PxMain
| PxCopy (d : direction) (t : copyTurn)
| PxRemote (a : peerAct)
| PxLocal (a : peerAct).

Definition px_at (m : proxyMain) (p : proxy) : proxy := mkProxy (px_session p) m (px_remote p) (px_link p).
Definition with_remote (c : netConn) (p : proxy) : proxy := mkProxy (px_session p) (px_main p) c (px_link p).
Definition with_link (l : link) (p : proxy) : proxy := mkProxy (px_session p) (px_main p) (px_remote p) (Some l).
Definition with_local (c : netConn) (l : link) : link := mkLink c (lk_up l) (lk_down l) (lk_done l).
Definition with_done (n : nat) (l : link) : link := mkLink (lk_local l) (lk_up l) (lk_down l) n.

(** A turn of one of the two copies. *)
Definition linkCopy (d : direction) (t : copyTurn) (remote : netConn) (l : link) : option (netConn * link) :=
  match d with
  | Up =>
      match copyStep t remote (lk_local l) (lk_done l) (lk_up l) with
      | Some (remote, local, n, c) => Some (remote, mkLink local c (lk_down l) n)
      | None => None
      end
  | Down =>
      match copyStep t (lk_local l) remote (lk_done l) (lk_down l) with
      | Some (local, remote, n, c) => Some (remote, mkLink local (lk_up l) c n)
      | None => None
      end
  end.

Definition proxyStep (ev : proxyEvent) (p : proxy) : option proxy :=
  match ev with
  | PxDial r =>
      match px_main p, r with
      | PxDialling, Err _ => Some (px_at PxClosingRemote p)
      | PxDialling, Ok _ => Some (px_at PxWaiting (with_link (mkLink newConn Reading Reading 0) p))
      | _, _ => None
      end
  | PxMain =>
      match px_main p, px_link p with
      | PxWaiting, Some l =>
          match lk_done l with
          | O => None
          | S n => Some (px_at PxClosingLocal (with_link (with_done n l) p))
          end
      | PxClosingLocal, Some l => Some (px_at PxClosingRemote (with_link (with_local (conn_close (lk_local l)) l) p))
      | PxClosingRemote, _ => Some (px_at PxEnded (with_remote (conn_close (px_remote p)) p))
      | _, _ => None
      end
  | PxCopy d t =>
      l ← px_link p;
      '(remote, l) ← linkCopy d t (px_remote p) l;
      Some (with_link l (with_remote remote p))
  | PxRemote a => c ← peerStep a (px_remote p); Some (with_remote c p)
  | PxLocal a => l ← px_link p; c ← peerStep a (lk_local l); Some (with_link (with_local c l) p)
  end.

(** ** A session: what one [serveOnce] opened *)

(** The goroutine that closes listener and client when the context is cancelled or [stop] is closed;
    in [ln.Close] it waits for the answer. *)
Inductive closer := NoCloser | Watching | ClosingListener | AwaitingClose | ClosingClient | CloserDone.

(** [keepalive]: at its [select], waiting for the answer to its request, about to close the client after
    a failed request, gone. *)
Inductive keeper := NoKeeper | Ticking | Asking | Dropping | KeeperDone.

Record session {PublicKey : Type} := mkSession {
  ss_hostKey : option PublicKey;   (** the host key the server had to present; [None] for any *)
  ss_client : bool;                (** [client.Close] has not been called *)
  ss_lost : bool;                  (** the connection broke *)
  ss_listening : option bool;      (** the remote listener, if it was opened, and whether it still is *)
  ss_queue : nat;                  (** forwarded connections waiting for [Accept] *)
  ss_stop : bool;                  (** [stop] has been closed *)
  ss_closer : closer;
  ss_keeper : keeper
}.
#[global] Arguments session PublicKey : clear implicits.
#[global] Arguments mkSession {PublicKey} _ _ _ _ _ _ _ _.

(** ** The tunnel *)

(** Where [serveOnce] stands: in [dialSSH], in [client.Listen], before [readyOnce.Do], in [Accept], and
    at its deferred calls: [close(stop)], [ln.Close], the answer that this waits for, and
    [client.Close]. *)
Inductive serving :=
| SvDial
| SvListen (i : nat)
| SvAnnounce (i : nat)
| SvAccept (i : nat)
| SvCloseStop (i : nat) (err : string)
| SvCloseListener (i : nat) (err : string)
| SvAwaitClose (i : nat) (err : string)
| SvCloseClient (i : nat) (err : string).

(** Where [Run] stands: at the head of its loop, in [serveOnce], after it, in its [select], returned. *)
Inductive runState :=
| Checking
| Serving (start : Time) (sv : serving)
| Served (start : Time) (err : string)
| Pausing (since : Time)
| Stopped.

Record tunnel {PublicKey : Type} := mkTunnel {
  tn_cancelled : bool;             (** the context *)
  tn_run : runState;
  tn_backoff : Duration;
  tn_ready : bool;                 (** [ready] has been closed, by [readyOnce] *)
  tn_sessions : list (session PublicKey);
  tn_proxies : list proxy
}.
#[global] Arguments tunnel PublicKey : clear implicits.
#[global] Arguments mkTunnel {PublicKey} _ _ _ _ _ _.

Section tunnel.
Context {Signer PublicKey : Type}.
Variable ParsePrivateKey : string → result Signer.
Variable ParseAuthorizedKey : string → result PublicKey.
Variable cfg : SSHConfig.

#[local] Abbreviation session := (session PublicKey).
#[local] Abbreviation tunnel := (tunnel PublicKey).

(** [NewSSHTunnel], and [Run] called. *)
Definition NewSSHTunnel : tunnel := mkTunnel false Checking Second false [] [].

Definition run_at (r : runState) (t : tunnel) : tunnel :=
  mkTunnel (tn_cancelled t) r (tn_backoff t) (tn_ready t) (tn_sessions t) (tn_proxies t).
Definition set_backoff (b : Duration) (t : tunnel) : tunnel :=
  mkTunnel (tn_cancelled t) (tn_run t) b (tn_ready t) (tn_sessions t) (tn_proxies t).
Definition set_ready (t : tunnel) : tunnel :=
  mkTunnel (tn_cancelled t) (tn_run t) (tn_backoff t) true (tn_sessions t) (tn_proxies t).
Definition set_cancelled (t : tunnel) : tunnel :=
  mkTunnel true (tn_run t) (tn_backoff t) (tn_ready t) (tn_sessions t) (tn_proxies t).
Definition with_sessions (ss : list session) (t : tunnel) : tunnel :=
  mkTunnel (tn_cancelled t) (tn_run t) (tn_backoff t) (tn_ready t) ss (tn_proxies t).
Definition with_proxies (ps : list proxy) (t : tunnel) : tunnel :=
  mkTunnel (tn_cancelled t) (tn_run t) (tn_backoff t) (tn_ready t) (tn_sessions t) ps.

Definition on_session (i : nat) (f : session → session) (t : tunnel) : tunnel :=
  with_sessions (alter f i (tn_sessions t)) t.

Definition client_down (closed : bool) (s : session) : session :=
  mkSession (ss_hostKey s) (ss_client s && negb closed) (ss_lost s || negb closed) (ss_listening s) (ss_queue s)
    (ss_stop s) (ss_closer s) (ss_keeper s).
Definition listen_set (l : option bool) (s : session) : session :=
  mkSession (ss_hostKey s) (ss_client s) (ss_lost s) l (ss_queue s) (ss_stop s) (ss_closer s) (ss_keeper s).
Definition queue_set (n : nat) (s : session) : session :=
  mkSession (ss_hostKey s) (ss_client s) (ss_lost s) (ss_listening s) n (ss_stop s) (ss_closer s) (ss_keeper s).
Definition stop_close (s : session) : session :=
  mkSession (ss_hostKey s) (ss_client s) (ss_lost s) (ss_listening s) (ss_queue s) true (ss_closer s) (ss_keeper s).
Definition closer_at (c : closer) (s : session) : session :=
  mkSession (ss_hostKey s) (ss_client s) (ss_lost s) (ss_listening s) (ss_queue s) (ss_stop s) c (ss_keeper s).
Definition keeper_at (k : keeper) (s : session) : session :=
  mkSession (ss_hostKey s) (ss_client s) (ss_lost s) (ss_listening s) (ss_queue s) (ss_stop s) (ss_closer s) k.

(** Does the client of a session still work? *)
Definition alive (s : session) : bool := ss_client s && negb (ss_lost s).
Definition is_listening (s : session) : bool := bool_decide (ss_listening s = Some true).

(** The end of a client, which ends the connections forwarded over it. *)
Definition hang_up (i : nat) (p : proxy) : proxy :=
  if decide (px_session p = i) then with_remote (conn_fin (px_remote p)) p else p.
Definition end_client (closed : bool) (i : nat) (t : tunnel) : tunnel :=
  with_proxies (hang_up i <$> tn_proxies t) (on_session i (client_down closed) t).

Definition client_Close (i : nat) (t : tunnel) : tunnel := end_client true i t.
(** [ln.Close] up to where it waits: the listener takes no more connections, and the request to cancel the
    forwarding is sent, also if the listener was closed before. *)
Definition ln_Close (i : nat) (t : tunnel) : tunnel :=
  on_session i (λ s, listen_set ((λ _, false) <$> ss_listening s) s) t.

(** *** The goroutine of [Run] *)

(** A turn that does not depend on an answer. *)
Definition runTurn (now : Time) (t : tunnel) : option tunnel :=
  match tn_run t with
  | Checking => Some (run_at (if tn_cancelled t then Stopped else Serving now SvDial) t)
  | Serving start (SvAnnounce i) =>
      Some (run_at (Serving start (SvAccept i))
        (on_session i (λ s, keeper_at Ticking (closer_at Watching s)) (set_ready t)))
  | Serving start (SvCloseStop i err) =>
      Some (run_at (Serving start (SvCloseListener i err)) (on_session i stop_close t))
  | Serving start (SvCloseListener i err) => Some (run_at (Serving start (SvAwaitClose i err)) (ln_Close i t))
  | Serving start (SvCloseClient i err) => Some (run_at (Served start err) (client_Close i t))
  | Served start _ =>
      if tn_cancelled t then Some (run_at Stopped t)
      else Some (run_at (Pausing now) (set_backoff (if 30 * Second <? Sub now start then Second else tn_backoff t) t))
  | Pausing _ => if tn_cancelled t then Some (run_at Stopped t) else None
  | _ => None
  end.

(** [time.After] of the [select]. *)
Definition pauseOver (now : Time) (t : tunnel) : option tunnel :=
  match tn_run t with
  | Pausing since =>
      if tn_backoff t <=? Sub now since
      then Some (run_at Checking (set_backoff (backoffNext (30 * Second) (tn_backoff t)) t)) else None
  | _ => None
  end.

(** The answer to the request of [ln.Close] has come, or the connection is gone: its error is dropped. *)
Definition closedTurn (t : tunnel) : option tunnel :=
  match tn_run t with
  | Serving start (SvAwaitClose i err) => Some (run_at (Serving start (SvCloseClient i err)) t)
  | _ => None
  end.

(** [dialSSH] returns, given the key files and what the dial of an address as a user with a key answers. *)
Definition dialTurn (readFile : string → result string)
    (dial : string → string → Signer → option PublicKey → result unit) (t : tunnel) : option tunnel :=
  match tn_run t with
  | Serving start SvDial =>
      match dialSSH readFile ParsePrivateKey ParseAuthorizedKey
              (λ addr user signer key, match dial addr user signer key with Ok _ => Ok key | Err e => Err e end) cfg with
      | Err e => Some (run_at (Served start e) t)
      | Ok key =>
          Some (run_at (Serving start (SvListen (length (tn_sessions t))))
                  (with_sessions (tn_sessions t ++ [mkSession key true false None 0 false NoCloser NoKeeper]) t))
      end
  | _ => None
  end.

(** [client.Listen] returns: the peer has accepted or refused, or the connection is gone. *)
Definition listenTurn (r : result unit) (t : tunnel) : option tunnel :=
  match tn_run t with
  | Serving start (SvListen i) =>
      s ← tn_sessions t !! i;
      match r with
      | Err e =>
          Some (run_at (Serving start (SvCloseClient i ("remote listen " +:+ SSH_RemoteListen cfg +:+ ": " +:+ e))) t)
      | Ok _ =>
          if alive s then Some (run_at (Serving start (SvAnnounce i)) (on_session i (listen_set (Some true)) t)) else None
      end
  | _ => None
  end.

Definition acceptTurn (r : result unit) (t : tunnel) : option tunnel :=
  match tn_run t with
  | Serving start (SvAccept i) =>
      s ← tn_sessions t !! i;
      match r, ss_queue s with
      | Ok _, S n =>
          if alive s then Some (with_proxies (tn_proxies t ++ [newProxy i]) (on_session i (queue_set n) t)) else None
      | Err e, n =>
          if negb (alive s) || (negb (is_listening s) && bool_decide (n = O))
          then Some (run_at (Serving start (SvCloseStop i e)) t) else None
      | _, _ => None
      end
  | _ => None
  end.

(** *** The other goroutines of a session *)

Definition closerTurn (i : nat) (t : tunnel) : option tunnel :=
  s ← tn_sessions t !! i;
  match ss_closer s with
  | Watching => if tn_cancelled t || ss_stop s then Some (on_session i (closer_at ClosingListener) t) else None
  | ClosingListener => Some (on_session i (closer_at AwaitingClose) (ln_Close i t))
  | ClosingClient => Some (on_session i (closer_at CloserDone) (client_Close i t))
  | _ => None
  end.

(** The answer to its request has come, or the connection is gone. *)
Definition closerClosed (i : nat) (t : tunnel) : option tunnel :=
  s ← tn_sessions t !! i;
  match ss_closer s with
  | AwaitingClose => Some (on_session i (closer_at ClosingClient) t)
  | _ => None
  end.

(** A turn of [keepalive]: [stop] is closed; a tick, its request is sent; the request returns, with an
    error if the connection is gone; the client is closed. *)
Inductive keeperTurns := KeeperStop | KeeperTick | KeeperReply (r : result unit) | KeeperDrop.

Definition keeperTurn (i : nat) (k : keeperTurns) (t : tunnel) : option tunnel :=
  s ← tn_sessions t !! i;
  match ss_keeper s, k with
  | Ticking, KeeperStop => if ss_stop s then Some (on_session i (keeper_at KeeperDone) t) else None
  | Ticking, KeeperTick => Some (on_session i (keeper_at Asking) t)
  | Asking, KeeperReply (Ok _) => if alive s then Some (on_session i (keeper_at Ticking) t) else None
  | Asking, KeeperReply (Err _) => if alive s then None else Some (on_session i (keeper_at Dropping) t)
  | Dropping, KeeperDrop => Some (on_session i (keeper_at KeeperDone) (client_Close i t))
  | _, _ => None
  end.

(** *** Events and runs *)

Inductive tunnelEvent :=
| EvCancel
| EvRun (now : Time)
| EvPauseOver (now : Time)
| EvDial (readFile : string → result string) (dial : string → string → Signer → option PublicKey → result unit)
| EvListen (r : result unit)
| EvAccept (r : result unit)
| EvClosed                 (** the answer to the [ln.Close] of [serveOnce] *)
| EvCloser (i : nat)
| EvCloserClosed (i : nat) (** the answer to the [ln.Close] of a closer *)
| EvKeeper (i : nat) (k : keeperTurns)
| EvOffered (i : nat)      (** a connection to the remote listener *)
| EvLost (i : nat)         (** the connection of a client breaks *)
| EvProxy (j : nat) (ev : proxyEvent).

(** What the peer of a forwarded connection sends arrives while the client works. *)
Definition arrives (ev : proxyEvent) (p : proxy) (t : tunnel) : bool :=
  match ev with
  | PxRemote (Sends _) => from_option alive false (tn_sessions t !! px_session p)
  | _ => true
  end.

Definition tunnelStep (ev : tunnelEvent) (t : tunnel) : option tunnel :=
  match ev with
  | EvCancel => Some (set_cancelled t)
  | EvRun now => runTurn now t
  | EvPauseOver now => pauseOver now t
  | EvDial readFile dial => dialTurn readFile dial t
  | EvListen r => listenTurn r t
  | EvAccept r => acceptTurn r t
  | EvClosed => closedTurn t
  | EvCloser i => closerTurn i t
  | EvCloserClosed i => closerClosed i t
  | EvKeeper i k => keeperTurn i k t
  | EvOffered i =>
      s ← tn_sessions t !! i;
      if alive s && is_listening s then Some (on_session i (queue_set (S (ss_queue s))) t) else None
  | EvLost i => Some (end_client false i t)
  | EvProxy j ev =>
      p ← tn_proxies t !! j;
      if arrives ev p t then p' ← proxyStep ev p; Some (with_proxies (<[j := p']> (tn_proxies t)) t) else None
  end.

Definition tunnelRun (evs : list tunnelEvent) (t : tunnel) : option tunnel :=
  foldl (λ ot ev, t ← ot; tunnelStep ev t) (Some t) evs.

(** A state a tunnel can come to. *)
Definition tunnelReaches (t : tunnel) : Prop := ∃ evs, tunnelRun evs NewSSHTunnel = Some t.
End tunnel.
#[global] Arguments tunnelEvent Signer PublicKey : clear implicits.
