(* ===== verification/TunnelTheorems.v ===== *)
(** * Tunnels: bytes are forwarded in order, sessions do not overlap, nothing is left behind *)
From S2P Require Import Prelude GoBase GoStrings Transport TransportTheorems Tunnel.
Local Open Scope Z_scope.

(** ** The two copies of a proxy *)

(** All that the peer of a connection has sent. *)
Definition sent (c : netConn) : string := nc_got c +:+ nc_in c.

(** What a copy has written against what it has read. *)
Definition copied (src dst : netConn) (c : copier) : Prop :=
  match c with
  | Reading => nc_written dst = nc_got src
  | Writing buf _ => nc_written dst +:+ buf = nc_got src
  | Copied | Signalled => ∃ rest, nc_written dst +:+ rest = nc_got src
  end.

(** The other copy is not disturbed: it reads where this one writes. *)
Lemma copyStep_ok t src dst n c src' dst' n' c' :
  copyStep t src dst n c = Some (src', dst', n', c') → copied src dst c →
  copied src' dst' c' ∧ nc_got dst' = nc_got dst ∧ nc_written src' = nc_written src.
Proof.
  destruct t as [k err|k err|], c as [|buf last| |]; try done; simpl.
  - destruct (_ && _); [|done]. intros [= <- <- <- <-] H. split; [|done].
    case_decide as E; simpl.
    + subst k. rewrite H. exists "". by destruct (nc_in src).
    + by rewrite H.
  - destruct (_ && _); [|done]. intros [= <- <- <- <-] H. split; [|done].
    assert ((nc_written dst +:+ str_take k buf) +:+ str_drop k buf = nc_got src) as Hall
      by by rewrite str_app_assoc, str_take_drop.
    destruct (err || negb (bool_decide (k = strlen buf)) || last) eqn:E; [by eexists|].
    apply orb_false_iff in E as [[_ E]%orb_false_iff _]. apply negb_false_iff, bool_decide_eq_true in E as ->.
    cbn. rewrite <-H. f_equal. rewrite <-(str_app_nil_r buf) at 2. apply str_take_app.
  - case_decide; [|done]. by intros [= <- <- <- <-] Hc.
Qed.

(** The signals sent: what the channel holds, and the one that [proxy] has taken. *)
Definition signals (c : copier) : nat := match c with Signalled => 1 | _ => 0 end.
Definition taken (m : proxyMain) : nat :=
  match m with PxClosingLocal | PxClosingRemote | PxEnded => 1 | _ => 0 end.

Definition proxy_ok (p : proxy) : Prop :=
  (px_main p = PxEnded → nc_open (px_remote p) = false) ∧
  match px_link p with
  | None =>
      px_main p ∈ [PxDialling; PxClosingRemote; PxEnded] ∧ nc_got (px_remote p) = "" ∧ nc_written (px_remote p) = ""
  | Some l =>
      px_main p ≠ PxDialling ∧
      copied (px_remote p) (lk_local l) (lk_up l) ∧ copied (lk_local l) (px_remote p) (lk_down l) ∧
      (lk_done l + taken (px_main p) = signals (lk_up l) + signals (lk_down l))%nat ∧
      (px_main p ∈ [PxClosingRemote; PxEnded] → nc_open (lk_local l) = false)
  end.

Lemma newProxy_ok i : proxy_ok (newProxy i).
Proof. split; [done|]. simpl. split; [set_solver|done]. Qed.

Lemma peerStep_ok a c c' :
  peerStep a c = Some c' → nc_got c' = nc_got c ∧ nc_written c' = nc_written c ∧ nc_open c' = nc_open c.
Proof. destruct a; simpl; [destruct (_ && _); [|done]|]; by intros [= <-]. Qed.

(** What a copy has done depends on what was read and written only. *)
Lemma copied_same src dst src' dst' c :
  nc_got src' = nc_got src → nc_written dst' = nc_written dst → copied src dst c → copied src' dst' c.
Proof. intros H1 H2. destruct c; simpl; by rewrite H1, H2. Qed.

Lemma copyStep_open t src dst n c src' dst' n' c' :
  copyStep t src dst n c = Some (src', dst', n', c') → nc_open src' = nc_open src ∧ nc_open dst' = nc_open dst ∧
  (n' + signals c = n + signals c')%nat.
Proof.
  destruct t as [k err|k err|], c as [|buf last| |]; try done; simpl.
  - destruct (_ && _); [|done]. intros [= <- <- <- <-]. by case_decide.
  - destruct (_ && _); [|done]. intros [= <- <- <- <-]. split; [done|]. split; [done|]. by destruct (_ || _ || _).
  - case_decide; [|done]. intros [= <- <- <- <-]. split_and!; [done..|simpl; lia].
Qed.

Lemma linkCopy_ok d t m r l r' l' :
  linkCopy d t r l = Some (r', l') →
  (copied r (lk_local l) (lk_up l) ∧ copied (lk_local l) r (lk_down l) ∧
   (lk_done l + taken m = signals (lk_up l) + signals (lk_down l))%nat) →
  (copied r' (lk_local l') (lk_up l') ∧ copied (lk_local l') r' (lk_down l') ∧
   (lk_done l' + taken m = signals (lk_up l') + signals (lk_down l'))%nat) ∧
  nc_open r' = nc_open r ∧ nc_open (lk_local l') = nc_open (lk_local l).
Proof.
  intros E (Hu & Hd & Hn).
  destruct d; simpl in E; [destruct (copyStep t r _ _ _) as [[[[r1 c1] n1] k1]|] eqn:Ec | destruct (copyStep t _ r _ _) as [[[[c1 r1] n1] k1]|] eqn:Ec];
    try done; injection E as <- <-; simpl.
  - destruct (copyStep_ok _ _ _ _ _ _ _ _ _ Ec Hu) as (Hu' & Hg & Hw), (copyStep_open _ _ _ _ _ _ _ _ _ Ec) as (Ho & Hl & Hs).
    split; [|done]. split; [done|]. split; [by apply (copied_same (lk_local l) r)|]. lia.
  - destruct (copyStep_ok _ _ _ _ _ _ _ _ _ Ec Hd) as (Hd' & Hg & Hw), (copyStep_open _ _ _ _ _ _ _ _ _ Ec) as (Hl & Ho & Hs).
    split; [|done]. split; [by apply (copied_same r (lk_local l))|]. split; [done|]. lia.
Qed.

Lemma proxyStep_ok ev p p' : proxyStep ev p = Some p' → proxy_ok p → proxy_ok p'.
Proof.
  destruct p as [i m r [l|]]; unfold proxy_ok; simpl.
  - intros E (He & Hm & Hu & Hd & Hn & Hc). destruct ev as [x| |d t|a|a]; simpl in E.
    + by destruct m, x.
    + destruct m; try done.
      * destruct (lk_done l) as [|n] eqn:En; [done|]. injection E as <-. simpl in *.
        split_and!; try done; [lia|set_solver].
      * injection E as <-. simpl in *. split_and!; done.
      * injection E as <-. simpl in *. split_and!; try done. intros _. apply Hc. set_solver.
    + destruct (linkCopy d t r l) as [[r' l']|] eqn:El; [|done]. injection E as <-. simpl.
      destruct (linkCopy_ok d t m r l r' l' El (conj Hu (conj Hd Hn))) as ((Hu' & Hd' & Hn') & Ho & Hl).
      rewrite Ho, Hl. done.
    + destruct (peerStep a r) as [r'|] eqn:Ea; [|done]. injection E as <-. simpl.
      destruct (peerStep_ok _ _ _ Ea) as (Hg & Hw & Ho). rewrite Ho. split_and!; try done.
      * by apply (copied_same r (lk_local l)).
      * by apply (copied_same (lk_local l) r).
    + destruct (peerStep a (lk_local l)) as [c'|] eqn:Ea; [|done]. injection E as <-. simpl.
      destruct (peerStep_ok _ _ _ Ea) as (Hg & Hw & Ho). rewrite Ho. split_and!; try done.
      * by apply (copied_same r (lk_local l)).
      * by apply (copied_same (lk_local l) r).
  - intros E (He & Hm & Hg & Hw). destruct ev as [x| |d t|a|a]; simpl in E; try done.
    + destruct m, x; try done; injection E as <-; simpl; [|split_and!; [done|set_solver|done|done]].
      rewrite Hg, Hw. split_and!; [done|done|done|done|done|set_solver].
    + destruct m; try done. injection E as <-. simpl. split_and!; [done|set_solver|done|done].
    + destruct (peerStep a r) as [r'|] eqn:Ea; [|done]. injection E as <-. simpl.
      destruct (peerStep_ok _ _ _ Ea) as (Hg' & Hw' & Ho). rewrite Ho, Hg', Hw'. done.
Qed.

(** A finished connection stays so. *)
Lemma linkCopy_fin d t r l r' l' : linkCopy d t r l = Some (r', l') → nc_fin r' = nc_fin r.
Proof.
  assert (∀ src dst n c src' dst' n' c', copyStep t src dst n c = Some (src', dst', n', c') →
    nc_fin src' = nc_fin src ∧ nc_fin dst' = nc_fin dst) as Hc.
  { intros src dst n c src' dst' n' c'. destruct t, c; try done; simpl; repeat case_match; try done; by intros [= <- <- <- <-]. }
  intros E. destruct d; simpl in E; repeat case_match; try done; injection E as <- <-;
    match goal with H : copyStep _ _ _ _ _ = _ |- _ => by destruct (Hc _ _ _ _ _ _ _ _ H) end.
Qed.

Lemma proxyStep_fin ev p p' :
  proxyStep ev p = Some p' → px_session p' = px_session p ∧ (nc_fin (px_remote p) = true → nc_fin (px_remote p') = true).
Proof.
  destruct p as [i m r l]. destruct ev as [x| |d t|a|a]; simpl.
  - destruct m, x; try done; by intros [= <-].
  - destruct m, l as [l|]; try done; [destruct (lk_done l); [done|]|..]; by intros [= <-].
  - destruct l as [l|]; [|done]. simpl. destruct (linkCopy d t r l) as [[r' l']|] eqn:El; [|done]. intros [= <-].
    simpl. by rewrite (linkCopy_fin _ _ _ _ _ _ El).
  - destruct a as [s|]; simpl; [destruct (_ && _) eqn:Ha; [|done]|]; by intros [= <-].
  - destruct l as [l|]; [|done]. simpl. destruct (peerStep a (lk_local l)); [|done]. by intros [= <-].
Qed.

Lemma hang_up_ok i p : proxy_ok p → proxy_ok (hang_up i p).
Proof.
  unfold hang_up. case_decide; [|done]. unfold proxy_ok. simpl. destruct (px_link p) as [l|]; [|done].
  intros (He & Hm & Hu & Hd & Hn & Hc). split_and!; try done.
Qed.

(** ** The copies of a proxy that has returned *)

(** The turns that a copy has left when nothing more arrives. *)
Definition copyWork (src : netConn) (c : copier) : nat :=
  match c with
  | Reading => 2 * strlen (nc_in src) + 2
  | Writing _ _ => 2 * strlen (nc_in src) + 3
  | Copied => 1
  | Signalled => 0
  end.
Definition proxyWork (p : proxy) : nat :=
  match px_link p with
  | Some l => copyWork (px_remote p) (lk_up l) + copyWork (lk_local l) (lk_down l)
  | None => 0
  end.

Lemma strlen_drop n (s : string) : (n ≤ strlen s)%nat → (strlen (str_drop n s) + n = strlen s)%nat.
Proof.
  revert s; induction n as [|n IH]; intros [|c s] Hn; unfold strlen in *; cbn in *; try lia.
  specialize (IH s ltac:(lia)). lia.
Qed.

Lemma copyStep_work a src dst n c src' dst' n' c' :
  copyStep a src dst n c = Some (src', dst', n', c') →
  (1 + copyWork src' c' ≤ copyWork src c)%nat ∧ nc_in dst' = nc_in dst.
Proof.
  destruct a as [k err|k err|], c as [|buf last| |]; try done; simpl.
  - destruct (bool_decide (k ≤ copyBuffer)%nat); [|done]. simpl. case_bool_decide as Hk; [|done]. simpl.
    destruct ((_ || _) && _); [|done]. intros [= <- <- <- <-]. split; [|done].
    case_decide as E; simpl; [lia|]. pose proof (strlen_drop k (nc_in src) Hk). lia.
  - destruct (_ && _); [|done]. intros [= <- <- <- <-]. split; [|done]. destruct (_ || _ || _); simpl; lia.
  - case_decide; [|done]. by intros [= <- <- <- <-].
Qed.

Lemma linkCopy_work d t r l r' l' :
  linkCopy d t r l = Some (r', l') →
  (1 + (copyWork r' (lk_up l') + copyWork (lk_local l') (lk_down l')) ≤
   copyWork r (lk_up l) + copyWork (lk_local l) (lk_down l))%nat.
Proof.
  assert (∀ a b c, nc_in a = nc_in b → copyWork a c = copyWork b c) as Hin by (intros a b [] H; simpl; by rewrite ?H).
  intros E. destruct d; simpl in E;
    [destruct (copyStep t r _ _ _) as [[[[r1 c1] n1] k1]|] eqn:Ec | destruct (copyStep t _ r _ _) as [[[[c1 r1] n1] k1]|] eqn:Ec];
    try done; injection E as <- <-; simpl; destruct (copyStep_work _ _ _ _ _ _ _ _ _ Ec) as [Hw Hd];
    rewrite (Hin _ _ _ Hd); lia.
Qed.

(** Is an event a turn of a copy? *)
Definition copying (ev : proxyEvent) : nat := match ev with PxCopy _ _ => 1 | _ => 0 end.

Lemma closed_silent a c c' : nc_open c = false → peerStep a c = Some c' → nc_in c' = nc_in c.
Proof. intros H. destruct a; simpl; [by rewrite H|]. by intros [= <-]. Qed.

Lemma ended_step ev p p' :
  proxy_ok p → px_main p = PxEnded → proxyStep ev p = Some p' →
  px_main p' = PxEnded ∧ (copying ev + proxyWork p' ≤ proxyWork p)%nat.
Proof.
  destruct p as [i m r l]. unfold proxy_ok, proxyWork. simpl. intros [He Hp] Hm. specialize (He Hm). subst m.
  destruct ev as [x| |d t|a|a]; simpl; try done.
  - destruct l as [l|]; [|done]. simpl. destruct (linkCopy d t r l) as [[r' l']|] eqn:El; [|done]. intros [= <-].
    split; [done|]. apply (linkCopy_work d t r l r' l' El).
  - destruct (peerStep a r) as [r'|] eqn:Ea; [|done]. intros [= <-]. split; [done|]. simpl.
    apply (closed_silent _ _ _ He) in Ea. destruct l as [l|]; [|lia]. destruct (lk_up l); simpl; rewrite ?Ea; lia.
  - destruct l as [l|]; [|done]. simpl. destruct (peerStep a (lk_local l)) as [c'|] eqn:Ea; [|done]. intros [= <-].
    split; [done|]. simpl. destruct Hp as (_ & _ & _ & _ & Ho).
    apply (closed_silent _ _ _ (Ho ltac:(set_solver))) in Ea. destruct (lk_down l); simpl; rewrite ?Ea; lia.
Qed.

(** ** Sessions *)

Section tunnel.
Context {Signer PublicKey : Type}.
Variable ParsePrivateKey : string → result Signer.
Variable ParseAuthorizedKey : string → result PublicKey.
Variable cfg : SSHConfig.

#[local] Abbreviation session := (session PublicKey).
#[local] Abbreviation tunnel := (tunnel PublicKey).
#[local] Abbreviation tunnelStep := (@tunnelStep Signer PublicKey ParsePrivateKey ParseAuthorizedKey cfg).
#[local] Abbreviation tunnelRun := (@tunnelRun Signer PublicKey ParsePrivateKey ParseAuthorizedKey cfg).
#[local] Abbreviation tunnelReaches := (@tunnelReaches Signer PublicKey ParsePrivateKey ParseAuthorizedKey cfg).

Implicit Types (t : tunnel) (s : session) (i j : nat).

(** The session that [serveOnce] works on. *)
Definition current (r : runState) : option nat :=
  match r with
  | Serving _ (SvListen i | SvAnnounce i | SvAccept i | SvCloseStop i _ | SvCloseListener i _ | SvAwaitClose i _ |
               SvCloseClient i _) => Some i
  | _ => None
  end.

(** The goroutines of a session have not been started; they have. *)
Definition unstarted s : Prop := ss_closer s = NoCloser ∧ ss_keeper s = NoKeeper ∧ ss_stop s = false.
Definition started s : Prop := ss_closer s ≠ NoCloser ∧ ss_listening s ≠ None.
(** What its deferred calls leave, before the last. *)
Definition unwound s : Prop :=
  unstarted s ∧ ss_listening s = None ∨ started s ∧ ss_stop s = true ∧ ss_listening s = Some false.

(** Session [i] when [Run] stands at [r]. *)
Definition stage r i s : Prop :=
  match r with
  | Serving _ sv =>
      match sv with
      | SvListen k => if decide (k = i) then unstarted s ∧ ss_listening s = None ∧ ss_client s = true
                      else unwound s ∧ ss_client s = false
      | SvAnnounce k => if decide (k = i) then unstarted s ∧ ss_listening s = Some true ∧ ss_client s = true
                        else unwound s ∧ ss_client s = false
      | SvAccept k | SvCloseStop k _ => if decide (k = i) then started s ∧ ss_stop s = false
                                        else unwound s ∧ ss_client s = false
      | SvCloseListener k _ => if decide (k = i) then started s ∧ ss_stop s = true
                               else unwound s ∧ ss_client s = false
      | SvAwaitClose k _ | SvCloseClient k _ => unwound s ∧ if decide (k = i) then True else ss_client s = false
      | SvDial => unwound s ∧ ss_client s = false
      end
  | _ => unwound s ∧ ss_client s = false
  end.

(** How far the closer has come. *)
Definition closed_by s : Prop :=
  match ss_closer s with
  | AwaitingClose | ClosingClient => ss_listening s = Some false
  | CloserDone => ss_listening s = Some false ∧ ss_client s = false
  | _ => True
  end.

Definition session_ok r i s : Prop :=
  stage r i s ∧ closed_by s ∧ hostKeyCallback ParseAuthorizedKey (SSH_KnownHost cfg) = Ok (ss_hostKey s).

Record tunnel_ok t : Prop := {
  ok_sessions : ∀ i s, tn_sessions t !! i = Some s → session_ok (tn_run t) i s;
  ok_current : ∀ i, current (tn_run t) = Some i → (i < length (tn_sessions t))%nat;
  ok_ready : tn_ready t = true ↔ ∃ i s, tn_sessions t !! i = Some s ∧ ss_closer s ≠ NoCloser;
  ok_proxies : ∀ j p, tn_proxies t !! j = Some p → proxy_ok p;
  ok_hung : ∀ j p s, tn_proxies t !! j = Some p → tn_sessions t !! px_session p = Some s →
              alive s = false → nc_fin (px_remote p) = true;
  ok_backoff : tunnel_delay (tn_backoff t)
}.

(** A step that takes [Run] to [r'] and does [f] to session [i]. *)
Definition keeps t r' i (f : session → session) : Prop :=
  (∀ s, tn_sessions t !! i = Some s → session_ok (tn_run t) i s → session_ok r' i (f s)) ∧
  ∀ j s, j ≠ i → session_ok (tn_run t) j s → session_ok r' j s.

Lemma lookup_on_session i f (ss : list session) j :
  alter f i ss !! j = if decide (i = j) then f <$> ss !! j else ss !! j.
Proof. case_decide as E; [subst; apply list_lookup_alter_eq|by apply list_lookup_alter_ne]. Qed.

Lemma sessions_keep t r' i f :
  keeps t r' i f → (∀ j s, tn_sessions t !! j = Some s → session_ok (tn_run t) j s) →
  ∀ j s, alter f i (tn_sessions t) !! j = Some s → session_ok r' j s.
Proof.
  intros [Hi Hj] H j s. rewrite lookup_on_session. case_decide as E; [subst|intros Es; apply Hj; [done|by apply H]].
  destruct (tn_sessions t !! j) as [s0|] eqn:E0; [|done]. intros [= <-]. by apply Hi; [|apply H].
Qed.

(** The start of the goroutines is the only change that [ready] tells of. *)
Lemma ready_keep i f (ss : list session) :
  (∀ s, ss !! i = Some s → ss_closer (f s) = NoCloser ↔ ss_closer s = NoCloser) →
  (∃ j s, alter f i ss !! j = Some s ∧ ss_closer s ≠ NoCloser) ↔ ∃ j s, ss !! j = Some s ∧ ss_closer s ≠ NoCloser.
Proof.
  intros Hf. split.
  - intros (j & s & Es & Hs). rewrite lookup_on_session in Es. case_decide; [subst|eauto].
    destruct (ss !! j) as [s0|] eqn:E0; [|done]. injection Es as <-. exists j, s0. split; [done|]. by rewrite <-Hf.
  - intros (j & s & Es & Hs). exists j, (if decide (i = j) then f s else s).
    rewrite lookup_on_session, Es. case_decide; [subst|done]. split; [done|]. by rewrite Hf.
Qed.

Lemma ok_run r' t :
  tunnel_ok t → (∀ i s, session_ok (tn_run t) i s → session_ok r' i s) →
  (∀ k, current r' = Some k → current (tn_run t) = Some k) → tunnel_ok (run_at r' t).
Proof.
  intros [H1 H2 H3 H4 H5 H6] Hs Hc. split; simpl; [|intros i Hi; apply H2; auto|done..].
  intros i s Es. apply Hs, H1, Es.
Qed.

Lemma ok_set r' i f t :
  tunnel_ok t → keeps t r' i f → (∀ k, current r' = Some k → current (tn_run t) = Some k) →
  (∀ s, tn_sessions t !! i = Some s → ss_closer (f s) = NoCloser ↔ ss_closer s = NoCloser) →
  (∀ s, alive (f s) = alive s) →
  tunnel_ok (run_at r' (on_session i f t)).
Proof.
  intros [H1 H2 H3 H4 H5 H6] Hk Hc Hf Ha. split; simpl.
  - by apply (sessions_keep t).
  - intros k Hk'. rewrite length_alter. apply H2. auto.
  - rewrite H3. symmetry. by apply ready_keep.
  - done.
  - intros j p s Ep Es. rewrite lookup_on_session in Es. case_decide; [|by apply (H5 j p s)].
    destruct (tn_sessions t !! px_session p) as [s0|] eqn:E0; [|done]. injection Es as <-.
    rewrite Ha. by apply (H5 j p s0).
  - done.
Qed.

Lemma ok_end_client r' closed i t :
  tunnel_ok t → keeps t r' i (client_down closed) → (∀ k, current r' = Some k → current (tn_run t) = Some k) →
  tunnel_ok (run_at r' (end_client closed i t)).
Proof.
  intros [H1 H2 H3 H4 H5 H6] Hk Hc. split; simpl.
  - by apply (sessions_keep t).
  - intros k Hk'. rewrite length_alter. apply H2. auto.
  - rewrite H3. symmetry. by apply ready_keep.
  - intros j p Ep. rewrite list_lookup_fmap in Ep. destruct (tn_proxies t !! j) as [p0|] eqn:E0; [|done].
    injection Ep as <-. by apply hang_up_ok, (H4 j).
  - intros j p s Ep Es. rewrite list_lookup_fmap in Ep. destruct (tn_proxies t !! j) as [p0|] eqn:E0; [|done].
    injection Ep as <-. unfold hang_up in *. destruct (decide (px_session p0 = i)) as [E|E]; [done|].
    rewrite lookup_on_session, decide_False in Es by congruence. by apply (H5 j).
  - done.
Qed.

(** A step that leaves [Run] where it is. *)
Lemma run_at_same t : run_at (tn_run t) t = t.
Proof. by destruct t. Qed.

Lemma ok_set_same i f t :
  tunnel_ok t → keeps t (tn_run t) i f →
  (∀ s, tn_sessions t !! i = Some s → ss_closer (f s) = NoCloser ↔ ss_closer s = NoCloser) →
  (∀ s, alive (f s) = alive s) → tunnel_ok (on_session i f t).
Proof. intros H Hk Hf Ha. rewrite <-(run_at_same (on_session i f t)). by apply ok_set. Qed.

Lemma ok_end_client_same closed i t :
  tunnel_ok t → keeps t (tn_run t) i (client_down closed) → tunnel_ok (end_client closed i t).
Proof. intros H Hk. rewrite <-(run_at_same (end_client closed i t)). by apply ok_end_client. Qed.

#[local] Ltac stages :=
  intros; unfold session_ok, stage, closed_by, unwound, started, unstarted in *; cbn in *; repeat case_decide; subst; try done;
  try (intuition congruence);
  match goal with s : session |- _ => destruct s as [? [] ? [[]|] ? ? [] ?]; cbn in *; intuition congruence end.
#[local] Ltac keep_stages := split; [intros ? ? ?|intros ? ? ? ?]; stages.

Lemma announce_ok start i t :
  tunnel_ok t → tn_run t = Serving start (SvAnnounce i) →
  tunnel_ok (run_at (Serving start (SvAccept i)) (on_session i (λ s, keeper_at Ticking (closer_at Watching s)) (set_ready t))).
Proof.
  intros [H1 H2 H3 H4 H5 H6] Hr.
  assert (is_Some (tn_sessions t !! i)) as [s0 E0].
  { apply lookup_lt_is_Some_2, H2. by rewrite Hr. }
  split; simpl.
  - apply (sessions_keep t); [|done]. unfold keeps. rewrite Hr. keep_stages.
  - intros k Hk. rewrite length_alter. apply H2. by rewrite Hr.
  - split; [|done]. intros _. exists i. eexists. rewrite list_lookup_alter_eq, E0. by split.
  - done.
  - intros j p s Ep Es. rewrite lookup_on_session in Es. case_decide; [|by apply (H5 j p s)].
    destruct (tn_sessions t !! px_session p) as [s1|] eqn:E1; [|done]. injection Es as <-. by apply (H5 j p s1).
  - done.
Qed.

Lemma set_backoff_ok b t : tunnel_delay b → tunnel_ok t → tunnel_ok (set_backoff b t).
Proof. intros Hb []. by split. Qed.

Lemma runTurn_ok now t t' : runTurn now t = Some t' → tunnel_ok t → tunnel_ok t'.
Proof.
  unfold runTurn. destruct (tn_run t) as [|start [|i|i|i|i e|i e|i e|i e]|start e|since|] eqn:Hr; try done.
  - intros [= <-] H. destruct (tn_cancelled t); apply ok_run; rewrite ?Hr; try done; stages.
  - intros [= <-] H. by apply announce_ok.
  - intros [= <-] H. apply ok_set; unfold keeps; rewrite ?Hr; try done. keep_stages.
  - intros [= <-] H. apply ok_set; unfold keeps; rewrite ?Hr; try done. keep_stages.
  - intros [= <-] H. apply ok_end_client; unfold keeps; rewrite ?Hr; try done. keep_stages.
  - intros E H. destruct (tn_cancelled t).
    + injection E as <-. apply ok_run; rewrite ?Hr; try done; stages.
    + injection E as <-. apply ok_run; simpl; rewrite ?Hr; try done.
      apply set_backoff_ok; [|done]. destruct (_ <? _); [by exists 0|apply H].
  - intros E H. destruct (tn_cancelled t); [|done]. injection E as <-. apply ok_run; rewrite ?Hr; try done; stages.
Qed.

Lemma pauseOver_ok now t t' : pauseOver now t = Some t' → tunnel_ok t → tunnel_ok t'.
Proof.
  unfold pauseOver. destruct (tn_run t) as [| | |since|] eqn:Hr; try done. destruct (_ <=? _); [|done].
  intros [= <-] H. apply ok_run; simpl; rewrite ?Hr; try done.
  apply set_backoff_ok; [|done]. apply tunnel_delay_next, H.
Qed.

(** A client is dialled with the host key of the configuration. *)
Lemma dialSSH_key readFile (dial : string → string → Signer → option PublicKey → result unit) key :
  dialSSH readFile ParsePrivateKey ParseAuthorizedKey
    (λ addr user signer key, match dial addr user signer key with Ok _ => Ok key | Err e => Err e end) cfg = Ok key →
  hostKeyCallback ParseAuthorizedKey (SSH_KnownHost cfg) = Ok key.
Proof.
  unfold dialSSH. destruct (loadSigner _ _ _); [|done]. destruct (hostKeyCallback _ _) as [k|]; [|done].
  destruct (dial _ _ _ _); [|done]. by intros [= ->].
Qed.

Lemma open_session_ok start key t :
  tunnel_ok t → tn_run t = Serving start SvDial → hostKeyCallback ParseAuthorizedKey (SSH_KnownHost cfg) = Ok key →
  tunnel_ok (run_at (Serving start (SvListen (length (tn_sessions t))))
    (with_sessions (tn_sessions t ++ [mkSession key true false None 0 false NoCloser NoKeeper]) t)).
Proof.
  intros [H1 H2 H3 H4 H5 H6] Hr Hk. rewrite Hr in H1. split; simpl.
  - intros i s Es. apply lookup_app_Some in Es as [Es|[Hl Es]].
    + pose proof (lookup_lt_Some _ _ _ Es). specialize (H1 _ _ Es). unfold session_ok in *. simpl.
      rewrite decide_False by lia. done.
    + apply list_lookup_singleton_Some in Es as [Hi <-]. unfold session_ok. simpl.
      rewrite decide_True by lia. done.
  - intros i [= <-]. rewrite length_app. simpl. lia.
  - rewrite H3. split; intros (i & s & Es & Hs).
    + exists i, s. split; [|done]. by apply lookup_app_l_Some.
    + apply lookup_app_Some in Es as [Es|[_ Es]]; [by eauto|].
      by apply list_lookup_singleton_Some in Es as [_ <-].
  - done.
  - intros j p s Ep Es Ha. apply lookup_app_Some in Es as [Es|[_ Es]]; [by apply (H5 j p s)|].
    by apply list_lookup_singleton_Some in Es as [_ <-].
  - done.
Qed.

Lemma dialTurn_ok readFile dial t t' :
  dialTurn ParsePrivateKey ParseAuthorizedKey cfg readFile dial t = Some t' → tunnel_ok t → tunnel_ok t'.
Proof.
  unfold dialTurn. destruct (tn_run t) as [|start [| | | | | | |]| | |] eqn:Hr; try done.
  destruct (dialSSH _ _ _ _ _) as [key|e] eqn:Ed; intros [= <-] H.
  - apply open_session_ok; try done. by apply (dialSSH_key readFile dial).
  - by apply ok_run; rewrite ?Hr.
Qed.

Lemma listenTurn_ok r t t' : listenTurn cfg r t = Some t' → tunnel_ok t → tunnel_ok t'.
Proof.
  unfold listenTurn. destruct (tn_run t) as [|start [|i| | | | | |]| | |] eqn:Hr; try done.
  destruct (tn_sessions t !! i) as [s|]; [|done]. simpl. destruct r as [[]|e].
  - destruct (alive s); [|done]. intros [= <-] H. apply ok_set; unfold keeps; rewrite ?Hr; try done. keep_stages.
  - intros [= <-] H. apply ok_run; rewrite ?Hr; try done. stages.
Qed.

Lemma with_proxy_ok j p ps t :
  tunnel_ok t → ps = <[j := p]> (tn_proxies t) ∨ ps = tn_proxies t ++ [p] → proxy_ok p →
  (∀ s, tn_sessions t !! px_session p = Some s → alive s = false → nc_fin (px_remote p) = true) →
  tunnel_ok (with_proxies ps t).
Proof.
  intros [H1 H2 H3 H4 H5 H6] Hps Hp Hs.
  assert (∀ k q, ps !! k = Some q → q = p ∨ tn_proxies t !! k = Some q) as Hin.
  { intros k q Eq. destruct Hps as [-> | ->].
    - apply list_lookup_insert_Some in Eq as [(_ & -> & _)|[_ Eq]]; auto.
    - apply lookup_app_Some in Eq as [Eq|[_ Eq]]; [by right|]. apply list_lookup_singleton_Some in Eq as [_ ->]. by left. }
  split; simpl; try done.
  - intros k q Eq. destruct (Hin k q Eq) as [->|E]; [done|by apply (H4 k)].
  - intros k q s Eq Es. destruct (Hin k q Eq) as [->|E]; [by apply Hs|by apply (H5 k)].
Qed.

Lemma acceptTurn_ok r t t' : acceptTurn r t = Some t' → tunnel_ok t → tunnel_ok t'.
Proof.
  unfold acceptTurn. destruct (tn_run t) as [|start [| | |i| | | |]| | |] eqn:Hr; try done.
  destruct (tn_sessions t !! i) as [s|] eqn:Es; [|done]. simpl. destruct r as [[]|e].
  - destruct (ss_queue s) as [|n]; [done|]. destruct (alive s) eqn:Ha; [|done]. intros [= <-] H.
    apply (with_proxy_ok 0 (newProxy i)); [|by right|by apply newProxy_ok|].
    + apply ok_set_same; unfold keeps; rewrite ?Hr; try done.
    + simpl. intros s' Es'. rewrite list_lookup_alter_eq, Es in Es'. injection Es' as <-. unfold alive in *. simpl.
      by rewrite Ha.
  - destruct (_ || _); [|done]. intros [= <-] H. apply ok_run; rewrite ?Hr; try done.
Qed.

(** What a goroutine of a session does to it: it closes what is open. *)
Record shuts s s' : Prop := {
  shuts_started : started s → started s';
  shuts_stop : ss_stop s' = ss_stop s;
  shuts_client : ss_client s = false → ss_client s' = false;
  shuts_listening : ss_listening s = Some false → ss_listening s' = Some false
}.

Lemma stage_started r i s :
  stage r i s → ss_closer s ≠ NoCloser ∨ ss_keeper s ≠ NoKeeper → started s.
Proof.
  intros Hs Hc. assert (¬ unstarted s) as Hn by (unfold unstarted; intuition congruence).
  unfold stage, unwound in Hs. destruct r as [|? []|? ?|?|]; simpl in Hs; repeat case_decide; tauto.
Qed.

Lemma stage_shuts r i s s' : started s → shuts s s' → stage r i s → stage r i s'.
Proof.
  intros Hst [H1 H2 H3 H4] Hs. specialize (H1 Hst).
  assert (¬ unstarted s) as Hn by (unfold unstarted, started in *; intuition congruence).
  unfold stage, unwound in *. destruct r as [|? []|? ?|?|]; simpl in *; rewrite ?H2; repeat case_decide; tauto.
Qed.

(** Such a step leaves [Run] where it is. *)
Lemma keeps_shuts i s f t :
  tn_sessions t !! i = Some s → ss_closer s ≠ NoCloser ∨ ss_keeper s ≠ NoKeeper → shuts s (f s) →
  (closed_by s → closed_by (f s)) → ss_hostKey (f s) = ss_hostKey s → keeps t (tn_run t) i f.
Proof.
  intros Es Hc Hsh Hcl Hk. split; [|done]. intros s' Es' (Hst & Hb & Hh). rewrite Es in Es'. injection Es' as <-.
  split; [|split; [by apply Hcl|by rewrite Hk]]. by apply (stage_shuts _ _ s); [apply (stage_started _ _ _ Hst)| |].
Qed.

Lemma client_closing i s t :
  tn_sessions t !! i = Some s → ss_closer s ≠ NoCloser ∨ ss_keeper s ≠ NoKeeper → tunnel_ok t → tunnel_ok (client_Close i t).
Proof.
  intros Es Hc H. apply ok_end_client_same; [done|]. apply (keeps_shuts i s); try done.
  - split; try done. simpl. by intros ->.
  - unfold closed_by. simpl. destruct (ss_closer s); try done. by intros [? ->].
Qed.

Lemma ln_closing i s t :
  tn_sessions t !! i = Some s → ss_closer s = ClosingListener → tunnel_ok t →
  tunnel_ok (on_session i (closer_at AwaitingClose) (ln_Close i t)).
Proof.
  intros Es Hc H. assert (ss_closer s ≠ NoCloser) as Hn by congruence.
  assert (on_session i (closer_at AwaitingClose) (ln_Close i t) =
    on_session i (λ s, closer_at AwaitingClose (listen_set ((λ _, false) <$> ss_listening s) s)) t) as ->.
  { unfold ln_Close, on_session, with_sessions. simpl. f_equal. apply list_alter_alter_eq. }
  destruct (ok_sessions _ H _ _ Es) as (Hst & _).
  destruct (stage_started _ _ _ Hst (or_introl Hn)) as [_ Hl].
  apply ok_set_same; [done| |intros s' Es'; simplify_eq; by rewrite Hc|done].
  apply (keeps_shuts i s); [done|left; congruence| | |done].
  - split; try done; simpl; [intros []; split; simpl; [done|by destruct (ss_listening s)]|by intros ->].
  - intros _. unfold closed_by. simpl. by destruct (ss_listening s).
Qed.

Lemma closerTurn_ok i t t' : closerTurn i t = Some t' → tunnel_ok t → tunnel_ok t'.
Proof.
  unfold closerTurn. destruct (tn_sessions t !! i) as [s|] eqn:Es; [|done]. simpl. destruct (ss_closer s) eqn:Hc; try done.
  - destruct (_ || _); [|done]. intros [= <-] H. apply ok_set_same; [done| |intros s' Es'; simplify_eq; by rewrite Hc|done].
    apply (keeps_shuts i s); [done|left; congruence| |done|done]. by split; try done; intros [].
  - intros [= <-] H. by apply (ln_closing i s).
  - intros [= <-] H. assert (ss_closer s ≠ NoCloser) as Hn by congruence.
    pose proof (client_closing i s t Es (or_introl Hn) H) as H'.
    destruct (ok_sessions _ H _ _ Es) as (_ & Hb & _). unfold closed_by in Hb. rewrite Hc in Hb.
    assert (tn_sessions (client_Close i t) !! i = Some (client_down true s)) as Es1
      by (simpl; by rewrite list_lookup_alter_eq, Es).
    apply ok_set_same; [done| |intros s' Es'; simplify_eq; simpl; by rewrite Hc|done].
    apply (keeps_shuts i (client_down true s)); [done|by left| | |done].
    + split; try done. by intros [].
    + intros _. split; [done|]. simpl. apply andb_false_r.
Qed.

Lemma closedTurn_ok t t' : closedTurn t = Some t' → tunnel_ok t → tunnel_ok t'.
Proof.
  unfold closedTurn. destruct (tn_run t) as [|start [| | | | | |i e|]| | |] eqn:Hr; try done. intros [= <-] H.
  apply ok_run; rewrite ?Hr; done.
Qed.

Lemma closerClosed_ok i t t' : closerClosed i t = Some t' → tunnel_ok t → tunnel_ok t'.
Proof.
  unfold closerClosed. destruct (tn_sessions t !! i) as [s|] eqn:Es; [|done]. simpl. destruct (ss_closer s) eqn:Hc; try done.
  intros [= <-] H. destruct (ok_sessions _ H _ _ Es) as (_ & Hb & _). unfold closed_by in Hb. rewrite Hc in Hb.
  apply ok_set_same; [done| |intros s' Es'; simplify_eq; by rewrite Hc|done].
  apply (keeps_shuts i s); [done|left; congruence| |by intros _|done]. by split; try done; intros [].
Qed.

Lemma keeperTurn_ok i tick t t' : keeperTurn i tick t = Some t' → tunnel_ok t → tunnel_ok t'.
Proof.
  unfold keeperTurn. destruct (tn_sessions t !! i) as [s|] eqn:Es; [|done]. simpl.
  assert (∀ k t0 s0, tn_sessions t0 !! i = Some s0 → ss_keeper s0 ≠ NoKeeper → tunnel_ok t0 →
    tunnel_ok (on_session i (keeper_at k) t0)) as Hk.
  { intros k t0 s0 E0 Hn H. apply ok_set_same; [done| |done|done]. apply (keeps_shuts i s0); [done|by right| |done|done].
    by split; try done; intros []. }
  destruct (ss_keeper s) eqn:Hc, tick as [| |[[]|e]|]; try done.
  - destruct (ss_stop s); [|done]. intros [= <-]. apply (Hk _ t s); [done|congruence].
  - intros [= <-]. apply (Hk _ t s); [done|congruence].
  - destruct (alive s); [|done]. intros [= <-]. apply (Hk _ t s); [done|congruence].
  - destruct (alive s); [done|]. intros [= <-]. apply (Hk _ t s); [done|congruence].
  - intros [= <-] H. apply (Hk _ _ (client_down true s)).
    + simpl. by rewrite list_lookup_alter_eq, Es.
    + simpl. congruence.
    + apply (client_closing i s); [done|right; congruence|done].
Qed.

Lemma tunnelStep_ok ev t t' : tunnelStep ev t = Some t' → tunnel_ok t → tunnel_ok t'.
Proof.
  destruct ev as [|now|now|readFile dial|r|r| |i|i|i tick|i|i|j ev]; simpl.
  - intros [= <-] []. by split.
  - apply runTurn_ok.
  - apply pauseOver_ok.
  - apply dialTurn_ok.
  - apply listenTurn_ok.
  - apply acceptTurn_ok.
  - apply closedTurn_ok.
  - apply closerTurn_ok.
  - apply closerClosed_ok.
  - apply keeperTurn_ok.
  - destruct (tn_sessions t !! i) as [s|] eqn:Es; [|done]. simpl. destruct (_ && _); [|done]. intros [= <-] H.
    apply ok_set_same; [done| |done|done]. split; [|done]. by intros s' _.
  - intros [= <-] H. apply ok_end_client_same; [done|]. split; [|done]. intros s' _ Hs.
    destruct s'. unfold client_down. simpl. by rewrite andb_true_r.
  - destruct (tn_proxies t !! j) as [p|] eqn:Ep; [|done]. simpl. destruct (arrives ev p t) eqn:Ha; [|done].
    destruct (proxyStep ev p) as [p'|] eqn:E; [|done]. intros [= <-] H.
    destruct (proxyStep_fin _ _ _ E) as [Hi Hf].
    apply (with_proxy_ok j p'); [done|by left|by apply (proxyStep_ok ev p p' E), (ok_proxies _ H j)|].
    rewrite Hi. intros s Es Hd. apply Hf. by apply (ok_hung _ H j p s).
Qed.

Lemma NewSSHTunnel_ok : tunnel_ok NewSSHTunnel.
Proof.
  split; simpl; try done.
  - split; [done|]. by intros (i & s & Es & _).
  - exists 0. done.
Qed.

Lemma tunnelRun_ok evs t t' : tunnelRun evs t = Some t' → tunnel_ok t → tunnel_ok t'.
Proof.
  revert t t'. induction evs as [|ev evs IH] using rev_ind; intros t t'; unfold tunnelRun in *; [by intros [= <-]|].
  rewrite foldl_snoc. intros (t1 & E1 & E)%bind_Some H. apply (tunnelStep_ok ev t1); [done|]. by apply (IH t).
Qed.

Lemma reaches_ok t : tunnelReaches t → tunnel_ok t.
Proof. intros [evs E]. apply (tunnelRun_ok _ _ _ E), NewSSHTunnel_ok. Qed.

(** ** What the connections carry *)

(** What has been written is a beginning of what the peer sent, and all that has arrived when the
    copy waits for more. *)
Definition delivered (src dst : netConn) (c : copier) : Prop :=
  ∃ rest, nc_written dst +:+ rest = sent src ∧ (c = Reading → rest = nc_in src).

Lemma copied_delivered src dst c : copied src dst c → delivered src dst c.
Proof.
  unfold delivered, sent. destruct c as [|buf last| |]; simpl.
  - intros ->. by exists (nc_in src).
  - intros <-. exists (buf +:+ nc_in src). by rewrite str_app_assoc.
  - intros [rest <-]. exists (rest +:+ nc_in src). by rewrite str_app_assoc.
  - intros [rest <-]. exists (rest +:+ nc_in src). by rewrite str_app_assoc.
Qed.

(** [C35] (safety) Whatever the goroutines of a tunnel and the network do, what a proxy has written to
    the control plane is a beginning of what came through the tunnel, and what it has written back is
    a beginning of what the control plane sent, nothing lost, doubled or reordered; a copy that is
    waiting has passed on all that arrived; and when the proxy returns both connections are closed. *)
Theorem tunnel_forwards t j p l :
  tunnelReaches t → tn_proxies t !! j = Some p → px_link p = Some l →
  delivered (px_remote p) (lk_local l) (lk_up l) ∧ delivered (lk_local l) (px_remote p) (lk_down l) ∧
  (px_main p = PxEnded → nc_open (px_remote p) = false ∧ nc_open (lk_local l) = false).
Proof.
  intros Ht Ep El. pose proof (ok_proxies _ (reaches_ok t Ht) j p Ep) as [He Hp]. rewrite El in Hp.
  destruct Hp as (_ & Hu & Hd & _ & Hc). split; [by apply copied_delivered|]. split; [by apply copied_delivered|].
  intros Hm. split; [by apply He|]. apply Hc. rewrite Hm. set_solver.
Qed.

(** ** One session at a time *)

Lemma stage_over r i s : stage r i s → current r ≠ Some i → unwound s ∧ ss_client s = false.
Proof.
  intros Hs Hc. destruct r as [|? []|? ?|?|]; simpl in *; try done; case_decide; subst; try done; naive_solver.
Qed.

(** [C36] (invariant) In every state a tunnel comes to, only the session that [serveOnce] is working
    on can have its client or its listener open, so there are never two at a time and none once
    [Run] has returned; every session was opened with the configured host key if there is one; [ready]
    is closed when a session got its remote listener, and not before; and the pauses between sessions
    are powers of two from 1 to 32 seconds. *)
Theorem tunnel_single t :
  tunnelReaches t →
  (∀ i s, tn_sessions t !! i = Some s →
    (ss_client s = true ∨ ss_listening s = Some true → current (tn_run t) = Some i) ∧
    (TrimSpace (SSH_KnownHost cfg) ≠ "" →
      ∃ pk, ss_hostKey s = Some pk ∧ parseHostKey ParseAuthorizedKey (SSH_KnownHost cfg) = Ok pk)) ∧
  (tn_ready t = true → ∃ i s, tn_sessions t !! i = Some s ∧ ss_listening s ≠ None) ∧
  tunnel_delay (tn_backoff t).
Proof.
  intros Ht. pose proof (reaches_ok t Ht) as H. split; [|split; [|apply H]].
  - intros i s Es. destruct (ok_sessions _ H i s Es) as (Hst & _ & Hk). split.
    + intros Ho. destruct (decide (current (tn_run t) = Some i)) as [E|E]; [done|].
      destruct (stage_over _ _ _ Hst E) as [[[_ Hl]|(_ & _ & Hl)] Hc]; destruct Ho; congruence.
    + intros Hn. unfold hostKeyCallback in Hk. rewrite decide_False in Hk by done.
      destruct (parseHostKey _ _) as [pk|]; [|done]. injection Hk as <-. by exists pk.
  - intros (i & s & Es & Hs)%(ok_ready _ H). exists i, s. split; [done|].
    destruct (ok_sessions _ H i s Es) as (Hst & _). by destruct (stage_started _ _ _ Hst (or_introl Hs)).
Qed.

(** ** Stopping *)

(** The turns that a session's closer has left, and the connections waiting at its listener. *)
Definition closerWork s : nat :=
  match ss_closer s with Watching => 4 | ClosingListener => 3 | AwaitingClose => 2 | ClosingClient => 1 | _ => 0 end + ss_queue s.
(** The turns that [Run] has left once the context is cancelled, the start of a closer paid for. *)
Definition runWork (r : runState) : nat :=
  match r with
  | Checking => 1
  | Serving _ SvDial => 15
  | Serving _ (SvListen _) => 14
  | Serving _ (SvAnnounce _) => 13
  | Serving _ (SvAccept _) => 8
  | Serving _ (SvCloseStop _ _) => 7
  | Serving _ (SvCloseListener _ _) => 6
  | Serving _ (SvAwaitClose _ _) => 5
  | Serving _ (SvCloseClient _ _) => 4
  | Served _ _ => 3
  | Pausing _ => 2
  | Stopped => 0
  end.
Definition tunnelWork t : nat := runWork (tn_run t) + sum_list_with closerWork (tn_sessions t).

(** The turns of [Run] and of the closers among events, and the connections offered. *)
Definition ownTurn (ev : tunnelEvent Signer PublicKey) : nat :=
  match ev with EvRun _ | EvPauseOver _ | EvDial _ _ | EvListen _ | EvAccept _ | EvClosed | EvCloser _ | EvCloserClosed _ => 1
  | _ => 0 end.
Definition offer (ev : tunnelEvent Signer PublicKey) : nat := match ev with EvOffered _ => 1 | _ => 0 end.

(** What changing a session adds to the work. *)
Lemma work_alter i f (ss : list session) n :
  (∀ s, ss !! i = Some s → closerWork (f s) ≤ closerWork s + n)%nat →
  (sum_list_with closerWork (alter f i ss) ≤ sum_list_with closerWork ss + n)%nat.
Proof.
  intros Hf. destruct (ss !! i) as [s|] eqn:E.
  - pose proof (sum_list_alter closerWork f ss i s E). specialize (Hf s eq_refl). lia.
  - rewrite (list_alter_ext f id ss ss); [rewrite list_alter_id by done; lia|congruence|done].
Qed.

Lemma work_same i f (ss : list session) :
  (∀ s, closerWork (f s) = closerWork s) → sum_list_with closerWork (alter f i ss) = sum_list_with closerWork ss.
Proof.
  intros Hf. destruct (ss !! i) as [s|] eqn:E; [pose proof (sum_list_alter closerWork f ss i s E); rewrite Hf in *; lia|].
  rewrite (list_alter_ext f id ss ss); [by rewrite list_alter_id|congruence|done].
Qed.

(** The same where the session is known and its work shrinks. *)
Lemma work_less i f (ss : list session) s n :
  ss !! i = Some s → (closerWork (f s) + n ≤ closerWork s)%nat →
  (sum_list_with closerWork (alter f i ss) + n ≤ sum_list_with closerWork ss)%nat.
Proof. intros E Hf. pose proof (sum_list_alter closerWork f ss i s E). lia. Qed.

Lemma runTurn_work now t t' :
  tn_cancelled t = true → runTurn now t = Some t' → (1 + tunnelWork t' ≤ tunnelWork t)%nat.
Proof.
  intros Hc. unfold runTurn, tunnelWork. rewrite Hc.
  destruct (tn_run t) as [|start [|i|i|i|i e|i e|i e|i e]|start e|since|]; try done; intros [= <-]; simpl; rewrite ?work_same by done; try lia.
  enough (sum_list_with closerWork (alter (λ s, keeper_at Ticking (closer_at Watching s)) i (tn_sessions t)) ≤
    sum_list_with closerWork (tn_sessions t) + 4)%nat by lia.
  apply work_alter. intros s _. unfold closerWork. simpl. destruct (ss_closer s); lia.
Qed.

Lemma acceptTurn_work r t t' : acceptTurn r t = Some t' → (1 + tunnelWork t' ≤ tunnelWork t)%nat.
Proof.
  unfold acceptTurn, tunnelWork. destruct (tn_run t) as [|start [| | |i| | | |]| | |] eqn:Hr; try done.
  destruct (tn_sessions t !! i) as [s|] eqn:Es; [|done]. simpl. destruct r as [[]|e].
  - destruct (ss_queue s) as [|n] eqn:Eq; [done|]. destruct (alive s); [|done]. intros [= <-]. simpl. rewrite Hr. simpl.
    pose proof (work_less i (queue_set n) (tn_sessions t) s 1 Es) as H.
    specialize (H ltac:(unfold closerWork; simpl; rewrite Eq; lia)). lia.
  - destruct (_ || _); [|done]. intros [= <-]. simpl. lia.
Qed.

Lemma closerTurn_work i t t' : closerTurn i t = Some t' → (1 + tunnelWork t' ≤ tunnelWork t)%nat.
Proof.
  unfold closerTurn, tunnelWork. destruct (tn_sessions t !! i) as [s|] eqn:Es; [|done]. simpl.
  assert (∀ c g, (∀ x, closerWork (g x) = closerWork x) → (closerWork (closer_at c s) + 1 ≤ closerWork s)%nat →
    ss_queue (g s) = ss_queue s →
    (1 + sum_list_with closerWork (alter (closer_at c) i (alter g i (tn_sessions t))) ≤
     sum_list_with closerWork (tn_sessions t))%nat) as Hc.
  { intros c g Hg Hw Hq. rewrite <-(work_same i g (tn_sessions t) Hg), Nat.add_comm.
    apply (work_less i _ _ (g s)); [by rewrite list_lookup_alter_eq, Es|]. rewrite Hg.
    unfold closerWork in *. simpl in *. by rewrite Hq. }
  destruct (ss_closer s) eqn:Ec; try done.
  - destruct (_ || _); [|done]. intros [= <-]. simpl.
    specialize (Hc ClosingListener id). rewrite (list_alter_id id) in Hc by done.
    specialize (Hc (λ _, eq_refl) ltac:(unfold closerWork; simpl; rewrite Ec; lia) eq_refl). lia.
  - intros [= <-]. simpl. specialize (Hc AwaitingClose (λ s, listen_set ((λ _, false) <$> ss_listening s) s)
      (λ _, eq_refl) ltac:(unfold closerWork; simpl; rewrite Ec; lia) eq_refl). lia.
  - intros [= <-]. simpl. specialize (Hc CloserDone (client_down true) (λ _, eq_refl)
      ltac:(unfold closerWork; simpl; rewrite Ec; lia) eq_refl). lia.
Qed.

Lemma closerClosed_work i t t' : closerClosed i t = Some t' → (1 + tunnelWork t' ≤ tunnelWork t)%nat.
Proof.
  unfold closerClosed, tunnelWork. destruct (tn_sessions t !! i) as [s|] eqn:Es; [|done]. simpl.
  destruct (ss_closer s) eqn:Ec; try done. intros [= <-]. simpl.
  pose proof (work_less i (closer_at ClosingClient) _ s 1 Es ltac:(unfold closerWork; simpl; rewrite Ec; lia)). lia.
Qed.

Lemma keeperTurn_work i tick t t' : keeperTurn i tick t = Some t' → tunnelWork t' = tunnelWork t.
Proof.
  unfold keeperTurn, tunnelWork. destruct (tn_sessions t !! i) as [s|]; [|done]. simpl.
  destruct (ss_keeper s), tick as [| |[[]|e]|]; try done; try case_match; try done; intros [= <-]; simpl; by rewrite ?work_same.
Qed.

Lemma tunnelStep_cancelled ev t t' : tunnelStep ev t = Some t' → tn_cancelled t = true → tn_cancelled t' = true.
Proof.
  destruct ev as [|now|now|readFile dial|r|r| |i|i|i tick|i|i|j ev]; simpl;
    unfold runTurn, pauseOver, dialTurn, listenTurn, acceptTurn, closedTurn, closerTurn, closerClosed, keeperTurn; intros E H;
    repeat (case_match || (apply bind_Some in E as (? & ? & E))); simplify_eq; try done; by case_match.
Qed.

Lemma tunnelStep_work ev t t' :
  tn_cancelled t = true → tunnelStep ev t = Some t' → (ownTurn ev + tunnelWork t' ≤ tunnelWork t + offer ev)%nat.
Proof.
  intros Hc. destruct ev as [|now|now|readFile dial|r|r| |i|i|i tick|i|i|j ev]; simpl.
  - intros [= <-]. unfold tunnelWork. simpl. lia.
  - intros E. pose proof (runTurn_work now t t' Hc E). lia.
  - unfold pauseOver, tunnelWork. destruct (tn_run t); try done. destruct (_ <=? _); [|done]. intros [= <-]. simpl. lia.
  - unfold dialTurn, tunnelWork. destruct (tn_run t) as [|start [| | | | | | |]| | |]; try done.
    destruct (dialSSH _ _ _ _ _); intros [= <-]; simpl; [|lia]. rewrite sum_list_with_app. simpl. unfold closerWork. simpl. lia.
  - unfold listenTurn, tunnelWork. destruct (tn_run t) as [|start [|i| | | | | |]| | |]; try done.
    destruct (tn_sessions t !! i) as [s|]; [|done]. simpl. destruct r; [destruct (alive s); [|done]|]; intros [= <-]; simpl; [|lia].
    rewrite work_same by done. lia.
  - intros E. pose proof (acceptTurn_work r t t' E). lia.
  - unfold closedTurn, tunnelWork. destruct (tn_run t) as [|start [| | | | | |i e|]| | |]; try done. intros [= <-]. simpl. lia.
  - intros E. pose proof (closerTurn_work i t t' E). lia.
  - intros E. pose proof (closerClosed_work i t t' E). lia.
  - intros ->%keeperTurn_work. lia.
  - destruct (tn_sessions t !! i) as [s|] eqn:Es; [|done]. simpl. destruct (_ && _); [|done]. intros [= <-].
    unfold tunnelWork. simpl. pose proof (sum_list_alter closerWork (queue_set (S (ss_queue s))) _ i s Es) as H.
    unfold closerWork at 2 4 in H. simpl in H. lia.
  - intros [= <-]. unfold tunnelWork. simpl. rewrite work_same by done. lia.
  - destruct (tn_proxies t !! j) as [p|]; [|done]. simpl. destruct (arrives ev p t); [|done].
    destruct (proxyStep ev p); [|done]. intros [= <-]. unfold tunnelWork. simpl. lia.
Qed.

Definition turns (evs : list (tunnelEvent Signer PublicKey)) : nat := sum_list_with ownTurn evs.
Definition offers (evs : list (tunnelEvent Signer PublicKey)) : nat := sum_list_with offer evs.

Lemma tunnelRun_work evs t t' :
  tn_cancelled t = true → tunnelRun evs t = Some t' →
  tn_cancelled t' = true ∧ (turns evs + tunnelWork t' ≤ tunnelWork t + offers evs)%nat.
Proof.
  intros Hc. unfold tunnelRun, turns, offers. revert t'. induction evs as [|ev evs IH] using rev_ind; intros t'.
  - intros [= <-]. split; [done|]. simpl. lia.
  - rewrite foldl_snoc, !sum_list_with_app. intros (t1 & E1 & E)%bind_Some. destruct (IH t1 E1) as [Hc1 Hw].
    split; [by apply (tunnelStep_cancelled ev t1)|]. pose proof (tunnelStep_work ev t1 t' Hc1 E). simpl. lia.
Qed.

(** What [Run] waits for the peer in: the dial, or a request over a connection that is there. *)
Definition awaits t : Prop :=
  match tn_run t with
  | Serving _ SvDial => True
  | Serving _ (SvListen i | SvAwaitClose i _) => ∃ s, tn_sessions t !! i = Some s ∧ alive s = true
  | _ => False
  end.

(** The events that are an answer of the peer. *)
Definition answers t (ev : tunnelEvent Signer PublicKey) : bool :=
  match ev with
  | EvDial _ _ => true
  | EvListen _ | EvClosed =>
      match current (tn_run t) with Some i => from_option alive false (tn_sessions t !! i) | None => false end
  | EvCloserClosed i | EvKeeper i (KeeperReply _) => from_option alive false (tn_sessions t !! i)
  | _ => false
  end.

(** The answers to what [Run] waits for. *)
Definition awaited t (ev : tunnelEvent Signer PublicKey) : bool :=
  match tn_run t, ev with
  | Serving _ SvDial, EvDial _ _ | Serving _ (SvListen _), EvListen _ | Serving _ (SvAwaitClose _ _), EvClosed => true
  | _, _ => false
  end.

Lemma current_session t i : tunnel_ok t → current (tn_run t) = Some i → ∃ s, tn_sessions t !! i = Some s.
Proof. intros H Hi. by apply lookup_lt_is_Some_2, (ok_current _ H). Qed.

(** Once the context is cancelled [Run] or a closer can move by itself until [Run] has returned, or
    [Run] waits for the peer. *)
Lemma tunnel_moves t :
  tunnel_ok t → tn_cancelled t = true → tn_run t ≠ Stopped →
  awaits t ∨ ∃ ev, ownTurn ev = 1%nat ∧ answers t ev = false ∧ is_Some (tunnelStep ev t).
Proof.
  intros H Hc Hr. pose proof (λ i, current_session t i H) as Hi. pose proof (ok_sessions _ H) as Hs. unfold awaits.
  destruct (tn_run t) as [|start [|i|i|i|i e|i e|i e|i e]|start e|since|] eqn:Er; try done;
    try (right; exists (EvRun 0); split; [done|]; split; [done|]; simpl; unfold runTurn; rewrite Er, ?Hc; by eexists).
  - by left.
  - destruct (Hi i eq_refl) as [s Es]. destruct (alive s) eqn:Ea; [left; by exists s|]. right.
    exists (EvListen (Err "")). split; [done|]. simpl. unfold listenTurn. rewrite Er. simpl. rewrite Es. simpl. split; [done|by eexists].
  - right. destruct (Hi i eq_refl) as [s Es].
    destruct (Hs i s Es) as (Hst & Hb & _). simpl in Hst. rewrite decide_True in Hst by done. destruct Hst as [[Hn _] _].
    assert (ss_listening s = Some false → ∃ r, is_Some (tunnelStep (EvAccept r) t)) as Hacc.
    { intros Hl. simpl. unfold acceptTurn, is_listening. rewrite Er, Es. simpl. rewrite Hl.
      destruct (alive s), (ss_queue s) as [|n]; [exists (Err "")|exists (Ok ())|exists (Err "")..]; by eexists. }
    unfold closed_by in Hb. destruct (ss_closer s) eqn:Ec; try done;
      try (exists (EvCloser i); split; [done|]; split; [done|]; simpl; unfold closerTurn; rewrite Es; simpl; rewrite Ec, ?Hc; by eexists);
      destruct Hacc as [r Hacc]; try tauto; by exists (EvAccept r).
  - destruct (Hi i eq_refl) as [s Es]. destruct (alive s) eqn:Ea; [left; by exists s|]. right.
    exists EvClosed. split; [done|]. simpl. unfold closedTurn. rewrite Er. simpl. rewrite Es. simpl. split; [done|by eexists].
Qed.

(** An answer to what [Run] waits for lets it go on. *)
Lemma answer_taken t ev : tunnel_ok t → awaits t → awaited t ev = true → is_Some (tunnelStep ev t).
Proof.
  intros H. unfold awaits, awaited. destruct (tn_run t) as [|start [|i|i|i|i e|i e|i e|i e]|start e|since|] eqn:Er; try done;
    destruct ev; try done; intros Ha _; simpl; unfold dialTurn, listenTurn, closedTurn; rewrite Er; [by destruct (dialSSH _ _ _ _ _); eexists| |by eexists].
  destruct Ha as (s & Es & Ea). rewrite Es. simpl. rewrite Ea. destruct r; by eexists.
Qed.

(** So does the end of its connection. *)
Lemma lost_released t i : current (tn_run t) = Some i → ∃ t1, tunnelStep (EvLost i) t = Some t1 ∧ ¬ awaits t1.
Proof.
  intros Hi. eexists. split; [reflexivity|]. unfold awaits. simpl.
  assert (∀ s, alter (client_down false) i (tn_sessions t) !! i = Some s → alive s = true → False) as Hd.
  { intros s. rewrite list_lookup_alter_eq. destruct (tn_sessions t !! i); [|done]. intros [= <-]. unfold alive. simpl.
    by rewrite orb_true_r, andb_false_r. }
  destruct (tn_run t) as [|start [|k|k|k|k e|k e|k e|k e]|start e|since|]; try done; injection Hi as ->; intros Hw; try done;
    destruct Hw as (s & Es & Ea); by eapply Hd.
Qed.

(** [C37] (termination) Once the context is cancelled [Run] returns, as far as the peer answers: the
    turns of [Run] and of the closers, answers included, are at most the work left and one more for
    each connection offered meanwhile; until [Run] has returned one of them can take a turn by itself,
    or [Run] waits for the peer, in a dial, a request to listen or the request that ends the
    listening, over a connection that is there; whatever the answer is, it goes on with it, and without
    an answer it waits no more once the connection breaks; and when it has returned every client and every
    listener is closed and every [stop] channel of a started session as well.  The waits
    themselves have no deadline and do not look at the context. *)
Theorem tunnel_stops t evs t' :
  tunnelReaches t → tn_cancelled t = true → tunnelRun evs t = Some t' →
  (turns evs + tunnelWork t' ≤ tunnelWork t + offers evs)%nat ∧
  (tn_run t' ≠ Stopped →
     awaits t' ∨ ∃ ev, ownTurn ev = 1%nat ∧ answers t' ev = false ∧ is_Some (tunnelStep ev t')) ∧
  (awaits t' → ∀ ev, awaited t' ev = true → is_Some (tunnelStep ev t')) ∧
  (∀ i, current (tn_run t') = Some i → ∃ t1, tunnelStep (EvLost i) t' = Some t1 ∧ ¬ awaits t1) ∧
  (tn_run t' = Stopped → ∀ i s, tn_sessions t' !! i = Some s →
     ss_client s = false ∧ ss_listening s ≠ Some true ∧ (ss_closer s ≠ NoCloser → ss_stop s = true)).
Proof.
  intros Ht Hc E. pose proof (tunnelRun_ok _ _ _ E (reaches_ok t Ht)) as H.
  destruct (tunnelRun_work evs t t' Hc E) as [Hc' Hw]. split; [done|]. split; [by apply tunnel_moves|].
  split; [intros Ha ev; by apply answer_taken|]. split; [apply lost_released|].
  intros Hr i s Es. destruct (ok_sessions _ H i s Es) as (Hst & _). rewrite Hr in Hst.
  destruct Hst as [[[(Hn & _) Hl]|(_ & Hs & Hl)] Hcl]; rewrite Hl; by split_and!.
Qed.

(** *** A silent peer *)

(** [serveOnce] and the closer of its session both wait for the answer to [ln.Close], and nobody else is
    about to close the client. *)
Definition stuck start i e t : Prop :=
  tn_run t = Serving start (SvAwaitClose i e) ∧
  ∃ s, tn_sessions t !! i = Some s ∧ alive s = true ∧ ss_closer s = AwaitingClose ∧ ss_keeper s ≠ Dropping.

(** A step that needs neither an answer of the peer nor the end of a connection. *)
Definition silently t t' : Prop := ∃ ev, answers t ev = false ∧ (∀ i, ev ≠ EvLost i) ∧ tunnelStep ev t = Some t'.

Lemma stuck_alter start i e t t' k f :
  stuck start i e t → tn_run t' = tn_run t → tn_sessions t' = alter f k (tn_sessions t) →
  (∀ s, k = i → tn_sessions t !! i = Some s → alive s = true → ss_closer s = AwaitingClose → ss_keeper s ≠ Dropping →
     alive (f s) = true ∧ ss_closer (f s) = AwaitingClose ∧ ss_keeper (f s) ≠ Dropping) →
  stuck start i e t'.
Proof.
  intros (Er & s & Es & Ha & Hc & Hk) Hr Hs Hf. split; [congruence|]. rewrite Hs, lookup_on_session, Es.
  case_decide as E; [exists (f s)|exists s]; by auto.
Qed.

Lemma stuck_step start i e t t' : stuck start i e t → silently t t' → stuck start i e t'.
Proof.
  intros Hst (ev & Hans & Hlost & E). pose proof Hst as (Er & s & Es & Ha & Hc & Hk).
  destruct ev as [|now|now|readFile dial|r|r| |k|k|k tick|k|k|j ev]; simpl in *; try done.
  - injection E as <-. done.
  - unfold runTurn in E. by rewrite Er in E.
  - unfold pauseOver in E. by rewrite Er in E.
  - unfold listenTurn in E. by rewrite Er in E.
  - unfold acceptTurn in E. by rewrite Er in E.
  - rewrite Er in Hans. simpl in Hans. rewrite Es in Hans. simpl in Hans. congruence.
  - unfold closerTurn in E. destruct (tn_sessions t !! k) as [s0|] eqn:E0; [|done]. simpl in E.
    destruct (ss_closer s0) eqn:Ec; try done; try (destruct (_ || _); [|done]); injection E as <-.
    + eapply (stuck_alter _ _ _ t _ k (closer_at ClosingListener)); [done..|]. intros; simplify_eq; congruence.
    + eapply (stuck_alter _ _ _ t _ k (λ s, closer_at AwaitingClose (listen_set ((λ _, false) <$> ss_listening s) s)));
        [done|done|simpl; apply list_alter_alter_eq|]. by intros.
    + eapply (stuck_alter _ _ _ t _ k (λ s, closer_at CloserDone (client_down true s))); [done|done|simpl; apply list_alter_alter_eq|].
      intros; simplify_eq; congruence.
  - unfold closerClosed in E. destruct (tn_sessions t !! k) as [s0|] eqn:E0; [|done]. simpl in *.
    destruct (ss_closer s0) eqn:Ec; try done. injection E as <-.
    eapply (stuck_alter _ _ _ t _ k (closer_at ClosingClient)); [done..|]. intros; simplify_eq; congruence.
  - unfold keeperTurn in E. destruct (tn_sessions t !! k) as [s0|] eqn:E0; [|done]. simpl in E, Hans.
    destruct (ss_keeper s0) eqn:Ek, tick as [| |[[]|er]|]; try done; try (case_match; try done); injection E as <-.
    + by eapply (stuck_alter _ _ _ t _ k (keeper_at KeeperDone)); [done..|].
    + by eapply (stuck_alter _ _ _ t _ k (keeper_at Asking)); [done..|].
    + eapply (stuck_alter _ _ _ t _ k (keeper_at Dropping)); [done..|]. intros; simplify_eq; congruence.
    + eapply (stuck_alter _ _ _ t _ k (λ s, keeper_at KeeperDone (client_down true s))); [done|done|simpl; apply list_alter_alter_eq|].
      intros; simplify_eq; congruence.
  - destruct (tn_sessions t !! k) as [s0|] eqn:E0; [|done]. simpl in E. destruct (_ && _); [|done]. injection E as <-.
    by eapply (stuck_alter _ _ _ t _ k (queue_set (S (ss_queue s0)))); [done..|].
  - by destruct (Hlost k).
  - destruct (tn_proxies t !! j) as [p|]; [|done]. simpl in E. destruct (arrives ev p t); [|done].
    destruct (proxyStep ev p); [|done]. by injection E as <-.
Qed.

(** (liveness) A peer that is there and does not answer holds [Run] back for ever: in such a state
    [Run] does not move, cancelled or not, whatever the goroutines of the tunnel do and whatever else
    happens on the network. *)
Theorem silent_peer_blocks start i e t t' :
  stuck start i e t → rtc silently t t' → tn_run t' = tn_run t.
Proof.
  intros Hst Hr. assert (stuck start i e t') as [-> _]; [|by destruct Hst as [-> _]].
  induction Hr as [t|t t1 t' H1 _ IH]; [done|]. by apply IH, (stuck_step _ _ _ t).
Qed.

(** The turns of the copies of proxy [j]. *)
Definition copyTurns j (evs : list (tunnelEvent Signer PublicKey)) : nat :=
  sum_list_with (λ ev, match ev with EvProxy k (PxCopy _ _) => if decide (k = j) then 1 else 0 | _ => 0 end)%nat evs.

(** What a step does to the proxies. *)
Lemma proxies_step ev t t' :
  tunnelStep ev t = Some t' →
  (∃ k e p p', ev = EvProxy k e ∧ tn_proxies t !! k = Some p ∧ proxyStep e p = Some p' ∧
     tn_proxies t' = <[k := p']> (tn_proxies t)) ∨
  (∀ k e, ev ≠ EvProxy k e) ∧
  (tn_proxies t' = tn_proxies t ∨ (∃ i, tn_proxies t' = hang_up i <$> tn_proxies t) ∨
   ∃ i, tn_proxies t' = tn_proxies t ++ [newProxy i]).
Proof.
  destruct ev as [|now|now|readFile dial|r|r| |i|i|i tick|i|i|k e]; simpl;
    unfold runTurn, pauseOver, dialTurn, listenTurn, acceptTurn, closedTurn, closerTurn, closerClosed, keeperTurn; intros E;
    repeat (case_match || (apply bind_Some in E as (? & ? & E))); simplify_eq; simpl; try (right; split; [done|]; eauto).
  left. by do 4 eexists.
Qed.

Lemma ended_stays ev t t' j p :
  tunnel_ok t → tn_proxies t !! j = Some p → px_main p = PxEnded → tunnelStep ev t = Some t' →
  ∃ p', tn_proxies t' !! j = Some p' ∧ px_main p' = PxEnded ∧ (copyTurns j [ev] + proxyWork p' ≤ proxyWork p)%nat.
Proof.
  intros H Ep Hm E. pose proof (ok_proxies _ H j p Ep) as Hp.
  destruct (proxies_step ev t t' E) as [(k & e & q & q' & -> & Eq & Es & ->)|(Hev & Ht')].
  - unfold copyTurns. simpl. destruct (decide (k = j)) as [->|Hk].
    + simplify_eq. destruct (ended_step e p q' Hp Hm Es) as [Hm' Hw]. exists q'.
      rewrite list_lookup_insert_eq by (by eapply lookup_lt_Some). split; [done|]. split; [done|].
      destruct e; simpl in *; lia.
    + exists p. rewrite list_lookup_insert_ne by done. split; [done|]. split; [done|]. destruct e; simpl; lia.
  - assert (copyTurns j [ev] = O) as ->.
    { unfold copyTurns. destruct ev; try done. by destruct (Hev j0 ev). }
    destruct Ht' as [->|[[i ->]|[i ->]]].
    + by exists p.
    + exists (hang_up i p). rewrite list_lookup_fmap, Ep. split; [done|]. unfold hang_up. case_decide; [|done].
      split; [done|]. unfold proxyWork. simpl. destruct (px_link p) as [l|]; [|lia]. by destruct (lk_up l).
    + exists p. by rewrite (lookup_app_l_Some _ _ _ _ Ep).
Qed.

(** A copy that has not ended can take a turn once both connections are closed. *)
Lemma copy_moves src dst n c :
  nc_open src = false → (n < 2)%nat → c ≠ Signalled → ∃ a, is_Some (copyStep a src dst n c).
Proof.
  intros Ho Hn Hc. destruct c as [|buf last| |]; [| | |done].
  - exists (ReadTurn 0 true). simpl. rewrite Ho. rewrite orb_true_r. by eexists.
  - exists (WriteTurn 0 true). simpl. by eexists.
  - exists DoneTurn. simpl. rewrite decide_True by done. by eexists.
Qed.

Lemma ended_run t j p evs t' :
  tunnel_ok t → tn_proxies t !! j = Some p → px_main p = PxEnded → tunnelRun evs t = Some t' →
  ∃ p', tn_proxies t' !! j = Some p' ∧ px_main p' = PxEnded ∧ (copyTurns j evs + proxyWork p' ≤ proxyWork p)%nat.
Proof.
  intros H Ep Hm. unfold tunnelRun, copyTurns. revert t'. induction evs as [|ev evs IH] using rev_ind; intros t'.
  - intros [= <-]. exists p. simpl. split; [done|]. split; [done|]. lia.
  - rewrite foldl_snoc, sum_list_with_app. intros (t1 & E1 & E)%bind_Some. destruct (IH t1 E1) as (p1 & Ep1 & Hm1 & Hw1).
    destruct (ended_stays ev t1 t' j p1 (tunnelRun_ok evs t t1 E1 H) Ep1 Hm1 E) as (p' & Ep' & Hm' & Hw').
    unfold copyTurns in Hw'. exists p'. split; [done|]. split; [done|]. lia.
Qed.

(** (termination) When a proxy has returned its two copies end as well, whatever happens: they
    take at most the stated number of turns, and until both have signalled one of them can, since
    reads and writes of the closed connections no longer wait and the channel takes both signals. *)
Theorem proxy_released t j p evs t' :
  tunnelReaches t → tn_proxies t !! j = Some p → px_main p = PxEnded → tunnelRun evs t = Some t' →
  ∃ p', tn_proxies t' !! j = Some p' ∧ px_main p' = PxEnded ∧
    (copyTurns j evs + proxyWork p' ≤ proxyWork p)%nat ∧
    (proxyWork p' ≠ 0%nat → ∃ d a, is_Some (tunnelStep (EvProxy j (PxCopy d a)) t')).
Proof.
  intros Ht Ep Hm E. pose proof (reaches_ok t Ht) as H.
  destruct (ended_run t j p evs t' H Ep Hm E) as (p' & Ep' & Hm' & Hw).
  exists p'. split; [done|]. split; [done|]. split; [done|]. intros Hn.
  destruct (ok_proxies _ (tunnelRun_ok _ _ _ E H) j p' Ep') as [Hr Hp]. unfold proxyWork in Hn.
  destruct (px_link p') as [l|] eqn:El; [|done]. destruct Hp as (_ & _ & _ & Hs & Hl).
  specialize (Hr Hm'). specialize (Hl ltac:(rewrite Hm'; set_solver)). rewrite Hm' in Hs. simpl in Hs.
  destruct (decide (lk_up l = Signalled)) as [Hu|Hu].
  - destruct (copy_moves (lk_local l) (px_remote p') (lk_done l) (lk_down l)) as (a & [[[c1 r1] n1] k1] & Ea); [done| | |].
    + destruct (lk_up l), (lk_down l); simpl in *; lia.
    + intros Hd. by rewrite Hu, Hd in Hn.
    + exists Down, a. simpl. rewrite Ep'. simpl. rewrite El. simpl. rewrite Ea. by eexists.
  - destruct (copy_moves (px_remote p') (lk_local l) (lk_done l) (lk_up l)) as (a & [[[r1 c1] n1] k1] & Ea); [done| |done|].
    + destruct (lk_up l), (lk_down l); simpl in *; lia.
    + exists Up, a. simpl. rewrite Ep'. simpl. rewrite El. simpl. rewrite Ea. by eexists.
Qed.
End tunnel.

(** ** Examples *)

Definition ex_cfg : SSHConfig := mkSSHConfig "gpu1" "10.0.0.5:2222" "root" "/etc/skipper/id" "ssh-ed25519 AAAA" "127.0.0.1:7600".
Definition ex_run (evs : list (tunnelEvent unit string)) (t : tunnel string) : option (tunnel string) :=
  tunnelRun (λ _, Ok ()) (λ line, Ok line) ex_cfg evs t.
Definition ex_after (evs : list (tunnelEvent unit string)) : tunnel string := default NewSSHTunnel (ex_run evs NewSSHTunnel).

Lemma ex_reaches evs : is_Some (ex_run evs NewSSHTunnel) → tunnelReaches (λ _, Ok ()) (λ line, Ok line) ex_cfg (ex_after evs).
Proof. intros [t E]. exists evs. unfold ex_after. by rewrite E. Qed.

(** A session with a forwarded connection: a request passes, a part of the reply has been read. *)
Definition ex_open : list (tunnelEvent unit string) :=
  [EvRun 0; EvDial (λ _, Ok "key") (λ _ _ _ _, Ok ()); EvListen (Ok ()); EvRun 0; EvOffered 0; EvAccept (Ok ());
   EvProxy 0 (PxDial (Ok ())); EvProxy 0 (PxRemote (Sends "request")); EvProxy 0 (PxCopy Up (ReadTurn 7 false));
   EvProxy 0 (PxCopy Up (WriteTurn 7 false)); EvProxy 0 (PxLocal (Sends "reply")); EvProxy 0 (PxCopy Down (ReadTurn 3 false))].

Definition ex_proxy (evs : list (tunnelEvent unit string)) : proxy := default (newProxy 0) (tn_proxies (ex_after evs) !! 0%nat).
Definition ex_link (evs : list (tunnelEvent unit string)) : link :=
  default (mkLink newConn Reading Reading 0) (px_link (ex_proxy evs)).

Lemma tunnel_forwards_witness :
  px_link (ex_proxy ex_open) = Some (ex_link ex_open) ∧ nc_written (lk_local (ex_link ex_open)) = "request" ∧
  lk_down (ex_link ex_open) = Writing "rep" false ∧
  delivered (px_remote (ex_proxy ex_open)) (lk_local (ex_link ex_open)) (lk_up (ex_link ex_open)) ∧
  delivered (lk_local (ex_link ex_open)) (px_remote (ex_proxy ex_open)) (lk_down (ex_link ex_open)) ∧
  (px_main (ex_proxy ex_open) = PxEnded →
     nc_open (px_remote (ex_proxy ex_open)) = false ∧ nc_open (lk_local (ex_link ex_open)) = false).
Proof.
  split; [by vm_compute|]. split; [by vm_compute|]. split; [by vm_compute|].
  apply (tunnel_forwards (λ _, Ok ()) (λ line, Ok line) ex_cfg (ex_after ex_open) 0 (ex_proxy ex_open));
    [apply ex_reaches; vm_compute; by eexists|by vm_compute..].
Defined.

Lemma tunnel_single_witness :
  tn_run (ex_after ex_open) = Serving 0 (SvAccept 0) ∧
  (∀ i s, tn_sessions (ex_after ex_open) !! i = Some s →
    (ss_client s = true ∨ ss_listening s = Some true → current (tn_run (ex_after ex_open)) = Some i) ∧
    (TrimSpace (SSH_KnownHost ex_cfg) ≠ "" →
      ∃ pk, ss_hostKey s = Some pk ∧ parseHostKey (λ line, Ok line) (SSH_KnownHost ex_cfg) = Ok pk)) ∧
  (tn_ready (ex_after ex_open) = true → ∃ i s, tn_sessions (ex_after ex_open) !! i = Some s ∧ ss_listening s ≠ None) ∧
  tunnel_delay (tn_backoff (ex_after ex_open)).
Proof.
  split; [by vm_compute|].
  apply (tunnel_single (λ _, Ok ()) (λ line, Ok line) ex_cfg (ex_after ex_open)), ex_reaches. vm_compute. by eexists.
Defined.

(** The context is cancelled: the closer closes the session and [Run] returns. *)
Definition ex_close : list (tunnelEvent unit string) :=
  [EvCloser 0; EvCloser 0; EvAccept (Err "EOF"); EvCloserClosed 0; EvCloser 0; EvRun 1; EvRun 1; EvClosed; EvRun 1; EvRun 1].
Definition ex_stopped : tunnel string := ex_after (ex_open ++ [EvCancel] ++ ex_close).

(** Before the answer to [ln.Close]. *)
Definition ex_waiting : list (tunnelEvent unit string) := [EvCloser 0; EvCloser 0; EvAccept (Err "EOF"); EvRun 1; EvRun 1].
Definition ex_silent : tunnel string := ex_after (ex_open ++ [EvCancel] ++ ex_waiting).

Lemma tunnel_stops_witness :
  tn_run ex_stopped = Stopped ∧ tn_run ex_silent = Serving 0 (SvAwaitClose 0 "EOF") ∧
  (turns ex_close + tunnelWork ex_stopped ≤ tunnelWork (ex_after (ex_open ++ [EvCancel])) + offers ex_close)%nat ∧
  (tn_run ex_stopped = Stopped → ∀ i s, tn_sessions ex_stopped !! i = Some s →
     ss_client s = false ∧ ss_listening s ≠ Some true ∧ (ss_closer s ≠ NoCloser → ss_stop s = true)).
Proof.
  split; [by vm_compute|]. split; [by vm_compute|].
  destruct (tunnel_stops (λ _, Ok ()) (λ line, Ok line) ex_cfg (ex_after (ex_open ++ [EvCancel])) ex_close ex_stopped)
    as (H1 & _ & _ & _ & H2); [apply ex_reaches; vm_compute; by eexists|by vm_compute..|exact (conj H1 H2)].
Defined.

(** (liveness) There is such a state after the context was cancelled. *)
Lemma silent_peer_blocks_witness :
  tn_cancelled ex_silent = true ∧ tunnelReaches (λ _, Ok ()) (λ line, Ok line) ex_cfg ex_silent ∧
  ∀ t', rtc (silently (Signer := unit) (λ _, Ok ()) (λ line, Ok line) ex_cfg) ex_silent t' → tn_run t' = tn_run ex_silent.
Proof.
  split; [by vm_compute|]. split; [apply ex_reaches; vm_compute; by eexists|].
  intros t'. apply (silent_peer_blocks (λ _, Ok ()) (λ line, Ok line) ex_cfg 0 0 "EOF" ex_silent).
  split; [by vm_compute|]. eexists. split; [by vm_compute|]. by vm_compute.
Defined.

(** The remote end finishes: the proxy returns while the reply is still being copied. *)
Definition ex_finish : list (tunnelEvent unit string) :=
  [EvProxy 0 (PxRemote Finishes); EvProxy 0 (PxCopy Up (ReadTurn 0 true)); EvProxy 0 (PxCopy Up DoneTurn);
   EvProxy 0 PxMain; EvProxy 0 PxMain; EvProxy 0 PxMain].
Definition ex_drain : list (tunnelEvent unit string) := [EvProxy 0 (PxCopy Down (WriteTurn 0 true))].

Lemma proxy_released_witness :
  px_main (ex_proxy (ex_open ++ ex_finish)) = PxEnded ∧
  ∃ p', tn_proxies (ex_after (ex_open ++ ex_finish ++ ex_drain)) !! 0%nat = Some p' ∧ px_main p' = PxEnded ∧
    (copyTurns 0 ex_drain + proxyWork p' ≤ proxyWork (ex_proxy (ex_open ++ ex_finish)))%nat ∧
    (proxyWork p' ≠ 0%nat → ∃ d a, is_Some (tunnelStep (λ _, Ok ()) (λ line, Ok line) ex_cfg (EvProxy 0 (PxCopy d a))
      (ex_after (ex_open ++ ex_finish ++ ex_drain)))).
Proof.
  split; [by vm_compute|].
  apply (proxy_released (λ _, Ok ()) (λ line, Ok line) ex_cfg (ex_after (ex_open ++ ex_finish)));
    [apply ex_reaches; vm_compute; by eexists|by vm_compute..].
Defined.

(** A peer that half-closes its connection does not get the rest of the reply: [proxy] returns when the
    first of the two copies ends. *)
Example half_close_truncates :
  px_main (ex_proxy (ex_open ++ ex_finish ++ ex_drain)) = PxEnded ∧
  sent (lk_local (ex_link (ex_open ++ ex_finish ++ ex_drain))) = "reply" ∧
  nc_written (px_remote (ex_proxy (ex_open ++ ex_finish ++ ex_drain))) = "".
Proof. by vm_compute. Qed.
