(* ===== verification/Agent.v ===== *)
(** * internal/agent: the job executor and the agent's loops

    The executor's goroutines and the operating system are interleaved one event at a time:
    every live run of a job is a goroutine with a number, [x_running] maps a job to the run that
    owns it, and the events are the calls of the poll loop, the steps of a run and the exit of
    its process.  Reports to the server and signals are recorded in order.  The children's
    output (pumpLogs) is the sequence of chunks appended. *)
From Stdlib Require Import Ascii.
From S2P Require Import Prelude GoBase GoStrings GoPath Event Proto Store.
Local Open Scope Z_scope.

(** ** classify *)

(** What [cmd.Wait] returns: nil, an [*exec.ExitError] with its code (-1 for a signal), or
    another error. *)
Inductive waitResult :=
| WaitNil
| WaitExit (code : Z)
| WaitOther (msg : string).

Definition exitState (exitCode : Z) (ok : bool) (reason : string) (timedOut : bool) : string * Z * string :=
  if decide (reason = "cancel") then (JobCancelled, exitCode, "cancelled by user")
  else if timedOut then (JobTimeout, exitCode, "walltime exceeded")
  else if ok then (JobCompleted, 0, "")
  else (JobFailed, exitCode, "").

Definition classify (waitErr : waitResult) (reason : string) (timedOut : bool) : string * Z * string :=
  match waitErr with
  | WaitOther msg => (JobFailed, -1, msg)
  | WaitExit code => exitState (wrapS 32 code) false reason timedOut
  | WaitNil => exitState 0 true reason timedOut
  end.

(** ** buildEnv *)

Definition visible (kind : string) (ds : list pbDeviceAssignment) : string :=
  Join ((λ d, itoa (pbDeviceAssignment_Index d)) <$> filter (λ d, pbDeviceAssignment_Kind d = kind) ds) ",".

(** [environ] is [os.Environ()]; the order of the job's own variables is that of a map. *)
Definition buildEnv (environ : list string) (a : pbAssignment) : list string :=
  environ ++ ((λ kv, kv.1 +:+ "=" +:+ kv.2) <$> map_to_list (pbAssignment_Env a)) ++
  ["CUDA_VISIBLE_DEVICES=" +:+ visible "gpu" (pbAssignment_Devices a);
   "ASCEND_RT_VISIBLE_DEVICES=" +:+ visible "npu" (pbAssignment_Devices a);
   "SKIPPER_JOB_ID=" +:+ pbAssignment_JobId a].

(** What a child sees of a variable: the last entry of that name ([os/exec] drops the earlier
    duplicates). *)
Definition envValue (env : list string) (key : string) : option string :=
  foldl (λ acc kv, match Cut kv "="%char with
                   | Some (k, v) => if decide (k = key) then Some v else acc
                   | None => acc
                   end) None env.

(** ** The executor *)

(** Where a run is: [Spawned] until it has created its context, [Prepared] until the process is
    started, [Unannounced] until the control plane has handled the report that it runs or the report
    was lost, [Announced] until that call has returned, [Started] with its timer and its watcher
    until the end of the process is classified; [Failed] and [Ended] from the last report until the
    deferred calls have run. *)
Inductive phase := Spawned | Prepared | Unannounced | Announced | Started | Failed | Ended.

(** A live run: the assignment, the fields of its [runningJob], its timer flag, and whether the
    goroutine that waits for the context has killed the group. *)
Record runningJob := mkRun {
  rj_assignment : pbAssignment;
  rj_killReason : string;
  rj_cancel : bool;      (** [rj.cancel] has been set *)
  rj_ctxDone : bool;     (** its context has been cancelled *)
  rj_pgid : Z;
  rj_timedOut : bool;
  rj_watched : bool;
  rj_phase : phase
}.

Definition with_reason (r : string) (rj : runningJob) : runningJob :=
  mkRun (rj_assignment rj) r (rj_cancel rj) (rj_ctxDone rj) (rj_pgid rj) (rj_timedOut rj)
    (rj_watched rj) (rj_phase rj).

(** The first reason wins. *)
Definition setReason (r : string) (rj : runningJob) : runningJob :=
  if decide (rj_killReason rj = "") then with_reason r rj else rj.

(** [rj.cancel] is stored; [rj.cancel()] if it is there; the process is started; its timer and its
    watcher are created; the timer and the watcher have fired; the run goes on to a phase. *)
Definition with_cancel (rj : runningJob) : runningJob :=
  mkRun (rj_assignment rj) (rj_killReason rj) true (rj_ctxDone rj) (rj_pgid rj) (rj_timedOut rj)
    (rj_watched rj) Prepared.
Definition with_ctx (rj : runningJob) : runningJob :=
  mkRun (rj_assignment rj) (rj_killReason rj) (rj_cancel rj) (rj_ctxDone rj || rj_cancel rj) (rj_pgid rj)
    (rj_timedOut rj) (rj_watched rj) (rj_phase rj).
Definition with_pgid (pid : Z) (rj : runningJob) : runningJob :=
  mkRun (rj_assignment rj) (rj_killReason rj) (rj_cancel rj) (rj_ctxDone rj) pid (rj_timedOut rj)
    false Unannounced.
Definition with_guards (rj : runningJob) : runningJob :=
  mkRun (rj_assignment rj) (rj_killReason rj) (rj_cancel rj) (rj_ctxDone rj) (rj_pgid rj) false
    false Started.
Definition with_timeout (rj : runningJob) : runningJob :=
  mkRun (rj_assignment rj) (rj_killReason rj) (rj_cancel rj) (rj_ctxDone rj) (rj_pgid rj) true
    (rj_watched rj) (rj_phase rj).
Definition with_watched (rj : runningJob) : runningJob :=
  mkRun (rj_assignment rj) (rj_killReason rj) (rj_cancel rj) (rj_ctxDone rj) (rj_pgid rj) (rj_timedOut rj)
    true (rj_phase rj).
Definition with_phase (p : phase) (rj : runningJob) : runningJob :=
  mkRun (rj_assignment rj) (rj_killReason rj) (rj_cancel rj) (rj_ctxDone rj) (rj_pgid rj) (rj_timedOut rj)
    (rj_watched rj) p.

Record Report := mkReport { rp_job : string; rp_state : string; rp_code : Z; rp_reason : string }.

Inductive signal := SIGTERM | SIGKILL.

(** [x_running] maps a job to its live run; [x_watchers] are the process groups whose watcher
    outlives the run: its context is cancelled by the deferred call and it is about to kill;
    [x_timers] are the groups that [killGroup] will send SIGKILL to, five seconds after SIGTERM. *)
Record executor := mkExecutor {
  x_running : gmap string nat;
  x_runs : gmap nat runningJob;
  x_next : nat;
  x_watchers : list Z;
  x_timers : list Z;
  x_reports : list Report;
  x_signals : list (signal * Z)   (** as they were sent *)
}.

Definition newExecutor : executor := mkExecutor ∅ ∅ 0 [] [] [] [].

Definition set_run (g : nat) (rj : runningJob) (x : executor) : executor :=
  mkExecutor (x_running x) (<[g := rj]> (x_runs x)) (x_next x) (x_watchers x) (x_timers x) (x_reports x) (x_signals x).

Definition report (jobID state : string) (code : Z) (reason : string) (x : executor) : executor :=
  mkExecutor (x_running x) (x_runs x) (x_next x) (x_watchers x) (x_timers x)
    (x_reports x ++ [mkReport jobID state code reason]) (x_signals x).

(** SIGTERM now; the timer of [time.AfterFunc] is pending. *)
Definition killGroup (pgid : Z) (x : executor) : executor :=
  if pgid <=? 0 then x
  else mkExecutor (x_running x) (x_runs x) (x_next x) (x_watchers x) (x_timers x ++ [pgid]) (x_reports x)
         (x_signals x ++ [(SIGTERM, - pgid)]).

(** The [i]-th pending timer, of the group [pgid], fires: SIGKILL. *)
Definition killTimer (i : nat) (pgid : Z) (x : executor) : executor :=
  mkExecutor (x_running x) (x_runs x) (x_next x) (x_watchers x) (delete i (x_timers x)) (x_reports x)
    (x_signals x ++ [(SIGKILL, - pgid)]).

(** The [i]-th late watcher, of the group [pgid], kills. *)
Definition lateWatch (i : nat) (pgid : Z) (x : executor) : executor :=
  killGroup pgid (mkExecutor (x_running x) (x_runs x) (x_next x) (delete i (x_watchers x)) (x_timers x)
    (x_reports x) (x_signals x)).

Definition start (a : pbAssignment) (x : executor) : executor :=
  match x_running x !! pbAssignment_JobId a with
  | Some _ => x
  | None =>
      let g := x_next x in
      mkExecutor (<[pbAssignment_JobId a := g]> (x_running x))
        (<[g := mkRun a "" false false 0 false false Spawned]> (x_runs x)) (S g) (x_watchers x)
        (x_timers x) (x_reports x) (x_signals x)
  end.

Definition cancel (jobID : string) (x : executor) : executor :=
  match x_running x !! jobID with
  | None => x
  | Some g =>
      match x_runs x !! g with
      | None => x
      | Some rj => set_run g (with_ctx (setReason "cancel" rj)) x
      end
  end.

(** The deferred calls of [run]: the context is cancelled, which wakes the watcher if the process
    was started and it has not killed yet, the entry of the job is deleted and the goroutine ends. *)
Definition finish (g : nat) (rj : runningJob) (x : executor) : executor :=
  mkExecutor (delete (pbAssignment_JobId (rj_assignment rj)) (x_running x)) (delete g (x_runs x)) (x_next x)
    (match rj_phase rj with
     | Ended => if rj_watched rj then x_watchers x else x_watchers x ++ [rj_pgid rj]
     | _ => x_watchers x
     end) (x_timers x) (x_reports x) (x_signals x).

(** How far the launch of the process gets: the error of [MkdirAll], [os.Pipe] or [cmd.Start], or
    the process id. *)
Inductive launch :=
| NoWorkdir (err : string)
| NoPipe (err : string)
| NoStart (err : string)
| Launched (pid : Z).

Inductive event :=
| EvStart (a : pbAssignment)            (** the poll loop starts a job *)
| EvCancel (jobID : string)             (** the poll loop cancels a job *)
| EvPrepare (g : nat)                   (** the run creates its context *)
| EvLaunch (g : nat) (l : launch)       (** the run launches the process, or reports that it cannot *)
| EvAnnounce (g : nat)                  (** the run reports the job RUNNING *)
| EvGuard (g : nat)                     (** the report has returned: the timer and the watcher are created *)
| EvTimer (g : nat)                     (** the walltime timer fires *)
| EvWatch (g : nat)                     (** the watcher sees the cancelled context *)
| EvExit (g : nat) (w : waitResult)     (** the process has ended, its output is drained: report *)
| EvDone (g : nat)                      (** the run returns *)
| EvLateWatch (pgid : Z)                (** the watcher of a run that has returned kills *)
| EvKill (pgid : Z).                    (** five seconds after SIGTERM *)

Definition launchFailed (g : nat) (rj : runningJob) (msg : string) (x : executor) : executor :=
  report (pbAssignment_JobId (rj_assignment rj)) JobFailed (-1) msg (set_run g (with_phase Failed rj) x).

(** The timer and the watcher run from the return of the report until the run returns. *)
Definition guarded (rj : runningJob) : bool :=
  match rj_phase rj with Started | Ended => true | _ => false end.

(** The run has launched its process group and has not returned. *)
Definition has_process (rj : runningJob) : bool :=
  match rj_phase rj with Unannounced | Announced | Started | Ended => true | _ => false end.

(** What the process groups of the runs were launched for.  The groups are not the agent's own
    (Setpgid) and nothing ties them to its life: they go on when it ends. *)
Definition groupsOf (x : executor) : list pbAssignment :=
  (λ p, rj_assignment p.2) <$> filter (λ p, has_process p.2 = true) (map_to_list (x_runs x)).

(** The effect of an event; [None] if it cannot happen. *)
Definition step (x : executor) (ev : event) : option executor :=
  match ev with
  | EvStart a => Some (start a x)
  | EvCancel jobID => Some (cancel jobID x)
  | EvPrepare g =>
      rj ← x_runs x !! g;
      match rj_phase rj with
      | Spawned => Some (set_run g (with_cancel rj) x)
      | _ => None
      end
  | EvLaunch g l =>
      rj ← x_runs x !! g;
      match rj_phase rj, l with
      | Prepared, NoWorkdir e => Some (launchFailed g rj ("workdir: " +:+ e) x)
      | Prepared, NoPipe e => Some (launchFailed g rj ("pipe: " +:+ e) x)
      | Prepared, NoStart e => Some (launchFailed g rj ("start: " +:+ e) x)
      | Prepared, Launched pid => Some (set_run g (with_pgid pid rj) x)
      | _, _ => None
      end
  | EvAnnounce g =>
      rj ← x_runs x !! g;
      match rj_phase rj with
      | Unannounced =>
          Some (report (pbAssignment_JobId (rj_assignment rj)) JobRunning 0 "" (set_run g (with_phase Announced rj) x))
      | _ => None
      end
  | EvGuard g =>
      rj ← x_runs x !! g;
      match rj_phase rj with
      | Announced => Some (set_run g (with_guards rj) x)
      | _ => None
      end
  | EvTimer g =>
      rj ← x_runs x !! g;
      if guarded rj && (0 <? pbAssignment_WalltimeSec (rj_assignment rj)) && negb (rj_timedOut rj)
      then Some (killGroup (rj_pgid rj) (set_run g (with_timeout rj) x)) else None
  | EvWatch g =>
      rj ← x_runs x !! g;
      if guarded rj && rj_ctxDone rj && negb (rj_watched rj)
      then Some (killGroup (rj_pgid rj) (set_run g (with_watched rj) x)) else None
  | EvExit g w =>
      rj ← x_runs x !! g;
      match rj_phase rj with
      | Started =>
          let '(state, code, reason) := classify w (rj_killReason rj) (rj_timedOut rj) in
          Some (report (pbAssignment_JobId (rj_assignment rj)) state code reason (set_run g (with_phase Ended rj) x))
      | _ => None
      end
  | EvDone g =>
      rj ← x_runs x !! g;
      match rj_phase rj with
      | Failed | Ended => Some (finish g rj x)
      | _ => None
      end
  | EvLateWatch pgid =>
      i ← list_find (.= pgid) (x_watchers x);
      Some (lateWatch i.1 pgid x)
  | EvKill pgid =>
      i ← list_find (.= pgid) (x_timers x);
      Some (killTimer i.1 pgid x)
  end.

Definition steps (evs : list event) (x : executor) : option executor :=
  foldl (λ ox ev, x ← ox; step x ev) (Some x) evs.

(** ** run: the working directory *)

Definition workdirOf (tempDir : string) (a : pbAssignment) : string :=
  if decide (pbAssignment_Workdir a = "")
  then pathJoin [tempDir; "skipper-jobs"; pbAssignment_JobId a] else pbAssignment_Workdir a.

(** The delay of the walltime timer. *)
Definition walltimeDelay (a : pbAssignment) : option Duration :=
  if 0 <? pbAssignment_WalltimeSec a then Some (seconds (pbAssignment_WalltimeSec a)) else None.

(** ** pumpLogs: the reads of the pipe, each a chunk and possibly an error, become appended chunks *)

Fixpoint pumpLogs (reads : list (string * bool)) : list string :=
  match reads with
  | [] => []
  | (chunk, err) :: reads' =>
      (if decide (chunk = "") then [] else [chunk]) ++ (if err : bool then [] else pumpLogs reads')
  end.

(** ** agent.go *)

(** [register]: attempts until the first success; the answers so far, the delays slept, and the
    node id, or [None] if the context ended first (the answers ran out). *)
Fixpoint register (answers : list (result string)) (backoff : Duration) : list Duration * option string :=
  match answers with
  | [] => ([], None)
  | Ok id :: _ => ([], Some id)
  | Err _ :: answers' =>
      let '(delays, r) := register answers' (backoffNext (16 * Second) backoff) in (backoff :: delays, r)
  end.

Definition agentName (configured : string) (hostname : result string) : string :=
  if decide (configured = "") then match hostname with Ok hn => hn | Err _ => "unknown-node" end
  else configured.
