(* ===== verification/AgentTheorems.v ===== *)
(** * The executor: one process per job, what is reported, isolation, retries *)
From Stdlib Require Import Ascii.
From S2P Require Import Prelude GoBase GoStrings GoPath Event Proto Store Agent.
Local Open Scope Z_scope.

(** ** One run per job *)

Definition job_of (rj : runningJob) : string := pbAssignment_JobId (rj_assignment rj).

(** [x_running] names exactly the live runs, by the job of each. *)
Record exec_ok (x : executor) : Prop := {
  xo_entry id g : x_running x !! id = Some g → ∃ rj, x_runs x !! g = Some rj ∧ job_of rj = id;
  xo_live g rj : x_runs x !! g = Some rj → x_running x !! job_of rj = Some g;
  xo_fresh g : (x_next x ≤ g)%nat → x_runs x !! g = None
}.

Lemma newExecutor_ok : exec_ok newExecutor.
Proof. split; simpl; intros *; rewrite ?lookup_empty; done. Qed.

(** A run replaced by one of the same job. *)
Lemma set_run_ok x g rj rj' :
  exec_ok x → x_runs x !! g = Some rj → job_of rj' = job_of rj → exec_ok (set_run g rj' x).
Proof.
  intros [H1 H2 H3] Hg Hj. split; simpl.
  - intros id g' Hid. destruct (H1 id g' Hid) as (rj0 & Hr & E). destruct (decide (g = g')) as [<-|Hne].
    + exists rj'. rewrite lookup_insert_eq. split; [done|]. congruence.
    + exists rj0. by rewrite lookup_insert_ne.
  - intros g' rj0 Hr. apply lookup_insert_Some in Hr as [[<- <-]|[_ Hr]]; [|by apply H2].
    rewrite Hj. by apply H2.
  - intros g' Hf. rewrite lookup_insert_ne; [by apply H3|]. intros ->. rewrite H3 in Hg; done.
Qed.

Lemma report_ok x j s c r : exec_ok x → exec_ok (report j s c r x).
Proof. by intros []. Qed.
Lemma killGroup_ok x p : exec_ok x → exec_ok (killGroup p x).
Proof. unfold killGroup. by case_step; intros []. Qed.

Lemma finish_ok x g rj : exec_ok x → x_runs x !! g = Some rj → exec_ok (finish g rj x).
Proof.
  intros [H1 H2 H3] Hg. split; simpl.
  - intros id g' Hid. apply lookup_delete_Some in Hid as [Hne Hid]. destruct (H1 id g' Hid) as (rj0 & Hr & E).
    exists rj0. split; [|done]. rewrite lookup_delete_ne; [done|]. intros ->. by simplify_eq.
  - intros g' rj0 Hr. apply lookup_delete_Some in Hr as [Hne Hr]. rewrite lookup_delete_ne; [by apply H2|].
    intros E. apply H2 in Hg, Hr. unfold job_of in *. congruence.
  - intros g' Hf. apply lookup_delete_None. right. by apply H3.
Qed.

Lemma start_ok x a : exec_ok x → exec_ok (start a x).
Proof.
  intros [H1 H2 H3]. unfold start. destruct (x_running x !! pbAssignment_JobId a) eqn:E; [done|]. split; simpl.
  - intros id g Hid. apply lookup_insert_Some in Hid as [[<- <-]|[Hne Hid]].
    + eexists. by rewrite lookup_insert_eq.
    + destruct (H1 id g Hid) as (rj & Hr & Ej). exists rj. split; [|done].
      rewrite lookup_insert_ne; [done|]. intros <-. rewrite H3 in Hr; done.
  - intros g rj Hr. apply lookup_insert_Some in Hr as [[<- <-]|[Hne Hr]]; [by rewrite lookup_insert_eq|].
    rewrite lookup_insert_ne; [by apply H2|]. intros E'. apply H2 in Hr. congruence.
  - intros g Hf. rewrite lookup_insert_ne by lia. apply H3. lia.
Qed.

Lemma setReason_job r rj : job_of (setReason r rj) = job_of rj.
Proof. unfold setReason. by case_decide. Qed.

(** ** The shape of a step *)

Definition is_final (s : string) : Prop :=
  s = JobCompleted ∨ s = JobFailed ∨ s = JobCancelled ∨ s = JobTimeout.

Lemma classify_terminal w reason timedOut s c r :
  classify w reason timedOut = (s, c, r) → is_final s.
Proof. unfold classify, exitState, is_final. repeat case_step; intros [= <- _ _]; tauto. Qed.

(** The moves of a run that report nothing. *)
Inductive moves : phase → phase → Prop :=
| mv_prepare : moves Spawned Prepared
| mv_launch : moves Prepared Unannounced
| mv_guard : moves Announced Started.

(** An update of a run without a report: the job stays, the phase stays or moves, the process group
    is set when the process is launched, the reason stays or becomes the cancellation. *)
Record quiet (rj rj' : runningJob) : Prop := {
  q_job : job_of rj' = job_of rj;
  q_phase : rj_phase rj' = rj_phase rj ∨ moves (rj_phase rj) (rj_phase rj');
  q_pgid : rj_pgid rj' = rj_pgid rj ∨ rj_phase rj = Prepared;
  q_reason : rj_killReason rj' = rj_killReason rj ∨ (rj_killReason rj = "" ∧ rj_killReason rj' = "cancel")
}.

(** An update with the report of the state [s]. *)
Inductive loud (rj : runningJob) : runningJob → string → Prop :=
| loud_failed : rj_phase rj = Prepared → loud rj (with_phase Failed rj) JobFailed
| loud_running : rj_phase rj = Unannounced → loud rj (with_phase Announced rj) JobRunning
| loud_ended s : rj_phase rj = Started → is_final s → loud rj (with_phase Ended rj) s.

Inductive change (x : executor) : executor → Prop :=
| ch_none : change x x
| ch_start a : x_running x !! pbAssignment_JobId a = None → change x (start a x)
| ch_quiet g rj rj' : x_runs x !! g = Some rj → quiet rj rj' →
    (rj_watched rj' = true → rj_watched rj = true) →
    change x (set_run g rj' x)
| ch_kill g rj rj' : x_runs x !! g = Some rj → quiet rj rj' →
    change x (killGroup (rj_pgid rj) (set_run g rj' x))
| ch_loud g rj rj' s c r : x_runs x !! g = Some rj → loud rj rj' s →
    change x (report (job_of rj) s c r (set_run g rj' x))
| ch_done g rj : x_runs x !! g = Some rj → rj_phase rj = Failed ∨ rj_phase rj = Ended →
    change x (finish g rj x)
| ch_late i p : x_watchers x !! i = Some p → change x (lateWatch i p x)
| ch_timer i p : x_timers x !! i = Some p → change x (killTimer i p x).

Lemma step_run x g (f : runningJob → option executor) x' :
  (rj ← x_runs x !! g; f rj) = Some x' → ∃ rj, x_runs x !! g = Some rj ∧ f rj = Some x'.
Proof. destruct (x_runs x !! g) as [rj|]; [|done]. simpl. eauto. Qed.

Lemma start_change x a : change x (start a x).
Proof.
  destruct (x_running x !! pbAssignment_JobId a) as [g|] eqn:E; [|by apply ch_start].
  unfold start. rewrite E. apply ch_none.
Qed.

Lemma cancel_change x id : change x (cancel id x).
Proof.
  unfold cancel. destruct (x_running x !! id) as [g|]; [|apply ch_none].
  destruct (x_runs x !! g) as [rj|] eqn:E; [|apply ch_none]. eapply ch_quiet; [done|split|];
    unfold setReason; case_decide; simpl; auto.
Qed.

Lemma launch_change x g l x' : step x (EvLaunch g l) = Some x' → change x x'.
Proof.
  intros (rj & Hg & E)%step_run. destruct (rj_phase rj) eqn:Ep; try done.
  destruct l as [e|e|e|pid]; injection E as <-; [eapply ch_loud; [done|by constructor]..|].
  eapply ch_quiet; [done| |done]. split; simpl; rewrite ?Ep; auto. right. constructor.
Qed.

Lemma step_change x ev x' : step x ev = Some x' → change x x'.
Proof.
  destruct ev; [| | |apply launch_change|..]; simpl.
  - intros [= <-]. apply start_change.
  - intros [= <-]. apply cancel_change.
  - intros (rj & Hg & E)%step_run. destruct (rj_phase rj) eqn:Ep; try done. injection E as <-.
    eapply ch_quiet; [done| |done]. split; simpl; rewrite ?Ep; auto. right. constructor.
  - intros (rj & Hg & E)%step_run. destruct (rj_phase rj) eqn:Ep; try done. injection E as <-.
    eapply ch_loud; [done|by constructor].
  - intros (rj & Hg & E)%step_run. destruct (rj_phase rj) eqn:Ep; try done. injection E as <-.
    eapply ch_quiet; [done| |done]. split; simpl; rewrite ?Ep; auto. right. constructor.
  - intros (rj & Hg & E)%step_run. case_step_in E; [|done]. injection E as <-.
    eapply ch_kill; [done|split; simpl; auto].
  - intros (rj & Hg & E)%step_run. case_step_in E; [|done]. injection E as <-.
    eapply ch_kill; [done|split; simpl; auto].
  - intros (rj & Hg & E)%step_run. destruct (rj_phase rj) eqn:Ep; try done.
    destruct (classify w (rj_killReason rj) (rj_timedOut rj)) as [[s c] r] eqn:Ec. injection E as <-.
    eapply ch_loud; [done|]. constructor; [done|]. by eapply classify_terminal.
  - intros (rj & Hg & E)%step_run. destruct (rj_phase rj) eqn:Ep; try done; injection E as <-;
      (eapply ch_done; [done|]); auto.
  - destruct (list_find _ _) as [[i p]|] eqn:El; [|done]. intros [= <-]. simpl.
    apply list_find_Some in El as (Hi & -> & _). by apply ch_late.
  - destruct (list_find _ _) as [[i p]|] eqn:El; [|done]. intros [= <-]. simpl.
    apply list_find_Some in El as (Hi & -> & _). by apply ch_timer.
Qed.

Lemma loud_job rj rj' s : loud rj rj' s → job_of rj' = job_of rj.
Proof. by destruct 1. Qed.

Lemma change_ok x x' : exec_ok x → change x x' → exec_ok x'.
Proof.
  intros Hx. destruct 1 as [|a|g rj rj' Hg Hq _|g rj rj' Hg Hq|g rj rj' s c r Hg Hl|g rj Hg _|i p Hi|i p Hi].
  - done.
  - by apply start_ok.
  - eapply set_run_ok; [done..|apply Hq].
  - apply killGroup_ok. eapply set_run_ok; [done..|apply Hq].
  - apply report_ok. eapply set_run_ok; [done..|by eapply loud_job].
  - by apply finish_ok.
  - apply killGroup_ok. by destruct Hx.
  - by destruct Hx.
Qed.

Lemma step_ok x ev x' : exec_ok x → step x ev = Some x' → exec_ok x'.
Proof. intros Hx ?%step_change. by eapply change_ok. Qed.

Lemma steps_snoc evs ev x : steps (evs ++ [ev]) x = x' ← steps evs x; step x' ev.
Proof. unfold steps. by rewrite foldl_app. Qed.

(** An invariant of every step holds after any run. *)
Lemma steps_inv (P : executor → Prop) evs x x' :
  (∀ y ev y', P y → step y ev = Some y' → P y') → P x → steps evs x = Some x' → P x'.
Proof.
  intros Hstep Hx. revert x'. induction evs as [|ev evs IH] using rev_ind; intros x'; [by intros [= <-]|].
  rewrite steps_snoc. destruct (steps evs x) as [y|]; [|done]. simpl. apply Hstep. by apply IH.
Qed.

(** (invariant) At most one process per job: in every execution of the agent, whatever the
    poll loop starts and cancels (repeated assignments included) and however the runs and their
    processes interleave, two live runs of the same job are the same run, and the table of
    running jobs names exactly the live runs. *)
Theorem executor_single evs x :
  steps evs newExecutor = Some x →
  (∀ g1 g2 r1 r2, x_runs x !! g1 = Some r1 → x_runs x !! g2 = Some r2 → job_of r1 = job_of r2 → g1 = g2) ∧
  (∀ id, is_Some (x_running x !! id) ↔ ∃ g rj, x_runs x !! g = Some rj ∧ job_of rj = id).
Proof.
  intros E. assert (exec_ok x) as [H1 H2 H3].
  { eapply (steps_inv exec_ok); [|apply newExecutor_ok|exact E]. intros; by eapply step_ok. }
  split.
  - intros g1 g2 r1 r2 E1%H2 E2%H2 Ej. congruence.
  - intros id. split.
    + intros [g Hg]. destruct (H1 id g Hg) as (rj & Hr & Ej). eauto.
    + intros (g & rj & Hr & <-). apply H2 in Hr. eauto.
Qed.

(** ** Reports *)

(** The reports of a job read in order: [open] says that RUNNING was reported and the end was
    not yet. *)
Fixpoint protocol (open : bool) (states : list string) (final : bool) : Prop :=
  match states with
  | [] => open = final
  | s :: states' =>
      if open then (s = JobCompleted ∨ s = JobFailed ∨ s = JobCancelled ∨ s = JobTimeout) ∧ protocol false states' final
      else (s = JobRunning ∧ protocol true states' final) ∨ (s = JobFailed ∧ protocol false states' final)
  end.

Lemma protocol_snoc_end open l s : protocol open l true → is_final s → protocol open (l ++ [s]) false.
Proof.
  revert open; induction l as [|x l IH]; intros open; simpl; [intros ->; done|].
  destruct open; naive_solver.
Qed.

Lemma protocol_snoc_idle open l s :
  protocol open l false → s = JobRunning ∨ s = JobFailed →
  protocol open (l ++ [s]) (bool_decide (s = JobRunning)).
Proof.
  revert open; induction l as [|x l IH]; intros open; simpl.
  - intros -> [->| ->]; [left|right]; done.
  - destruct open; naive_solver.
Qed.

Definition states_of (id : string) (x : executor) : list string :=
  rp_state <$> filter (λ r, rp_job r = id) (x_reports x).

Definition started_phase (p : phase) : bool := match p with Announced | Started => true | _ => false end.

(** The job has a live run that has been reported as running and not yet as ended. *)
Definition is_started (id : string) (x : executor) : bool :=
  match x_running x !! id with
  | Some g => match x_runs x !! g with Some rj => started_phase (rj_phase rj) | None => false end
  | None => false
  end.

Definition reports_ok (x : executor) : Prop :=
  exec_ok x ∧ ∀ id, protocol false (states_of id x) (is_started id x).

Lemma states_of_report id j s c r x :
  states_of id (report j s c r x) = states_of id x ++ (if decide (j = id) then [s] else []).
Proof.
  unfold states_of, report. simpl. rewrite filter_app, fmap_app. f_equal.
  destruct (decide (j = id)); [by rewrite filter_cons_True|by rewrite filter_cons_False].
Qed.

Lemma is_started_run x g rj id :
  exec_ok x → x_runs x !! g = Some rj → job_of rj = id → is_started id x = started_phase (rj_phase rj).
Proof. intros Hx Hg <-. unfold is_started. by rewrite (xo_live _ Hx _ _ Hg), Hg. Qed.

(** Replacing a run matters only to its own job. *)
Lemma is_started_set x g rj rj' id :
  exec_ok x → x_runs x !! g = Some rj → job_of rj' = job_of rj →
  is_started id (set_run g rj' x) =
    if decide (job_of rj = id) then started_phase (rj_phase rj') else is_started id x.
Proof.
  intros Hx Hg Hj. case_decide as E.
  - rewrite (is_started_run _ g rj' id (set_run_ok _ _ _ _ Hx Hg Hj)); [done| |congruence].
    simpl. by rewrite lookup_insert_eq.
  - unfold is_started. simpl. destruct (x_running x !! id) as [g'|] eqn:Er; [|done].
    destruct (xo_entry _ Hx _ _ Er) as (rj0 & Hr0 & E0). rewrite lookup_insert_ne; [done|].
    intros ->. simplify_eq.
Qed.

Lemma is_started_finish x g rj id :
  exec_ok x → x_runs x !! g = Some rj →
  is_started id (finish g rj x) = if decide (job_of rj = id) then false else is_started id x.
Proof.
  intros Hx Hg. unfold is_started, finish. simpl. change (pbAssignment_JobId (rj_assignment rj)) with (job_of rj).
  case_decide as E; [by rewrite E, lookup_delete_eq|]. rewrite lookup_delete_ne by done.
  destruct (x_running x !! id) as [g'|] eqn:Er; [|done].
  destruct (xo_entry _ Hx _ _ Er) as (rj0 & Hr0 & E0). rewrite lookup_delete_ne; [done|].
  intros ->. simplify_eq.
Qed.

(** A change of a run that keeps its job and whether it is started. *)
Lemma reports_ok_set x g rj rj' :
  reports_ok x → x_runs x !! g = Some rj → job_of rj' = job_of rj →
  started_phase (rj_phase rj') = started_phase (rj_phase rj) → reports_ok (set_run g rj' x).
Proof.
  intros [Hx Hp] Hg Hj Hs. split; [by eapply set_run_ok|]. intros id.
  rewrite (is_started_set x g rj rj' id Hx Hg Hj). change (states_of id (set_run g rj' x)) with (states_of id x).
  case_decide as E; [|done]. rewrite Hs, <-(is_started_run x g rj id Hx Hg E). done.
Qed.

Lemma reports_ok_kill x p : reports_ok x → reports_ok (killGroup p x).
Proof.
  intros [Hx Hp]. split; [by apply killGroup_ok|]. intros id. specialize (Hp id).
  unfold killGroup. by destruct (p <=? 0).
Qed.

Lemma quiet_started rj rj' : quiet rj rj' → started_phase (rj_phase rj') = started_phase (rj_phase rj).
Proof. by intros [_ [->|[]] _ _]. Qed.

(** A report moves the protocol of its job on, and the phase with it. *)
Lemma loud_protocol rj rj' s l :
  loud rj rj' s → protocol false l (started_phase (rj_phase rj)) →
  protocol false (l ++ [s]) (started_phase (rj_phase rj')).
Proof.
  destruct 1 as [Ep|Ep|s Ep Hs]; rewrite Ep; simpl; intros Hp.
  - exact (protocol_snoc_idle false _ JobFailed Hp (or_intror eq_refl)).
  - exact (protocol_snoc_idle false _ JobRunning Hp (or_introl eq_refl)).
  - by apply protocol_snoc_end.
Qed.

Lemma reports_ok_loud x g rj rj' s c r :
  reports_ok x → x_runs x !! g = Some rj → loud rj rj' s →
  reports_ok (report (job_of rj) s c r (set_run g rj' x)).
Proof.
  intros [Hx Hp] Hg Hl. pose proof (loud_job _ _ _ Hl) as Hj. split; [apply report_ok; by eapply set_run_ok|].
  intros id. specialize (Hp id). rewrite states_of_report.
  change (is_started id (report _ _ _ _ (set_run g rj' x))) with (is_started id (set_run g rj' x)).
  rewrite (is_started_set x g rj rj' id Hx Hg Hj). change (states_of id (set_run g rj' x)) with (states_of id x).
  case_decide as E; [|by rewrite app_nil_r]. rewrite (is_started_run x g rj id Hx Hg E) in Hp.
  by eapply loud_protocol.
Qed.

Lemma reports_ok_start x a : reports_ok x → reports_ok (start a x).
Proof.
  intros [Hx Hp]. split; [by apply start_ok|]. intros id. specialize (Hp id).
  unfold start. destruct (x_running x !! pbAssignment_JobId a) eqn:E; [done|].
  unfold is_started, states_of in *. simpl. destruct (decide (pbAssignment_JobId a = id)) as [<-|Hne].
  - rewrite E in Hp. by rewrite !lookup_insert_eq.
  - rewrite lookup_insert_ne by done. destruct (x_running x !! id) as [g|] eqn:Er; [|done].
    rewrite lookup_insert_ne; [done|]. intros <-.
    destruct (xo_entry _ Hx _ _ Er) as (rj0 & Hr0 & _). rewrite (xo_fresh _ Hx) in Hr0; done.
Qed.

Lemma reports_ok_finish x g rj :
  reports_ok x → x_runs x !! g = Some rj → started_phase (rj_phase rj) = false → reports_ok (finish g rj x).
Proof.
  intros [Hx Hp] Hg Hs. split; [by apply finish_ok|]. intros id. specialize (Hp id).
  rewrite (is_started_finish x g rj id Hx Hg). change (states_of id (finish g rj x)) with (states_of id x).
  case_decide as E; [|done]. by rewrite (is_started_run x g rj id Hx Hg E), Hs in Hp.
Qed.

Lemma reports_ok_change x x' : reports_ok x → change x x' → reports_ok x'.
Proof.
  intros Hx. destruct 1 as [|a|g rj rj' Hg Hq _|g rj rj' Hg Hq|g rj rj' s c r Hg Hl|g rj Hg Hp|i p Hi|i p Hi].
  - done.
  - by apply reports_ok_start.
  - eapply reports_ok_set; [done..|apply Hq|by apply quiet_started].
  - apply reports_ok_kill. eapply reports_ok_set; [done..|apply Hq|by apply quiet_started].
  - by apply reports_ok_loud.
  - apply reports_ok_finish; [done..|]. by destruct Hp as [->| ->].
  - apply reports_ok_kill. destruct Hx as [[] ?]. by split.
  - destruct Hx as [[] ?]. by split.
Qed.

(** [C15] (safety) The report protocol: in every execution of the agent, the reports of each job read
    in order are RUNNING followed by exactly one of COMPLETED, FAILED, CANCELLED and TIMEOUT, or a
    lone FAILED when the process could not be started, repeated for each run of the job; an end is
    outstanding exactly while the job has a run that was reported as running and not as ended. *)
Theorem executor_reports evs x id :
  steps evs newExecutor = Some x → protocol false (states_of id x) (is_started id x).
Proof.
  intros E. assert (reports_ok x) as [_ Hp]; [|done].
  eapply (steps_inv reports_ok); [|split; [apply newExecutor_ok|done]|exact E].
  intros y ev y' Hy ?%step_change. by eapply reports_ok_change.
Qed.

(** ** Cancellation *)

(** A live run after a step was live before, of the same job, its reason kept or set to the
    cancellation; or it is new. *)
Lemma change_runs x x' g rj' :
  change x x' → x_runs x' !! g = Some rj' →
  (∃ rj, x_runs x !! g = Some rj ∧ job_of rj' = job_of rj ∧
     (rj_killReason rj' = rj_killReason rj ∨ (rj_killReason rj = "" ∧ rj_killReason rj' = "cancel"))) ∨
  (g = x_next x ∧ rj_killReason rj' = "").
Proof.
  assert (∀ p y, x_runs (killGroup p y) = x_runs y) as Hkill by (intros p y; unfold killGroup; by case_step).
  assert (∀ g0 rj0 rj1, x_runs x !! g0 = Some rj0 → job_of rj1 = job_of rj0 →
    (rj_killReason rj1 = rj_killReason rj0 ∨ (rj_killReason rj0 = "" ∧ rj_killReason rj1 = "cancel")) →
    <[g0 := rj1]> (x_runs x) !! g = Some rj' → ∃ rj, x_runs x !! g = Some rj ∧ job_of rj' = job_of rj ∧
      (rj_killReason rj' = rj_killReason rj ∨ (rj_killReason rj = "" ∧ rj_killReason rj' = "cancel"))) as Hset.
  { intros g0 rj0 rj1 H0 Hj Hr Hl. apply lookup_insert_Some in Hl as [[-> <-]|[_ Hl]]; eauto. }
  destruct 1 as [|a E|g0 rj rj0 Hg Hq _|g0 rj rj0 Hg Hq|g0 rj rj0 s c r Hg Hl|g0 rj Hg Hp|i p Hi|i p Hi];
    unfold lateWatch, killTimer; rewrite ?Hkill; simpl.
  - eauto 10.
  - unfold start. rewrite E. simpl. intros Hl. apply lookup_insert_Some in Hl as [[<- <-]|[_ Hl]]; eauto 10.
  - intros Hl. left. eapply Hset; [exact Hg| | |exact Hl]; apply Hq.
  - intros Hl. left. eapply Hset; [exact Hg| | |exact Hl]; apply Hq.
  - intros Hx'. left. eapply Hset; [exact Hg|by eapply loud_job| |exact Hx']. left. by destruct Hl.
  - intros Hl. apply lookup_delete_Some in Hl as [_ Hl]. eauto 10.
  - eauto 10.
  - eauto 10.
Qed.

Lemma change_next x x' : change x x' → (x_next x ≤ x_next x')%nat.
Proof.
  assert (∀ p y, x_next (killGroup p y) = x_next y) as Hkill by (intros p y; unfold killGroup; by case_step).
  destruct 1; unfold lateWatch, killTimer; rewrite ?Hkill; simpl; try lia. unfold start. case_step; simpl; lia.
Qed.

(** The only reason ever recorded is the cancellation. *)
Definition reasons_ok (x : executor) : Prop :=
  ∀ g rj, x_runs x !! g = Some rj → rj_killReason rj = "" ∨ rj_killReason rj = "cancel".

Lemma reasons_change x x' : reasons_ok x → change x x' → reasons_ok x'.
Proof.
  intros Hx E g rj' Hl. destruct (change_runs x x' g rj' E Hl) as [(rj & Hg & _ & [->|[_ ->]])|[_ ->]];
    [by eapply Hx|by right|by left].
Qed.

(** The run [g] is of the job [id] and its cancellation was asked. *)
Definition cancelling (id : string) (g : nat) (x : executor) : Prop :=
  (g < x_next x)%nat ∧ ∀ rj, x_runs x !! g = Some rj → rj_killReason rj = "cancel" ∧ job_of rj = id.

Lemma cancelling_change id g x x' : cancelling id g x → change x x' → cancelling id g x'.
Proof.
  intros [Hlt Hc] E. split; [pose proof (change_next _ _ E); lia|]. intros rj' Hl.
  destruct (change_runs x x' g rj' E Hl) as [(rj & Hg & Hj & Hr)|[-> _]]; [|lia].
  destruct (Hc rj Hg) as [Hk Hid]. rewrite Hj. split; [|done]. destruct Hr as [->|[_ ->]]; done.
Qed.

Lemma cancel_cancelling x id g :
  exec_ok x → reasons_ok x → x_running x !! id = Some g → cancelling id g (cancel id x).
Proof.
  intros Hx Hr Hid. destruct (xo_entry _ Hx _ _ Hid) as (rj & Hg & Hj). unfold cancel. rewrite Hid, Hg.
  split; simpl.
  - destruct (Nat.lt_ge_cases g (x_next x)) as [|Hge]; [done|]. by rewrite (xo_fresh _ Hx) in Hg.
  - intros rj'. rewrite lookup_insert_eq. intros [= <-].
    split; [|rewrite <-Hj; exact (setReason_job "cancel" rj)].
    simpl. unfold setReason. case_decide; [done|]. by destruct (Hr g rj Hg).
Qed.

(** [C16] (safety) A cancelled job is reported as cancelled: once the poll loop has cancelled a job
    with a live run, then however the execution goes on, when the process of that run ends, by
    itself, by a signal or at its walltime, the one report made is CANCELLED with its exit code;
    only when [cmd.Wait] fails for another reason than the end of the process is the report
    FAILED, with that reason. *)
Theorem cancel_reported evs1 x1 id g evs2 x2 w x3 :
  steps evs1 newExecutor = Some x1 → x_running x1 !! id = Some g →
  steps evs2 (cancel id x1) = Some x2 → step x2 (EvExit g w) = Some x3 →
  x_reports x3 = x_reports x2 ++
    [match w with
     | WaitNil => mkReport id JobCancelled 0 "cancelled by user"
     | WaitExit code => mkReport id JobCancelled (wrapS 32 code) "cancelled by user"
     | WaitOther msg => mkReport id JobFailed (-1) msg
     end].
Proof.
  intros E1 Hid E2 E3.
  assert (exec_ok x1) as Hx1 by (eapply (steps_inv exec_ok); [|apply newExecutor_ok|exact E1]; intros; by eapply step_ok).
  assert (reasons_ok x1) as Hr1.
  { eapply (steps_inv reasons_ok); [|intros ? ? Hl; by destruct (lookup_empty_Some _ _ Hl)|exact E1].
    intros y ev y' Hy ?%step_change. by eapply reasons_change. }
  assert (cancelling id g x2) as [_ Hc2].
  { eapply (steps_inv (cancelling id g)); [|by apply cancel_cancelling|exact E2].
    intros y ev y' Hy ?%step_change. by eapply cancelling_change. }
  simpl in E3. apply step_run in E3 as (rj & Hg & E3). destruct (rj_phase rj); try done.
  destruct (Hc2 rj Hg) as [Hk Hj2]. rewrite Hk in E3. unfold job_of in Hj2. rewrite Hj2 in E3.
  destruct w; injection E3 as <-; done.
Qed.

(** ** No process outlives its job *)

(** SIGTERM has been sent to the group, and SIGKILL has been sent or is due. *)
Definition killed (pid : Z) (x : executor) : Prop :=
  (SIGTERM, - pid) ∈ x_signals x ∧ (pid ∈ x_timers x ∨ (SIGKILL, - pid) ∈ x_signals x).

(** The group of the run [g], launched as [pid], is that of a live run, or of a pending watcher, or
    is being killed. *)
Definition covered (g : nat) (pid : Z) (x : executor) : Prop :=
  (g < x_next x)%nat ∧
  ((∃ rj, x_runs x !! g = Some rj ∧ rj_pgid rj = pid ∧ has_process rj = true ∧
      (rj_watched rj = true → killed pid x)) ∨
   pid ∈ x_watchers x ∨ killed pid x).

Lemma killGroup_killed p x : 0 < p → killed p (killGroup p x).
Proof. intros Hp. unfold killGroup. rewrite (proj2 (Z.leb_gt p 0) Hp). split; [|left]; simpl; set_solver. Qed.

Lemma killed_mono pid x x' :
  x_signals x ⊆ x_signals x' → (pid ∈ x_timers x → pid ∈ x_timers x' ∨ (SIGKILL, - pid) ∈ x_signals x') →
  killed pid x → killed pid x'.
Proof. unfold killed. set_solver. Qed.

Lemma killGroup_rest p x :
  x_runs (killGroup p x) = x_runs x ∧ x_watchers (killGroup p x) = x_watchers x ∧
  x_next (killGroup p x) = x_next x ∧ ∀ pid, killed pid x → killed pid (killGroup p x).
Proof.
  unfold killGroup. case_step; simpl; [done|]. split_and!; [done..|]. intros pid. apply killed_mono; simpl; set_solver.
Qed.

(** What covers a group still does when runs and watchers stay and what is killed stays so. *)
Lemma covered_mono g pid x x' :
  x_runs x' = x_runs x → x_next x' = x_next x → (killed pid x → killed pid x') →
  (pid ∈ x_watchers x → pid ∈ x_watchers x' ∨ killed pid x') → covered g pid x → covered g pid x'.
Proof.
  unfold covered. intros -> -> Hk Hw [Hlt [(rj & Hg & Hp & Hl & Hwd)|[H|H]]]; (split; [done|]).
  - left. exists rj. split_and!; auto.
  - right. destruct (Hw H); auto.
  - right. auto.
Qed.

Lemma covered_kill g pid p x : covered g pid x → covered g pid (killGroup p x).
Proof. destruct (killGroup_rest p x) as (Hr & Hw & Hn & Hk). apply covered_mono; [done|done|apply Hk|rewrite Hw; auto]. Qed.

Lemma covered_set g pid g0 rj rj' x :
  covered g pid x → x_runs x !! g0 = Some rj →
  (has_process rj = true → has_process rj' = true ∧ rj_pgid rj' = rj_pgid rj ∧
     (rj_watched rj' = true → rj_watched rj = true)) →
  covered g pid (set_run g0 rj' x).
Proof.
  intros [Hlt Hc] Hg0 Hk. split; [done|]. destruct Hc as [(rj1 & Hg & Hp & Hgd & Hwd)|Hc]; [|by right]. left. simpl.
  destruct (decide (g0 = g)) as [->|Hne]; [|exists rj1; by rewrite lookup_insert_ne].
  simplify_eq. destruct (Hk Hgd) as (Hgd' & Hp' & Hw'). exists rj'. rewrite lookup_insert_eq, Hp'. split_and!; [done..|].
  intros Hw%Hw'. by apply Hwd.
Qed.

Lemma elem_of_delete_ne {A} (l : list A) i p x : l !! i = Some p → x ≠ p → x ∈ l → x ∈ delete i l.
Proof.
  intros Hi Hne Hx. apply list_elem_of_lookup in Hx as [j Hj]. apply list_elem_of_lookup.
  destruct (decide (j < i)%nat) as [|Hge]; [exists j; by rewrite list_lookup_delete_lt|].
  exists (pred j). rewrite list_lookup_delete_ge; [|assert (j ≠ i) by congruence; lia].
  replace (S (pred j)) with j; [done|]. assert (j ≠ i) by congruence. lia.
Qed.

Lemma has_process_quiet rj rj' :
  quiet rj rj' → has_process rj = true → has_process rj' = true ∧ rj_pgid rj' = rj_pgid rj.
Proof.
  unfold has_process. intros [_ Hp Hg _] Hr. destruct Hg as [Hg|Hg]; [|by rewrite Hg in Hr]. split; [|done].
  destruct Hp as [->|Hm]; [done|]. by destruct Hm.
Qed.

Lemma covered_finish g pid g0 rj x :
  covered g pid x → x_runs x !! g0 = Some rj → rj_phase rj = Failed ∨ rj_phase rj = Ended →
  covered g pid (finish g0 rj x).
Proof.
  intros [Hlt Hc] Hg0 Hp. split; [done|]. assert (∀ p, killed p x → killed p (finish g0 rj x)) as Hk by done. simpl.
  destruct Hc as [(rj1 & Hg & Hpid & Hgd & Hwd)|[Hc|Hc]]; [|right; left; repeat case_step; set_solver|by right; right; apply Hk].
  destruct (decide (g0 = g)) as [->|Hne]; [|left; exists rj1; by rewrite lookup_delete_ne].
  assert (rj1 = rj) as -> by congruence. right. unfold has_process in Hgd. destruct Hp as [Ep|Ep]; rewrite Ep in *; [done|].
  destruct (rj_watched rj); [right; by apply Hk, Hwd|left; set_solver].
Qed.

(** A group that is killed is covered, whatever becomes of the rest. *)
Lemma killed_covered g pid x y :
  (g < x_next x)%nat → x_next y = x_next x → 0 < pid → covered g pid (killGroup pid y).
Proof.
  intros Hlt Hn Hpos. split; [rewrite (proj1 (proj2 (proj2 (killGroup_rest _ _)))); lia|]. right; right. by apply killGroup_killed.
Qed.

Lemma covered_late g pid i p x : 0 < pid → covered g pid x → x_watchers x !! i = Some p → covered g pid (lateWatch i p x).
Proof.
  intros Hpos Hc Hi. unfold lateWatch. destruct (decide (p = pid)) as [->|Hne]; [by eapply (killed_covered _ _ x); [apply Hc|..]|].
  apply covered_kill. revert Hc. apply covered_mono; [done..|]. intros H. left. by eapply elem_of_delete_ne.
Qed.

Lemma covered_timer g pid i p x : covered g pid x → x_timers x !! i = Some p → covered g pid (killTimer i p x).
Proof.
  intros Hc Hi. revert Hc. apply covered_mono; [done..| |by left]. apply killed_mono; simpl; [set_solver|]. intros Hp.
  destruct (decide (pid = p)) as [->|Hne]; [right; set_solver|left; by eapply elem_of_delete_ne].
Qed.

Lemma covered_change g pid x x' : 0 < pid → covered g pid x → change x x' → covered g pid x'.
Proof.
  intros Hpos Hc. destruct 1 as [|a E|g0 rj rj' Hg Hq Hw|g0 rj rj' Hg Hq|g0 rj rj' s c r Hg Hl|g0 rj Hg Hp|i p Hi|i p Hi].
  - done.
  - destruct Hc as [Hlt Hc]. unfold start. rewrite E. split; simpl; [lia|].
    destruct Hc as [(rj1 & Hg & Hc)|Hc]; [|by right]. left. exists rj1. by rewrite lookup_insert_ne by lia.
  - eapply covered_set; [done..|]. intros Hgd. destruct (has_process_quiet _ _ Hq Hgd) as [H1 H2]. done.
  - destruct (decide (g0 = g)) as [->|Hne].
    + destruct Hc as [Hlt [(rj1 & Hg1 & Hpid & Hgd & Hwd)|Hc]].
      * simplify_eq. by eapply (killed_covered _ _ x).
      * apply covered_kill. split; [done|by right].
    + apply covered_kill. destruct Hc as [Hlt Hc]. split; [done|]. destruct Hc as [(rj1 & Hg1 & Hc)|Hc]; [|by right].
      left. exists rj1. simpl. by rewrite lookup_insert_ne.
  - change (covered g pid (set_run g0 rj' x)). eapply covered_set; [done..|]. unfold has_process.
    destruct Hl as [Ep|Ep|s Ep Hs]; rewrite Ep; done.
  - by apply covered_finish.
  - by apply covered_late.
  - by apply covered_timer.
Qed.

Lemma steps_app evs1 evs2 x : steps (evs1 ++ evs2) x = x' ← steps evs1 x; steps evs2 x'.
Proof.
  unfold steps. rewrite foldl_app. destruct (foldl _ (Some x) evs1) as [y|]; [done|].
  simpl. by induction evs2.
Qed.

Lemma launch_covered x g pid x' : exec_ok x → step x (EvLaunch g (Launched pid)) = Some x' → covered g pid x'.
Proof.
  intros Hx (rj & Hg & E)%step_run. destruct (rj_phase rj) eqn:Ep; try done. injection E as <-. split; simpl.
  - destruct (Nat.lt_ge_cases g (x_next x)) as [|Hge]; [done|]. by rewrite (xo_fresh _ Hx) in Hg.
  - left. exists (with_pgid pid rj). by rewrite lookup_insert_eq.
Qed.

(** [C30] (safety) No process group outlives its run unnoticed: in every execution of an agent's
    process, the process group of every run that was launched is still that of a run that has not
    returned, or its watcher is about to kill it (it was woken by the return of the run), or the
    group has been sent SIGTERM and SIGKILL has been sent to it as well or is due.  What is due
    is lost with the agent's process, if that ends first. *)
Theorem group_cleaned evs x g pid :
  steps evs newExecutor = Some x → EvLaunch g (Launched pid) ∈ evs → 0 < pid →
  (∃ rj, x_runs x !! g = Some rj ∧ rj_pgid rj = pid ∧ has_process rj = true) ∨
  pid ∈ x_watchers x ∨
  ((SIGTERM, - pid) ∈ x_signals x ∧ (pid ∈ x_timers x ∨ (SIGKILL, - pid) ∈ x_signals x)).
Proof.
  intros E (evs1 & evs2 & ->)%list_elem_of_split Hpos. rewrite steps_app in E.
  destruct (steps evs1 newExecutor) as [x1|] eqn:E1; [|done]. cbn [mbind option_bind] in E.
  change (steps ([EvLaunch g (Launched pid)] ++ evs2) x1 = Some x) in E. rewrite steps_app in E.
  destruct (steps [EvLaunch g (Launched pid)] x1) as [x2|] eqn:E2; [|done]. cbn [mbind option_bind] in E.
  assert (exec_ok x1) as Hx1 by (eapply (steps_inv exec_ok); [|apply newExecutor_ok|exact E1]; intros; by eapply step_ok).
  assert (covered g pid x) as [_ Hc].
  { eapply (steps_inv (covered g pid)); [|exact (launch_covered _ _ _ _ Hx1 E2)|exact E].
    intros y ev y' Hy ?%step_change. by eapply covered_change. }
  destruct Hc as [(rj & Hg & Hp & Hgd & _)|Hc]; [left; by exists rj|by right].
Qed.

(** ** Isolation of the devices *)

Lemma envValue_snoc env kv key :
  envValue (env ++ [kv]) key =
  match Cut kv "="%char with
  | Some (k, v) => if decide (k = key) then Some v else envValue env key
  | None => envValue env key
  end.
Proof. unfold envValue. by rewrite foldl_app. Qed.

(** The indices of the devices of a kind. *)
Definition indices (kind : string) (ds : list pbDeviceAssignment) : list Z :=
  pbDeviceAssignment_Index <$> filter (λ d, pbDeviceAssignment_Kind d = kind) ds.

Lemma visible_indices kind ds : visible kind ds = Join (itoa <$> indices kind ds) ",".
Proof. unfold visible, indices. by rewrite <-list_fmap_compose. Qed.

(** [C31] (safety) Device isolation: whatever the environment of the agent and the variables of the
    job hold, the process of a job sees in CUDA_VISIBLE_DEVICES the list of exactly the GPU indices
    it was assigned (the empty string for none), in ASCEND_RT_VISIBLE_DEVICES the NPU ones, and its
    own identifier in SKIPPER_JOB_ID. *)
Theorem buildEnv_isolated environ a :
  Forall (λ d, 0 ≤ pbDeviceAssignment_Index d) (pbAssignment_Devices a) →
  let env := buildEnv environ a in
  (∃ v, envValue env "CUDA_VISIBLE_DEVICES" = Some v ∧
     (if decide (indices "gpu" (pbAssignment_Devices a) = []) then v = ""
      else Split v ","%char = itoa <$> indices "gpu" (pbAssignment_Devices a))) ∧
  (∃ v, envValue env "ASCEND_RT_VISIBLE_DEVICES" = Some v ∧
     (if decide (indices "npu" (pbAssignment_Devices a) = []) then v = ""
      else Split v ","%char = itoa <$> indices "npu" (pbAssignment_Devices a))) ∧
  envValue env "SKIPPER_JOB_ID" = Some (pbAssignment_JobId a).
Proof.
  intros Hpos env.
  assert (∀ kind, if decide (indices kind (pbAssignment_Devices a) = []) then visible kind (pbAssignment_Devices a) = ""
      else Split (visible kind (pbAssignment_Devices a)) ","%char = itoa <$> indices kind (pbAssignment_Devices a)) as Hv.
  { intros kind. rewrite visible_indices. case_decide as E; [by rewrite E|]. apply Split_Join.
    - by intros ?%fmap_nil_inv.
    - apply Forall_fmap, Forall_fmap, Forall_forall. intros d [_ Hd]%list_elem_of_filter. simpl.
      rewrite Forall_forall in Hpos. destruct (itoa_digits (pbDeviceAssignment_Index d)) as (Hdig & _); [by apply Hpos|].
      by apply str_exists_digits. }
  unfold env, buildEnv. rewrite app_assoc. set (pre := environ ++ _).
  change [?x; ?y; ?z] with (([x] ++ [y]) ++ [z]). rewrite !app_assoc.
  set (g := visible "gpu" _). set (n := visible "npu" _). rewrite !envValue_snoc.
  change (Cut ("CUDA_VISIBLE_DEVICES=" +:+ g) "="%char) with (Some ("CUDA_VISIBLE_DEVICES", g)).
  change (Cut ("ASCEND_RT_VISIBLE_DEVICES=" +:+ n) "="%char) with (Some ("ASCEND_RT_VISIBLE_DEVICES", n)).
  change (Cut ("SKIPPER_JOB_ID=" +:+ pbAssignment_JobId a) "="%char) with (Some ("SKIPPER_JOB_ID", pbAssignment_JobId a)).
  split; [|split; [|done]].
  - exists g. split; [done|]. apply Hv.
  - exists n. split; [done|]. apply Hv.
Qed.

(** ** Registration *)

Lemma register_run errs id rest b :
  register ((Err <$> errs) ++ Ok id :: rest) b = (backoffSeq (16 * Second) (length errs) b, Some id).
Proof. revert b; induction errs as [|e errs IH]; intros b; csimpl; [done|]. by rewrite IH. Qed.

Lemma register_delays n k :
  0 ≤ k ≤ 4 → Forall (λ d, ∃ j, k ≤ j ≤ 4 ∧ d = 2 ^ j * Second) (backoffSeq (16 * Second) n (2 ^ k * Second)).
Proof.
  revert k; induction n as [|n IH]; intros k Hk; simpl; [constructor|]. constructor; [exists k; lia|].
  unfold backoffNext. case_step; bool_to_prop.
  - assert (k ≠ 4) by (intros ->; done). replace (mul64 (2 ^ k * Second) 2) with (2 ^ (k + 1) * Second).
    + eapply Forall_impl; [apply IH; lia|]. intros d (j & Hj & ->). exists j. lia.
    + assert (k = 0 ∨ k = 1 ∨ k = 2 ∨ k = 3) as [->|[->|[->| ->]]] by lia; reflexivity.
  - by apply IH.
Qed.

(** (termination) Registration ends with the first success, after one sleep per failed attempt;
    the sleeps are 1, 2, 4, 8, 16, 16, ... seconds, never more than 16. *)
Theorem register_backoff errs id rest :
  register ((Err <$> errs) ++ Ok id :: rest) Second =
    (backoffSeq (16 * Second) (length errs) Second, Some id) ∧
  Forall (λ d, ∃ j, 0 ≤ j ≤ 4 ∧ d = 2 ^ j * Second) (backoffSeq (16 * Second) (length errs) Second).
Proof. split; [apply register_run|]. by apply (register_delays _ 0). Qed.

(** ** Executions *)

Definition ex_assignment : pbAssignment :=
  mkPbAssignment "j1" "train.sh" (<["CUDA_VISIBLE_DEVICES" := "0,1,2,3"]> ∅) "" 
    [mkPbDeviceAssignment "gpu" 2; mkPbDeviceAssignment "gpu" 3] 60.

Definition ex_launch : list event :=
  [EvStart ex_assignment; EvStart ex_assignment; EvPrepare 0; EvLaunch 0 (Launched 42); EvAnnounce 0; EvGuard 0].

Definition ex_end : list event := [EvWatch 0; EvExit 0 (WaitExit (-1)); EvDone 0].

(** The executor after some events, the initial one if they cannot happen. *)
Definition after (evs : list event) (x : executor) : executor := default newExecutor (steps evs x).

Definition ex_cancelled : list event := ex_launch ++ EvCancel "j1" :: ex_end.

Lemma ex_cancelled_runs : steps ex_cancelled newExecutor = Some (after ex_cancelled newExecutor).
Proof. vm_compute. reflexivity. Qed.

Example executor_single_witness :
  let x := after ex_launch newExecutor in
  is_Some (x_running x !! "j1") ∧ ∃ g rj, x_runs x !! g = Some rj ∧ job_of rj = "j1".
Proof.
  assert (steps ex_launch newExecutor = Some (after ex_launch newExecutor)) as E by (vm_compute; reflexivity).
  assert (is_Some (x_running (after ex_launch newExecutor) !! "j1")) as H by (vm_compute; by eexists).
  split; [exact H|]. exact (proj1 (proj2 (executor_single ex_launch _ E) "j1") H).
Defined.

Example executor_reports_witness :
  states_of "j1" (after ex_cancelled newExecutor) = [JobRunning; JobCancelled] ∧
  protocol false (states_of "j1" (after ex_cancelled newExecutor)) (is_started "j1" (after ex_cancelled newExecutor)).
Proof.
  split; [vm_compute; reflexivity|]. exact (executor_reports ex_cancelled _ "j1" ex_cancelled_runs).
Defined.

Example cancel_reported_witness :
  ∃ x2 x3, steps [EvWatch 0] (cancel "j1" (after ex_launch newExecutor)) = Some x2 ∧
    step x2 (EvExit 0 (WaitExit (-1))) = Some x3 ∧
    x_reports x3 = x_reports x2 ++ [mkReport "j1" JobCancelled (-1) "cancelled by user"].
Proof.
  assert (steps ex_launch newExecutor = Some (after ex_launch newExecutor)) as E1 by (vm_compute; reflexivity).
  assert (x_running (after ex_launch newExecutor) !! "j1" = Some 0%nat) as Hid by (vm_compute; reflexivity).
  set (x2 := after [EvWatch 0] (cancel "j1" (after ex_launch newExecutor))).
  assert (steps [EvWatch 0] (cancel "j1" (after ex_launch newExecutor)) = Some x2) as E2 by (vm_compute; reflexivity).
  set (x3 := after [EvExit 0 (WaitExit (-1))] x2).
  assert (step x2 (EvExit 0 (WaitExit (-1))) = Some x3) as E3 by (vm_compute; reflexivity).
  exists x2, x3. exact (conj E2 (conj E3 (cancel_reported ex_launch _ "j1" 0 [EvWatch 0] x2 (WaitExit (-1)) x3 E1 Hid E2 E3))).
Defined.

Example group_cleaned_witness :
  let x := after ex_cancelled newExecutor in
  (∃ rj, x_runs x !! 0%nat = Some rj ∧ rj_pgid rj = 42 ∧ has_process rj = true) ∨ 42 ∈ x_watchers x ∨
  ((SIGTERM, -42) ∈ x_signals x ∧ (42 ∈ x_timers x ∨ (SIGKILL, -42) ∈ x_signals x)).
Proof.
  cbv zeta. apply (group_cleaned ex_cancelled); [exact ex_cancelled_runs| |lia].
  unfold ex_cancelled, ex_launch. set_solver.
Defined.

Example buildEnv_isolated_witness :
  envValue (buildEnv ["PATH=/bin"; "CUDA_VISIBLE_DEVICES=7"] ex_assignment) "SKIPPER_JOB_ID" = Some "j1" ∧
  envValue (buildEnv ["PATH=/bin"; "CUDA_VISIBLE_DEVICES=7"] ex_assignment) "CUDA_VISIBLE_DEVICES" = Some "2,3".
Proof.
  split; [|vm_compute; reflexivity].
  apply (buildEnv_isolated ["PATH=/bin"; "CUDA_VISIBLE_DEVICES=7"] ex_assignment).
  repeat constructor; simpl; lia.
Defined.
