(* ===== verification/JobLog.v ===== *)
(** * internal/server/joblog.go and the log stream of clusterjobs.go

    The log directory is a map from paths to contents; an append may fail to open the file or
    write only a part.  The stream of [GetJobLogs] runs while the files grow and the job goes on:
    an instant of the surroundings [Watch] is a millisecond, and every access (a read, a query) is
    taken to last one. *)
From Stdlib Require Import Ascii.
From S2P Require Import Prelude GoBase GoStrings GoPath Event Proto Store.

(** ** gRPC status errors *)

Inductive code := InvalidArgument | Internal | NotFound.

(** What a handler answers. *)
Inductive rpc (A : Type) : Type :=
| Reply (a : A)
| Status (c : code) (msg : string).
Arguments Reply {A} _.
Arguments Status {A} _ _.

(** ** The store of job logs *)

(** What goes wrong in one append: the file cannot be opened, or only [n] bytes are written. *)
Inductive fsFault :=
| OpenFails (e : string)
| WriteFails (n : nat) (e : string).

Record FS := mkFS {
  fs_files : gmap string string;
  fs_faults : list (option fsFault)
}.

Record jobLogStore := mkJobLogStore { jl_dir : string }.

Definition newJobLogStore (mkdirErr : option string) (dir : string) : result jobLogStore :=
  match mkdirErr with Some e => Err ("create logs dir: " +:+ e) | None => Ok (mkJobLogStore dir) end.

Definition path (j : jobLogStore) (jobID : string) : result string :=
  if decide (jobID = "") then Err "invalid job id"
  else if ContainsAny jobID "/\" then Err "invalid job id"
  else Ok (pathJoin [jl_dir j; Base jobID +:+ ".log"]).

(** The bytes appended to a file, which is created if it is not there. *)
Definition appendFile (p data : string) (fs : gmap string string) : gmap string string :=
  <[p := default "" (fs !! p) +:+ data]> fs.

Definition append (j : jobLogStore) (jobID data : string) : ST FS (result unit) := λ fs,
  match path j jobID with
  | Err e => (Err e, fs)
  | Ok p =>
      match fs_faults fs with
      | Some (OpenFails e) :: rest => (Err e, mkFS (fs_files fs) rest)
      | Some (WriteFails n e) :: rest => (Err e, mkFS (appendFile p (str_take n data) (fs_files fs)) rest)
      | None :: rest => (Ok tt, mkFS (appendFile p data (fs_files fs)) rest)
      | [] => (Ok tt, mkFS (appendFile p data (fs_files fs)) [])
      end
  end.

(** ** The log stream *)

Inductive opened := Opened (p : string) | NotExist | OpenErr (e : string).

Definition open (j : jobLogStore) (jobID : string) (openErr : option string) (files : gmap string string) : opened :=
  match path j jobID with
  | Err e => OpenErr e
  | Ok p => match openErr with
            | Some e => OpenErr e
            | None => match files !! p with Some _ => Opened p | None => NotExist end
            end
  end.

Definition isTerminalState (state : string) : bool :=
  bool_decide (state = JobCompleted) || bool_decide (state = JobFailed) ||
  bool_decide (state = JobCancelled) || bool_decide (state = JobTimeout).

(** The surroundings at each instant: the files, the answer of [GetJob], the failures of opening,
    reading and sending, the end of the context. *)
Record Watch := mkWatch {
  wt_files : nat → gmap string string;
  wt_job : nat → result (option Job);
  wt_open : nat → option string;
  wt_read : nat → option string;
  wt_send : nat → option string;
  wt_done : nat → option string
}.

Inductive streamErr := StreamStatus (c : code) (msg : string) | StreamErr (e : string).

(** The stream: the instant, the open file and the offset in it, the chunks sent. *)
Record Stream := mkStream {
  sm_t : nat;
  sm_file : option (string * nat);
  sm_sent : list string
}.

Definition tick (s : Stream) : Stream := mkStream (S (sm_t s)) (sm_file s) (sm_sent s).

Section stream.
Context (j : jobLogStore) (w : Watch).

(** The size of the read buffer. *)
Context (bufSize : nat).

(** The content of an open file at an instant. *)
Definition contentAt (p : string) (t : nat) : string := default "" (wt_files w t !! p).

(** The loop of [drainLogs]: [None] if it has not ended after [fuel] reads. *)
Fixpoint drainLogs (fuel : nat) (p : string) (off : nat) (s : Stream) : option (option streamErr * Stream) :=
  match fuel with
  | O => None
  | S fuel' =>
      let t := sm_t s in
      match wt_read w t with
      | Some _ => Some (Some (StreamStatus Internal "read logs failed"), tick s)
      | None =>
          let chunk := str_take bufSize (str_drop off (contentAt p t)) in
          if decide (chunk = "") then Some (None, tick s)
          else match wt_send w t with
               | Some e => Some (Some (StreamErr e), mkStream (S t) (Some (p, off + strlen chunk)) (sm_sent s))
               | None => drainLogs fuel' p (off + strlen chunk)
                           (mkStream (S t) (Some (p, off + strlen chunk)) (sm_sent s ++ [chunk]))
               end
      end
  end.

(** [if f != nil { drainLogs }] *)
Definition drain (fuel : nat) (s : Stream) : option (option streamErr * Stream) :=
  match sm_file s with
  | None => Some (None, s)
  | Some (p, off) => drainLogs fuel p off s
  end.

(** [if f == nil { open }]: a missing file is not an error. *)
Definition tryOpen (jobID : string) (s : Stream) : option streamErr * Stream :=
  match sm_file s with
  | Some _ => (None, s)
  | None =>
      match open j jobID (wt_open w (sm_t s)) (wt_files w (sm_t s)) with
      | Opened p => (None, mkStream (S (sm_t s)) (Some (p, O)) (sm_sent s))
      | NotExist => (None, tick s)
      | OpenErr _ => (Some (StreamStatus Internal "open logs failed"), tick s)
      end
  end.

(** The query of the job: has it ended? *)
Definition ended (s : Stream) : bool :=
  match wt_job w (sm_t s) with
  | Ok (Some jb) => isTerminalState (Job_State jb)
  | _ => false
  end.

(** The [select] at the end of a round: [n] milliseconds pass, or the context ends before. *)
Fixpoint pause (n : nat) (s : Stream) : option string * Stream :=
  match n with
  | O => (None, s)
  | S n' => match wt_done w (sm_t s) with Some e => (Some e, s) | None => pause n' (tick s) end
  end.

(** The loop of [GetJobLogs], which waits [wait] milliseconds between its rounds. *)
Fixpoint followLogs (wait fuel : nat) (jobID : string) (follow : bool) (s : Stream) : option (option streamErr * Stream) :=
  match fuel with
  | O => None
  | S fuel' =>
      match tryOpen jobID s with
      | (Some e, s) => Some (Some e, s)
      | (None, s) =>
          '(r, s) ← drain fuel' s;
          match r with
          | Some e => Some (Some e, s)
          | None =>
              if negb follow then Some (None, s)
              else if ended s then drain fuel' (tick s)
              else match pause wait (tick s) with
                   | (Some e, s) => Some (Some (StreamErr e), s)
                   | (None, s) => followLogs wait fuel' jobID follow s
                   end
          end
      end
  end.

Definition GetJobLogs (fuel : nat) (req : pbGetJobLogsRequest) : option (option streamErr * Stream) :=
  let jobID := pbGetJobLogsRequest_JobId req in
  let s := mkStream O None [] in
  if decide (jobID = "") then Some (Some (StreamStatus InvalidArgument "job_id is required"), s)
  else match wt_job w O with
       | Err _ => Some (Some (StreamStatus Internal "get job failed"), tick s)
       | Ok None => Some (Some (StreamStatus NotFound "job not found"), tick s)
       | Ok (Some _) => followLogs 300 fuel jobID (pbGetJobLogsRequest_Follow req) (tick s)
       end.
End stream.

(** The source's buffer: 32 KiB. *)
Definition logBuf : nat := 32 * 1024.
