(* ===== verification/JobLogTheorems.v ===== *)
(** * Job logs: one file per job, appends in order, a follower gets all of it *)
From Stdlib Require Import Ascii.
From S2P Require Import Prelude GoBase GoStrings GoPath Event Proto Store JobLog.

(** ** Paths *)

Lemma ContainsAny_slash id : ContainsAny id "/\" = false → str_exists (Ascii.eqb slash) id = false.
Proof.
  unfold ContainsAny. induction id as [|c id IH]; [done|]. cbn [str_exists]. intros [Hc Hid]%orb_false_iff.
  apply orb_false_iff in Hc as [Hc _]. apply orb_false_iff. split; [|by apply IH].
  rewrite (Ascii.eqb_sym slash c). exact Hc.
Qed.

Lemma trim_slashes_plain s : str_exists (Ascii.eqb slash) s = false → trim_slashes s = s.
Proof. destruct s as [|c s]; [done|]. intros [E _]%orb_false_iff. cbn [trim_slashes]. by rewrite (Ascii.eqb_sym c slash), E. Qed.

Lemma str_exists_rev P s : str_exists P (str_rev s) = str_exists P s.
Proof.
  induction s as [|c s IH]; [done|]. rewrite str_rev_cons, str_exists_app, IH. cbn. rewrite orb_false_r. apply orb_comm.
Qed.

Lemma Base_plain s : s ≠ "" → str_exists (Ascii.eqb slash) s = false → Base s = s.
Proof.
  intros Hne Hs. unfold Base. rewrite decide_False by done.
  rewrite trim_slashes_plain by by rewrite str_exists_rev. rewrite str_rev_involutive, last_Split_plain by done.
  by rewrite decide_False.
Qed.

(** The file of a job: a direct child of the directory. *)
Lemma path_child j id p :
  jl_dir j ≠ "" → path j id = Ok p →
  id ≠ "" ∧ ContainsAny id "/\" = false ∧ p = render (rooted (jl_dir j)) (elements (jl_dir j) ++ [id +:+ ".log"]).
Proof.
  intros Hd. unfold path. repeat case_decide; try done. destruct (ContainsAny id "/\") eqn:E; [done|].
  intros [= <-]. split_and!; [done..|]. pose proof (ContainsAny_slash _ E) as Hs. rewrite Base_plain by done.
  cbn [pathJoin]. rewrite decide_False by done.
  destruct (elements_child (jl_dir j) (id +:+ ".log")) as [Hr He].
  - done.
  - by rewrite str_exists_app, Hs.
  - by destruct id.
  - destruct id as [|c [|]]; [done| |]; intros Eq; inversion Eq.
  - destruct id as [|c [|d [|]]]; [done| | |]; intros Eq; inversion Eq.
  - change (Clean (jl_dir j +:+ "/" +:+ (id +:+ ".log")) = render (rooted (jl_dir j)) (elements (jl_dir j) ++ [id +:+ ".log"])).
    unfold Clean. rewrite Hr, He. done.
Qed.

Lemma Join_snoc es c : Join (es ++ [c]) "/" = match es with [] => c | _ => Join es "/" +:+ "/" +:+ c end.
Proof.
  induction es as [|e es IH]; [done|]. destruct es as [|e' es]; [done|].
  change (Join ((e :: e' :: es) ++ [c]) "/") with (e +:+ "/" +:+ Join ((e' :: es) ++ [c]) "/").
  rewrite IH. change (Join (e :: e' :: es) "/") with (e +:+ "/" +:+ Join (e' :: es) "/"). by rewrite !str_app_assoc.
Qed.

Lemma render_snoc_inj r es c d : c ≠ "" → d ≠ "" → render r (es ++ [c]) = render r (es ++ [d]) → c = d.
Proof.
  intros Hc Hd. unfold render. rewrite !Join_snoc.
  assert (∀ x, x ≠ "" → match es with [] => x | _ => Join es "/" +:+ "/" +:+ x end ≠ "") as Hne.
  { intros x Hx. destruct es; [done|]. by destruct (Join _ _). }
  rewrite !decide_False by by apply Hne.
  destruct r; [intros E%str_app_inv_head|intros E]; destruct es; try done;
    by apply str_app_inv_head, str_app_inv_head in E.
Qed.

Lemma path_inj j a b p : jl_dir j ≠ "" → path j a = Ok p → path j b = Ok p → a = b.
Proof.
  intros Hd (Ha & _ & Ea)%path_child (Hb & _ & Eb)%path_child; [|done..]. rewrite Ea in Eb.
  apply render_snoc_inj in Eb; [by apply str_app_inv_tail in Eb|by destruct a|by destruct b].
Qed.

(** (safety) Job logs stay in their directory and apart: a job identifier is accepted only if it
    is not empty and has no slash and no backslash, its file is then the direct child
    <identifier>.log of the log directory whatever the identifier is (".." included), and two
    identifiers never share a file. *)
Theorem path_safe j id1 id2 p1 p2 :
  jl_dir j ≠ "" → path j id1 = Ok p1 → path j id2 = Ok p2 →
  id1 ≠ "" ∧ ContainsAny id1 "/\" = false ∧
  p1 = render (rooted (jl_dir j)) (elements (jl_dir j) ++ [id1 +:+ ".log"]) ∧ (p1 = p2 ↔ id1 = id2).
Proof.
  intros Hd H1 H2. destruct (path_child j id1 p1 Hd H1) as (Ha & Hb & Hc). split_and!; [done..|].
  split; [intros <-; by eapply path_inj|]. intros ->. congruence.
Qed.

Example path_safe_witness :
  path (mkJobLogStore "job-logs") ".." = Ok "job-logs/...log" ∧ path (mkJobLogStore "job-logs") "../x" = Err "invalid job id" ∧
  "job-logs/...log" ≠ "job-logs/a1.log".
Proof.
  assert (path (mkJobLogStore "job-logs") ".." = Ok "job-logs/...log") as E1 by (vm_compute; reflexivity).
  assert (path (mkJobLogStore "job-logs") "a1" = Ok "job-logs/a1.log") as E2 by (vm_compute; reflexivity).
  split; [exact E1|]. split; [vm_compute; reflexivity|].
  assert (jl_dir (mkJobLogStore "job-logs") ≠ "") as Hd by done.
  intros E. apply (path_safe _ _ _ _ _ Hd E1 E2) in E. discriminate.
Defined.

(** ** Appends *)

(** A run of appends, with the results. *)
Fixpoint appends (j : jobLogStore) (reqs : list (string * string)) : ST FS (list (result unit)) := λ fs,
  match reqs with
  | [] => ([], fs)
  | (id, data) :: reqs' =>
      let '(r, fs) := append j id data fs in
      let '(rs, fs) := appends j reqs' fs in (r :: rs, fs)
  end.

(** What one append left in the file: all of the data when it succeeded, a beginning of it otherwise. *)
Definition piece_of (req : string * string) (r : result unit) (piece : string) : Prop :=
  (∃ n, piece = str_take n req.2) ∧ (r = Ok tt → piece = req.2).

Definition logOf (j : jobLogStore) (id : string) (fs : FS) : string :=
  match path j id with Ok p => default "" (fs_files fs !! p) | Err _ => "" end.

Lemma str_take_0 s : str_take 0 s = "".
Proof. by destruct s. Qed.

Lemma str_take_all s : str_take (strlen s) s = s.
Proof. rewrite <-(str_app_nil_r s) at 2. apply str_take_app. Qed.

Lemma appendFile_log j id p id' p' data fs faults :
  jl_dir j ≠ "" → path j id = Ok p → path j id' = Ok p' →
  logOf j id' (mkFS (appendFile p data fs) faults) =
    logOf j id' (mkFS fs faults) +:+ (if decide (id = id') then data else "").
Proof.
  intros Hd Hp Hp'. unfold logOf, appendFile. rewrite Hp'. simpl. case_decide as E.
  - subst id'. assert (p' = p) as -> by congruence. by rewrite lookup_insert_eq.
  - rewrite lookup_insert_ne, str_app_nil_r; [done|]. intros ->. apply E. by eapply path_inj.
Qed.

(** One append: the log of a job grows by a piece of the data if it is the job's, else it stays. *)
Lemma append_log j id data fs r fs' id' p' :
  jl_dir j ≠ "" → path j id' = Ok p' → append j id data fs = (r, fs') →
  ∃ piece, logOf j id' fs' = logOf j id' fs +:+ (if decide (id = id') then piece else "") ∧ piece_of (id, data) r piece.
Proof.
  intros Hd Hp'. unfold append. destruct (path j id) as [p|e] eqn:Hp.
  - assert (∀ data0 faults, logOf j id' (mkFS (appendFile p data0 (fs_files fs)) faults) =
      logOf j id' fs +:+ (if decide (id = id') then data0 else "")) as Happ.
    { intros data0 faults. by rewrite (appendFile_log j id p id' p'). }
    assert (piece_of (id, data) (Ok tt) data) as Hfull by (split; [exists (strlen data); by rewrite str_take_all|done]).
    destruct (fs_faults fs) as [|[[e|n e]|] rest]; intros [= <- <-].
    + exists data. by rewrite Happ.
    + exists "". split; [by case_decide; rewrite str_app_nil_r|]. split; [exists O; by rewrite str_take_0|done].
    + exists (str_take n data). rewrite Happ. split; [done|]. split; [by eexists|done].
    + exists data. by rewrite Happ.
  - intros [= <- <-]. exists "". split; [by case_decide; rewrite str_app_nil_r|]. split; [exists O; by rewrite str_take_0|done].
Qed.

(** (functional) A job's log is what was appended to it, in order, and nothing else: after any run
    of appends for any jobs, with any failures, the log of a job is what it was followed by one
    piece per append of that job, the whole of the data for those that succeeded and a beginning
    of it for those that failed. *)
Theorem appends_log j reqs fs rs fs' id p :
  jl_dir j ≠ "" → path j id = Ok p → appends j reqs fs = (rs, fs') →
  ∃ pieces, Forall2 (λ q piece, piece_of q.1 q.2 piece) (filter (λ q, q.1.1 = id) (zip reqs rs)) pieces ∧
    logOf j id fs' = logOf j id fs +:+ str_concat pieces.
Proof.
  intros Hd Hp. revert fs rs fs'. induction reqs as [|[id0 data] reqs IH]; intros fs rs fs'; cbn [appends].
  - intros [= <- <-]. exists []. split; [constructor|]. by rewrite str_app_nil_r.
  - destruct (append j id0 data fs) as [r fs1] eqn:E1. destruct (appends j reqs fs1) as [rs1 fs2] eqn:E2.
    intros [= <- <-]. destruct (append_log j id0 data fs r fs1 id p Hd Hp E1) as (piece & Hl & Hpc).
    destruct (IH fs1 rs1 fs2 E2) as (pieces & Hf & Hl2). rewrite Hl2, Hl. cbn [zip zip_with]. case_decide as E.
    + exists (piece :: pieces). rewrite filter_cons_True by done. split; [by constructor|]. by rewrite str_app_assoc.
    + exists pieces. rewrite filter_cons_False by done. by rewrite str_app_nil_r.
Qed.

Definition ex_logs : jobLogStore := mkJobLogStore "job-logs".

Definition ex_reqs : list (string * string) := [("j1", "a"); ("j2", "x"); ("j1", "bcd"); ("../j1", "z"); ("j1", "e")].

Example appends_log_witness :
  logOf ex_logs "j1" (appends ex_logs ex_reqs (mkFS ∅ [None; None; Some (WriteFails 2 "no space")])).2 = "abce" ∧
  ∃ pieces, Forall2 (λ q piece, piece_of q.1 q.2 piece)
      (filter (λ q, q.1.1 = "j1") (zip ex_reqs (appends ex_logs ex_reqs (mkFS ∅ [None; None; Some (WriteFails 2 "no space")])).1)) pieces.
Proof.
  split; [vm_compute; reflexivity|].
  set (fs := mkFS ∅ _). destruct (appends ex_logs ex_reqs fs) as [rs fs'] eqn:E.
  assert (path ex_logs "j1" = Ok "job-logs/j1.log") as Hp by (vm_compute; reflexivity).
  assert (jl_dir ex_logs ≠ "") as Hd by done.
  destruct (appends_log ex_logs ex_reqs fs rs fs' "j1" _ Hd Hp E) as (pieces & H & _). exists pieces. exact H.
Defined.

(** ** The stream *)

Lemma str_take_empty n s : (0 < n)%nat → str_take n s = "" → s = "".
Proof. intros Hn. destruct n as [|n]; [lia|]. by destruct s. Qed.

Section stream.
Context (j : jobLogStore) (w : Watch) (buf : nat) (p : string).
Context (Hbuf : (0 < buf)%nat).

(** The log only grows. *)
Definition grows : Prop := ∀ t, ∃ more, contentAt w p (S t) = contentAt w p t +:+ more.
Context (Hgrows : grows).

Lemma grows_later t t' : (t ≤ t')%nat → ∃ more, contentAt w p t' = contentAt w p t +:+ more.
Proof.
  induction 1 as [|t' _ [m IH]]; [exists ""; by rewrite str_app_nil_r|].
  destruct (Hgrows t') as [m' E]. exists (m +:+ m'). by rewrite E, IH, str_app_assoc.
Qed.

(** What was sent is what the log holds up to the offset. *)
Definition upTo (off : nat) (s : Stream) : Prop :=
  off = strlen (str_concat (sm_sent s)) ∧ ∃ rest, contentAt w p (sm_t s) = str_concat (sm_sent s) +:+ rest.

Definition in_step (s : Stream) : Prop :=
  match sm_file s with
  | None => sm_sent s = []
  | Some (q, off) => q = p ∧ upTo off s
  end.

(** What was sent is a beginning of the log. *)
Definition sent_prefix (s : Stream) : Prop := ∃ rest, contentAt w p (sm_t s) = str_concat (sm_sent s) +:+ rest.

Lemma sent_prefix_later s t' : sent_prefix s → (sm_t s ≤ t')%nat → ∃ rest, contentAt w p t' = str_concat (sm_sent s) +:+ rest.
Proof.
  intros [rest E] Ht. destruct (grows_later _ _ Ht) as [m Em]. exists (rest +:+ m). by rewrite Em, E, str_app_assoc.
Qed.

Lemma in_step_prefix s : in_step s → sent_prefix s.
Proof.
  unfold in_step, sent_prefix. destruct (sm_file s) as [[q off]|]; [by intros (_ & _ & ?)|].
  intros ->. by exists (contentAt w p (sm_t s)).
Qed.

Lemma in_step_tick s : in_step s → in_step (tick s).
Proof.
  unfold in_step, tick. simpl. destruct (sm_file s) as [[q off]|]; [|done]. intros (-> & Ho & Hr).
  split; [done|]. split; [done|]. apply (sent_prefix_later s); [done|simpl; lia].
Qed.

Lemma in_step_pause n s r s' : in_step s → pause w n s = (r, s') → in_step s' ∧ (sm_t s ≤ sm_t s')%nat.
Proof.
  revert s; induction n as [|n IH]; intros s Hin; cbn [pause]; [by intros [= _ <-]|].
  destruct (wt_done w (sm_t s)); [by intros [= _ <-]|]. intros E.
  destruct (IH (tick s) (in_step_tick s Hin) E) as [? Hle]. split; [done|]. simpl in Hle. lia.
Qed.

(** A drain that ends well has sent all that the log held at its last read. *)
Lemma drainLogs_all fuel off s r s' :
  upTo off s → sm_file s = Some (p, off) → drainLogs w buf fuel p off s = Some (r, s') →
  sent_prefix s' ∧ (sm_t s < sm_t s')%nat ∧
  (r = None → in_step s' ∧ sm_file s' ≠ None ∧ ∃ t, (sm_t s ≤ t < sm_t s')%nat ∧ str_concat (sm_sent s') = contentAt w p t).
Proof.
  revert off s; induction fuel as [|fuel IH]; intros off s Hup Hf; [done|]. cbn [drainLogs].
  assert (in_step s) as Hin by (unfold in_step; by rewrite Hf).
  destruct (wt_read w (sm_t s)) as [e|].
  { intros [= <- <-]. split; [by apply in_step_prefix, in_step_tick|]. simpl. split; [lia|done]. }
  destruct Hup as (Ho & rest & E). rewrite E, Ho, str_drop_app. case_decide as Ec.
  - intros [= <- <-]. split; [by apply in_step_prefix, in_step_tick|]. split; [simpl; lia|]. intros _.
    split; [by apply in_step_tick|]. split; [simpl; by rewrite Hf|]. exists (sm_t s). split; [simpl; lia|]. simpl.
    rewrite E, (str_take_empty _ _ Hbuf Ec). by rewrite str_app_nil_r.
  - destruct (Hgrows (sm_t s)) as [m Em].
    assert (∀ t, t = S (sm_t s) → contentAt w p t = str_concat (sm_sent s) +:+ (rest +:+ m)) as Enext
      by (intros t ->; by rewrite Em, E, str_app_assoc).
    destruct (wt_send w (sm_t s)) as [e|].
    + intros [= <- <-]. split; [by eexists; apply Enext|]. simpl. split; [lia|done].
    + intros Hd. apply IH in Hd as (H1 & H2 & H3); [|split; cbn [sm_sent sm_t]|done].
      * simpl in H2, H3. split; [done|]. split; [lia|]. intros Hr. destruct (H3 Hr) as (? & ? & t & ? & ?).
        split; [done|]. split; [done|]. exists t. split; [lia|done].
      * by rewrite str_concat_snoc, strlen_app.
      * eexists. rewrite (Enext _ eq_refl), str_concat_snoc, !str_app_assoc. f_equal.
        by rewrite <-str_app_assoc, str_take_drop.
Qed.

Lemma drain_all fuel s r s' :
  in_step s → drain w buf fuel s = Some (r, s') →
  sent_prefix s' ∧ (sm_t s ≤ sm_t s')%nat ∧
  (r = None → in_step s' ∧ (sm_file s ≠ None → sm_file s' ≠ None ∧
     ∃ t, (sm_t s ≤ t < sm_t s')%nat ∧ str_concat (sm_sent s') = contentAt w p t)).
Proof.
  intros Hin. pose proof Hin as Hin'. unfold in_step, drain in *. destruct (sm_file s) as [[q off]|] eqn:Ef.
  - destruct Hin as [-> Hup]. intros Hd. destruct (drainLogs_all _ _ _ _ _ Hup Ef Hd) as (H1 & H2 & H3).
    split; [done|]. split; [lia|]. intros Hr. destruct (H3 Hr) as (? & ? & ?). auto.
  - intros [= <- <-]. split; [apply in_step_prefix; unfold in_step; by rewrite Ef|]. split; [lia|]. intros _.
    split; [by rewrite Ef|done].
Qed.

Context (id : string) (Hp : path j id = Ok p).

Lemma tryOpen_ok s r s' :
  in_step s → tryOpen j w id s = (r, s') → sent_prefix s' ∧ (sm_t s ≤ sm_t s')%nat ∧ (r = None → in_step s').
Proof.
  intros Hin. unfold tryOpen. destruct (sm_file s) as [[q off]|] eqn:Ef.
  { intros [= <- <-]. split; [by apply in_step_prefix|]. split; [lia|done]. }
  unfold open. rewrite Hp. assert (sm_sent s = []) as Es by (unfold in_step in Hin; by rewrite Ef in Hin).
  pose proof (in_step_tick s Hin) as Ht. destruct (wt_open w (sm_t s)).
  { intros [= <- <-]. split; [by apply in_step_prefix|]. simpl. split; [lia|done]. }
  destruct (wt_files w (sm_t s) !! p); intros [= <- <-].
  - assert (in_step (mkStream (S (sm_t s)) (Some (p, 0%nat)) (sm_sent s))) as Hnew.
    { split; [done|]. unfold upTo. simpl. rewrite Es. split; [done|]. by eexists. }
    split; [by apply in_step_prefix|]. simpl. split; [lia|done].
  - split; [by apply in_step_prefix|]. simpl. split; [lia|done].
Qed.

(** The loop: whatever was sent is a beginning of the log; and a follower whose file was open when
    the end of the job was seen has got the log as it was later. *)
Lemma followLogs_all wait fuel follow s r s' :
  in_step s → followLogs j w buf wait fuel id follow s = Some (r, s') →
  sent_prefix s' ∧
  (r = None → follow = true → sm_file s' ≠ None →
     ∃ t1 t2, (t1 < t2 < sm_t s')%nat ∧ str_concat (sm_sent s') = contentAt w p t2 ∧
       ∃ jb, wt_job w t1 = Ok (Some jb) ∧ isTerminalState (Job_State jb) = true).
Proof.
  revert s; induction fuel as [|fuel IH]; intros s Hin; [done|]. cbn [followLogs].
  destruct (tryOpen j w id s) as [ro s1] eqn:Eo. destruct (tryOpen_ok _ _ _ Hin Eo) as (Hp1 & _ & Hin1).
  destruct ro as [e|]; [by intros [= <- <-]|]. specialize (Hin1 eq_refl).
  destruct (drain w buf fuel s1) as [[rd s2]|] eqn:Ed; [|done]. cbn [mbind option_bind].
  destruct (drain_all _ _ _ _ Hin1 Ed) as (Hp2 & _ & Hd2). destruct rd as [e|]; [by intros [= <- <-]|].
  destruct (Hd2 eq_refl) as (Hin2 & _). destruct follow; cbn [negb]; [|by intros [= <- <-]].
  destruct (ended w s2) eqn:Ee.
  - intros Hd. destruct (drain_all _ _ _ _ (in_step_tick _ Hin2) Hd) as (Hp3 & _ & H3). split; [done|].
    intros Hr _ Hf. destruct (H3 Hr) as (_ & Hall).
    assert (sm_file (tick s2) ≠ None) as Hopen.
    { intros En. unfold drain in Hd. rewrite En in Hd. injection Hd as _ <-. done. }
    destruct (Hall Hopen) as (_ & t & Ht & Es). exists (sm_t s2), t. simpl in Ht. split; [lia|]. split; [done|].
    unfold ended in Ee. destruct (wt_job w (sm_t s2)) as [[jb|]|]; [|done..]. eauto.
  - destruct (pause w wait (tick s2)) as [re s3] eqn:Epa.
    destruct (in_step_pause _ _ _ _ (in_step_tick _ Hin2) Epa) as [Hin3 _].
    destruct re; [intros [= <- <-]; split; [by apply in_step_prefix|done]|]. by apply IH.
Qed.
End stream.

(** [C28] (functional) Following a log: while the log only grows, everything that is sent is a beginning
    of it, without gaps or repetitions, and when the stream of a follower ends without an error
    and the file was open, it has sent the whole log as it was at an instant after the job was
    seen in a terminal state. *)
Theorem GetJobLogs_complete j w buf fuel id p follow r s :
  (0 < buf)%nat → path j id = Ok p → grows w p →
  GetJobLogs j w buf fuel (mkPbGetJobLogsRequest id follow) = Some (r, s) →
  (∃ rest, contentAt w p (sm_t s) = str_concat (sm_sent s) +:+ rest) ∧
  (r = None → follow = true → sm_file s ≠ None →
     ∃ t1 t2, (t1 < t2)%nat ∧ str_concat (sm_sent s) = contentAt w p t2 ∧
       ∃ jb, wt_job w t1 = Ok (Some jb) ∧ isTerminalState (Job_State jb) = true).
Proof.
  intros Hbuf Hp Hg. unfold GetJobLogs. cbn [pbGetJobLogsRequest_JobId pbGetJobLogsRequest_Follow].
  assert (∀ n, ∃ rest, contentAt w p n = str_concat [] +:+ rest) as Hnil by (intros n; by eexists).
  case_decide; [intros [= <- <-]; split; [apply Hnil|done]|].
  destruct (wt_job w 0) as [[jb|]|e]; [|intros [= <- <-]; split; [apply Hnil|done]..].
  intros Hf. assert (in_step w p (tick (mkStream 0 None []))) as Hin by exact eq_refl.
  destruct (followLogs_all j w buf p Hbuf Hg id Hp 300 fuel follow _ r s Hin Hf) as (H1 & H2).
  split; [done|]. intros Hr Hfo Hfile. destruct (H2 Hr Hfo Hfile) as (t1 & t2 & ? & ? & ?). exists t1, t2.
  split; [lia|done].
Qed.

(** Without the follow option, and with no failure, a stream of a log that does not change ends and
    has sent all of it. *)
Section still.
Context (j : jobLogStore) (w : Watch) (buf : nat) (p c : string).
Context (Hbuf : (0 < buf)%nat) (Hc : ∀ t, contentAt w p t = c).
Context (Hread : ∀ t, wt_read w t = None) (Hsend : ∀ t, wt_send w t = None).

Lemma drainLogs_still fuel rest off s :
  c = str_concat (sm_sent s) +:+ rest → off = strlen (str_concat (sm_sent s)) → (strlen rest < fuel)%nat →
  ∃ s', drainLogs w buf fuel p off s = Some (None, s') ∧ str_concat (sm_sent s') = c.
Proof.
  revert rest off s; induction fuel as [|fuel IH]; intros rest off s E Ho Hf; [lia|]. cbn [drainLogs].
  rewrite Hread, Hsend, Hc, Ho, E, str_drop_app. case_decide as Ed.
  - eexists. split; [done|]. simpl. rewrite (str_take_empty _ _ Hbuf Ed). by rewrite str_app_nil_r.
  - rewrite <-E.
    apply (IH (str_drop buf rest)); simpl.
    + by rewrite str_concat_snoc, str_app_assoc, str_take_drop.
    + by rewrite str_concat_snoc, strlen_app.
    + pose proof (f_equal strlen (str_take_drop buf rest)) as El. rewrite strlen_app in El.
      assert (strlen (str_take buf rest) ≠ 0)%nat; [|lia]. by destruct (str_take buf rest).
Qed.
End still.

(** (termination) Reading a finished log: without the follow option and with no failure, the
    stream of a log that does not change ends, without an error, after at most one read per
    byte and two accesses more, and has sent exactly the log. *)
Theorem GetJobLogs_reads j w buf id p c jb fuel :
  (0 < buf)%nat → path j id = Ok p → (∀ t, wt_files w t !! p = Some c) →
  (∀ t, wt_read w t = None) → (∀ t, wt_send w t = None) → (∀ t, wt_open w t = None) →
  wt_job w 0 = Ok (Some jb) → (strlen c + 2 ≤ fuel)%nat →
  ∃ s, GetJobLogs j w buf fuel (mkPbGetJobLogsRequest id false) = Some (None, s) ∧ str_concat (sm_sent s) = c.
Proof.
  intros Hbuf Hp Hfile Hread Hsend Hopen Hjob Hfuel. unfold GetJobLogs.
  cbn [pbGetJobLogsRequest_JobId pbGetJobLogsRequest_Follow].
  assert (id ≠ "") as Hid by (intros ->; done). rewrite decide_False by done. rewrite Hjob.
  destruct fuel as [|fuel]; [lia|]. cbn [followLogs]. unfold tryOpen, open. cbn [sm_file tick sm_t sm_sent].
  rewrite Hp, Hopen, Hfile. unfold drain. cbn [sm_file].
  destruct (drainLogs_still w buf p c Hbuf ltac:(intros t; unfold contentAt; by rewrite Hfile) Hread Hsend
    fuel c 0 (mkStream 2 (Some (p, 0%nat)) []) eq_refl eq_refl ltac:(lia)) as (s' & E & Es).
  rewrite E. cbn [mbind option_bind negb]. by exists s'.
Qed.

(** ** A follower's stream ends *)

Section ends.
Context (j : jobLogStore) (w : Watch) (buf : nat) (p c : string) (T : nat).
Context (Hbuf : (0 < buf)%nat) (Hgrows : grows w p).
Context (Hread : ∀ t, wt_read w t = None) (Hsend : ∀ t, wt_send w t = None).
Context (Hopen : ∀ t, wt_open w t = None) (Hdone : ∀ t, wt_done w t = None).
Context (Hended : ∀ t, (T ≤ t)%nat → ∃ jb, wt_job w t = Ok (Some jb) ∧ isTerminalState (Job_State jb) = true).
Context (Hfull : ∀ t, (T ≤ t)%nat → contentAt w p t = c).

(** At every instant the log is a beginning of [c]. *)
Lemma content_bounded t : (strlen (contentAt w p t) ≤ strlen c)%nat.
Proof.
  destruct (grows_later w p Hgrows t (Nat.max t T)) as [m E]; [lia|].
  rewrite (Hfull (Nat.max t T)) in E by lia. rewrite E, strlen_app. lia.
Qed.

Lemma drainLogs_ends fuel off s :
  upTo w p off s → sm_file s = Some (p, off) → (strlen c < off + fuel)%nat →
  ∃ s', drainLogs w buf fuel p off s = Some (None, s').
Proof.
  revert off s; induction fuel as [|fuel IH]; intros off s (Ho & rest & E) Hf Hlt.
  { pose proof (content_bounded (sm_t s)) as Hb. rewrite E, strlen_app in Hb. lia. }
  cbn [drainLogs]. rewrite Hread, Hsend, Ho, E, str_drop_app. case_decide as Ec; [by eexists|].
  apply IH; [|done|].
  - destruct (Hgrows (sm_t s)) as [m Em]. split; cbn [sm_sent sm_t].
    + by rewrite str_concat_snoc, strlen_app.
    + exists (str_drop buf rest +:+ m). rewrite Em, E, str_concat_snoc, !str_app_assoc. f_equal.
      by rewrite <-str_app_assoc, str_take_drop.
  - rewrite <-Ho. assert (strlen (str_take buf rest) ≠ 0)%nat; [|lia]. by destruct (str_take buf rest).
Qed.

Lemma drain_ends fuel s : in_step w p s → (strlen c < fuel)%nat → ∃ s', drain w buf fuel s = Some (None, s').
Proof.
  unfold in_step, drain. destruct (sm_file s) as [[q off]|] eqn:Ef; [|by eauto].
  intros [-> Hup] Hlt. apply drainLogs_ends; [done..|lia].
Qed.

Context (id : string) (Hp : path j id = Ok p).

Lemma pause_passes n s : ∃ s', pause w n s = (None, s').
Proof. revert s; induction n as [|n IH]; intros s; cbn [pause]; [by eexists|]. by rewrite Hdone. Qed.

Lemma followLogs_ends wait fuel s :
  in_step w p s → (strlen c + (T - sm_t s) + 2 ≤ fuel)%nat → ∃ s', followLogs j w buf wait fuel id true s = Some (None, s').
Proof.
  revert s; induction fuel as [|fuel IH]; intros s Hin Hfuel; [lia|]. cbn [followLogs].
  destruct (tryOpen j w id s) as [ro s1] eqn:Eo.
  destruct (tryOpen_ok j w buf p Hbuf Hgrows id Hp _ _ _ Hin Eo) as (_ & Ht1 & Hin1).
  assert (ro = None) as ->.
  { unfold tryOpen, open in Eo. rewrite Hp, Hopen in Eo. by repeat case_match; simplify_eq. }
  specialize (Hin1 eq_refl). destruct (drain_ends fuel s1 Hin1) as [s2 Hd]; [lia|].
  destruct (drain_all w buf p Hbuf Hgrows _ _ _ _ Hin1 Hd) as (_ & Ht2 & H2). destruct (H2 eq_refl) as [Hin2 _].
  rewrite Hd. cbn [mbind option_bind negb]. destruct (ended w s2) eqn:Ee.
  - apply drain_ends; [by apply (in_step_tick w buf p Hbuf Hgrows)|lia].
  - destruct (pause_passes wait (tick s2)) as [s3 Epa]. rewrite Epa.
    destruct (in_step_pause w buf p Hbuf Hgrows _ _ _ _ (in_step_tick w buf p Hbuf Hgrows _ Hin2) Epa) as [Hin3 Ht3].
    simpl in Ht3. apply IH; [done|].
    assert (sm_t s2 < T)%nat; [|lia]. apply Nat.nle_gt. intros Hle. destruct (Hended _ Hle) as (jb & Ej & Et).
    unfold ended in Ee. by rewrite Ej, Et in Ee.
Qed.
End ends.

(** With nothing failing, a follower of a job whose end is seen ends, and if it found the file it has
    sent the whole log, however long it waits between its rounds. *)
Lemma followLogs_whole j w buf id p c T wait fuel :
  (0 < buf)%nat → path j id = Ok p → grows w p →
  (∀ t, wt_read w t = None ∧ wt_send w t = None ∧ wt_open w t = None ∧ wt_done w t = None) →
  (∀ t, (T ≤ t)%nat → ∃ jb, wt_job w t = Ok (Some jb) ∧ isTerminalState (Job_State jb) = true) →
  (∀ t jb, wt_job w t = Ok (Some jb) → isTerminalState (Job_State jb) = true → ∀ t', (t ≤ t')%nat → contentAt w p t' = c) →
  (strlen c + T + 2 ≤ fuel)%nat →
  ∃ s, followLogs j w buf wait fuel id true (tick (mkStream 0 None [])) = Some (None, s) ∧
    (sm_file s ≠ None → str_concat (sm_sent s) = c).
Proof.
  intros Hbuf Hp Hg Hok Hended Hfull Hfuel.
  assert (∀ t, (T ≤ t)%nat → contentAt w p t = c) as HT.
  { intros t Ht. destruct (Hended T) as (jb' & E1 & E2); [done|]. by apply (Hfull T jb'). }
  assert (in_step w p (tick (mkStream 0 None []))) as Hin by exact eq_refl.
  destruct (followLogs_ends j w buf p c T Hbuf Hg ltac:(apply Hok) ltac:(apply Hok) ltac:(apply Hok) ltac:(apply Hok)
    Hended HT id Hp wait fuel _ Hin ltac:(simpl; lia)) as [s Hs].
  exists s. split; [done|]. intros Hfile.
  destruct (followLogs_all j w buf p Hbuf Hg id Hp _ _ _ _ _ _ Hin Hs) as [_ H].
  destruct (H eq_refl eq_refl Hfile) as (t1 & t2 & Ht & -> & jb' & E1 & E2). apply (Hfull t1 jb'); [done..|lia].
Qed.

(** [C29] (liveness) A follower is let go: if the log only grows, nothing fails, the context
    lives on, and the job is seen to have ended from some instant on and the log is complete
    whenever it is, then the stream ends without an error after as many rounds as there are bytes
    in the log and instants before that one; if it found the file it has sent exactly the log. *)
Theorem GetJobLogs_ends j w buf id p c T jb fuel :
  (0 < buf)%nat → path j id = Ok p → grows w p →
  (∀ t, wt_read w t = None ∧ wt_send w t = None ∧ wt_open w t = None ∧ wt_done w t = None) →
  wt_job w 0 = Ok (Some jb) →
  (∀ t, (T ≤ t)%nat → ∃ jb, wt_job w t = Ok (Some jb) ∧ isTerminalState (Job_State jb) = true) →
  (∀ t jb, wt_job w t = Ok (Some jb) → isTerminalState (Job_State jb) = true → ∀ t', (t ≤ t')%nat → contentAt w p t' = c) →
  (strlen c + T + 2 ≤ fuel)%nat →
  ∃ s, GetJobLogs j w buf fuel (mkPbGetJobLogsRequest id true) = Some (None, s) ∧
    (sm_file s ≠ None → str_concat (sm_sent s) = c).
Proof.
  intros Hbuf Hp Hg Hok Hjob Hended Hfull Hfuel.
  destruct (followLogs_whole j w buf id p c T 300 fuel Hbuf Hp Hg Hok Hended Hfull Hfuel) as (s & Hs & Hc).
  exists s. unfold GetJobLogs. cbn [pbGetJobLogsRequest_JobId pbGetJobLogsRequest_Follow].
  by rewrite decide_False, Hjob by (by intros ->).
Qed.

(** ** A follower of a job that has not ended *)

Section stays.
Context (j : jobLogStore) (w : Watch) (buf : nat) (id p : string) (Hp : path j id = Ok p).
Context (Hok : ∀ t, wt_read w t = None ∧ wt_send w t = None ∧ wt_open w t = None ∧ wt_done w t = None).
Context (Hrunning : ∀ t jb, wt_job w t = Ok (Some jb) → isTerminalState (Job_State jb) = false).

Lemma drain_no_error fuel s r s' : drain w buf fuel s = Some (r, s') → r = None.
Proof.
  unfold drain. destruct (sm_file s) as [[q off]|]; [|by intros [= <- _]]. revert off s.
  induction fuel as [|fuel IH]; intros off s; [done|]. cbn [drainLogs]. destruct (Hok (sm_t s)) as (-> & -> & _).
  case_decide; [by intros [= <- _]|apply IH].
Qed.

Lemma pause_stays n s : ∃ s', pause w n s = (None, s').
Proof. apply pause_passes. intros t. apply Hok. Qed.

Lemma followLogs_stays wait fuel s : followLogs j w buf wait fuel id true s = None.
Proof.
  revert s; induction fuel as [|fuel IH]; intros s; [done|]. cbn [followLogs].
  assert ((tryOpen j w id s).1 = None) as Ho.
  { unfold tryOpen, open. destruct (Hok (sm_t s)) as (_ & _ & -> & _). rewrite Hp. by repeat case_match. }
  destruct (tryOpen j w id s) as [ro s1]. simpl in Ho. subst ro.
  destruct (drain w buf fuel s1) as [[r s2]|] eqn:Ed; [|done]. rewrite (drain_no_error _ _ _ _ Ed). cbn [mbind option_bind negb].
  assert (ended w s2 = false) as ->.
  { unfold ended. destruct (wt_job w (sm_t s2)) as [[jb|]|] eqn:E; [by eapply Hrunning|done..]. }
  destruct (pause_stays wait (tick s2)) as [s3 ->]. apply IH.
Qed.
End stays.

(** (liveness) Only the end of the job or of the connection lets a follower go: while the job is not
    seen to have ended, nothing fails and the context of the request lives on, the stream does
    not end, however long it is run.  The context of the server is not among what it looks at, and
    the graceful stop of the gRPC server, which has no limit, waits for it while refusing the
    report that would end the job. *)
Theorem follower_stays j w buf fuel id p jb :
  path j id = Ok p → wt_job w 0 = Ok (Some jb) →
  (∀ t, wt_read w t = None ∧ wt_send w t = None ∧ wt_open w t = None ∧ wt_done w t = None) →
  (∀ t jb, wt_job w t = Ok (Some jb) → isTerminalState (Job_State jb) = false) →
  GetJobLogs j w buf fuel (mkPbGetJobLogsRequest id true) = None.
Proof.
  intros Hp Hjob Hok Hrun. unfold GetJobLogs. cbn [pbGetJobLogsRequest_JobId pbGetJobLogsRequest_Follow].
  rewrite decide_False, Hjob by (by intros ->). by eapply followLogs_stays.
Qed.

(** ** Examples *)

(** A job that writes its log between the attempt to open it and the query that sees its end: the
    follower ends without an error and without the log. *)
Definition ex_job_done : Job :=
  mkJob "j1" "" "" "" JobCompleted 0 "echo hi" ∅ "" 0 0 0 "" 0 "" "" [] 0 "" 0 0 0.

Definition ex_watch (late : bool) : Watch := {|
  wt_files := λ t, if late && bool_decide (t ≤ 1)%nat then ∅ else {["job-logs/j1.log" := "hi"]};
  wt_job := λ _, Ok (Some ex_job_done);
  wt_open := λ _, None; wt_read := λ _, None; wt_send := λ _, None; wt_done := λ _, None |}.

(** (safety) A follower can miss a log: if the file appears after the attempt to open it and the
    job is seen to have ended before the next attempt, the stream ends without an error and
    without a byte of the log, which is not empty and stays so. *)
Theorem GetJobLogs_can_miss :
  ∃ s, GetJobLogs ex_logs (ex_watch true) logBuf 10 (mkPbGetJobLogsRequest "j1" true) = Some (None, s) ∧
    str_concat (sm_sent s) = "" ∧ sm_t s = 3%nat ∧ ∀ t, (2 ≤ t)%nat → contentAt (ex_watch true) "job-logs/j1.log" t = "hi".
Proof.
  eexists. split; [vm_compute; reflexivity|]. split; [reflexivity|]. split; [reflexivity|].
  intros t Ht. unfold contentAt, ex_watch. cbn [wt_files]. by rewrite bool_decide_eq_false_2 by lia.
Qed.

Example GetJobLogs_complete_witness :
  ∃ s, GetJobLogs ex_logs (ex_watch false) logBuf 10 (mkPbGetJobLogsRequest "j1" true) = Some (None, s) ∧
    ∃ t1 t2, (t1 < t2)%nat ∧ str_concat (sm_sent s) = contentAt (ex_watch false) "job-logs/j1.log" t2.
Proof.
  assert (path ex_logs "j1" = Ok "job-logs/j1.log") as Hp by (vm_compute; reflexivity).
  assert (grows (ex_watch false) "job-logs/j1.log") as Hg by (intros t; exists ""; reflexivity).
  assert (0 < logBuf)%nat as Hb by (unfold logBuf; lia).
  destruct (GetJobLogs ex_logs (ex_watch false) logBuf 10 (mkPbGetJobLogsRequest "j1" true)) as [[r s]|] eqn:E;
    [|vm_compute in E; discriminate].
  assert (r = None ∧ sm_file s ≠ None) as [Hr Hf] by (vm_compute in E; injection E as <- <-; done).
  exists s. split; [by rewrite Hr|].
  destruct (proj2 (GetJobLogs_complete _ _ _ _ _ _ _ _ _ Hb Hp Hg E) Hr eq_refl Hf) as (t1 & t2 & H1 & H2 & _).
  exists t1, t2. exact (conj H1 H2).
Defined.

Example GetJobLogs_reads_witness :
  ∃ s, GetJobLogs ex_logs (ex_watch false) logBuf 4 (mkPbGetJobLogsRequest "j1" false) = Some (None, s) ∧
    str_concat (sm_sent s) = "hi".
Proof.
  apply (GetJobLogs_reads ex_logs (ex_watch false) logBuf "j1" "job-logs/j1.log" "hi" ex_job_done);
    try reflexivity. unfold logBuf; lia.
Defined.

Example GetJobLogs_ends_witness :
  ∃ s, GetJobLogs ex_logs (ex_watch false) logBuf 5 (mkPbGetJobLogsRequest "j1" true) = Some (None, s) ∧
    (sm_file s ≠ None → str_concat (sm_sent s) = "hi").
Proof.
  apply (GetJobLogs_ends ex_logs (ex_watch false) logBuf "j1" "job-logs/j1.log" "hi" 0 ex_job_done).
  - unfold logBuf; lia.
  - reflexivity.
  - intros t. exists "". reflexivity.
  - intros t. split_and!; reflexivity.
  - reflexivity.
  - intros t _. exists ex_job_done. split; reflexivity.
  - intros t jb _ _ t' _. reflexivity.
  - unfold strlen; simpl; lia.
Defined.

Definition ex_running : Watch := {|
  wt_files := λ _, {["job-logs/j1.log" := "hi"]};
  wt_job := λ _, Ok (Some (mkJob "j1" "" "" "" JobRunning 0 "sleep 1" ∅ "" 0 0 0 "" 0 "" "" [] 0 "" 0 0 0));
  wt_open := λ _, None; wt_read := λ _, None; wt_send := λ _, None; wt_done := λ _, None |}.

Example follower_stays_witness : GetJobLogs ex_logs ex_running logBuf 1000 (mkPbGetJobLogsRequest "j1" true) = None.
Proof.
  apply (follower_stays ex_logs ex_running logBuf 1000 "j1" "job-logs/j1.log"
    (mkJob "j1" "" "" "" JobRunning 0 "sleep 1" ∅ "" 0 0 0 "" 0 "" "" [] 0 "" 0 0 0)).
  - vm_compute. reflexivity.
  - reflexivity.
  - intros t. split_and!; reflexivity.
  - intros t jb [= <-]. vm_compute. reflexivity.
Defined.
