(* ===== verification/Server.v ===== *)
(** * internal/server: the gRPC services

    A handler acts on the state of the control plane: the process (store, clock, random source),
    the notification engine, the latest metrics, the log directory.  It answers a reply or a
    status error.  Writing the structured log is not modelled. *)
From Stdlib Require Import Ascii.
From S2P Require Import Prelude GoBase GoStrings GoFloat GoFormat GoPath Event Proto Store World Collector Convert Config Notify JobLog.
Local Open Scope Z_scope.

Record Control (S : Type) := mkControl {
  ct_proc : World S * Engine;
  ct_metrics : MetricsStore;
  ct_logs : FS
}.
Arguments mkControl {S} _ _ _.
Arguments ct_proc {S} _.
Arguments ct_metrics {S} _.
Arguments ct_logs {S} _.

Section server.
Context {S : Type} `{!Store S}.

Notation handler A := (ST (Control S) (rpc A)).

(** Acting on a part of the state. *)
Definition on_proc {A} (op : ST (World S * Engine) A) : ST (Control S) A := λ c,
  let '(a, p) := op (ct_proc c) in (a, mkControl p (ct_metrics c) (ct_logs c)).
Definition on_logs {A} (op : ST FS A) : ST (Control S) A := λ c,
  let '(a, fs) := op (ct_logs c) in (a, mkControl (ct_proc c) (ct_metrics c) fs).
Definition on_metrics (f : MetricsStore → MetricsStore) : ST (Control S) unit := λ c,
  (tt, mkControl (ct_proc c) (f (ct_metrics c)) (ct_logs c)).
Definition metricsOf (nodeID : string) : ST (Control S) (option pbMetricsSnapshot * bool) := λ c,
  (metrics_Get nodeID (ct_metrics c), c).

Definition on_db {A} (op : ST S A) : ST (Control S) A := on_proc (on_fst (on_store op)).
Definition now_ : ST (Control S) Time := on_proc (on_fst time_Now).
Definition id_ : ST (Control S) string := on_proc (on_fst newID).

(** [if err != nil { return status }] *)
Definition or_status {A B} (c : code) (msg : string) (op : ST (Control S) (result A)) (k : A → handler B) : handler B :=
  r <- op ;; match r with Ok a => k a | Err _ => st_ret (Status c msg) end.

(** A required field. *)
Definition required {B} (field msg : string) (k : handler B) : handler B :=
  if decide (field = "") then st_ret (Status InvalidArgument msg) else k.

(** ** agentsvc.go *)

(** [peer] is the address of the caller in the context. *)
Definition peerAddr (peer : option string) : string := default "" peer.

Definition RegisterNode (peer : option string) (req : pbRegisterNodeRequest) : handler pbRegisterNodeResponse :=
  required (pbRegisterNodeRequest_Name req) "node name is required" (
    id <- id_ ;; now <- now_ ;;
    let n := mkNode id (pbRegisterNodeRequest_Name req) (pbRegisterNodeRequest_Partition req) StateUp
               (peerAddr peer) 0 0 [] (pbRegisterNodeRequest_Labels req) (pbRegisterNodeRequest_AgentVersion req) now in
    or_status Internal "register node failed"
      (on_db (store_RegisterNode (resourcesFromProto n (pbRegisterNodeRequest_Resources req)))) (λ id,
    st_ret (Reply (mkPbRegisterNodeResponse id)))).

(** A node record with an identifier only. *)
Definition bareNode (id : string) : Node := mkNode id "" "" "" "" 0 0 [] ∅ "" 0.

Definition Heartbeat (req : pbHeartbeatRequest) : handler pbHeartbeatResponse :=
  required (pbHeartbeatRequest_NodeId req) "node_id is required" (
    now <- now_ ;;
    or_status Internal "heartbeat failed"
      (on_db (store_Heartbeat (resourcesFromProto (bareNode (pbHeartbeatRequest_NodeId req)) (pbHeartbeatRequest_Resources req)) now))
      (λ found : bool,
    st_ret (Reply (if found then mkPbHeartbeatResponse true false else mkPbHeartbeatResponse false true)))).

Definition ReportMetrics (req : pbReportMetricsRequest) : handler pbReportMetricsResponse :=
  required (pbReportMetricsRequest_NodeId req) "node_id is required" (
    let snap := pbReportMetricsRequest_Snapshot req in
    now <- now_ ;;
    or_status Internal "report metrics failed"
      (on_db (store_Heartbeat (nodeFromSnapshot (bareNode (pbReportMetricsRequest_NodeId req)) snap) now))
      (λ found : bool,
    if found
    then on_metrics (metrics_Put (pbReportMetricsRequest_NodeId req) snap) ;;;
         st_ret (Reply (mkPbReportMetricsResponse true false))
    else st_ret (Reply (mkPbReportMetricsResponse false true)))).

(** ** agentjobs.go *)

Definition PollAssignments (req : pbPollAssignmentsRequest) : handler pbPollAssignmentsResponse :=
  let nodeID := pbPollAssignmentsRequest_NodeId req in
  required nodeID "node_id is required" (
    or_status Internal "lookup node failed" (on_db (store_GetNode nodeID)) (λ node,
    match node with
    | None => st_ret (Reply (mkPbPollAssignmentsResponse [] [] true))
    | Some _ =>
        or_status Internal "list assigned failed" (on_db (store_ListJobsByNodeState nodeID JobAssigned)) (λ run,
        or_status Internal "list cancelling failed" (on_db (store_ListJobsByNodeState nodeID JobCancelling)) (λ cancelling,
        st_ret (Reply (mkPbPollAssignmentsResponse (assignmentToProto <$> run) (Job_ID <$> cancelling) false))))
    end)).

(** The event of a job that has ended. *)
Definition jobEvent (j : Job) (jobID state : string) (code : Z) : Event :=
  let '(typ, sev) := if decide (state ≠ JobCompleted) then (TypeJobFailed, SevWarning) else (TypeJobCompleted, SevInfo) in
  let name := if decide (Job_Name j = "") then jobID else Job_Name j in
  mkEvent "" typ sev jobID
    ("作业 " +:+ name +:+ " " +:+ state +:+ "，退出码 " +:+ itoa code)
    ("job|" +:+ jobID)
    (<["job" := jobID]> (<["name" := Job_Name j]> (<["owner" := Job_Owner j]>
       (<["node" := Job_NodeName j]> (<["state" := state]> {["exit_code" := itoa code]})))))
    0.

Definition emitJobEvent (jobID state : string) (code : Z) : ST (Control S) unit :=
  if decide (state = JobCancelled) then st_ret tt
  else
    r <- on_db (store_GetJob jobID) ;;
    match r with
    | Ok (Some j) => on_proc (Emit (jobEvent j jobID state code))
    | _ => st_ret tt
    end.

Definition UpdateJobStatus (req : pbUpdateJobStatusRequest) : handler pbUpdateJobStatusResponse :=
  let jobID := pbUpdateJobStatusRequest_JobId req in
  let state := pbUpdateJobStatusRequest_State req in
  required jobID "job_id is required" (
    now <- now_ ;;
    if decide (state = JobRunning) then
      or_status Internal "mark running failed" (on_db (store_MarkJobRunning jobID now)) (λ _,
      st_ret (Reply (mkPbUpdateJobStatusResponse true)))
    else if isTerminalState state then
      or_status Internal "finish job failed"
        (on_db (store_FinishJob jobID state (pbUpdateJobStatusRequest_ExitCode req) (pbUpdateJobStatusRequest_Reason req) now))
        (λ _,
      emitJobEvent jobID state (pbUpdateJobStatusRequest_ExitCode req) ;;;
      st_ret (Reply (mkPbUpdateJobStatusResponse true)))
    else st_ret (Status InvalidArgument ("unknown state " +:+ Quote state))).

Definition AppendLogs (j : jobLogStore) (req : pbAppendLogsRequest) : handler pbAppendLogsResponse :=
  required (pbAppendLogsRequest_JobId req) "job_id is required" (
    or_status Internal "append logs failed"
      (on_logs (append j (pbAppendLogsRequest_JobId req) (pbAppendLogsRequest_Data req))) (λ _,
    st_ret (Reply (mkPbAppendLogsResponse true)))).

(** ** clustersvc.go *)

Definition ListNodes : handler pbListNodesResponse :=
  or_status Internal "list nodes failed" (on_db store_ListNodes) (λ nodes,
  st_ret (Reply (mkPbListNodesResponse (nodeToProto <$> nodes)))).

Definition nodeMetrics (metrics : MetricsStore) (n : Node) : pbNodeMetrics :=
  mkPbNodeMetrics (Node_ID n) (Node_Name n) (Node_Partition n) (Node_State n) (metrics_Get (Node_ID n) metrics).1.

Definition ListMetrics : handler pbListMetricsResponse :=
  or_status Internal "list metrics failed" (on_db store_ListNodes) (λ nodes c,
  (Reply (mkPbListMetricsResponse (nodeMetrics (ct_metrics c) <$> nodes)), c)).

(** ** clusterjobs.go *)

Definition ownerOrDefault (o : string) : string := if decide (o = "") then "anonymous" else o.

(** The job of a request. *)
Definition submittedJob (id : string) (now : Time) (req : pbSubmitJobRequest) : Job :=
  let r := pbSubmitJobRequest_Request req in
  mkJob id (pbSubmitJobRequest_Name req) (ownerOrDefault (pbSubmitJobRequest_Owner req))
    (pbSubmitJobRequest_Partition req) JobPending (pbSubmitJobRequest_Priority req)
    (pbSubmitJobRequest_Command req) (pbSubmitJobRequest_Env req) (pbSubmitJobRequest_Workdir req)
    (get pbResourceRequest_Cpus 0 r) (get pbResourceRequest_MemBytes 0 r) (get pbResourceRequest_Gpus 0 r)
    (get pbResourceRequest_GpuType "" r) (get pbResourceRequest_WalltimeSec 0 r)
    "" "" [] 0 "" now 0 0.

Definition SubmitJob (req : pbSubmitJobRequest) : handler pbSubmitJobResponse :=
  required (pbSubmitJobRequest_Command req) "command is required" (
    id <- id_ ;; now <- now_ ;;
    or_status Internal "submit job failed" (on_db (store_CreateJob (submittedJob id now req))) (λ _,
    st_ret (Reply (mkPbSubmitJobResponse id)))).

Definition ListJobs (req : pbListJobsRequest) : handler pbListJobsResponse :=
  or_status Internal "list jobs failed" (on_db (store_ListJobs (pbListJobsRequest_State req) (pbListJobsRequest_Owner req)))
    (λ jobs, st_ret (Reply (mkPbListJobsResponse (jobToProto <$> jobs)))).

Definition GetJob (req : pbGetJobRequest) : handler pbJob :=
  or_status Internal "get job failed" (on_db (store_GetJob (pbGetJobRequest_JobId req))) (λ j,
  st_ret (match j with None => Status NotFound "job not found" | Some j => Reply (jobToProto j) end)).

(** The store reads the clock when it ends a pending job; the reading is made here and used there. *)
Definition CancelJob (req : pbCancelJobRequest) : handler pbCancelJobResponse :=
  required (pbCancelJobRequest_JobId req) "job_id is required" (
    now <- now_ ;;
    r <- on_db (store_CancelJob (pbCancelJobRequest_JobId req) now) ;;
    st_ret (match r with
            | Err e => Status NotFound e
            | Ok state => Reply (mkPbCancelJobResponse true state)
            end)).

(** ** clusterevents.go *)

Definition ListEvents (req : pbListEventsRequest) : handler pbListEventsResponse :=
  or_status Internal "list events failed" (on_db (store_ListEvents (pbListEventsRequest_Limit req))) (λ evs,
  st_ret (Reply (mkPbListEventsResponse (eventToProto <$> evs)))).

Definition ListNotifications (req : pbListNotificationsRequest) : handler pbListNotificationsResponse :=
  or_status Internal "list notifications failed" (on_db (store_ListNotifications (pbListNotificationsRequest_Limit req)))
    (λ ns, st_ret (Reply (mkPbListNotificationsResponse (notificationToProto <$> ns)))).
End server.
