(* ===== verification/ServerTheorems.v ===== *)
(** * The services: every request is at most one call of the store's contract; polling; notification *)
From Stdlib Require Import Ascii.
From S2P Require Import Prelude GoBase GoStrings GoFloat GoFormat GoPath Event Proto Store StoreSpec World Collector Convert Config Notify EngineFacts NotifyTheorems JobLog Server.
Local Open Scope Z_scope.

(** ** Requests as data *)

Inductive request :=
| RqRegisterNode (peer : option string) (req : pbRegisterNodeRequest)
| RqHeartbeat (req : pbHeartbeatRequest)
| RqReportMetrics (req : pbReportMetricsRequest)
| RqPollAssignments (req : pbPollAssignmentsRequest)
| RqUpdateJobStatus (req : pbUpdateJobStatusRequest)
| RqAppendLogs (logs : jobLogStore) (req : pbAppendLogsRequest)
| RqListNodes
| RqListMetrics
| RqSubmitJob (req : pbSubmitJobRequest)
| RqListJobs (req : pbListJobsRequest)
| RqGetJob (req : pbGetJobRequest)
| RqCancelJob (req : pbCancelJobRequest)
| RqListEvents (req : pbListEventsRequest)
| RqListNotifications (req : pbListNotificationsRequest).

(** Was there a reply? *)
Definition replied {A} (r : rpc A) : bool := match r with Reply _ => true | Status _ _ => false end.

Definition ran {St A} (h : ST St (rpc A)) : ST St bool := λ c, let '(r, c) := h c in (replied r, c).

(** The one call of the contract a request may make, for the identifier and the instant drawn. *)
Definition call_of (rq : request) (id : string) (now : Time) : option call :=
  match rq with
  | RqRegisterNode peer req =>
      Some (CallRegisterNode (resourcesFromProto
        (mkNode id (pbRegisterNodeRequest_Name req) (pbRegisterNodeRequest_Partition req) StateUp (peerAddr peer) 0 0 []
           (pbRegisterNodeRequest_Labels req) (pbRegisterNodeRequest_AgentVersion req) now)
        (pbRegisterNodeRequest_Resources req)))
  | RqHeartbeat req =>
      Some (CallHeartbeat (resourcesFromProto (bareNode (pbHeartbeatRequest_NodeId req)) (pbHeartbeatRequest_Resources req)) now)
  | RqReportMetrics req =>
      Some (CallHeartbeat (nodeFromSnapshot (bareNode (pbReportMetricsRequest_NodeId req)) (pbReportMetricsRequest_Snapshot req)) now)
  | RqUpdateJobStatus req =>
      if decide (pbUpdateJobStatusRequest_State req = JobRunning)
      then Some (CallMarkJobRunning (pbUpdateJobStatusRequest_JobId req) now)
      else if isTerminalState (pbUpdateJobStatusRequest_State req)
      then Some (CallFinishJob (pbUpdateJobStatusRequest_JobId req) (pbUpdateJobStatusRequest_State req)
                   (pbUpdateJobStatusRequest_ExitCode req) (pbUpdateJobStatusRequest_Reason req) now)
      else None
  | RqSubmitJob req => Some (CallCreateJob (submittedJob id now req))
  | RqCancelJob req => Some (CallCancelJob (pbCancelJobRequest_JobId req) now)
  | _ => None
  end.

(** The request carries encodable strings and sizes the store can represent. *)
Definition request_ok (rq : request) : Prop :=
  ∀ id now c, call_of rq id now = Some c → call_ok c.

Section handlers.
Context {S : Type} `{StoreLaws S}.
Implicit Types (c : Control S) (w : World S).

Definition handle (rq : request) : ST (Control S) bool :=
  match rq with
  | RqRegisterNode peer req => ran (RegisterNode peer req)
  | RqHeartbeat req => ran (Heartbeat req)
  | RqReportMetrics req => ran (ReportMetrics req)
  | RqPollAssignments req => ran (PollAssignments req)
  | RqUpdateJobStatus req => ran (UpdateJobStatus req)
  | RqAppendLogs logs req => ran (AppendLogs logs req)
  | RqListNodes => ran ListNodes
  | RqListMetrics => ran ListMetrics
  | RqSubmitJob req => ran (SubmitJob req)
  | RqListJobs req => ran (ListJobs req)
  | RqGetJob req => ran (GetJob req)
  | RqCancelJob req => ran (CancelJob req)
  | RqListEvents req => ran (ListEvents req)
  | RqListNotifications req => ran (ListNotifications req)
  end.

Definition db_of c : S := w_store (ct_proc c).1.

(** The store is well-formed and holds [v]. *)
Definition holds (v : View) (s : S) : Prop := inv s ∧ view s = v.

(** A computation that leaves what the store holds alone. *)
Definition silent {St A} (db : St → S) (op : ST St A) : Prop :=
  ∀ v st, holds v (db st) → holds v (db (op st).2).

Lemma silent_ret {St A} (db : St → S) (a : A) : silent db (st_ret a).
Proof. by intros v st. Qed.

Lemma silent_bind {St A B} (db : St → S) (op : ST St A) (k : A → ST St B) :
  silent db op → (∀ a, silent db (k a)) → silent db (st_bind op k).
Proof.
  intros H1 H2 v st Hst. unfold st_bind. specialize (H1 v st Hst). destruct (op st) as [a st']. by apply H2.
Qed.

Lemma silent_for {St A} (db : St → S) (xs : list A) (body : A → ST St unit) :
  (∀ x, silent db (body x)) → silent db (st_for xs body).
Proof. intros Hb v st Hst. apply (st_for_inv (λ st, holds v (db st))); [|done]. intros x s _. apply Hb. Qed.

(** A computation that looks at the state first. *)
Lemma silent_state {St A} (db : St → S) (f : St → ST St A) : (∀ st, silent db (f st)) → silent db (λ st, f st st).
Proof. intros Hf v st. apply (Hf st v st). Qed.

(** A call that the contract says changes nothing. *)
Lemma silent_call (op : ST S (result unit)) (c : call) :
  (∀ s, exec_call c s = (let '(r, s') := op s in (is_ok r, s'))) → call_ok c → (∀ v, spec_call c v = Some v) →
  silent id op.
Proof.
  intros He Hok Hspec v s [Hi <-]. destruct (op s) as [r s'] eqn:E. simpl.
  assert (exec_call c s = (is_ok r, s')) as Hex by (by rewrite He, E).
  destruct (refines c s (is_ok r) s' Hi Hok Hex) as [Hi' Hv]. split; [done|].
  destruct (is_ok r); [|done]. rewrite Hspec in Hv. by injection Hv.
Qed.

Lemma silent_query {A} (q : ST S (result A)) P : answers_with view inv q P → silent id q.
Proof. intros Hq v s [Hi <-]. destruct (q s) as [r s'] eqn:E. destruct (Hq _ _ _ Hi E) as (? & ? & _). by split. Qed.

Lemma silent_lift {St1 St2 A} (db1 : St1 → S) (db2 : St2 → S) (get_ : St2 → St1) (put : St1 → St2 → St2)
    (op : ST St1 A) (op2 : ST St2 A) :
  (∀ st, op2 st = (let '(a, s) := op (get_ st) in (a, put s st))) →
  (∀ st, db1 (get_ st) = db2 st) → (∀ s st, db2 (put s st) = db1 s) → silent db1 op → silent db2 op2.
Proof.
  intros E Hg Hput Hs v st Hst. rewrite E. rewrite <-Hg in Hst. specialize (Hs v _ Hst).
  destruct (op (get_ st)) as [a s]. simpl in *. by rewrite Hput.
Qed.

Lemma silent_on_store {A} (op : ST S A) : silent id op → silent (w_store (S := S)) (on_store op).
Proof.
  apply (silent_lift id w_store w_store
    (λ s w, mkWorld s (w_now w) (w_tick w) (w_rand w) (w_drawn w))); done.
Qed.

Lemma silent_on_fst {A E} (op : ST (World S) A) : silent w_store op → silent (λ st : World S * E, w_store st.1) (on_fst op).
Proof.
  apply (silent_lift w_store _ fst (λ w st, (w, st.2))); [|done..].
  by intros [w e].
Qed.

Lemma silent_on_proc {A} (op : ST (World S * Engine) A) : silent (λ st, w_store st.1) op → silent db_of (on_proc op).
Proof.
  apply (silent_lift _ db_of ct_proc (λ p c, mkControl p (ct_metrics c) (ct_logs c))); done.
Qed.

Lemma silent_on_db {A} (op : ST S A) : silent id op → silent db_of (on_db op).
Proof. intros Hop. by apply silent_on_proc, silent_on_fst, silent_on_store. Qed.

Lemma silent_time_Now : silent (w_store (S := S)) time_Now.
Proof. by intros v w. Qed.
Lemma silent_newID : silent (w_store (S := S)) newID.
Proof. by intros v w. Qed.

Lemma silent_now : silent db_of now_.
Proof. apply silent_on_proc, silent_on_fst, silent_time_Now. Qed.
Lemma silent_id : silent db_of id_.
Proof. apply silent_on_proc, silent_on_fst, silent_newID. Qed.

(** ** The engine only records events and notifications *)

Lemma silent_CreateEvent ev : silent id (store_CreateEvent ev).
Proof. by apply (silent_call _ (CallCreateEvent ev)). Qed.
Lemma silent_CreateNotification n : silent id (store_CreateNotification n).
Proof. by apply (silent_call _ (CallCreateNotification n)). Qed.

Notation silent_engine := (silent (λ st : World S * Engine, w_store st.1)).

Lemma silent_engine_now : silent_engine (on_fst time_Now).
Proof. apply silent_on_fst, silent_time_Now. Qed.
Lemma silent_engine_id : silent_engine (on_fst newID).
Proof. apply silent_on_fst, silent_newID. Qed.

Lemma silent_Emit ev : silent_engine (Emit ev).
Proof.
  intros v st Hst. apply (keeps_Emit (λ w, holds v (w_store w)) anywhere); [..|done]; intros.
  - intros w Hw. split; [by apply silent_time_Now|done].
  - intros w Hw. split; [by apply silent_newID|done].
  - intros w Hw. split; [by apply silent_on_store, Hw; apply silent_CreateEvent|done].
  - intros w Hw. split; [by apply silent_on_store, Hw; apply silent_CreateNotification|done].
Qed.

Lemma silent_emitJobEvent jobID state cd : silent db_of (emitJobEvent jobID state cd).
Proof.
  unfold emitJobEvent. case_decide; [apply silent_ret|]. apply silent_bind.
  - apply silent_on_db. eapply silent_query, gets_job.
  - intros [[j|]|e]; [apply silent_on_proc, silent_Emit|apply silent_ret..].
Qed.

(** ** Requests *)

(** What a handler did to the store: nothing, or one call when it replied. *)
Definition effect {B} (cl : option call) (h : ST (Control S) (rpc B)) : Prop :=
  ∀ v c, holds v (db_of c) →
    let '(r, c') := h c in
    ∃ v', holds v' (db_of c') ∧
      (if replied r then match cl with Some cl => spec_call cl v = Some v' | None => v' = v end else v' = v).

Lemma effect_silent {B} (h : ST (Control S) (rpc B)) : silent db_of h → effect None h.
Proof. intros Hs v c Hc. specialize (Hs v c Hc). destruct (h c) as [r c']. exists v. split; [done|]. by case_step. Qed.

Lemma effect_status {B} cl cd msg : effect cl (st_ret (Status cd msg) : ST (Control S) (rpc B)).
Proof. intros v c Hc. exists v. done. Qed.

Lemma effect_required {B} cl field msg (h : ST (Control S) (rpc B)) : effect cl h → effect cl (required field msg h).
Proof. intros Hh. unfold required. case_decide; [apply effect_status|done]. Qed.

(** The call of the store, then a silent rest that replies. *)
Lemma effect_call {A B} cl cd msg (op : ST S (result A)) (k : A → ST (Control S) (rpc B)) :
  (∀ s, exec_call cl s = (let '(r, s') := op s in (is_ok r, s'))) → call_ok cl →
  (∀ a, silent db_of (k a)) → (∀ a c, replied (k a c).1 = true) →
  effect (Some cl) (or_status cd msg (on_db op) k).
Proof.
  intros He Hok Hs Hr v c [Hi <-]. unfold or_status, st_bind, on_db, on_proc, on_fst, on_store.
  destruct c as [[w e] m l]. unfold db_of in *. simpl in *. destruct (op (w_store w)) as [r s'] eqn:E.
  assert (exec_call cl (w_store w) = (is_ok r, s')) as Hex by (by rewrite He, E).
  destruct (refines cl _ _ _ Hi Hok Hex) as [Hi' Hv].
  destruct r as [a|er]; simpl in *; [|by exists (view (w_store w))].
  set (c1 := mkControl _ m l). pose proof (Hs a (view s') c1 (conj Hi' eq_refl)) as Hq. pose proof (Hr a c1) as Hrep.
  destruct (k a c1) as [r c2]. simpl in *. rewrite Hrep. by exists (view s').
Qed.

(** The instant at which a request that arrives now is handled. *)
Definition clock_next c : Time := next_reading (ct_proc c).1.

(** The same, for the identifier that the handler drew, at the instant that the clock shows. *)
Definition effect_drawn {B} (cl : string → Time → option call) (h : ST (Control S) (rpc B)) : Prop :=
  ∀ v c, holds v (db_of c) → ∃ id,
    let '(r, c') := h c in
    ∃ v', holds v' (db_of c') ∧
      (if replied r then match cl id (clock_next c) with Some cl => spec_call cl v = Some v' | None => v' = v end else v' = v).

Lemma drawn_none {B} (h : ST (Control S) (rpc B)) : silent db_of h → effect_drawn (λ _ _, None) h.
Proof. intros Hs v c Hc. exists "". by apply (effect_silent h Hs). Qed.

Lemma drawn_required {B} cl field msg (h : ST (Control S) (rpc B)) :
  effect_drawn cl h → effect_drawn cl (required field msg h).
Proof. intros Hh. unfold required. case_decide; [|done]. intros v c Hc. exists "", v. done. Qed.

Lemma drawn_now {B} (cl : string → Time → option call) (k : Time → ST (Control S) (rpc B)) :
  (∀ now id, effect (cl id now) (k now)) → effect_drawn cl (now <- now_ ;; k now).
Proof.
  intros Hk v c Hc. pose proof (silent_now v c Hc) as Hc1. exists "". destruct c as [[w e] m l].
  by apply (Hk (next_reading w) "").
Qed.

Lemma drawn_id_now {B} (cl : string → Time → option call) (k : string → Time → ST (Control S) (rpc B)) :
  (∀ id now, effect (cl id now) (k id now)) → effect_drawn cl (id <- id_ ;; now <- now_ ;; k id now).
Proof.
  intros Hk v c Hc. destruct c as [[w e] m l]. exists (NewID (w_rand w (w_drawn w))).
  by apply (Hk (NewID (w_rand w (w_drawn w))) (next_reading w)).
Qed.

Lemma silent_or_status {A B} cd msg (op : ST S (result A)) (k : A → ST (Control S) (rpc B)) P :
  answers_with view inv op P → (∀ a, silent db_of (k a)) → silent db_of (or_status cd msg (on_db op) k).
Proof.
  intros Hq Hk. apply silent_bind; [by eapply silent_on_db, silent_query|]. intros [a|e]; [apply Hk|apply silent_ret].
Qed.

Lemma silent_required {B} field msg (h : ST (Control S) (rpc B)) : silent db_of h → silent db_of (required field msg h).
Proof. intros Hh. unfold required. case_decide; [apply silent_ret|done]. Qed.

Lemma silent_PollAssignments req : silent db_of (PollAssignments req).
Proof.
  apply silent_required. eapply silent_or_status; [apply gets_node|]. intros [n|]; [|apply silent_ret].
  eapply silent_or_status; [apply lists_by_node|]. intros run.
  eapply silent_or_status; [apply lists_by_node|]. intros can. apply silent_ret.
Qed.

Lemma silent_AppendLogs logs req : silent db_of (AppendLogs logs req).
Proof.
  apply silent_required. apply silent_bind; [|intros [u|e]; apply silent_ret].
  intros v c Hc. unfold on_logs. by destruct (append _ _ _ _).
Qed.

Lemma drawn_UpdateJobStatus req :
  request_ok (RqUpdateJobStatus req) → effect_drawn (call_of (RqUpdateJobStatus req)) (UpdateJobStatus req).
Proof.
  intros Hok. apply drawn_required, drawn_now. intros now nid. specialize (Hok nid now). unfold call_of in *.
  case_decide as Er.
  - apply effect_call; [done|by apply Hok|intros; apply silent_ret|done].
  - destruct (isTerminalState (pbUpdateJobStatusRequest_State req)); [|apply effect_status].
    apply effect_call; [done|by apply Hok| |].
    + intros u. apply silent_bind; [apply silent_emitJobEvent|intros; apply silent_ret].
    + intros u c. unfold st_bind. by destruct (emitJobEvent _ _ _ c).
Qed.

Lemma drawn_ReportMetrics req :
  request_ok (RqReportMetrics req) → effect_drawn (call_of (RqReportMetrics req)) (ReportMetrics req).
Proof.
  intros Hok. apply drawn_required, drawn_now. intros now nid. specialize (Hok nid now).
  apply effect_call; [done|by apply Hok| |by intros []].
  intros [|]; [|apply silent_ret]. apply silent_bind; [by intros v c|intros; apply silent_ret].
Qed.

(** Every request: at most the one call of the contract. *)
Lemma handle_effect rq c b c' :
  inv (db_of c) → request_ok rq → handle rq c = (b, c') →
  inv (db_of c') ∧ ∃ id,
    match (if b then call_of rq id (clock_next c) else None) with
    | Some cl => spec_call cl (view (db_of c)) = Some (view (db_of c'))
    | None => view (db_of c') = view (db_of c)
    end.
Proof.
  intros Hi Hok E.
  assert (∀ B (h : ST (Control S) (rpc B)), effect_drawn (call_of rq) h → ran h c = (b, c') → 
    inv (db_of c') ∧ ∃ id,
    match (if b then call_of rq id (clock_next c) else None) with
    | Some cl => spec_call cl (view (db_of c)) = Some (view (db_of c'))
    | None => view (db_of c') = view (db_of c)
    end) as Hran.
  { intros B h Hh. unfold ran. destruct (Hh _ c (conj Hi eq_refl)) as (nid & Hd).
    destruct (h c) as [r c1]. intros [= <- <-]. destruct Hd as (v' & [Hi' <-] & Hv). split; [done|].
    exists nid. by destruct (replied r). }
  destruct rq; cbn [handle] in E; (eapply Hran; [|exact E]); clear E Hran.
  - apply drawn_required, drawn_id_now. intros nid now. apply effect_call; [done|by eapply Hok|intros; apply silent_ret|done].
  - apply drawn_required, drawn_now. intros now nid. apply effect_call; [done|by eapply (Hok nid)|intros []; apply silent_ret|done].
  - by apply drawn_ReportMetrics.
  - apply drawn_none, silent_PollAssignments.
  - by apply drawn_UpdateJobStatus.
  - apply drawn_none, silent_AppendLogs.
  - apply drawn_none. eapply silent_or_status; [apply lists_nodes|intros; apply silent_ret].
  - apply drawn_none. eapply silent_or_status; [apply lists_nodes|]. by intros ns v c1.
  - apply drawn_required, drawn_id_now. intros nid now. apply effect_call; [done|by eapply Hok|intros; apply silent_ret|done].
  - apply drawn_none. eapply silent_or_status; [apply lists_jobs|intros; apply silent_ret].
  - apply drawn_none. eapply silent_or_status; [apply gets_job|]. intros; apply silent_ret.
  - apply drawn_required, drawn_now. intros now nid v c1 Hc1.
    pose proof (effect_call (CallCancelJob (pbCancelJobRequest_JobId req) now) NotFound ""
      (store_CancelJob (pbCancelJobRequest_JobId req) now)
      (λ st, st_ret (Reply (mkPbCancelJobResponse true st))) ltac:(done) ltac:(done) ltac:(intros; apply silent_ret) ltac:(done) v c1 Hc1) as Hd.
    unfold or_status, st_bind in *. destruct (on_db _ c1) as [[st|e] c2]; exact Hd.
  - apply drawn_none. eapply silent_or_status; [apply lists_events|intros; apply silent_ret].
  - apply drawn_none. eapply silent_or_status; [apply lists_notifications|intros; apply silent_ret].
Qed.

(** Requests one after another, and of each whether it was answered and when it was handled. *)
Fixpoint handle_all (rqs : list request) c : list (request * bool * Time) * Control S :=
  match rqs with
  | [] => ([], c)
  | rq :: rqs' =>
      let '(b, c1) := handle rq c in
      let '(log, c2) := handle_all rqs' c1 in ((rq, b, clock_next c) :: log, c2)
  end.

(** The calls of the contract one after another, none refused. *)
Fixpoint spec_run (cs : list call) (v : View) : option View :=
  match cs with [] => Some v | cl :: cs' => v' ← spec_call cl v; spec_run cs' v' end.

(** The call of a request that was answered, for an identifier. *)
Definition call_made (x : (request * bool * Time) * string) : option call :=
  let '((rq, b, now), id) := x in if b : bool then call_of rq id now else None.

(** (refinement) The services implement the contract of the store: whatever requests arrive, in
    whatever order, and whichever statements of the store fail, the store stays well-formed, and
    what it holds is the result of the calls of exactly those requests that were answered, in the
    order of the requests, each for the instant at which it was handled and some identifier, and
    none of them refused; requests that are refused, malformed or only read change nothing. *)
Theorem control_refines rqs c :
  inv (db_of c) → Forall request_ok rqs →
  let '(log, c') := handle_all rqs c in
  inv (db_of c') ∧ log.*1.*1 = rqs ∧
  ∃ ids, length ids = length rqs ∧
    spec_run (omap call_made (zip log ids)) (view (db_of c)) = Some (view (db_of c')).
Proof.
  intros Hi Hok; revert c Hi; induction Hok as [|rq rqs Hrq _ IH]; intros c Hi; simpl.
  { split; [done|]. split; [done|]. by exists []. }
  destruct (handle rq c) as [b c1] eqn:E. destruct (handle_effect rq c b c1 Hi Hrq E) as (Hi1 & nid & Hv).
  specialize (IH c1 Hi1). destruct (handle_all rqs c1) as [log c2]. destruct IH as (Hi2 & Hlog & ids & Hlen & Hrun).
  split; [done|]. split; [csimpl; by rewrite Hlog|]. exists (nid :: ids). split; [simpl; by rewrite Hlen|].
  csimpl. destruct (if b then call_of rq nid (clock_next c) else None) as [cl|]; simpl; [by rewrite Hv|by rewrite <-Hv].
Qed.

(** ** Polling *)

Lemma on_db_query {A} (q : ST S (result A)) P c r c' :
  answers_with view inv q P → inv (db_of c) → on_db q c = (r, c') →
  inv (db_of c') ∧ view (db_of c') = view (db_of c) ∧ ∀ a, r = Ok a → P (view (db_of c)) a.
Proof.
  intros Hq Hi. unfold on_db, on_proc, on_fst, on_store. destruct c as [[w e] m l]. unfold db_of in *. simpl in *.
  destruct (q (w_store w)) as [r0 s'] eqn:E. intros [= <- <-]. simpl. by eapply Hq.
Qed.

(** What a poll answers, as lists of jobs. *)
Lemma PollAssignments_lists req c resp c' :
  inv (db_of c) → PollAssignments req c = (Reply resp, c') →
  let nodeID := pbPollAssignmentsRequest_NodeId req in
  nodeID ≠ "" ∧ view (db_of c') = view (db_of c) ∧
  match v_nodes (view (db_of c)) !! nodeID with
  | None => resp = mkPbPollAssignmentsResponse [] [] true
  | Some _ => ∃ run can,
      jobs_listed (λ j, Job_NodeID j = nodeID ∧ Job_State j = JobAssigned) (view (db_of c)) run ∧
      jobs_listed (λ j, Job_NodeID j = nodeID ∧ Job_State j = JobCancelling) (view (db_of c)) can ∧
      resp = mkPbPollAssignmentsResponse (assignmentToProto <$> run) (Job_ID <$> can) false
  end.
Proof.
  intros Hi. unfold PollAssignments, required. case_decide as En; [done|]. unfold or_status, st_bind, st_ret.
  destruct (on_db (store_GetNode _) c) as [r1 c1] eqn:E1.
  destruct (on_db_query _ _ _ _ _ (gets_node _) Hi E1) as (Hi1 & Hv1 & H1). destruct r1 as [o|]; [|done].
  specialize (H1 o eq_refl). simpl in H1. rewrite <-H1. destruct o as [n|]; [|by intros [= <- <-]].
  destruct (on_db (store_ListJobsByNodeState _ JobAssigned) c1) as [r2 c2] eqn:E2.
  destruct (on_db_query _ _ _ _ _ (lists_by_node _ _) Hi1 E2) as (Hi2 & Hv2 & H2). destruct r2 as [run|]; [|done].
  destruct (on_db (store_ListJobsByNodeState _ JobCancelling) c2) as [r3 c3] eqn:E3.
  destruct (on_db_query _ _ _ _ _ (lists_by_node _ _) Hi2 E3) as (Hi3 & Hv3 & H3). destruct r3 as [can|]; [|done].
  intros [= <- <-]. specialize (H2 run eq_refl). specialize (H3 can eq_refl). rewrite Hv1 in H2. rewrite Hv2, Hv1 in H3.
  split; [done|]. split; [congruence|]. by exists run, can.
Qed.

(** [C24] (functional) A poll answers a node with its own work: for a known node the jobs to run are
    exactly its ASSIGNED jobs, each once, as assignments, the jobs to cancel exactly the
    identifiers of its CANCELLING jobs, each once; an unknown node is told to register again
    and gets nothing; and polling changes nothing. *)
Theorem PollAssignments_exact req c resp c' :
  inv (db_of c) → PollAssignments req c = (Reply resp, c') →
  let nodeID := pbPollAssignmentsRequest_NodeId req in
  let v := view (db_of c) in
  nodeID ≠ "" ∧ view (db_of c') = v ∧
  match v_nodes v !! nodeID with
  | None => resp = mkPbPollAssignmentsResponse [] [] true
  | Some _ =>
      pbPollAssignmentsResponse_ShouldReregister resp = false ∧
      (∃ js, pbPollAssignmentsResponse_Run resp = assignmentToProto <$> js ∧ NoDup (Job_ID <$> js) ∧
         ∀ j, j ∈ js ↔ v_jobs v !! Job_ID j = Some j ∧ Job_NodeID j = nodeID ∧ Job_State j = JobAssigned) ∧
      NoDup (pbPollAssignmentsResponse_CancelJobIds resp) ∧
      ∀ id, id ∈ pbPollAssignmentsResponse_CancelJobIds resp ↔
        ∃ j, v_jobs v !! id = Some j ∧ Job_NodeID j = nodeID ∧ Job_State j = JobCancelling
  end.
Proof.
  intros Hi E. destruct (PollAssignments_lists req c resp c' Hi E) as (Hn & Hv & Hr). split; [done|]. split; [done|].
  destruct (v_nodes _ !! _) as [n|]; [|done]. destruct Hr as (run & can & [Hn2 Hr2] & [Hn3 Hr3] & ->).
  split; [done|]. split; [|split; [done|]].
  - exists run. split; [done|]. split; [done|]. intros j. rewrite Hr2. tauto.
  - intros x. simpl. rewrite list_elem_of_fmap. split.
    + intros (j & -> & Hj). apply Hr3 in Hj as (? & ? & ?). eauto.
    + intros (j & Hj & ? & ?). exists j. pose proof (view_job_id _ _ _ Hi Hj) as <-. split; [done|]. by apply Hr3.
Qed.

(** ** Submission *)

Lemma unix_stored t : unixOrZero (whole_seconds t) = if t <? timeUnix 1 then 0 else Unix t.
Proof.
  unfold unixOrZero, whole_seconds. destruct (Z.ltb_spec t (timeUnix 1)) as [|Hle]; [done|].
  pose proof (Z.mod_pos_bound t Second ltac:(done)) as Hm. unfold IsZero. rewrite (proj2 (Z.eqb_neq _ _)).
  - unfold Unix. f_equal. pose proof (Z.div_mod t Second ltac:(done)).
    replace (t - t mod Second) with (t / Second * Second) by lia. by rewrite Z.div_mul.
  - unfold timeUnix, unixToInternal, Second in *. lia.
Qed.

(** [C26] (roundtrip) Submission is read back: when a submission is answered with an identifier, no job
    had it before, and asking for it next (if the store answers) gives exactly the fields of the
    request: its name, partition, priority, command, variables, directory and resources (zeros if
    it had none), its owner, or anonymous if it named none, the state PENDING, the second at
    which it was handled (zero before 1970) as the submission time, and nothing that a
    placement, a start or an end would set. *)
Theorem SubmitJob_GetJob req c id c1 pj c2 :
  inv (db_of c) → request_ok (RqSubmitJob req) →
  SubmitJob req c = (Reply (mkPbSubmitJobResponse id), c1) → GetJob (mkPbGetJobRequest id) c1 = (Reply pj, c2) →
  v_jobs (view (db_of c)) !! id = None ∧ pbSubmitJobRequest_Command req ≠ "" ∧
  pj = {|
    pbJob_Id := id;
    pbJob_Name := pbSubmitJobRequest_Name req;
    pbJob_Owner := if decide (pbSubmitJobRequest_Owner req = "") then "anonymous" else pbSubmitJobRequest_Owner req;
    pbJob_Partition := pbSubmitJobRequest_Partition req;
    pbJob_State := "PENDING";
    pbJob_Priority := pbSubmitJobRequest_Priority req;
    pbJob_Command := pbSubmitJobRequest_Command req;
    pbJob_Env := pbSubmitJobRequest_Env req;
    pbJob_Workdir := pbSubmitJobRequest_Workdir req;
    pbJob_Request := Some (default (mkPbResourceRequest 0 0 0 "" 0) (pbSubmitJobRequest_Request req));
    pbJob_NodeId := "";
    pbJob_NodeName := "";
    pbJob_Devices := [];
    pbJob_ExitCode := 0;
    pbJob_Reason := "";
    pbJob_SubmitAtUnix := if clock_next c <? timeUnix 1 then 0 else Unix (clock_next c);
    pbJob_StartAtUnix := 0;
    pbJob_EndAtUnix := 0
  |}.
Proof.
  intros Hi Hok. unfold SubmitJob, required. case_decide as Ecmd; [done|]. unfold st_bind at 1 2.
  pose proof (silent_id _ c (conj Hi eq_refl)) as Hc1. destruct (id_ c) as [nid s1] eqn:Ei.
  pose proof (silent_now _ s1 Hc1) as Hc2. destruct (now_ s1) as [now s2] eqn:En. simpl in Hc2. destruct Hc2 as [Hi2 Hv2].
  assert (now = clock_next c) as Hnow by (destruct c as [[w e] m l]; injection Ei as <- <-; by injection En as <- <-).
  pose proof (effect_call (CallCreateJob (submittedJob nid now req)) Internal "submit job failed"
    (store_CreateJob (submittedJob nid now req)) (λ _, st_ret (Reply (mkPbSubmitJobResponse nid)))
    ltac:(done) ltac:(by eapply Hok) ltac:(intros; apply silent_ret) ltac:(done) _ s2 (conj Hi2 eq_refl)) as Hd.
  intros Es. rewrite Es in Hd. destruct Hd as (v' & [Hi1 Hv1] & Hspec). cbn [replied] in Hspec.
  assert (nid = id) as ->.
  { unfold or_status, st_bind in Es. destruct (on_db _ s2) as [[u|e] s3]; [|done]. by injection Es. }
  simpl in Hspec. rewrite Hv2 in Hspec. destruct (v_jobs (view (db_of c)) !! id) eqn:Ej; [done|].
  injection Hspec as <-. unfold GetJob, or_status, st_bind.
  destruct (on_db (store_GetJob id) c1) as [r3 c3] eqn:E3.
  destruct (on_db_query _ _ _ _ _ (gets_job _) Hi1 E3) as (_ & _ & H3). cbn [pbGetJobRequest_JobId].
  rewrite E3. destruct r3 as [o|]; [|done]. specialize (H3 o eq_refl). simpl in H3. rewrite Hv1 in H3. simpl in H3.
  rewrite lookup_insert_eq in H3. subst o. intros [= <- _]. split; [done|]. split; [done|].
  unfold jobToProto, stored_job, submittedJob. cbn -[unixOrZero whole_seconds decide]. rewrite unix_stored, Hnow. f_equal.
  by destruct (pbSubmitJobRequest_Request req) as [[]|].
Qed.
End handlers.

(** ** The owner of a job is told *)

Section notification.
Context {S : Type} `{StoreLaws S}.

(** The engine after handing a message out. *)
Definition add_sent (ch : string) (msg : Message) (e : Engine) : Engine :=
  mkEngine (e_cfg e) (e_rules e) (e_notifiers e) (e_cooldown e) (e_sent e ++ [(ch, msg)]).

Lemma on_fst_engine {A E} (op : ST (World S) A) (st : World S * E) : (on_fst op st).2.2 = st.2.
Proof. destruct st as [w e]. unfold on_fst. by destruct (op w). Qed.

Lemma deliver_sent rule ev ch to n (st : World S * Engine) :
  e_notifiers st.2 !! ch = Some n →
  (deliver rule ev ch to st).2.2 = add_sent ch (mkMessage ev to (Event_Type ev) (Event_Summary ev)) st.2.
Proof.
  destruct st as [w e]. simpl. intros Hn. unfold deliver, st_bind, notifierOf. simpl. rewrite Hn.
  unfold notify, st_ret. cbn -[Join on_fst].
  match goal with |- context [on_fst ?op ?st] => pose proof (on_fst_engine op st) as He; destruct (on_fst op st) end.
  exact He.
Qed.

Lemma applyRule_other ev r (st : World S * Engine) : matches r ev = false → applyRule ev r st = (tt, st).
Proof. intros Hm. unfold applyRule. by rewrite Hm. Qed.

Definition job_rule : NotifyRule :=
  mkNotifyRule "job-finished" (mkRuleMatch [TypeJobCompleted; TypeJobFailed] ∅ "") ["${owner}"] [] 0.

Definition is_job_event (ev : Event) : Prop := Event_Type ev = TypeJobCompleted ∨ Event_Type ev = TypeJobFailed.

(** An event with another identifier or time is routed alike. *)
Lemma job_rule_matches ev : is_job_event ev → matches job_rule ev = true.
Proof.
  intros Ht. unfold matches, contains, job_rule. simpl.
  rewrite bool_decide_eq_true_2; [done|]. destruct Ht as [->| ->]; set_solver.
Qed.

Definition ownerOf (ev : Event) : list string :=
  let o := map_get (Event_Labels ev) "owner" in if decide (o = "") then [] else [o].

Lemma job_recipients ev : resolveRecipients ["${owner}"] ev = ownerOf ev.
Proof.
  unfold resolveRecipients, ownerOf. cbn [foldl]. unfold addRecipient, recipient. cbn -[map_get decide].
  repeat case_decide; done || set_solver.
Qed.

(** The engine as configured by default. *)
Definition default_engine (e : Engine) : Prop :=
  e_rules e = DefaultRules ∧ Notify_Channels (e_cfg e) = ["log"] ∧ is_Some (e_notifiers e !! "log").

Lemma job_rules_sent ev (st : World S * Engine) :
  default_engine st.2 → is_job_event ev →
  (st_for (e_rules st.2) (applyRule ev) st).2.2 =
    add_sent "log" (mkMessage ev (ownerOf ev) (Event_Type ev) (Event_Summary ev)) st.2.
Proof.
  intros (Hr & Hc & n & Hn) Ht. rewrite Hr. unfold DefaultRules. cbn [st_for]. unfold st_bind.
  assert (∀ name types labels min to chs cd, types ≠ [] → TypeJobCompleted ∉ types → TypeJobFailed ∉ types →
    ∀ st : World S * Engine, applyRule ev (mkNotifyRule name (mkRuleMatch types labels min) to chs cd) st = (tt, st)) as Hno.
  { intros name types labels min to chs cd H1 H2 H3 st0. apply applyRule_other, matches_other_type; [done|].
    destruct Ht as [->| ->]; done. }
  rewrite Hno by (by_decide). change (mkNotifyRule "job-finished" _ _ _ _) with job_rule.
  assert ((applyRule ev job_rule st).2.2 = add_sent "log" (mkMessage ev (ownerOf ev) (Event_Type ev) (Event_Summary ev)) st.2) as Hj.
  { unfold applyRule. rewrite job_rule_matches by done. cbn [negb]. unfold allow. cbn [Rule_Cooldown job_rule].
    change (0 <=? 0) with true. cbn iota. unfold st_bind, st_ret. cbn [negb].
    assert (channelsOf job_rule st.2 = ["log"]) as -> by (unfold channelsOf; cbn [Rule_Channels job_rule]; rewrite Hc; reflexivity).
    cbn [st_for]. unfold st_bind, st_ret. rewrite job_recipients. cbn [Rule_To Rule_Name job_rule].
    pose proof (deliver_sent "job-finished" ev "log" (ownerOf ev) n st Hn) as Hd.
    by destruct (deliver "job-finished" ev "log" (ownerOf ev) st). }
  destruct (applyRule ev job_rule st) as [u st1]. cbn [snd] in Hj. rewrite !Hno by by_decide. exact Hj.
Qed.

(** Emitting a job event hands exactly one message out. *)
Lemma Emit_job ev (st : World S * Engine) :
  default_engine st.2 → is_job_event ev →
  ∃ ev', (Emit ev st).2.2 = add_sent "log" (mkMessage ev' (ownerOf ev) (Event_Type ev) (Event_Summary ev)) st.2 ∧
    Event_Labels ev' = Event_Labels ev ∧ Event_Type ev' = Event_Type ev.
Proof.
  intros Hd Ht. unfold Emit, st_bind.
  match goal with |- context [let '(a, s') := ?op st in _] =>
    assert (∃ ev1 st1, op st = (ev1, st1) ∧ st1.2 = st.2 ∧ Event_Labels ev1 = Event_Labels ev ∧
      Event_Type ev1 = Event_Type ev ∧ Event_Summary ev1 = Event_Summary ev) as (ev1 & st1 & -> & E1 & L1 & T1 & S1) end.
  { case_decide; [|by eexists _, _]. destruct (on_fst newID st) as [i st1] eqn:Ei. eexists _, _. split; [done|].
    split; [|done]. by rewrite <-(on_fst_engine newID st), Ei. }
  match goal with |- context [let '(a, s') := ?op st1 in _] =>
    assert (∃ ev2 st2, op st1 = (ev2, st2) ∧ st2.2 = st1.2 ∧ Event_Labels ev2 = Event_Labels ev1 ∧
      Event_Type ev2 = Event_Type ev1 ∧ Event_Summary ev2 = Event_Summary ev1) as (ev2 & st2 & -> & E2 & L2 & T2 & S2) end.
  { destruct (IsZero _); [|by eexists _, _]. destruct (on_fst time_Now st1) as [i st2] eqn:Ei. eexists _, _. split; [done|].
    split; [|done]. by rewrite <-(on_fst_engine time_Now st1), Ei. }
  destruct (on_fst (on_store (store_CreateEvent ev2)) st2) as [r st3] eqn:E3.
  assert (st3.2 = st.2) as Es by (pose proof (on_fst_engine (on_store (store_CreateEvent ev2)) st2) as He; rewrite E3 in He; simpl in He; congruence).
  exists ev2. rewrite job_rules_sent.
  - rewrite Es. unfold ownerOf. rewrite L2, L1, T2, T1, S2, S1. done.
  - by rewrite Es.
  - unfold is_job_event in *. by rewrite T2, T1.
Qed.

Definition engineOf (c : Control S) : Engine := (ct_proc c).2.

Lemma on_db_store {A} (op : ST S A) c : ∃ c', on_db op c = ((op (db_of c)).1, c') ∧ db_of c' = (op (db_of c)).2.
Proof.
  destruct c as [[w e] m l]. unfold on_db, on_proc, on_fst, on_store, db_of. simpl. destruct (op (w_store w)). by eexists.
Qed.

Lemma on_db_engine {A} (op : ST S A) c : engineOf (on_db op c).2 = engineOf c.
Proof. destruct c as [[w e] m l]. unfold on_db, on_proc, on_fst, on_store, engineOf. simpl. by destruct (op (w_store w)). Qed.

Lemma jobEvent_facts j id state code :
  state = JobCompleted ∨ state = JobFailed ∨ state = JobTimeout →
  let ev := jobEvent j id state code in
  is_job_event ev ∧ Event_Type ev = (if decide (state = JobCompleted) then TypeJobCompleted else TypeJobFailed) ∧
  ownerOf ev = (if decide (Job_Owner j = "") then [] else [Job_Owner j]) ∧
  map_get (Event_Labels ev) "job" = id ∧ map_get (Event_Labels ev) "state" = state.
Proof.
  intros Hs ev. unfold ev, jobEvent, is_job_event, ownerOf, map_get. destruct (decide (state = JobCompleted)) as [Es|Es];
    [rewrite decide_False by tauto|rewrite decide_True by done]; cbn [Event_Type Event_Labels];
    split_and!; first [by left|by right|done|by simplify_map_eq].
Qed.

(** [C27] (functional) The end of a job is told to its owner: with the default rules and channel and a
    store that is up, an accepted report that a job COMPLETED, FAILED or ran into its TIMEOUT
    hands out exactly one message, to the owner of the job alone (to nobody if it has none), of
    the type of the outcome and labelled with the job and its state; an accepted report of
    RUNNING or CANCELLED hands out none. *)
Theorem UpdateJobStatus_notifies `{!Steady S} req c resp c' j :
  inv (db_of c) → steady (db_of c) → default_engine (engineOf c) →
  UpdateJobStatus req c = (Reply resp, c') → v_jobs (view (db_of c)) !! pbUpdateJobStatusRequest_JobId req = Some j →
  let state := pbUpdateJobStatusRequest_State req in
  if decide (state = JobCompleted ∨ state = JobFailed ∨ state = JobTimeout)
  then ∃ ev summary, e_sent (engineOf c') = e_sent (engineOf c) ++
         [("log", mkMessage ev (if decide (Job_Owner j = "") then [] else [Job_Owner j])
             (if decide (state = JobCompleted) then "job.completed" else "job.failed") summary)] ∧
       map_get (Event_Labels ev) "job" = pbUpdateJobStatusRequest_JobId req ∧ map_get (Event_Labels ev) "state" = state
  else e_sent (engineOf c') = e_sent (engineOf c).
Proof.
  intros Hi Hst Hd. unfold UpdateJobStatus, required. case_decide as Eid; [done|]. unfold st_bind at 1.
  destruct (now_ c) as [now c1] eqn:En.
  assert (db_of c1 = db_of c ∧ engineOf c1 = engineOf c) as [Ec1 He1].
  { destruct c as [[w e] m l]. unfold now_, on_proc in En. simpl in En. by injection En as <- <-. }
  set (id := pbUpdateJobStatusRequest_JobId req) in *. set (state := pbUpdateJobStatusRequest_State req) in *.
  case_decide as Er.
  { unfold or_status, st_bind. pose proof (on_db_engine (store_MarkJobRunning id now) c1) as He2.
    destruct (on_db _ c1) as [[u|e] c2]; [|done]. intros [= <- <-] _. simpl in He2.
    rewrite decide_False; [congruence|]. rewrite Er. intros [?|[?|?]]; done. }
  destruct (isTerminalState state) eqn:Et; [|done]. unfold or_status. unfold st_bind at 1.
  set (code := pbUpdateJobStatusRequest_ExitCode req). set (reason := pbUpdateJobStatusRequest_Reason req).
  pose proof (on_db_engine (store_FinishJob id state code reason now) c1) as He2.
  destruct (steady_finish (db_of c1) id state code reason now) as (s2 & Es2 & Hs2); [by rewrite Ec1..|].
  pose proof (refines (CallFinishJob id state code reason now) (db_of c1) true s2 ltac:(by rewrite Ec1) ltac:(done)
    ltac:(simpl; by rewrite Es2)) as [Hi2 Hv2].
  destruct (on_db_store (store_FinishJob id state code reason now) c1) as (c2 & E2 & Edb2). rewrite E2, Es2 in *.
  simpl in He2, Edb2. rewrite <-Edb2 in Hi2, Hs2, Hv2. intros E Hj. cbn [fst] in E. unfold st_bind, st_ret in E.
  destruct (emitJobEvent id state _ c2) as [u' c3] eqn:Ee. injection E as <- <-. unfold emitJobEvent in Ee. case_decide as Ec.
  { injection Ee as _ <-. rewrite decide_False; [congruence|]. rewrite Ec. intros [?|[?|?]]; done. }
  assert (state = JobCompleted ∨ state = JobFailed ∨ state = JobTimeout) as Htold.
  { unfold isTerminalState in Et. rewrite !orb_true_iff, !bool_decide_eq_true in Et. tauto. }
  rewrite decide_True by done.
  unfold st_bind in Ee. pose proof (on_db_engine (store_GetJob id) c2) as He3.
  destruct (steady_get_job (db_of c2) id Hi2 Hs2) as (o & s3 & Es3 & _).
  destruct (gets_job id _ _ _ Hi2 Es3) as (_ & _ & H4). specialize (H4 o eq_refl). simpl in H4.
  destruct (on_db_store (store_GetJob id) c2) as (c4 & E4 & _). rewrite E4, Es3 in *. simpl in He3. cbn [fst] in Ee.
  injection Hv2 as Hv2. rewrite <-Hv2 in H4. simpl in H4. rewrite lookup_alter_eq, Ec1, Hj in H4. simpl in H4. subst o.
  unfold on_proc in Ee. set (je := jobEvent _ id state _) in Ee.
  destruct (jobEvent_facts (job_ended state code reason (whole_seconds now) j) id state code Htold) as (Hje & Hty & How & Hl1 & Hl2).
  fold je in Hje, Hty, How, Hl1, Hl2.
  assert (default_engine (ct_proc c4).2) as Hd4 by (change (default_engine (engineOf c4)); congruence).
  destruct (Emit_job je (ct_proc c4) Hd4 Hje) as (ev & Hs & HL & HT).
  destruct (Emit je (ct_proc c4)) as [u2 p2]. injection Ee as _ <-. unfold engineOf at 1. simpl in *. rewrite Hs. simpl.
  change (ct_proc c4).2 with (engineOf c4). rewrite He3, He2, He1.
  exists ev, (Event_Summary je). rewrite How, HL, Hty. by split.
Qed.
End notification.

(** ** Witnesses: the services over the example database *)

From S2P Require Import SQLite SQLiteProofs StoreExample SQLiteRefines.

Definition ex_control (db : DB) : Control DB :=
  mkControl (mkWorld db (λ i, timeUnix (2000 + Z.of_nat i)) 0 (λ i, [Z.of_nat i; 1; 2; 3; 4; 5; 6; 7]) 0,
             NewEngine (Server_Notify DefaultServer)) ∅ (mkFS ∅ []).

Definition ex_submit : pbSubmitJobRequest :=
  mkPbSubmitJobRequest "train" "" "gpu" 5 "python train.py" ∅ "/work" (Some (mkPbResourceRequest 4 1024 1 "" 600)).

Definition ex_assigned : DB := exec_calls [CallAssignJob "j1" "n1" "alpha" [mkAlloc "gpu" 0]] ex_db.

Lemma ex_assigned_ok : DB_ok ex_assigned.
Proof. apply exec_calls_ok, ex_db_ok. Qed.

Definition ex_requests : list request :=
  [RqSubmitJob ex_submit; RqPollAssignments (mkPbPollAssignmentsRequest "n1");
   RqUpdateJobStatus (mkPbUpdateJobStatusRequest "j1" JobRunning 0 ""); RqCancelJob (mkPbCancelJobRequest "j2");
   RqUpdateJobStatus (mkPbUpdateJobStatusRequest "j1" "LOST" 0 "")].

Lemma ex_requests_ok : Forall request_ok ex_requests.
Proof.
  repeat constructor; intros nid now cl; simpl; try (intros [= <-]; exact I); try done.
  intros [= <-]. split_and!; vm_compute; done.
Qed.

Definition ex_served : list (request * bool * Time) * Control DB := handle_all ex_requests (ex_control ex_assigned).

Example control_refines_witness :
  ∃ log c' ids, ex_served = (log, c') ∧ spec_run (omap call_made (zip log ids)) (view ex_assigned) = Some (view (db_of c')) ∧
    (Job_State <$> (v_jobs (view (db_of c')) !! "j1")) = Some JobRunning.
Proof.
  assert ((Job_State <$> (v_jobs (view (db_of ex_served.2)) !! "j1")) = Some JobRunning) as Hs by (vm_compute; reflexivity).
  pose proof (control_refines (S := DB) (H := sqlite_laws) ex_requests (ex_control ex_assigned) ex_assigned_ok ex_requests_ok) as H.
  fold ex_served in H. destruct ex_served as [log c'] eqn:E. destruct H as (_ & _ & ids & _ & Hrun).
  exists log, c', ids. exact (conj eq_refl (conj Hrun Hs)).
Defined.

Definition ex_poll : pbPollAssignmentsRequest := mkPbPollAssignmentsRequest "n1".

Example PollAssignments_exact_witness :
  ∃ resp js, (Server.PollAssignments ex_poll (ex_control ex_assigned)).1 = Reply resp ∧
    pbPollAssignmentsResponse_Run resp = assignmentToProto <$> js ∧ NoDup (Job_ID <$> js).
Proof.
  destruct (Server.PollAssignments ex_poll (ex_control ex_assigned)) as [r c'] eqn:E.
  assert (replied r = true) as Hr by (vm_compute in E; injection E as <- _; reflexivity).
  destruct r as [resp|]; [|discriminate].
  assert (is_Some (v_nodes (view ex_assigned) !! "n1")) as [n Hn] by (vm_compute; eexists; reflexivity).
  destruct (PollAssignments_exact (S := DB) (H := sqlite_laws) ex_poll (ex_control ex_assigned) resp c' ex_assigned_ok E) as (_ & _ & H).
  change (db_of (ex_control ex_assigned)) with ex_assigned in H. change (pbPollAssignmentsRequest_NodeId ex_poll) with "n1" in H.
  rewrite Hn in H. destruct H as (_ & (js & H1 & H2 & _) & _). exists resp, js. exact (conj eq_refl (conj H1 H2)).
Defined.

Example SubmitJob_GetJob_witness :
  ∃ pj, (Server.GetJob (mkPbGetJobRequest "0001020304050607") (Server.SubmitJob ex_submit (ex_control ex_db)).2).1 = Reply pj ∧
    pbJob_Owner pj = "anonymous" ∧ pbJob_Command pj = "python train.py" ∧ pbJob_SubmitAtUnix pj = 2000.
Proof.
  assert (request_ok (RqSubmitJob ex_submit)) as Hok by (pose proof ex_requests_ok as H; by apply Forall_cons in H as [? _]).
  destruct (Server.SubmitJob ex_submit (ex_control ex_db)) as [r1 c1] eqn:E1.
  assert (r1 = Reply (mkPbSubmitJobResponse "0001020304050607")) as -> by (vm_compute in E1; injection E1 as <- _; reflexivity).
  destruct (Server.GetJob (mkPbGetJobRequest "0001020304050607") c1) as [r2 c2] eqn:E2.
  assert (replied r2 = true) as Hr by (vm_compute in E1; injection E1 as <-; vm_compute in E2; injection E2 as <- _; reflexivity).
  destruct r2 as [pj|]; [|discriminate].
  destruct (SubmitJob_GetJob (S := DB) (H := sqlite_laws) ex_submit (ex_control ex_db) _ c1 pj c2 ex_db_ok Hok E1 E2) as (_ & _ & H).
  exists pj. split; [simpl; rewrite E2; reflexivity|]. rewrite H. repeat split; vm_compute; reflexivity.
Defined.

Definition ex_report : pbUpdateJobStatusRequest := mkPbUpdateJobStatusRequest "j1" JobFailed 1 "".

Example UpdateJobStatus_notifies_witness :
  ∃ c', (Server.UpdateJobStatus ex_report (ex_control ex_assigned)).2 = c' ∧
    (Message_Recipients ∘ snd <$> e_sent (engineOf c')) = [["ana"]] ∧ ∃ msg, e_sent (engineOf c') = [("log", msg)].
Proof.
  destruct (Server.UpdateJobStatus ex_report (ex_control ex_assigned)) as [r c'] eqn:E.
  assert (replied r = true ∧ (Message_Recipients ∘ snd <$> e_sent (engineOf c')) = [["ana"]]) as [Hr Hs]
    by (vm_compute in E; injection E as <- <-; vm_compute; done).
  destruct r as [resp|]; [|discriminate].
  assert (is_Some (v_jobs (view (db_of (ex_control ex_assigned))) !! pbUpdateJobStatusRequest_JobId ex_report)) as [j Hj]
    by (vm_compute; eexists; reflexivity).
  assert (default_engine (engineOf (ex_control ex_assigned))) as Hd.
  { split; [reflexivity|]. split; [reflexivity|]. vm_compute. eexists. reflexivity. }
  exists c'. split; [reflexivity|]. split; [exact Hs|].
  destruct (UpdateJobStatus_notifies (S := DB) (H := sqlite_laws) (Steady0 := sqlite_steady) ex_report (ex_control ex_assigned) resp c' j
    ex_assigned_ok eq_refl Hd E Hj) as (ev & summary & H & _). eexists. exact H.
Defined.
