(* ===== verification/Reap.v ===== *)
(** * internal/server/server.go, diagnose.go: the background loops of the control plane

    The loop that marks silent nodes, the diagnosis of nodes managed over SSH, the parameters of
    their tunnels and of the distribution of the agent.  A goroutine that a loop starts is
    recorded ([dg_triggered]); its body is a function of its own ([diag_run]). *)
From Stdlib Require Import Ascii.
From S2P Require Import Prelude GoBase GoStrings GoFloat GoFormat GoNet Event Proto Store World Config Notify Transport.
Local Open Scope Z_scope.

Definition defaultRemoteListen : string := "127.0.0.1:7600".
Definition defaultRemotePath : string := "/tmp/skipper-agent".

(** ** Parameters of an SSH node *)

Definition remoteListen (sn : SSHNodeConfig) : string :=
  if decide (SSHNode_RemoteListen sn = "") then defaultRemoteListen else SSHNode_RemoteListen sn.

Definition sshConfigFor (sn : SSHNodeConfig) : SSHConfig :=
  mkSSHConfig (SSHNode_Name sn) (SSHNode_Addr sn) (SSHNode_User sn) (SSHNode_Key sn) (SSHNode_KnownHost sn)
    (remoteListen sn).

Definition provisionSpec (sn : SSHNodeConfig) : ProvisionSpec :=
  let remotePath := if decide (SSHNode_RemotePath sn = "") then defaultRemotePath else SSHNode_RemotePath sn in
  mkProvisionSpec (SSHNode_AgentBin sn) remotePath (remoteListen sn) (SSHNode_Name sn) (SSHNode_Partition sn)
    (SSHNode_AgentArgs sn) (remotePath +:+ ".log") (remotePath +:+ ".pid").

Definition localDialTarget (listen : string) : string :=
  match SplitHostPort listen with
  | None => listen
  | Some (host, port) =>
      let host := if decide (host = "" ∨ host = "0.0.0.0" ∨ host = "::") then "127.0.0.1" else host in
      JoinHostPort host port
  end.

(** [startSSHTunnels]: the tunnels started, where they forward to, and which nodes are provisioned. *)
Definition startSSHTunnels (nodes : list SSHNodeConfig) (listen : string) :
    list (SSHConfig * string) * list SSHNodeConfig :=
  ((λ sn, (sshConfigFor sn, localDialTarget listen)) <$> nodes, filter (λ sn, SSHNode_Provision sn = true) nodes).

(** [provisionWhenReady]: the attempts until the first success, given their outcomes; the pauses
    made, and whether it succeeded. [None] if there is no binary to distribute. *)
Fixpoint provisionLoop (outcomes : list bool) (backoff : Duration) : list Duration * bool :=
  match outcomes with
  | [] => ([], false)
  | true :: _ => ([], true)
  | false :: outcomes' =>
      let '(pauses, ok) := provisionLoop outcomes' (backoffNext (30 * Second) backoff) in (backoff :: pauses, ok)
  end.

Definition provisionWhenReady (sn : SSHNodeConfig) (outcomes : list bool) : option (list Duration * bool) :=
  if decide (Spec_LocalBin (provisionSpec sn) = "") then None else Some (provisionLoop outcomes (2 * Second)).

(** ** diagnose.go *)

Record Diagnoser := mkDiagnoser {
  dg_cfg : DiagnosticsConfig;
  dg_nodes : gmap string SSHNodeConfig;
  dg_lastRun : gmap string Time;
  dg_triggered : list (SSHNodeConfig * Duration)   (** diagnoses started, in order *)
}.

Definition newDiagnoser (cfg : ServerConfig) : Diagnoser :=
  mkDiagnoser (Server_Diagnostics cfg)
    (foldl (λ m sn, <[SSHNode_Name sn := sn]> m) ∅ (Server_SSHNodes cfg)) ∅ [].

Definition set_lastRun (m : gmap string Time) (d : Diagnoser) : Diagnoser :=
  mkDiagnoser (dg_cfg d) (dg_nodes d) m (dg_triggered d).

Definition trigger (sn : SSHNodeConfig) (downFor : Duration) (d : Diagnoser) : Diagnoser :=
  mkDiagnoser (dg_cfg d) (dg_nodes d) (dg_lastRun d) (dg_triggered d ++ [(sn, downFor)]).

(** The body of the loop of [check]. *)
Definition checkNode (now : Time) (d : Diagnoser) (n : Node) : Diagnoser :=
  match dg_nodes d !! Node_Name n with
  | None => d
  | Some sn =>
      if bool_decide (Node_State n = StateDrain) || IsZero (Node_LastHeartbeat n) then d
      else
        let downFor := Sub now (Node_LastHeartbeat n) in
        if downFor <? Diag_AfterDown (dg_cfg d) then set_lastRun (delete (Node_Name n) (dg_lastRun d)) d
        else
          let recent := match dg_lastRun d !! Node_Name n with
                        | Some last => Sub now last <? Diag_Cooldown (dg_cfg d)
                        | None => false
                        end in
          if recent then d else trigger sn downFor (set_lastRun (<[Node_Name n := now]> (dg_lastRun d)) d)
  end.

Definition check (nodes : list Node) (now : Time) (d : Diagnoser) : Diagnoser := foldl (checkNode now) d nodes.

Definition causeText (c : DiagCause) : string :=
  if decide (c = DiagSSHDown) then "SSH 连接中断"
  else if decide (c = DiagAgentKilled) then "agent 进程被杀"
  else "其他原因".

(** ** The events of lost nodes *)

Definition nodeDownEvent (n : Node) : Event :=
  mkEvent "" TypeNodeDown SevWarning (Node_Name n) ("节点 " +:+ Node_Name n +:+ " 心跳超时，判定失联")
    ("node-down|" +:+ Node_Name n) {["node" := Node_Name n]} 0.

(** Is a node about to be taken for lost? *)
Definition goingDown (cutoff : Time) (n : Node) : bool :=
  bool_decide (Node_State n = StateUp) && negb (IsZero (Node_LastHeartbeat n)) && Before (Node_LastHeartbeat n) cutoff.

Definition emitNodeDownEvents {E} `{EventSink E} (nodes : list Node) (cutoff : Time) : ST E unit :=
  st_for nodes (λ n, if negb (goingDown cutoff n) then st_ret tt else sink_emit (nodeDownEvent n)).

Section loops.
Context {S : Type} `{!Store S}.

Definition diagnosedEvent (sn : SSHNodeConfig) (downFor : Duration) (diag : Diagnosis) : Event :=
  let cause := Diagnosis_Cause diag in
  mkEvent "" TypeNodeDiagnosed (if decide (cause = DiagSSHDown) then SevCritical else SevWarning) (SSHNode_Name sn)
    ("节点 " +:+ SSHNode_Name sn +:+ " 失联 " +:+ Duration_String (Round downFor Second) +:+ "，诊断结论：" +:+
     causeText cause +:+ "（" +:+ Diagnosis_Detail diag +:+ "）")
    ("node-diagnosed|" +:+ SSHNode_Name sn +:+ "|" +:+ cause)
    (<["node" := SSHNode_Name sn]> {["cause" := cause]}) 0.

(** [diagnoser.run], given what [transport.Diagnose] concludes; the result is the provisioning that it
    then attempts, if any. *)
Definition diag_run (diagnose : SSHConfig → string → string → Diagnosis) (sn : SSHNodeConfig) (downFor : Duration) :
    ST (World S * Engine) (option (SSHConfig * ProvisionSpec)) :=
  let spec := provisionSpec sn in
  let diag := diagnose (sshConfigFor sn) (Spec_PidPath spec) (Spec_RemotePath spec) in
  Emit (diagnosedEvent sn downFor diag) ;;;
  st_ret (if bool_decide (Diagnosis_Cause diag = DiagAgentKilled) && SSHNode_Provision sn && SSHNode_AutoRestart sn
          then Some (sshConfigFor sn, spec) else None).

(** ** reapLoop *)

(** One tick: the number of nodes marked, if it got that far. *)
Definition reapTick (timeout : Duration) : ST (option Diagnoser * (World S * Engine)) (option Z) :=
  now <- on_snd (on_fst time_Now) ;;
  let cutoff := Add now (i64 (- timeout)) in
  nodes <- on_snd (on_fst (on_store store_ListNodes)) ;;
  match nodes with
  | Err _ => st_ret None
  | Ok nodes =>
      on_snd (emitNodeDownEvents nodes cutoff) ;;;
      n <- on_snd (on_fst (on_store (store_MarkStaleDown cutoff))) ;;
      match n with
      | Err _ => st_ret None
      | Ok n =>
          on_fst (st_modify (fmap (check nodes now))) ;;;
          st_ret (Some n)
      end
  end.

(** The same, where the goroutine stands in a tick: the nodes have been listed and the lost ones
    announced at the instant [now], the statement that marks them is still to come. *)
Inductive reapPhase :=
| Waiting
| Marking (now : Time) (nodes : list Node).

Record reaper := mkReaper {
  rr_timeout : Duration;
  rr_diag : option Diagnoser;
  rr_phase : reapPhase
}.

Definition at_phase (ph : reapPhase) (r : reaper) : reaper := mkReaper (rr_timeout r) (rr_diag r) ph.
Definition diagnosed (nodes : list Node) (now : Time) (r : reaper) : reaper :=
  mkReaper (rr_timeout r) (check nodes now <$> rr_diag r) (rr_phase r).

Definition cutoffOf (timeout : Duration) (now : Time) : Time := Add now (i64 (- timeout)).

Definition reapStep (r : reaper) : ST (World S * Engine) reaper :=
  match rr_phase r with
  | Waiting =>
      now <- on_fst time_Now ;;
      nodes <- on_fst (on_store store_ListNodes) ;;
      match nodes with
      | Err _ => st_ret r
      | Ok nodes => emitNodeDownEvents nodes (cutoffOf (rr_timeout r) now) ;;; st_ret (at_phase (Marking now nodes) r)
      end
  | Marking now nodes =>
      n <- on_fst (on_store (store_MarkStaleDown (cutoffOf (rr_timeout r) now))) ;;
      st_ret (at_phase Waiting (match n with Err _ => r | Ok _ => diagnosed nodes now r end))
  end.

(** [reapLoop] over a number of ticks. *)
Fixpoint reapLoop (timeout : Duration) (ticks : nat) : ST (option Diagnoser * (World S * Engine)) unit :=
  match ticks with
  | O => st_ret tt
  | Datatypes.S ticks' => reapTick timeout ;;; reapLoop timeout ticks'
  end.
End loops.

(** [Run] makes a diagnoser when diagnosis is enabled and there are SSH nodes. *)
Definition startDiagnoser (cfg : ServerConfig) : option Diagnoser :=
  if Diag_Enabled (Server_Diagnostics cfg) && bool_decide (Server_SSHNodes cfg ≠ []) then Some (newDiagnoser cfg) else None.

Example localDialTarget_1 : localDialTarget ":7443" = "127.0.0.1:7443" ∧ localDialTarget "[::]:1" = "127.0.0.1:1" ∧
  localDialTarget "10.0.0.1:7443" = "10.0.0.1:7443".
Proof. split_and!; reflexivity. Qed.
