(* ===== verification/ReapTheorems.v ===== *)
(** * The background loops: lost nodes are announced, diagnoses are spaced *)
From Stdlib Require Import Ascii.
From S2P Require Import Prelude GoBase GoStrings GoFloat GoFormat GoNet Event Proto Store StoreSpec World Config Notify NotifyTheorems Transport Reap.
Local Open Scope Z_scope.

(** ** The dial address *)

(** (functional) The address the tunnels dial: for every listen address made of a host (a name, an
    IPv4 or an IPv6 address) and a port, the port is kept, the hosts that mean every interface
    (none, 0.0.0.0 and ::) become 127.0.0.1 and every other host is kept; what is not a host
    and a port is left as it is. *)
Theorem localDialTarget_spec host port :
  has "[" host = false → has "]" host = false → plain port = true →
  localDialTarget (JoinHostPort host port) =
    (if decide (host = "" ∨ host = "0.0.0.0" ∨ host = "::") then "127.0.0.1:" +:+ port else JoinHostPort host port) ∧
  ∀ listen, SplitHostPort listen = None → localDialTarget listen = listen.
Proof.
  intros H1 H2 Hp. unfold localDialTarget. split; [|by intros listen ->].
  rewrite SplitHostPort_Join by done. by case_decide.
Qed.

Example localDialTarget_spec_witness : localDialTarget (JoinHostPort "::" "7443") = "127.0.0.1:7443".
Proof. exact (proj1 (localDialTarget_spec "::" "7443" eq_refl eq_refl eq_refl)). Defined.

(** ** Lost nodes *)

Lemma emitNodeDown_trace nodes cutoff (t : Trace) :
  tr_events (emitNodeDownEvents nodes cutoff t).2 =
    tr_events t ++ (nodeDownEvent <$> filter (λ n, goingDown cutoff n = true) nodes).
Proof.
  unfold emitNodeDownEvents. revert t; induction nodes as [|n nodes IH]; intros t; [by rewrite app_nil_r|].
  cbn [st_for]. unfold st_bind. destruct (goingDown cutoff n) eqn:E; cbn [negb].
  - rewrite filter_cons_True by done. csimpl. rewrite IH. simpl. by rewrite <-app_assoc.
  - rewrite filter_cons_False by congruence. unfold st_ret. by rewrite IH.
Qed.

(** (safety) No node is lost silently: a tick announces exactly the nodes that are UP, have been
    heard of and were last heard of before the cutoff, each once, and among them is every UP
    node with a heartbeat that the store marks DOWN for this cutoff. *)
Theorem node_down_announced nodes cutoff (t : Trace) :
  let events := nodeDownEvent <$> filter (λ n, goingDown cutoff n = true) nodes in
  tr_events (emitNodeDownEvents nodes cutoff t).2 = tr_events t ++ events ∧
  ∀ n, n ∈ nodes → Node_State n = StateUp → IsZero (Node_LastHeartbeat n) = false → node_stale cutoff n = true →
    nodeDownEvent n ∈ events ∧ Node_State (node_down n) = StateDown.
Proof.
  intros events. split; [apply emitNodeDown_trace|]. intros n Hn Hup Hz Hs. split; [|done].
  apply list_elem_of_fmap. exists n. split; [done|]. apply list_elem_of_filter. split; [|done].
  unfold goingDown, Before. rewrite bool_decide_eq_true_2, Hz by done. simpl.
  apply Z.ltb_lt. unfold node_stale in Hs. apply andb_true_iff in Hs as [Hlt%Z.ltb_lt _].
  destruct (Z.lt_ge_cases (Node_LastHeartbeat n) cutoff) as [|Hge]; [done|]. pose proof (Unix_mono _ _ Hge). lia.
Qed.

Definition ex_silent (state : string) (heard : Time) : Node := mkNode "n1" "alpha" "gpu" state "" 8 1024 [] ∅ "v1" heard.

Example node_down_announced_witness :
  nodeDownEvent (ex_silent StateUp (timeUnix 1000)) ∈
    nodeDownEvent <$> filter (λ n, goingDown (timeUnix 1030) n = true) [ex_silent StateUp (timeUnix 1000)].
Proof.
  refine (proj1 (proj2 (node_down_announced [ex_silent StateUp (timeUnix 1000)] (timeUnix 1030)
    (mkTrace [] (λ _, 0) 0)) _ _ _ _ _)); [set_solver|reflexivity..].
Defined.

(** ** Diagnosis *)

(** The nodes of the configuration are kept by name. *)
Definition named_nodes (d : Diagnoser) : Prop := ∀ x sn, dg_nodes d !! x = Some sn → SSHNode_Name sn = x.

Lemma newDiagnoser_named cfg : named_nodes (newDiagnoser cfg).
Proof.
  unfold named_nodes, newDiagnoser. simpl. induction (Server_SSHNodes cfg) as [|sn l IH] using rev_ind; simpl; [done|].
  rewrite foldl_app. simpl. intros x sn' [[<- <-]|[_ Hl]]%lookup_insert_Some; [done|]. by apply IH.
Qed.

(** The diagnoses of a node started between two states. *)
Definition started_for (x : string) (d d' : Diagnoser) : Prop :=
  ∃ new, dg_triggered d' = dg_triggered d ++ new ∧ ∃ q, q ∈ new ∧ SSHNode_Name q.1 = x.

(** What one node of a tick does: nothing, forgetting, or starting a diagnosis. *)
Inductive node_step (now : Time) (d : Diagnoser) (n : Node) : Diagnoser → Prop :=
| ns_none : node_step now d n d
| ns_heard : Node_State n ≠ StateDrain → IsZero (Node_LastHeartbeat n) = false →
    Sub now (Node_LastHeartbeat n) < Diag_AfterDown (dg_cfg d) →
    node_step now d n (set_lastRun (delete (Node_Name n) (dg_lastRun d)) d)
| ns_trigger sn : dg_nodes d !! Node_Name n = Some sn → Node_State n ≠ StateDrain →
    IsZero (Node_LastHeartbeat n) = false →
    Diag_AfterDown (dg_cfg d) ≤ Sub now (Node_LastHeartbeat n) →
    (∀ last, dg_lastRun d !! Node_Name n = Some last → Diag_Cooldown (dg_cfg d) ≤ Sub now last) →
    node_step now d n (trigger sn (Sub now (Node_LastHeartbeat n)) (set_lastRun (<[Node_Name n := now]> (dg_lastRun d)) d)).

Lemma checkNode_step now d n : node_step now d n (checkNode now d n).
Proof.
  unfold checkNode. destruct (dg_nodes d !! Node_Name n) as [sn|] eqn:Es; [|constructor].
  destruct (bool_decide (Node_State n = StateDrain)) eqn:Ed; [constructor|].
  destruct (IsZero (Node_LastHeartbeat n)) eqn:Ez; [constructor|]. cbn [orb]. bool_to_prop.
  destruct (Sub now (Node_LastHeartbeat n) <? Diag_AfterDown (dg_cfg d)) eqn:Ea; bool_to_prop; [by constructor|].
  destruct (dg_lastRun d !! Node_Name n) as [last|] eqn:El.
  - destruct (Sub now last <? Diag_Cooldown (dg_cfg d)) eqn:Ec; bool_to_prop; [constructor|].
    constructor; try done. intros l' E. rewrite El in E. by injection E as <-.
  - constructor; try done. intros l' E. by rewrite El in E.
Qed.

(** The node [x] is not heard of in time in a tick: each of its entries is left out or overdue. *)
Definition silent_in (after : Duration) (x : string) (tick_ : list Node * Time) : Prop :=
  Forall (λ n, Node_Name n = x → Node_State n = StateDrain ∨ IsZero (Node_LastHeartbeat n) = true ∨
                 after ≤ Sub tick_.2 (Node_LastHeartbeat n)) tick_.1.

Section spacing.
Context (x : string) (t0 : Time).

(** A diagnosis of [x] was started at [t0] or later and is remembered. *)
Definition remembered (d : Diagnoser) : Prop := ∃ t, dg_lastRun d !! x = Some t ∧ t0 ≤ t.

(** One node: the configuration stays; the memory stays while [x] is silent; a diagnosis of [x]
    comes a cooldown after the remembered one, and is remembered. *)
Lemma node_step_effect now d n d' :
  node_step now d n d' → named_nodes d → t0 ≤ now →
  dg_nodes d' = dg_nodes d ∧ dg_cfg d' = dg_cfg d ∧
  ∃ new, dg_triggered d' = dg_triggered d ++ new ∧
    ((∀ q, q ∈ new → SSHNode_Name q.1 ≠ x) ∧
     (silent_in (Diag_AfterDown (dg_cfg d)) x ([n], now) → remembered d → remembered d') ∨
     (remembered d' ∧ (remembered d → Diag_Cooldown (dg_cfg d) ≤ Sub now t0))).
Proof.
  intros Hs Hn Ht. destruct Hs as [|Hd Hz Ha|sn Hsn Hd Hz Ha Hc]; simpl.
  - split_and!; [done..|]. exists []. rewrite app_nil_r. split; [done|]. left. split; [set_solver|done].
  - split_and!; [done..|]. exists []. rewrite app_nil_r. split; [done|]. left. split; [set_solver|].
    intros Hsil (t & Hl & Hle). unfold silent_in in Hsil. simpl in Hsil. rewrite Forall_singleton in Hsil. destruct (decide (Node_Name n = x)) as [E|E].
    + destruct (Hsil E) as [?|[?|?]]; [done|congruence|simpl in *; lia].
    + exists t. unfold set_lastRun. simpl. by rewrite lookup_delete_ne.
  - split_and!; [done..|]. eexists. split; [done|]. pose proof (Hn _ _ Hsn) as Hname.
    destruct (decide (Node_Name n = x)) as [E|E].
    + right. rewrite E in *. split; [exists now; simpl; by rewrite lookup_insert_eq|].
      intros (t & Hl & Hle). specialize (Hc t Hl). unfold Sub in *. lia.
    + left. split.
      * intros q Hq. apply list_elem_of_singleton in Hq as ->. simpl. congruence.
      * intros _ (t & Hl & Hle). exists t. simpl. by rewrite lookup_insert_ne.
Qed.

(** One tick. *)
Lemma check_effect nodes now d :
  named_nodes d → t0 ≤ now → silent_in (Diag_AfterDown (dg_cfg d)) x (nodes, now) →
  let d' := check nodes now d in
  named_nodes d' ∧ dg_cfg d' = dg_cfg d ∧ dg_nodes d' = dg_nodes d ∧
  (remembered d → remembered d') ∧
  (started_for x d d' → remembered d' ∧ (remembered d → Diag_Cooldown (dg_cfg d) ≤ Sub now t0)).
Proof.
  unfold check. intros Hn Ht Hs. cbv zeta.
  assert (∀ l d1, named_nodes d1 → dg_cfg d1 = dg_cfg d → silent_in (Diag_AfterDown (dg_cfg d)) x (l, now) →
    let d' := foldl (checkNode now) d1 l in
    named_nodes d' ∧ dg_cfg d' = dg_cfg d1 ∧ dg_nodes d' = dg_nodes d1 ∧ (remembered d1 → remembered d') ∧
    ∃ new, dg_triggered d' = dg_triggered d1 ++ new ∧
      ((∃ q, q ∈ new ∧ SSHNode_Name q.1 = x) → remembered d' ∧ (remembered d1 → Diag_Cooldown (dg_cfg d) ≤ Sub now t0))) as Hloop.
  { induction l as [|n l IH]; intros d1 Hn1 Hc1 Hs1; simpl.
    - split_and!; try done. exists []. rewrite app_nil_r. split; [done|]. set_solver.
    - apply Forall_cons in Hs1 as [Hs1 Hsl].
      destruct (node_step_effect now d1 n _ (checkNode_step now d1 n) Hn1 Ht) as (En & Ec & new & Etr & Hcase).
      assert (named_nodes (checkNode now d1 n)) as Hn2 by (unfold named_nodes; rewrite En; exact Hn1).
      destruct (IH (checkNode now d1 n) Hn2 ltac:(congruence) Hsl) as (H1 & H2 & H3 & H4 & new2 & H5 & H6).
      assert (remembered d1 → remembered (checkNode now d1 n)) as Hrem.
      { intros Hr. destruct Hcase as [[_ Hk]|[Hk _]]; [|done]. apply Hk; [|done]. rewrite Hc1. unfold silent_in. simpl. by rewrite Forall_singleton. }
      split_and!; [done|congruence|congruence|tauto|]. exists (new ++ new2). rewrite H5, Etr, app_assoc. split; [done|].
      intros (q & [Hq|Hq]%elem_of_app & Eq).
      + destruct Hcase as [[Hno _]|[Hk Hcd]]; [by destruct (Hno q Hq)|]. split; [by apply H4|].
        intros Hr. specialize (Hcd Hr). congruence.
      + destruct (H6 ltac:(eauto)) as [Hr' Hcd]. split; [done|]. tauto. }
  destruct (Hloop nodes d Hn eq_refl Hs) as (H1 & H2 & H3 & H4 & new & H5 & H6).
  split_and!; [done..|]. intros (new' & E & q & Hq & Eq). rewrite H5 in E. apply app_inv_head in E as <-. eauto.
Qed.
End spacing.

Definition check_all (ticks : list (list Node * Time)) (d : Diagnoser) : Diagnoser :=
  foldl (λ d tk, check tk.1 tk.2 d) d ticks.

(** (safety) Diagnoses are spaced: from the tick that starts a diagnosis of a node until a later
    tick that starts another one, if in no tick between the node has been heard of in time, the
    cooldown has passed, however many ticks there are and whatever the other nodes do. *)
Theorem diagnosis_spaced x d0 nodesA nowA ticks nodesC nowC :
  let after := Diag_AfterDown (dg_cfg d0) in
  let dA := check nodesA nowA d0 in
  let dB := check_all ticks dA in
  named_nodes d0 → Forall (λ tk, nowA ≤ tk.2 ∧ silent_in after x tk) ((nodesA, nowA) :: ticks ++ [(nodesC, nowC)]) →
  started_for x d0 dA → started_for x dB (check nodesC nowC dB) →
  Diag_Cooldown (dg_cfg d0) ≤ Sub nowC nowA.
Proof.
  intros after dA dB Hn [[_ HA] [Hticks HC]%Forall_app]%Forall_cons HstA HstC. apply Forall_singleton in HC as [HtC HsC].
  destruct (check_effect x nowA nodesA nowA d0 Hn ltac:(done) HA) as (HnA & HcA & _ & _ & HrA).
  destruct (HrA HstA) as [HremA _]. fold dA in HnA, HcA, HremA.
  assert (named_nodes dB ∧ dg_cfg dB = dg_cfg d0 ∧ remembered x nowA dB) as (HnB & HcB & HremB).
  { unfold dB, check_all. clear HstC HsC. revert HnA HcA HremA. generalize dA. clear HstA HrA. clear dA dB.
    induction Hticks as [|[nodes now] ticks [Ht Hs] _ IH]; intros d1 Hn1 Hc1 Hr1; [done|]. simpl in *.
    destruct (check_effect x nowA nodes now d1 Hn1 Ht) as (H1 & H2 & _ & H4 & _); [by rewrite Hc1|].
    apply IH; [done|congruence|by apply H4]. }
  destruct (check_effect x nowA nodesC nowC dB HnB HtC) as (_ & _ & _ & _ & HC); [by rewrite HcB|].
  rewrite <-HcB. apply HC; done.
Qed.

Definition ex_ssh : SSHNodeConfig :=
  mkSSHNodeConfig "alpha" "10.0.0.5:2222" "root" "id" "" "" true "bin/agent" "" "gpu" "" true.

Definition ex_diagnoser : Diagnoser :=
  mkDiagnoser (mkDiagnosticsConfig true (60 * Second) (2 * Minute)) {["alpha" := ex_ssh]} ∅ [].

Definition ex_down (now : Z) : list Node * Time := ([ex_silent StateDown (timeUnix 1000)], timeUnix now).

Example diagnosis_spaced_witness :
  length (dg_triggered (check_all [ex_down 1070; ex_down 1080; ex_down 1180; ex_down 1190] ex_diagnoser)) = 2%nat ∧
  2 * Minute ≤ Sub (timeUnix 1190) (timeUnix 1070).
Proof.
  split; [vm_compute; reflexivity|].
  assert (named_nodes ex_diagnoser) as Hn.
  { intros y sn Hl. simpl in Hl. apply lookup_singleton_Some in Hl as [<- <-]. reflexivity. }
  assert (∀ now, 1060 ≤ now → silent_in (60 * Second) "alpha" (ex_down now)) as Hs.
  { intros now Hnow. constructor; [|constructor]. intros _. right; right.
    unfold ex_down, ex_silent, Sub, minDuration, maxDuration, timeUnix, Second, unixToInternal. simpl. lia. }
  refine (diagnosis_spaced "alpha" ex_diagnoser (ex_down 1070).1 (timeUnix 1070) [ex_down 1080; ex_down 1180]
    (ex_down 1190).1 (timeUnix 1190) Hn _ _ _).
  - repeat constructor; try (apply Hs; lia); vm_compute; done.
  - exists [(ex_ssh, 70 * Second)]. split; [vm_compute; reflexivity|]. exists (ex_ssh, 70 * Second). split; [left|reflexivity].
  - exists [(ex_ssh, 190 * Second)]. split; [vm_compute; reflexivity|]. exists (ex_ssh, 190 * Second). split; [left|reflexivity].
Defined.

(** ** A node announced twice *)

From S2P Require Import SQLite SQLiteProofs StoreExample SQLiteRefines.

(** The clock half a second past the timeout of the nodes' last heartbeat, then ten seconds later. *)
Definition ex_clock (i : nat) : Time :=
  match i with O => timeUnix 1030 + 500 * Millisecond | _ => timeUnix 1040 + 500 * Millisecond + Z.of_nat i end.

Definition ex_reaper : World DB * Engine :=
  (mkWorld (exec_calls [CallRegisterNode (ex_silent StateUp (timeUnix 1000))] emptyDB)
     ex_clock 0 (λ i, [Z.of_nat i; 1; 2; 3; 4; 5; 6; 7]) 0,
   mkEngine (Server_Notify DefaultServer) [] ∅ ∅ []).

(** The node.down events of the store, and the state of the node. *)
Definition down_events (st : World DB * Engine) : nat :=
  length (filter (λ kr, er_type kr.2 = TypeNodeDown) (map_to_list (db_events (w_store st.1)))).
Definition node_state_of (st : World DB * Engine) : option string := nr_state <$> (db_nodes (w_store st.1) !! "n1").

(** (safety) A lost node can be announced twice: the events compare instants in nanoseconds and the
    store in seconds, so a node last heard of in the second of the cutoff is announced but stays
    UP, and the next tick announces it again. *)
Theorem node_down_repeats :
  let st1 := (reapTick (30 * Second) (None, ex_reaper)).2.2 in
  let st2 := (reapTick (30 * Second) (None, st1)).2.2 in
  down_events st1 = 1%nat ∧ node_state_of st1 = Some StateUp ∧
  down_events st2 = 2%nat ∧ node_state_of st2 = Some StateDown.
Proof. vm_compute. auto. Qed.
