(* ===== verification/ServerClock.v ===== *)
(** * The clock of the control plane, and what its loops do to the store

    Handlers, the engine, the reaper and the detector read the clock and leave it running
    ([ticks]); announcing events changes no node and no job ([silent]).  The turns of the reaper
    are a tick of its loop. *)
From S2P Require Import Prelude GoBase GoStrings GoFloat Event Proto Store StoreSpec World Config Notify EngineFacts JobLog Transport Reap Server ServerTheorems.
Local Open Scope Z_scope.

Create HintDb clocks.

Section clock.
Context {S : Type} `{StoreLaws S}.
Implicit Types (c : Control S).

Notation engine_ticks := (ticks (λ st : World S * Engine, st.1)).

(** ** The engine *)

Lemma ticks_engine_now : engine_ticks (on_fst time_Now).
Proof. apply (ticks_on_fst id), ticks_time_Now. Qed.
Lemma ticks_engine_id : engine_ticks (on_fst newID).
Proof. apply (ticks_on_fst id), ticks_newID. Qed.
Lemma ticks_engine_store {A} (op : ST S A) : engine_ticks (on_fst (on_store op)).
Proof. apply (ticks_on_fst id), ticks_on_store. Qed.

Ltac ticking :=
  repeat first
    [ solve [eauto with clocks]
    | apply keeps_ret; apply _
    | apply keeps_bind; [apply _| |intros ?]
    | apply keeps_for; [apply _|intros ?]
    | apply ticks_same; intros [? ?]; reflexivity
    | case_step ].

#[local] Hint Resolve ticks_engine_now ticks_engine_id ticks_engine_store : clocks.

Lemma ticks_Emit ev : engine_ticks (Emit ev).
Proof. apply (keeps_Emit (λ _, True) later); intros; [apply ticks_time_Now|apply ticks_newID|apply ticks_on_store..]. Qed.

(** ** The handlers *)

Definition world_of c : World S := (ct_proc c).1.
Notation control_ticks := (ticks world_of).

Lemma ticks_on_proc {A} (op : ST (World S * Engine) A) : engine_ticks op → control_ticks (on_proc op).
Proof. intros Hop c _. specialize (Hop (ct_proc c) I). unfold on_proc. by destruct (op (ct_proc c)). Qed.

Lemma ticks_on_db {A} (op : ST S A) : control_ticks (on_db op).
Proof. apply ticks_on_proc, ticks_engine_store. Qed.
Lemma ticks_now : control_ticks now_.
Proof. apply ticks_on_proc, ticks_engine_now. Qed.
Lemma ticks_id : control_ticks id_.
Proof. apply ticks_on_proc, ticks_engine_id. Qed.
Lemma ticks_on_logs {A} (op : ST FS A) : control_ticks (on_logs op).
Proof. apply ticks_same. intros c. unfold on_logs. by destruct (op _). Qed.
Lemma ticks_on_metrics f : control_ticks (on_metrics f).
Proof. by apply ticks_same. Qed.

#[local] Hint Resolve ticks_on_db ticks_now ticks_id ticks_on_logs ticks_on_metrics : clocks.

Lemma ticks_emitJobEvent jobID state cd : control_ticks (emitJobEvent jobID state cd).
Proof. unfold emitJobEvent. ticking. apply ticks_on_proc, ticks_Emit. Qed.

#[local] Hint Resolve ticks_emitJobEvent : clocks.

Lemma ticks_ran {B} (h : ST (Control S) (rpc B)) : control_ticks h → control_ticks (ran h).
Proof. intros Hh c _. specialize (Hh c I). unfold ran. by destruct (h c). Qed.

Lemma ticks_handle rq : control_ticks (handle rq).
Proof.
  destruct rq; apply ticks_ran; cbv beta delta [RegisterNode Heartbeat ReportMetrics PollAssignments UpdateJobStatus AppendLogs ListNodes
    ListMetrics SubmitJob ListJobs GetJob CancelJob ListEvents ListNotifications required or_status] zeta; ticking.
  all: by apply ticks_same.
Qed.

(** ** The reaper *)

Lemma ticks_emitNodeDown nodes cutoff : engine_ticks (emitNodeDownEvents nodes cutoff).
Proof. apply keeps_for; [apply _|]. intros n. case_step; [apply keeps_ret, _|apply ticks_Emit]. Qed.

#[local] Hint Resolve ticks_emitNodeDown : clocks.

Lemma ticks_reapStep r : engine_ticks (reapStep r).
Proof. unfold reapStep. ticking. Qed.

Lemma silent_emitNodeDown nodes cutoff : silent (λ st : World S * Engine, w_store st.1) (emitNodeDownEvents nodes cutoff).
Proof. apply silent_for. intros n. case_step; [apply silent_ret|apply silent_Emit]. Qed.

(** The turn that lists and announces changes no node; the next one marks what is older than the
    instant that was read. *)
Lemma reapStep_waiting r p r' p' :
  rr_phase r = Waiting → inv (w_store p.1) → reapStep r p = (r', p') →
  inv (w_store p'.1) ∧ view (w_store p'.1) = view (w_store p.1) ∧
  (r' = r ∨ (w_tick p.1 < w_tick p'.1)%nat ∧ ∃ nodes, r' = at_phase (Marking (next_reading p.1) nodes) r).
Proof.
  intros Hr Hi. unfold reapStep. rewrite Hr. destruct p as [w e]. unfold st_bind, st_ret, on_fst, time_Now, on_store. simpl in *.
  destruct (store_ListNodes (w_store w)) as [[nodes|er] s'] eqn:E; destruct (lists_nodes _ _ _ Hi E) as (Hi' & Hv & _).
  - set (p1 := (mkWorld s' _ _ _ _, e)). set (cut := cutoffOf _ _).
    destruct (silent_emitNodeDown nodes cut (view (w_store w)) p1 (conj Hi' Hv)) as [Hi2 Hv2].
    destruct (ticks_emitNodeDown nodes cut p1 I) as [_ [_ Ht]].
    destruct (emitNodeDownEvents nodes cut p1) as [u p2]. intros [= <- <-]. split; [done|]. split; [done|]. right.
    simpl in Ht. split; [lia|]. by exists nodes.
  - intros [= <- <-]. split; [done|]. split; [done|]. by left.
Qed.

Lemma reapStep_marking r now nodes p :
  rr_phase r = Marking now nodes →
  ∃ res s', store_MarkStaleDown (cutoffOf (rr_timeout r) now) (w_store p.1) = (res, s') ∧ w_store (reapStep r p).2.1 = s' ∧
    (reapStep r p).1 = at_phase Waiting (if is_ok res then diagnosed nodes now r else r).
Proof.
  intros Hr. unfold reapStep. rewrite Hr. destruct p as [w e]. unfold st_bind, st_ret, on_fst, on_store. simpl.
  destruct (store_MarkStaleDown _ (w_store w)) as [res s']. exists res, s'. by destruct res.
Qed.

Lemma reapStep_timeout r p : rr_timeout (reapStep r p).1 = rr_timeout r.
Proof.
  unfold reapStep, st_bind, st_ret. destruct (rr_phase r) as [|now nodes].
  - destruct (on_fst time_Now p) as [t p1]. destruct (on_fst _ p1) as [[ns|er] p2]; [|done]. by destruct (emitNodeDownEvents _ _ p2).
  - by destruct (on_fst _ p) as [[n|er] p1].
Qed.

(** A tick of the loop is its turns one after the other: a single one if the nodes cannot be listed. *)
Lemma reapTick_steps timeout diag p :
  let '(n, (diag', p')) := reapTick timeout (diag, p) in
  let '(r1, p1) := reapStep (mkReaper timeout diag Waiting) p in
  match rr_phase r1 with
  | Waiting => n = None ∧ diag' = diag ∧ p' = p1
  | Marking _ _ => reapStep r1 p1 = (mkReaper timeout diag' Waiting, p')
  end.
Proof.
  unfold reapTick, reapStep, st_bind, st_ret, cutoffOf, on_snd, on_fst. destruct p as [w e]. simpl.
  destruct (on_store store_ListNodes _) as [[nodes|er] w1]; [|done]. simpl.
  destruct (emitNodeDownEvents nodes _ (w1, e)) as [u [w2 e2]]. simpl. by destruct (on_store _ w2) as [[n|er] w3].
Qed.

(** ** The detector *)

Notation scan_state := (Detector * (World S * Engine))%type.
Notation silent_scan := (silent (λ st : scan_state, w_store st.2.1)).

Lemma silent_emit_with d (e : World S * Engine) ev v :
  holds v (w_store e.1) → holds v (w_store (on_snd (sink_emit ev) (d : Detector, e)).2.2.1).
Proof. intros Hv. pose proof (silent_Emit ev v e Hv) as Hs. unfold on_snd. simpl. by destruct (Emit ev e). Qed.

Lemma silent_checkDisk node disk : silent_scan (checkDisk node disk).
Proof. intros v [d e] Hv. unfold checkDisk. repeat case_step; by try apply silent_emit_with. Qed.

Lemma silent_checkDevice n active now dev : silent_scan (checkDevice n active now dev).
Proof. intros v [d e] Hv. unfold checkDevice. repeat case_step; by try apply silent_emit_with. Qed.

Lemma silent_on_snd {A} (op : ST (World S * Engine) A) :
  silent (λ st, w_store st.1) op → silent_scan (on_snd op).
Proof. apply (silent_lift _ _ snd (λ p st, (st.1, p))); [|done..]. by intros [d p]. Qed.

Lemma silent_scanNode metrics active n : silent_scan (scanNodeMetrics metrics active n).
Proof.
  unfold scanNodeMetrics. case_decide; [apply silent_ret|]. destruct (metrics_Get _ _) as [[snap|] []]; [|apply silent_ret..].
  apply silent_bind; [apply silent_for; intros; apply silent_checkDisk|]. intros _.
  apply silent_bind; [apply silent_on_snd, silent_engine_now|]. intros now. apply silent_for. intros. apply silent_checkDevice.
Qed.

Lemma silent_detector metrics : silent_scan (detector_scan metrics).
Proof.
  apply silent_bind; [eapply silent_on_snd, silent_on_fst, silent_on_store, silent_query, lists_nodes|].
  intros [nodes|]; [|apply silent_ret].
  apply silent_bind; [eapply silent_on_snd, silent_on_fst, silent_on_store, silent_query, lists_active|].
  intros active. apply silent_for. intros. apply silent_scanNode.
Qed.

Notation scan_ticks := (ticks (λ st : scan_state, st.2.1)).

Lemma ticks_emit_with d0 d (e : World S * Engine) ev :
  ticked (λ st : scan_state, st.2.1) (d0, e) (on_snd (sink_emit ev) (d : Detector, e)).2.
Proof. pose proof (ticks_Emit ev e I) as [_ Hs]. unfold on_snd. simpl. by destruct (Emit ev e). Qed.

Lemma ticks_checkDisk node disk : scan_ticks (checkDisk node disk).
Proof. intros [d e] _. split; [done|]. unfold checkDisk. repeat case_step; first [apply ticks_emit_with | unfold ticked; simpl; reflexivity]. Qed.
Lemma ticks_checkDevice n active now dev : scan_ticks (checkDevice n active now dev).
Proof. intros [d e] _. split; [done|]. unfold checkDevice. repeat case_step; first [apply ticks_emit_with | unfold ticked; simpl; reflexivity]. Qed.

Lemma ticks_scan_engine {A} (op : ST (World S * Engine) A) : engine_ticks op → scan_ticks (on_snd op).
Proof. apply (ticks_on_snd (λ st : World S * Engine, st.1)). Qed.

#[local] Hint Resolve ticks_checkDisk ticks_checkDevice ticks_scan_engine : clocks.

Lemma ticks_detector metrics : scan_ticks (detector_scan metrics).
Proof. unfold detector_scan, scan, scanNodeMetrics, checkDisks, checkDevices. ticking. Qed.
End clock.
