(* ===== verification/Web.v ===== *)
(** * internal/server/webserver.go: the web console's JSON API

    The handlers act on the same state as the gRPC services.  A JSON body is a record with the
    source's fields; the decoded request body, the values of the query and the identifier in the
    path are arguments.  A handler returns what it has done to the [ResponseWriter]. *)
From Stdlib Require Import Ascii.
From S2P Require Import Prelude GoBase GoStrings GoFloat GoFormat GoParse Event Proto Store World Convert Config Notify JobLog Server.
Local Open Scope Z_scope.

(** ** The response *)

(** The Content-Type header as set so far; the status and header once they have been sent; the body. *)
Record ResponseWriter (A : Type) := mkRW {
  rw_type : string;
  rw_head : option (Z * string);
  rw_body : option (A + string)
}.
Arguments mkRW {A} _ _ _.
Arguments rw_type {A} _.
Arguments rw_head {A} _.
Arguments rw_body {A} _.

Definition newRW {A} : ResponseWriter A := mkRW "" None None.

Definition setType {A} (t : string) (rw : ResponseWriter A) : ResponseWriter A := mkRW t (rw_head rw) (rw_body rw).

(** [WriteHeader]: the headers set later are not sent. *)
Definition WriteHeader {A} (status : Z) (rw : ResponseWriter A) : ResponseWriter A :=
  match rw_head rw with
  | Some _ => rw
  | None => mkRW (rw_type rw) (Some (status, rw_type rw)) (rw_body rw)
  end.

(** The first write sends status 200 if none was. *)
Definition encode {A} (v : A + string) (rw : ResponseWriter A) : ResponseWriter A :=
  let rw := WriteHeader 200 rw in mkRW (rw_type rw) (rw_head rw) (Some v).

Definition jsonType : string := "application/json; charset=utf-8".

Definition writeJSON {A} (v : A) (rw : ResponseWriter A) : ResponseWriter A := encode (inl v) (setType jsonType rw).

(** The error object {"error": msg}. *)
Definition fail {A} (status : Z) (msg : string) (rw : ResponseWriter A) : ResponseWriter A :=
  encode (inr msg) (WriteHeader status (setType jsonType rw)).

(** ** The JSON objects *)

Record cpuJSON := mkCpuJSON {
  cpuJSON_Utilization : float64; cpuJSON_Load1 : float64; cpuJSON_Load5 : float64; cpuJSON_Load15 : float64;
  cpuJSON_Cores : Z
}.
Record memJSON := mkMemJSON {
  memJSON_TotalBytes : Z; memJSON_UsedBytes : Z; memJSON_AvailableBytes : Z; memJSON_UsedPercent : float64
}.
Record diskJSON := mkDiskJSON {
  diskJSON_Mount : string; diskJSON_Fstype : string; diskJSON_TotalBytes : Z; diskJSON_UsedBytes : Z;
  diskJSON_UsedPercent : float64; diskJSON_InodesUsedPercent : float64
}.
Record deviceJSON := mkDeviceJSON {
  deviceJSON_Kind : string; deviceJSON_Vendor : string; deviceJSON_Index : Z; deviceJSON_UUID : string;
  deviceJSON_Name : string; deviceJSON_MemTotalBytes : Z; deviceJSON_MemUsedBytes : Z;
  deviceJSON_Utilization : float64; deviceJSON_TemperatureC : float64; deviceJSON_PowerWatts : float64
}.
Record nodeJSON := mkNodeJSON {
  nodeJSON_ID : string; nodeJSON_Name : string; nodeJSON_Partition : string; nodeJSON_State : string;
  nodeJSON_Addr : string; nodeJSON_AgentVersion : string; nodeJSON_LastHeartbeatUnix : Z;
  nodeJSON_CPUs : Z; nodeJSON_MemTotalBytes : Z; nodeJSON_Labels : smap;
  nodeJSON_HasMetrics : bool; nodeJSON_MetricsAtUnix : Z;
  nodeJSON_CPU : option cpuJSON; nodeJSON_Mem : option memJSON;
  nodeJSON_Disks : list diskJSON; nodeJSON_Devices : list deviceJSON
}.
Record reqJSON := mkReqJSON {
  reqJSON_CPUs : Z; reqJSON_MemBytes : Z; reqJSON_GPUs : Z; reqJSON_GPUType : string; reqJSON_WalltimeSec : Z
}.
Record allocJSON := mkAllocJSON { allocJSON_Kind : string; allocJSON_Index : Z }.
Record jobJSON := mkJobJSON {
  jobJSON_ID : string; jobJSON_Name : string; jobJSON_Owner : string; jobJSON_Partition : string;
  jobJSON_State : string; jobJSON_Priority : Z; jobJSON_Command : string; jobJSON_Workdir : string;
  jobJSON_Env : smap; jobJSON_Request : reqJSON; jobJSON_NodeID : string; jobJSON_NodeName : string;
  jobJSON_Devices : list allocJSON; jobJSON_ExitCode : Z; jobJSON_Reason : string;
  jobJSON_SubmitAtUnix : Z; jobJSON_StartAtUnix : Z; jobJSON_EndAtUnix : Z
}.
Record eventJSON := mkEventJSON {
  eventJSON_ID : string; eventJSON_Type : string; eventJSON_Severity : string; eventJSON_Source : string;
  eventJSON_Summary : string; eventJSON_Labels : smap; eventJSON_TimeUnix : Z
}.
Record notifJSON := mkNotifJSON {
  notifJSON_ID : string; notifJSON_EventID : string; notifJSON_EventType : string; notifJSON_Rule : string;
  notifJSON_Channel : string; notifJSON_Recipients : string; notifJSON_Status : string; notifJSON_Error : string;
  notifJSON_Summary : string; notifJSON_TimeUnix : Z
}.
Record submitReq := mkSubmitReq {
  submitReq_Name : string; submitReq_Owner : string; submitReq_Partition : string; submitReq_Priority : Z;
  submitReq_Command : string; submitReq_Workdir : string; submitReq_CPUs : Z; submitReq_Mem : string;
  submitReq_GPUs : Z; submitReq_GPUType : string; submitReq_Walltime : string; submitReq_Env : smap
}.
Record cancelResp := mkCancelResp { cancelResp_ok : bool; cancelResp_state : string }.

(** ** Conversions *)

Definition statToJSON (d : pbDeviceStats) : deviceJSON :=
  mkDeviceJSON (pbDeviceStats_Kind d) (pbDeviceStats_Vendor d) (pbDeviceStats_Index d) (pbDeviceStats_Uuid d)
    (pbDeviceStats_Name d) (pbDeviceStats_MemTotalBytes d) (pbDeviceStats_MemUsedBytes d)
    (pbDeviceStats_Utilization d) (pbDeviceStats_TemperatureC d) (pbDeviceStats_PowerWatts d).

(** A device of the inventory: no readings. *)
Definition inventoryToJSON (d : Device) : deviceJSON :=
  mkDeviceJSON (Device_Kind d) (Device_Vendor d) (Device_Index d) (Device_UUID d) (Device_Name d)
    (Device_MemTotalBytes d) 0 (f64 0) (f64 0) (f64 0).

(** The devices of the snapshot if it lists any, else those of the inventory. *)
Definition nodeDevices (n : Node) (snap : option pbMetricsSnapshot) : list deviceJSON :=
  match get pbMetricsSnapshot_Devices [] snap with
  | [] => inventoryToJSON <$> Node_Devices n
  | devices => statToJSON <$> devices
  end.

Definition diskToJSON (d : pbDiskStats) : diskJSON :=
  mkDiskJSON (pbDiskStats_Mount d) (pbDiskStats_Fstype d) (pbDiskStats_TotalBytes d) (pbDiskStats_UsedBytes d)
    (pbDiskStats_UsedPercent d) (pbDiskStats_InodesUsedPercent d).

Definition nodeToJSON (metrics : MetricsStore) (n : Node) : nodeJSON :=
  let snap := (metrics_Get (Node_ID n) metrics).1 in
  mkNodeJSON (Node_ID n) (Node_Name n) (Node_Partition n) (Node_State n) (Node_Addr n) (Node_AgentVersion n)
    (if IsZero (Node_LastHeartbeat n) then 0 else Unix (Node_LastHeartbeat n))
    (Node_CPUs n) (Node_MemTotalBytes n) (Node_Labels n)
    (bool_decide (is_Some snap)) (get pbMetricsSnapshot_TimestampUnix 0 snap)
    (c ← get pbMetricsSnapshot_Cpu None snap;
     Some (mkCpuJSON (pbCPUStats_Utilization c) (pbCPUStats_Load1 c) (pbCPUStats_Load5 c) (pbCPUStats_Load15 c) (pbCPUStats_Cores c)))
    (m ← get pbMetricsSnapshot_Mem None snap;
     Some (mkMemJSON (pbMemStats_TotalBytes m) (pbMemStats_UsedBytes m) (pbMemStats_AvailableBytes m) (pbMemStats_UsedPercent m)))
    (diskToJSON <$> get pbMetricsSnapshot_Disks [] snap)
    (nodeDevices n snap).

Definition jobToJSON (j : Job) : jobJSON :=
  mkJobJSON (Job_ID j) (Job_Name j) (Job_Owner j) (Job_Partition j) (Job_State j) (Job_Priority j)
    (Job_Command j) (Job_Workdir j) (Job_Env j)
    (mkReqJSON (Job_ReqCPUs j) (Job_ReqMemBytes j) (Job_ReqGPUs j) (Job_GPUType j) (Job_WalltimeSec j))
    (Job_NodeID j) (Job_NodeName j)
    ((λ d, mkAllocJSON (Alloc_Kind d) (Alloc_Index d)) <$> Job_Devices j)
    (Job_ExitCode j) (Job_Reason j)
    (unixOrZero (Job_SubmitAt j)) (unixOrZero (Job_StartAt j)) (unixOrZero (Job_EndAt j)).

Definition eventToJSON (e : Event) : eventJSON :=
  mkEventJSON (Event_ID e) (Event_Type e) (Event_Severity e) (Event_Source e) (Event_Summary e) (Event_Labels e)
    (unixOrZero (Event_Time e)).

Definition notifToJSON (n : Notification) : notifJSON :=
  mkNotifJSON (Note_ID n) (Note_EventID n) (Note_EventType n) (Note_Rule n)
    (Note_Channel n) (Note_Recipients n) (Note_Status n) (Note_Error n)
    (Note_Summary n) (unixOrZero (Note_Time n)).

(** ** Helpers *)

(** [value] is the query value of the key; anything but a positive number yields the default. *)
Definition queryInt (value : string) (def : Z) : Z :=
  if decide (value = "") then def
  else match Atoi value with
       | Some n => if 0 <? n then n else def
       | None => def
       end.

Section parsing.
Context `{FloatToInt, ErrorText}.

Definition parseWalltime (s : string) : result Z :=
  let s := TrimSpace s in
  if decide (s = "" ∨ s = "0") then Ok 0
  else match ParseDuration s with
       | None => Err (ParseDuration_error s)
       | Some d => if d <? 0 then Err "negative duration" else Ok (f2i (Seconds d))
       end.

(** The factor of the suffix and what precedes it. *)
Definition sizeUnit (s : string) : Z * string :=
  if HasSuffix s "K" then (2 ^ 10, TrimSuffix s "K")
  else if HasSuffix s "M" then (2 ^ 20, TrimSuffix s "M")
  else if HasSuffix s "G" then (2 ^ 30, TrimSuffix s "G")
  else if HasSuffix s "T" then (2 ^ 40, TrimSuffix s "T")
  else (1, s).

Definition parseSize `{UnicodeCase} (s : string) : result Z :=
  let s := TrimSpace s in
  if decide (s = "" ∨ s = "0") then Ok 0
  else
    let s := TrimSuffix (ToUpper s) "B" in
    let s := TrimSuffix s "I" in
    let '(mult, s) := sizeUnit s in
    match ParseFloat (TrimSpace s) with
    | None => Err (ParseFloat_error (TrimSpace s))
    | Some n => if fltb n (f64 0) then Err "negative size" else Ok (f2u (fmul n (f64 mult)))
    end.
End parsing.

(** ** The handlers *)

Section web.
Context {S : Type} `{!Store S}.
Context `{FloatToInt, ErrorText, UnicodeCase}.

Notation handler A := (ST (Control S) (ResponseWriter A)).

(** [if err != nil { fail; return }] for an operation of the store. *)
Definition or_fail {A B} (status : Z) (msg : string) (op : ST S (result A)) (k : A → handler B) : handler B :=
  r <- on_db op ;; match r with Ok a => k a | Err _ => st_ret (fail status msg newRW) end.

Definition web_listNodes : handler (list nodeJSON) :=
  or_fail 500 "list nodes failed" store_ListNodes (λ nodes c,
    (writeJSON (nodeToJSON (ct_metrics c) <$> nodes) newRW, c)).

Definition web_listJobs (state owner : string) : handler (list jobJSON) :=
  or_fail 500 "list jobs failed" (store_ListJobs (ToUpper (TrimSpace state)) (TrimSpace owner)) (λ jobs,
    st_ret (writeJSON (jobToJSON <$> jobs) newRW)).

Definition web_getJob (id : string) : handler jobJSON :=
  or_fail 500 "get job failed" (store_GetJob id) (λ j,
    st_ret (match j with
            | None => fail 404 "job not found" newRW
            | Some j => writeJSON (jobToJSON j) newRW
            end)).

Definition web_job (id : string) (now : Time) (memBytes walltime : Z) (req : submitReq) : Job :=
  mkJob id (submitReq_Name req) (ownerOrDefault (submitReq_Owner req)) (submitReq_Partition req) JobPending
    (submitReq_Priority req) (submitReq_Command req) (submitReq_Env req) (submitReq_Workdir req)
    (submitReq_CPUs req) memBytes (submitReq_GPUs req) (submitReq_GPUType req) walltime
    "" "" [] 0 "" now 0 0.

(** [body] is the decoded request body, [None] if it is no JSON object of that form. *)
Definition web_submitJob (body : option submitReq) : handler string :=
  match body with
  | None => st_ret (fail 400 "invalid JSON body" newRW)
  | Some req =>
      if decide (TrimSpace (submitReq_Command req) = "") then st_ret (fail 400 "command is required" newRW)
      else match parseSize (submitReq_Mem req) with
           | Err e => st_ret (fail 400 ("invalid mem: " +:+ e) newRW)
           | Ok memBytes =>
               match parseWalltime (submitReq_Walltime req) with
               | Err e => st_ret (fail 400 ("invalid walltime: " +:+ e) newRW)
               | Ok walltime =>
                   id <- id_ ;; now <- now_ ;;
                   or_fail 500 "submit job failed" (store_CreateJob (web_job id now memBytes walltime req)) (λ _,
                     st_ret (writeJSON id (WriteHeader 201 newRW)))
               end
           end
  end.

Definition web_cancelJob (id : string) : handler cancelResp :=
  now <- now_ ;;
  r <- on_db (store_CancelJob id now) ;;
  st_ret (match r with
          | Err e => fail 404 e newRW
          | Ok state => writeJSON (mkCancelResp true state) newRW
          end).

Definition web_listEvents (limit : string) : handler (list eventJSON) :=
  or_fail 500 "list events failed" (store_ListEvents (queryInt limit 100)) (λ es,
    st_ret (writeJSON (eventToJSON <$> es) newRW)).

Definition web_listNotifications (limit : string) : handler (list notifJSON) :=
  or_fail 500 "list notifications failed" (store_ListNotifications (queryInt limit 100)) (λ ns,
    st_ret (writeJSON (notifToJSON <$> ns) newRW)).
End web.

(** ** The log stream

    As [JobLog], with the surroundings of a [Watch]; a failure ends the stream without a message,
    the status line being sent already. *)

Section stream.
Context (j : jobLogStore) (w : Watch) (bufSize : nat).

Fixpoint drainLogsHTTP (fuel : nat) (p : string) (off : nat) (s : Stream) : option (option string * Stream) :=
  match fuel with
  | O => None
  | S fuel' =>
      let t := sm_t s in
      match wt_read w t with
      | Some e => Some (Some e, tick s)
      | None =>
          let chunk := str_take bufSize (str_drop off (contentAt w p t)) in
          if decide (chunk = "") then Some (None, tick s)
          else let off := (off + strlen chunk)%nat in
               match wt_send w t with
               | Some e => Some (Some e, mkStream (S t) (Some (p, off)) (sm_sent s))
               | None => drainLogsHTTP fuel' p off (mkStream (S t) (Some (p, off)) (sm_sent s ++ [chunk]))
               end
      end
  end.

Definition drainHTTP (fuel : nat) (s : Stream) : option (option string * Stream) :=
  match sm_file s with
  | None => Some (None, s)
  | Some (p, off) => drainLogsHTTP fuel p off s
  end.

(** The loop of [jobLogsStream], which waits 400 milliseconds between its rounds. *)
Fixpoint streamLoop (fuel : nat) (id : string) (follow : bool) (s : Stream) : option Stream :=
  match fuel with
  | O => None
  | S fuel' =>
      let opening :=
        match sm_file s with
        | Some _ => Some s
        | None =>
            match open j id (wt_open w (sm_t s)) (wt_files w (sm_t s)) with
            | Opened p => Some (mkStream (S (sm_t s)) (Some (p, O)) (sm_sent s))
            | NotExist => Some (tick s)
            | OpenErr _ => None
            end
        end in
      match opening with
      | None => Some (tick s)
      | Some s =>
          '(r, s) ← drainHTTP fuel' s;
          match r with
          | Some _ => Some s
          | None =>
              if negb follow then Some s
              else if ended w s then '(_, s) ← drainHTTP fuel' (tick s); Some s
              else match pause w 400 (tick s) with
                   | (Some _, s) => Some s
                   | (None, s) => streamLoop fuel' id follow s
                   end
          end
      end
  end.

(** [follow] is the query value; the answer is an error response, or the text streamed. *)
Definition jobLogsStream (fuel : nat) (id follow : string) : option (ResponseWriter Empty_set + Stream) :=
  let s := mkStream O None [] in
  match wt_job w O with
  | Err _ => Some (inl (fail 500 "get job failed" newRW))
  | Ok None => Some (inl (fail 404 "job not found" newRW))
  | Ok (Some _) => inr <$> streamLoop fuel id (bool_decide (follow = "1") || bool_decide (follow = "true")) (tick s)
  end.
End stream.

(** ** Static files *)

(** The path that the file server is asked for, given which names can be opened. *)
Definition spaHandler (opens : string → bool) (urlPath : string) : string :=
  let p := TrimPrefix urlPath "/" in
  let p := if decide (p = "") then "index.html" else p in
  if opens p then urlPath else "/".

(** ** Routes *)

Inductive route :=
| RtListNodes | RtListJobs | RtSubmitJob | RtGetJob (id : string) | RtCancelJob (id : string) | RtJobLogs (id : string)
| RtListEvents | RtListNotifications | RtHealthz | RtAssets.

(** [handler]: the most specific pattern for the method and the decoded segments of the cleaned path; a
    GET pattern also takes HEAD; what no pattern of the API matches goes to the static files. *)
Definition handler (method : string) (segments : list string) : route :=
  let is_get := bool_decide (method = "GET") || bool_decide (method = "HEAD") in
  let is_post := bool_decide (method = "POST") in
  match segments with
  | [h] => if bool_decide (h = "healthz") && is_get then RtHealthz else RtAssets
  | [api; v1; what] =>
      if negb (bool_decide (api = "api") && bool_decide (v1 = "v1")) then RtAssets
      else if bool_decide (what = "nodes") && is_get then RtListNodes
      else if bool_decide (what = "jobs") && is_get then RtListJobs
      else if bool_decide (what = "jobs") && is_post then RtSubmitJob
      else if bool_decide (what = "events") && is_get then RtListEvents
      else if bool_decide (what = "notifications") && is_get then RtListNotifications
      else RtAssets
  | [api; v1; what; id] =>
      if bool_decide (api = "api") && bool_decide (v1 = "v1") && bool_decide (what = "jobs") && is_get &&
         bool_decide (id ≠ "") then RtGetJob id else RtAssets
  | [api; v1; what; id; verb] =>
      if negb (bool_decide (api = "api") && bool_decide (v1 = "v1") && bool_decide (what = "jobs") && bool_decide (id ≠ ""))
      then RtAssets
      else if bool_decide (verb = "cancel") && is_post then RtCancelJob id
      else if bool_decide (verb = "logs") && is_get then RtJobLogs id
      else RtAssets
  | _ => RtAssets
  end.

Example parseSize_1 : @parseSize amd64 some_wording ascii_case " 1.5gib" = Ok 1610612736 ∧
  @parseSize amd64 some_wording ascii_case "512M" = Ok 536870912 ∧ @parseSize amd64 some_wording ascii_case "-1K" = Err "negative size".
Proof. split_and!; vm_compute; reflexivity. Qed.
Example parseWalltime_1 : @parseWalltime amd64 some_wording "1h30m" = Ok 5400.
Proof. vm_compute. reflexivity. Qed.
