(* ===== verification/WebTheorems.v ===== *)
(** * The web console and the gRPC services tell the same story *)
From Stdlib Require Import Ascii.
From S2P Require Import Prelude GoBase GoStrings GoFloat GoFormat GoParse FloatFacts Event Proto Store World Convert Config ConfigTheorems Notify JobLog JobLogTheorems Server Web.
Local Open Scope Z_scope.

(** ** The answers, compared *)

(** The JSON form of a job message. *)
Definition jobOfProto (j : pbJob) : jobJSON :=
  let r := pbJob_Request j in
  mkJobJSON (pbJob_Id j) (pbJob_Name j) (pbJob_Owner j) (pbJob_Partition j) (pbJob_State j) (pbJob_Priority j)
    (pbJob_Command j) (pbJob_Workdir j) (pbJob_Env j)
    (mkReqJSON (get pbResourceRequest_Cpus 0 r) (get pbResourceRequest_MemBytes 0 r) (get pbResourceRequest_Gpus 0 r)
       (get pbResourceRequest_GpuType "" r) (get pbResourceRequest_WalltimeSec 0 r))
    (pbJob_NodeId j) (pbJob_NodeName j)
    ((λ d, mkAllocJSON (pbDeviceAssignment_Kind d) (pbDeviceAssignment_Index d)) <$> pbJob_Devices j)
    (pbJob_ExitCode j) (pbJob_Reason j) (pbJob_SubmitAtUnix j) (pbJob_StartAtUnix j) (pbJob_EndAtUnix j).

Definition eventOfProto (e : pbEvent) : eventJSON :=
  mkEventJSON (pbEvent_Id e) (pbEvent_Type e) (pbEvent_Severity e) (pbEvent_Source e) (pbEvent_Summary e)
    (pbEvent_Labels e) (pbEvent_TimeUnix e).

Definition notifOfProto (n : pbNotification) : notifJSON :=
  mkNotifJSON (pbNotification_Id n) (pbNotification_EventId n) (pbNotification_EventType n) (pbNotification_Rule n)
    (pbNotification_Channel n) (pbNotification_Recipients n) (pbNotification_Status n) (pbNotification_Error n)
    (pbNotification_Summary n) (pbNotification_TimeUnix n).

Lemma jobOfProto_job j : jobOfProto (jobToProto j) = jobToJSON j.
Proof.
  unfold jobOfProto, jobToProto, jobToJSON, allocDevicesToProto. cbn. f_equal.
  by rewrite <-list_fmap_compose.
Qed.
Lemma eventOfProto_event e : eventOfProto (eventToProto e) = eventToJSON e.
Proof. done. Qed.
Lemma notifOfProto_note n : notifOfProto (notificationToProto n) = notifToJSON n.
Proof. done. Qed.

(** The HTTP status of a status code. *)
Definition httpStatus (c : code) : Z :=
  match c with InvalidArgument => 400 | NotFound => 404 | Internal => 500 end.

(** An HTTP response that says what a gRPC answer says: the reply in JSON with the status for
    success, or the same message under the corresponding status. *)
Definition same_answer {A B} (success : Z) (json : A → B) (a : rpc A) (rw : ResponseWriter B) : Prop :=
  match a with
  | Reply x => fst <$> rw_head rw = Some success ∧ rw_body rw = Some (inl (json x))
  | Status c msg => rw_head rw = Some (httpStatus c, jsonType) ∧ rw_body rw = Some (inr msg)
  end.

(** Two handlers on one state: the same answer and the same state afterwards. *)
Definition agree {S A B} (success : Z) (json : A → B) (g : rpc A * Control S) (h : ResponseWriter B * Control S) : Prop :=
  same_answer success json g.1 h.1 ∧ g.2 = h.2.

Section agreement.
Context {S : Type} `{!Store S} `{FloatToInt, ErrorText, UnicodeCase}.

(** The handlers make the same store call: what follows it agrees if the continuations do. *)
Lemma or_fail_agrees {A B C} success (json : B → C) msg (op : ST S (result A)) k1 k2 (c : Control S) :
  (∀ a c', agree success json (k1 a c') (k2 a c')) →
  agree success json (or_status Internal msg (on_db op) k1 c) (or_fail 500 msg op k2 c).
Proof.
  intros Hk. unfold or_status, or_fail, st_bind. destruct (on_db op c) as [[a|e] c']; [apply Hk|]. done.
Qed.

(** The job of a request, in the two forms. *)
Definition requestOf (memBytes walltime : Z) (req : submitReq) : pbSubmitJobRequest :=
  mkPbSubmitJobRequest (submitReq_Name req) (submitReq_Owner req) (submitReq_Partition req) (submitReq_Priority req)
    (submitReq_Command req) (submitReq_Env req) (submitReq_Workdir req)
    (Some (mkPbResourceRequest (submitReq_CPUs req) memBytes (submitReq_GPUs req) (submitReq_GPUType req) walltime)).

(** The gRPC request that a well-formed body stands for. *)
Definition accepted (body : option submitReq) : option pbSubmitJobRequest :=
  match body with
  | None => None
  | Some req =>
      match decide (TrimSpace (submitReq_Command req) = ""), parseSize (submitReq_Mem req), parseWalltime (submitReq_Walltime req) with
      | right _, Ok m, Ok w => Some (requestOf m w req)
      | _, _, _ => None
      end
  end.

(** [C33] (equivalence) Two ways of submitting: a submission through the web console that names a
    command and a readable memory size and time limit does to the control plane exactly what the
    gRPC submission of those values does, and answers 201 with the same identifier, or 500 with
    the same message; any other body is answered 400 and changes nothing. *)
Theorem web_submitJob_agrees body (c : Control S) :
  let h := web_submitJob body c in
  match accepted body with
  | Some req => agree 201 pbSubmitJobResponse_JobId (SubmitJob req c) h
  | None => rw_head h.1 = Some (400, jsonType) ∧ (∃ msg, rw_body h.1 = Some (inr msg)) ∧ h.2 = c
  end.
Proof.
  unfold accepted, web_submitJob. destruct body as [req|]; [|by eauto].
  destruct (decide (TrimSpace (submitReq_Command req) = "")) as [|Hne]; [by eauto|].
  destruct (parseSize _) as [m|]; [|by eauto]. destruct (parseWalltime _) as [w|]; [|by eauto].
  unfold SubmitJob, required. rewrite decide_False.
  2: { cbn. intros E. rewrite E in Hne. done. }
  unfold st_bind. destruct (id_ c) as [id c1]. destruct (now_ c1) as [now c2].
  assert (submittedJob id now (requestOf m w req) = web_job id now m w req) as -> by done.
  by apply (or_fail_agrees 201 pbSubmitJobResponse_JobId).
Qed.

(** (equivalence) Two views of the cluster: reading a job, cancelling it, and listing jobs, events
    and notifications through the web console give what the gRPC services give for the same
    parameters (the state filter in upper case, both filters trimmed, the limit a positive number,
    otherwise 100), in JSON or as the same error, and leave the control plane in the same state. *)
Theorem web_views_agree id state owner limit (c : Control S) :
  let lim := queryInt limit 100 in
  agree 200 jobOfProto (GetJob (mkPbGetJobRequest id) c) (web_getJob id c) ∧
  (id ≠ "" → agree 200 (λ r, mkCancelResp (pbCancelJobResponse_Ok r) (pbCancelJobResponse_State r))
     (CancelJob (mkPbCancelJobRequest id) c) (web_cancelJob id c)) ∧
  agree 200 (λ r, jobOfProto <$> pbListJobsResponse_Jobs r)
    (ListJobs (mkPbListJobsRequest (ToUpper (TrimSpace state)) (TrimSpace owner)) c) (web_listJobs state owner c) ∧
  agree 200 (λ r, eventOfProto <$> pbListEventsResponse_Events r) (ListEvents (mkPbListEventsRequest lim) c) (web_listEvents limit c) ∧
  agree 200 (λ r, notifOfProto <$> pbListNotificationsResponse_Notifications r)
    (ListNotifications (mkPbListNotificationsRequest lim) c) (web_listNotifications limit c) ∧
  0 < lim.
Proof.
  intros lim. split; [|split; [|split; [|split; [|split]]]].
  - apply or_fail_agrees. intros [j|] c'; [|done]. split; [|done]. split; [done|]. cbn. by rewrite jobOfProto_job.
  - intros Hid. unfold CancelJob, web_cancelJob, required. rewrite decide_False by done.
    unfold st_bind. destruct (now_ c) as [now c1]. cbn. destruct (on_db _ c1) as [[s|e] c2]; done.
  - apply or_fail_agrees. intros js c'. split; [|done]. split; [done|]. cbn. rewrite <-list_fmap_compose.
    do 2 f_equal. apply list_fmap_ext. intros i j _. symmetry. apply jobOfProto_job.
  - apply or_fail_agrees. intros es c'. split; [|done]. split; [done|]. cbn. by rewrite <-list_fmap_compose.
  - apply or_fail_agrees. intros ns c'. split; [|done]. split; [done|]. cbn. by rewrite <-list_fmap_compose.
  - unfold lim, queryInt. repeat case_match; bool_to_prop; lia.
Qed.
End agreement.

(** ** The log streams *)

Section streams.
Context (j : jobLogStore) (w : Watch) (buf : nat).

(** A drain in either form: did it fail, and the state after it. *)
Definition outcome {E} (r : option E * Stream) : bool * Stream := (bool_decide (is_Some r.1), r.2).

Lemma drainLogsHTTP_agrees fuel p off s : outcome <$> drainLogsHTTP w buf fuel p off s = outcome <$> drainLogs w buf fuel p off s.
Proof.
  revert off s; induction fuel as [|fuel IH]; intros off s; [done|]. cbn [drainLogsHTTP drainLogs].
  destruct (wt_read w (sm_t s)); [done|]. case_decide; [done|]. destruct (wt_send w (sm_t s)); [done|]. apply IH.
Qed.

Lemma drainHTTP_agrees fuel s : outcome <$> drainHTTP w buf fuel s = outcome <$> drain w buf fuel s.
Proof. unfold drainHTTP, drain. destruct (sm_file s) as [[p off]|]; [apply drainLogsHTTP_agrees|done]. Qed.

(** Of two beginnings of a log that grows, seen at whatever instants, one is a beginning of the other. *)
Lemma str_comparable (a b x y : string) : a +:+ x = b +:+ y → ∃ rest, a +:+ rest = b ∨ b +:+ rest = a.
Proof.
  revert b; induction a as [|c a IH]; intros [|d b] E; [exists ""; by left|exists (String d b); by left|exists (String c a); by right|].
  injection E as -> E. destruct (IH b E) as [rest [<-|<-]]; exists rest; [by left|by right].
Qed.

Lemma grows_comparable p t1 t2 a b x y :
  grows w p → contentAt w p t1 = a +:+ x → contentAt w p t2 = b +:+ y → ∃ rest, a +:+ rest = b ∨ b +:+ rest = a.
Proof.
  intros Hg E1 E2. destruct (decide (t1 ≤ t2)%nat) as [Ht|Ht].
  - destruct (grows_later w p Hg t1 t2 Ht) as [m Em]. apply (str_comparable a b (x +:+ m) y). by rewrite <-E2, Em, E1, str_app_assoc.
  - destruct (grows_later w p Hg t2 t1 ltac:(lia)) as [m Em]. apply (str_comparable a b x (y +:+ m)). by rewrite <-E1, Em, E2, str_app_assoc.
Qed.

(** The loop does what that of the gRPC service would do with its pause. *)
Lemma streamLoop_agrees fuel id follow s : streamLoop j w buf fuel id follow s = snd <$> followLogs j w buf 400 fuel id follow s.
Proof.
  revert s; induction fuel as [|fuel IH]; intros s; [done|]. cbn [streamLoop followLogs]. unfold tryOpen.
  assert (∀ s1, (let rec := streamLoop j w buf fuel id follow in
    '(r, s) ← drainHTTP w buf fuel s1;
     match r with
     | Some _ => Some s
     | None => if negb follow then Some s
               else if ended w s then '(_, s) ← drainHTTP w buf fuel (tick s); Some s
               else match pause w 400 (tick s) with (Some _, s) => Some s | (None, s) => rec s end
     end) =
    snd <$> ('(r, s) ← drain w buf fuel s1;
     match r with
     | Some e => Some (Some e, s)
     | None => if negb follow then Some (None, s)
               else if ended w s then drain w buf fuel (tick s)
               else match pause w 400 (tick s) with
                    | (Some e, s) => Some (Some (StreamErr e), s)
                    | (None, s) => followLogs j w buf 400 fuel id follow s
                    end
     end)) as Hbody.
  { intros s1. pose proof (drainHTTP_agrees fuel s1) as E. cbn zeta.
    destruct (drainHTTP w buf fuel s1) as [[r1 s2]|], (drain w buf fuel s1) as [[r2 s2']|]; try done.
    injection E as Er <-. cbn [mbind option_bind]. destruct r1, r2; try done. destruct follow; [|done]. cbn [negb].
    destruct (ended w s2).
    - pose proof (drainHTTP_agrees fuel (tick s2)) as E.
      destruct (drainHTTP w buf fuel (tick s2)) as [[? ?]|], (drain w buf fuel (tick s2)) as [[? ?]|]; try done.
      by injection E as _ <-.
    - destruct (pause w 400 _) as [[e|] s3]; [done|]. apply IH. }
  destruct (sm_file s); [apply Hbody|]. destruct (open j id _ _); [apply Hbody..|done].
Qed.

(** [C34] (equivalence) Two ways of reading a log, the gRPC service's, which looks again every 300
    milliseconds, and the web console's, which looks every 400: while the log only grows, what the one
    refuses the other refuses with the same message, before anything is sent; of what they
    have sent when they end, whatever failed meanwhile, one is a beginning of the other; and
    followers of a job that ends, where nothing fails and the log is complete whenever the job is
    seen to have ended, both end, and those that found the file have sent the same log, all
    of it. *)
Theorem jobLogsStream_agrees id p follow :
  (0 < buf)%nat → path j id = Ok p → grows w p →
  let following := bool_decide (follow = "1") || bool_decide (follow = "true") in
  let req := mkPbGetJobLogsRequest id following in
  (∀ fuel, match wt_job w 0 with
   | Ok (Some _) => ∀ rw, jobLogsStream j w buf fuel id follow ≠ Some (inl rw)
   | _ => ∃ rw c msg s, jobLogsStream j w buf fuel id follow = Some (inl rw) ∧
       GetJobLogs j w buf fuel req = Some (Some (StreamStatus c msg), s) ∧
       rw_head rw = Some (httpStatus c, jsonType) ∧ rw_body rw = Some (inr msg) ∧ sm_sent s = []
   end) ∧
  (∀ fuel1 fuel2 s1 r s2, jobLogsStream j w buf fuel1 id follow = Some (inr s1) → GetJobLogs j w buf fuel2 req = Some (r, s2) →
     ∃ rest, str_concat (sm_sent s1) +:+ rest = str_concat (sm_sent s2) ∨ str_concat (sm_sent s2) +:+ rest = str_concat (sm_sent s1)) ∧
  (∀ c T jb, following = true →
     (∀ t, wt_read w t = None ∧ wt_send w t = None ∧ wt_open w t = None ∧ wt_done w t = None) →
     wt_job w 0 = Ok (Some jb) →
     (∀ t, (T ≤ t)%nat → ∃ jb, wt_job w t = Ok (Some jb) ∧ isTerminalState (Job_State jb) = true) →
     (∀ t jb, wt_job w t = Ok (Some jb) → isTerminalState (Job_State jb) = true → ∀ t', (t ≤ t')%nat → contentAt w p t' = c) →
     ∀ fuel, (strlen c + T + 2 ≤ fuel)%nat →
     ∃ s1 s2, jobLogsStream j w buf fuel id follow = Some (inr s1) ∧ GetJobLogs j w buf fuel req = Some (None, s2) ∧
       (sm_file s1 ≠ None → str_concat (sm_sent s1) = c) ∧ (sm_file s2 ≠ None → str_concat (sm_sent s2) = c)).
Proof.
  intros Hbuf Hp Hg following req. assert (id ≠ "") as Hid by (by intros ->).
  assert (in_step w p (tick (mkStream 0 None []))) as Hin by exact eq_refl.
  assert (∀ fuel, GetJobLogs j w buf fuel req = match wt_job w 0 with
    | Err _ => Some (Some (StreamStatus Internal "get job failed"), tick (mkStream 0 None []))
    | Ok None => Some (Some (StreamStatus NotFound "job not found"), tick (mkStream 0 None []))
    | Ok (Some _) => followLogs j w buf 300 fuel id following (tick (mkStream 0 None [])) end) as Hget
    by (intros fuel; unfold GetJobLogs; cbn [req pbGetJobLogsRequest_JobId pbGetJobLogsRequest_Follow]; by rewrite decide_False).
  unfold jobLogsStream. fold following. split; [|split].
  - intros fuel. rewrite Hget. destruct (wt_job w 0) as [[jb|]|e]; [|by do 4 eexists..]. intros rw. by destruct (streamLoop _ _ _ _ _ _ _).
  - intros f1 f2 s1 r s2. rewrite Hget. destruct (wt_job w 0) as [[jb|]|e]; [|done..]. rewrite streamLoop_agrees.
    destruct (followLogs _ _ _ 400 _ _ _ _) as [[r1 s1']|] eqn:E1; [|done]. intros [= ->] E2.
    destruct (followLogs_all j w buf p Hbuf Hg id Hp _ _ _ _ _ _ Hin E1) as [[x1 H1] _].
    destruct (followLogs_all j w buf p Hbuf Hg id Hp _ _ _ _ _ _ Hin E2) as [[x2 H2] _].
    by eapply (grows_comparable p).
  - intros c T jb Hf Hok Hjob Hended Hfull fuel Hfuel. rewrite Hget, Hjob, Hf, streamLoop_agrees.
    destruct (followLogs_whole j w buf id p c T 400 fuel Hbuf Hp Hg Hok Hended Hfull Hfuel) as (s1 & -> & H1).
    destruct (followLogs_whole j w buf id p c T 300 fuel Hbuf Hp Hg Hok Hended Hfull Hfuel) as (s2 & -> & H2).
    by exists s1, s2.
Qed.
End streams.

(** ** Sizes and time limits *)

(** The spellings of a unit and its power of two. *)
Definition sizeUnits : list (string * Z) :=
  [("", 0); ("B", 0); ("b", 0)] ++
  ('(l, k) ← [("K", 10); ("k", 10); ("M", 20); ("m", 20); ("G", 30); ("g", 30); ("T", 40); ("t", 40)];
   suffix ← [""; "B"; "b"; "i"; "I"; "iB"; "ib"; "IB"]; [(l +:+ suffix, k)]).

Section limits.
Context `{FloatToInt, ErrorText, UnicodeCase}.

(** Suffixes are removed and units recognised behind digits as they are alone. *)
Lemma sizeUnit_digits s w :
  str_forall is_digit s = true → sizeUnit (s +:+ w) = ((sizeUnit w).1, s +:+ (sizeUnit w).2).
Proof. intros Hs. unfold sizeUnit. rewrite !HasSuffix_digits, !TrimSuffix_digits by done. by repeat case_match. Qed.

(** The unit that remains of a spelling. *)
Definition unitOf (u : string) : Z * string :=
  sizeUnit (TrimSuffix (TrimSuffix (str_map upper_byte u) "B") "I").

Lemma sizeUnits_ok :
  Forall (λ x, is_ascii x.1 = true ∧ (x.1 = "" ∨ head_graphic (str_rev x.1) = true) ∧ unitOf x.1 = (2 ^ x.2, "") ∧
    0 ≤ x.2 ≤ 100 ∧ f64 (2 ^ x.2) = S754_finite false 4503599627370496 (x.2 - 52)) sizeUnits.
Proof.
  assert (sizeUnits = ltac:(let l := eval vm_compute in sizeUnits in exact l)) as -> by reflexivity.
  repeat (apply Forall_cons; split;
    [split_and!; [reflexivity|first [left; reflexivity|right; reflexivity]|reflexivity|done|done|reflexivity]|]).
  apply Forall_nil_2.
Qed.

Lemma parseSize_units n u k :
  (u, k) ∈ sizeUnits → 0 ≤ n < 2 ^ 53 → n * 2 ^ k < 2 ^ 64 → parseSize (itoa n +:+ u) = Ok (n * 2 ^ k).
Proof.
  intros Hu Hn Hlt. destruct (proj1 (Forall_forall _ _) sizeUnits_ok _ Hu) as (Ha & Hg & Hunit & Hk & Hpow). cbn [fst snd] in *.
  destruct (itoa_digits n) as (Hd & Hv & Hne); [lia|].
  assert (TrimSpace (itoa n +:+ u) = itoa n +:+ u) as Ht.
  { apply TrimSpace_tight. unfold tight. rewrite str_rev_append. pose proof (itoa_tight n ltac:(lia)) as Hi.
    unfold tight in Hi. apply andb_true_iff in Hi as [H1' H2']. rewrite head_graphic_app by done.
    destruct Hg as [->|Hg]; [done|]. by rewrite head_graphic_app. }
  unfold parseSize. rewrite Ht. case_decide as Hz.
  { assert (itoa n = "0" ∧ u = "") as [E0 ->].
    { destruct (itoa n) as [|c s]; [done|]. destruct Hz as [Hz|Hz]; [done|]. injection Hz as -> Hz.
      destruct s, u; done. }
    rewrite E0 in Hv. cbn in Hv. by rewrite <-Hv. }
  rewrite ToUpper_digits, !TrimSuffix_digits, sizeUnit_digits by done. fold (unitOf u). rewrite Hunit. cbn [fst snd].
  rewrite str_app_nil_r, TrimSpace_tight by (by apply itoa_tight; lia). rewrite ParseFloat_itoa, f64_not_neg by done.
  unfold f2u. rewrite (fmul_f64_pow2 n k) by done.
  rewrite (proj2 (Z.leb_le _ _)), (proj2 (Z.ltb_lt _ _)) by nia. done.
Qed.

Lemma parseWalltime_String n : 0 ≤ n → n * Second < 2 ^ 63 → parseWalltime (Duration_String (n * Second)) = Ok n.
Proof.
  intros Hn Hlt. assert (n < 2 ^ 53) by (unfold Second in Hlt; lia).
  destruct (Z.eq_dec n 0) as [->|Hz]; [by vm_compute|].
  assert (Duration_String (n * Second) = hms n) as Es.
  { rewrite Duration_String_hms by done. by rewrite (proj2 (Z.ltb_ge _ _)), Z.abs_eq by lia. }
  assert (TrimSpace (hms n) = hms n) as Ht.
  { apply TrimSpace_tight. unfold tight. apply andb_true_iff. split.
    - destruct (hms_first n) as (a & s & -> & Ha & _); [lia|]. by apply is_digit_graphic.
    - unfold hms. by rewrite <-!str_app_assoc, str_rev_append. }
  unfold parseWalltime. rewrite Es, Ht. rewrite decide_False.
  2: { destruct (hms_first n) as (a & s & -> & _ & Hs); [lia|]. intros [?|E]; [done|]. by injection E. }
  rewrite <-Es, ParseDuration_String by (unfold Second in *; lia).
  rewrite (proj2 (Z.ltb_ge _ _)) by (unfold Second in *; lia). by rewrite Seconds_whole, f2i_f64 by done.
Qed.

(** (roundtrip, error) Limits in a submission mean what they say: a whole number of up to 53 bits
    with any spelling of a binary unit, as 64G, 512mb or 2Gi, is that number of bytes if it fits 64
    bits; a walltime as durations are printed, 24h0m0s, is that number of seconds; nothing and 0
    mean no limit; and a duration below zero is refused. *)
Theorem submission_limits n u k s :
  (u, k) ∈ sizeUnits → 0 ≤ n < 2 ^ 53 → n * 2 ^ k < 2 ^ 64 → 0 ≤ s → s * Second < 2 ^ 63 →
  parseSize (itoa n +:+ u) = Ok (n * 2 ^ k) ∧
  parseWalltime (Duration_String (s * Second)) = Ok s ∧
  (parseSize "" = Ok 0 ∧ parseSize "0" = Ok 0 ∧ parseWalltime "" = Ok 0 ∧ parseWalltime "0" = Ok 0) ∧
  (∀ text d, ParseDuration (TrimSpace text) = Some d → d < 0 → parseWalltime text = Err "negative duration").
Proof.
  intros Hu Hn Hlt Hs Hst. split; [by apply parseSize_units|]. split; [by apply parseWalltime_String|].
  split; [done|]. intros text d Hd Hneg. unfold parseWalltime. rewrite Hd. rewrite decide_False.
  - by rewrite (proj2 (Z.ltb_lt _ _)).
  - intros [E|E]; rewrite E in Hd; vm_compute in Hd; simplify_eq; lia.
Qed.
End limits.

(** ** Examples *)

Lemma submission_limits_witness :
  @parseSize amd64 some_wording ascii_case "64Gi" = Ok 68719476736 ∧
  @parseWalltime amd64 some_wording (Duration_String (86400 * Second)) = Ok 86400.
Proof.
  assert (("Gi", 30) ∈ sizeUnits) as Hu by (apply list_elem_of_lookup; exists 38%nat; vm_compute; reflexivity).
  destruct (@submission_limits amd64 some_wording ascii_case 64 "Gi" 30 86400 Hu) as (H1 & H2 & _);
    [by_decide..|]. exact (conj H1 H2).
Defined.

(** The job ends and its log is complete from the instant 1000 on; before, a part of it is there. *)
Definition ex_log_watch : Watch :=
  mkWatch (λ t, {["job-logs/j1.log" := if bool_decide (t < 1000)%nat then "h" else "hi"]})
    (λ t, Ok (Some (mkJob "j1" "" "" "" (if bool_decide (t < 1000)%nat then JobRunning else JobCompleted) 0 "echo hi" ∅ "" 0 0 0 "" 0 "" "" [] 0 "" 0 0 0)))
    (λ _, None) (λ _, None) (λ _, None) (λ _, None).

(** They end at different instants. *)
Lemma jobLogsStream_agrees_witness :
  let j := mkJobLogStore "job-logs" in
  (∃ s1 s2, jobLogsStream j ex_log_watch logBuf 1004 "j1" "1" = Some (inr s1) ∧
     GetJobLogs j ex_log_watch logBuf 1004 (mkPbGetJobLogsRequest "j1" true) = Some (None, s2) ∧
     (sm_file s1 <> None → str_concat (sm_sent s1) = "hi") ∧ (sm_file s2 <> None → str_concat (sm_sent s2) = "hi")).
Proof.
  intros j. destruct (jobLogsStream_agrees j ex_log_watch logBuf "j1" "job-logs/j1.log" "1") as (_ & _ & H).
  - unfold logBuf. lia.
  - reflexivity.
  - intros t. unfold contentAt, ex_log_watch. cbn [wt_files]. destruct (bool_decide_reflect (t < 1000)%nat) as [H1|H1].
    + destruct (bool_decide (S t < 1000)%nat); [exists ""|exists "i"]; reflexivity.
    + rewrite bool_decide_eq_false_2 by lia. exists "". reflexivity.
  - apply (H "hi" 1000%nat (mkJob "j1" "" "" "" JobRunning 0 "echo hi" ∅ "" 0 0 0 "" 0 "" "" [] 0 "" 0 0 0)).
    + reflexivity.
    + intros t. split_and!; reflexivity.
    + reflexivity.
    + intros t Ht. eexists. split; [reflexivity|]. cbn [Job_State]. rewrite bool_decide_eq_false_2 by lia. reflexivity.
    + intros t jb E Hj t' Ht. unfold contentAt, ex_log_watch in *. cbn [wt_files wt_job] in *. injection E as <-. cbn [Job_State] in Hj.
      destruct (bool_decide_reflect (t < 1000)%nat) as [H1|H1]; [vm_compute in Hj; discriminate|].
      rewrite bool_decide_eq_false_2 by lia. reflexivity.
    + unfold strlen. simpl. lia.
Defined.
