(* ===== verification/Skctl.v ===== *)
(** * cmd/skctl: the command-line client

    Each command parses its arguments, calls one method of the cluster service and prints.  The
    service is a record of operations on an arbitrary state (the client stub); the printed text is
    what goes to the tab writer, which aligns the columns.  The environment of the process is a
    record: its variables, the user, the clock and the local time of day of an instant. *)
From Stdlib Require Import Ascii.
From S2P Require Import Prelude GoBase GoStrings GoFloat GoFormat GoParse GoFlag Event Proto Config.
Local Open Scope Z_scope.

Record Env := mkEnv {
  env_get : string → string;
  env_user : result string;
  env_now : Time;
  env_clock : Time → string
}.

(** The client stub of the cluster service; of a log stream, the chunks received and the error that
    ends it, if any. *)
Record Client (C : Type) := mkClient {
  cl_ListNodes : ST C (result pbListNodesResponse);
  cl_ListMetrics : ST C (result pbListMetricsResponse);
  cl_SubmitJob : pbSubmitJobRequest → ST C (result pbSubmitJobResponse);
  cl_ListJobs : pbListJobsRequest → ST C (result pbListJobsResponse);
  cl_CancelJob : pbCancelJobRequest → ST C (result pbCancelJobResponse);
  cl_GetJobLogs : pbGetJobLogsRequest → ST C (result (list string * option string));
  cl_ListEvents : pbListEventsRequest → ST C (result pbListEventsResponse);
  cl_ListNotifications : pbListNotificationsRequest → ST C (result pbListNotificationsResponse)
}.
Arguments cl_ListNodes {C} _.
Arguments cl_ListMetrics {C} _.
Arguments cl_SubmitJob {C} _ _.
Arguments cl_ListJobs {C} _ _.
Arguments cl_CancelJob {C} _ _.
Arguments cl_GetJobLogs {C} _ _.
Arguments cl_ListEvents {C} _ _.
Arguments cl_ListNotifications {C} _ _.

(** ** Helpers *)

Definition envOr (e : Env) (key def : string) : string := if decide (env_get e key = "") then def else env_get e key.

Definition ownerOrCurrent (e : Env) (o : string) : string :=
  if decide (o = "") then
    let named := match env_user e with Ok u => u | Err _ => "" end in
    if decide (named = "") then if decide (env_get e "USER" = "") then "anonymous" else env_get e "USER" else named
  else o.

Definition shortID (id : string) : string := if (8 <? strlen id)%nat then str_take 8 id else id.

Definition dash (s : string) : string := if decide (s = "") then "-" else s.

Definition tsShort (e : Env) (unix : Z) : string := if unix <=? 0 then "-" else env_clock e (timeUnix unix).

Definition countDevices (devs : list pbDevice) : Z * Z :=
  foldl (λ '(gpu, npu) d, if decide (pbDevice_Kind d = "gpu") then (gpu + 1, npu)
                          else if decide (pbDevice_Kind d = "npu") then (gpu, npu + 1) else (gpu, npu)) (0, 0) devs.

Definition countDeviceStats (devs : list pbDeviceStats) : Z * Z :=
  foldl (λ '(gpu, npu) d, if decide (pbDeviceStats_Kind d = "gpu") then (gpu + 1, npu)
                          else if decide (pbDeviceStats_Kind d = "npu") then (gpu, npu + 1) else (gpu, npu)) (0, 0) devs.

(** The loop of [humanBytes]: every round divides [n]; [None] if [fuel] rounds do not end it. *)
Fixpoint humanScale (fuel : nat) (n div : Z) (exp : nat) : option (Z * nat) :=
  match fuel with
  | O => None
  | S fuel' => if 1024 <=? n then humanScale fuel' (n / 1024) (u64 (div * 1024)) (S exp) else Some (div, exp)
  end.

(** The divisor and the letter of the unit; [None] is the panic of an index out of range. *)
Definition humanUnit (b : Z) : option (Z * ascii) :=
  '(div, exp) ← humanScale 7 (b / 1024) 1024 0;
  c ← String.get exp "KMGTPE";
  Some (div, c).

Definition humanBytes (b : Z) : string :=
  if b <? 1024 then itoa b +:+ "B"
  else match humanUnit b with
       | Some (div, c) => format_f 1 (fdiv (f64 b) (f64 div)) +:+ String c "iB"
       | None => ""
       end.

Definition heartbeatAge (e : Env) (unix : Z) : string :=
  if unix <=? 0 then "-"
  else
    let d := Round (Sub (env_now e) (timeUnix unix)) Second in
    Duration_String (if d <? 0 then 0 else d) +:+ " ago".

Definition runtimeOf (e : Env) (j : pbJob) : string :=
  let start := pbJob_StartAtUnix j in
  let stop := pbJob_EndAtUnix j in
  if start <=? 0 then "-"
  else
    let d := if 0 <? stop then mul64 (i64 (stop - start)) Second else Sub (env_now e) (timeUnix start) in
    Duration_String (Round d Second).

(** The items in order; the last of a key wins. *)
Fixpoint parseEnvLoop (items : list string) (m : smap) : result smap :=
  match items with
  | [] => Ok m
  | it :: items' =>
      match Cut it "="%char with
      | Some (k, v) => if decide (k = "") then Err ("invalid --env " +:+ Quote it +:+ " (want K=V)")
                       else parseEnvLoop items' (<[k := v]> m)
      | None => Err ("invalid --env " +:+ Quote it +:+ " (want K=V)")
      end
  end.
Definition parseEnv (items : list string) : result smap := parseEnvLoop items ∅.

Section parsing.
Context `{FloatToInt, ErrorText, UnicodeCase}.

(** As the web console's parser, without its check of the sign. *)
Definition skctl_parseSize (s : string) : result Z :=
  let s := TrimSpace s in
  if decide (s = "" ∨ s = "0") then Ok 0
  else
    let s := TrimSuffix (ToUpper s) "B" in
    let s := TrimSuffix s "I" in
    let '(mult, s) :=
      if HasSuffix s "K" then (2 ^ 10, TrimSuffix s "K")
      else if HasSuffix s "M" then (2 ^ 20, TrimSuffix s "M")
      else if HasSuffix s "G" then (2 ^ 30, TrimSuffix s "G")
      else if HasSuffix s "T" then (2 ^ 40, TrimSuffix s "T")
      else (1, s) in
    match ParseFloat (TrimSpace s) with
    | None => Err (ParseFloat_error (TrimSpace s))
    | Some n => Ok (f2u (fmul n (f64 mult)))
    end.

(** ** submit *)

Record SubmitFlags := mkSubmitFlags {
  sf_name : string; sf_partition : string; sf_cpus : Z; sf_mem : string; sf_gpus : Z; sf_gpuType : string;
  sf_time : string; sf_priority : Z; sf_workdir : string; sf_owner : string; sf_env : list string
}.

Definition submitDefaults : SubmitFlags := mkSubmitFlags "" "" 1 "0" 0 "" "0" 0 "" "" [].

Definition submitFlagNames : list string :=
  ["name"; "partition"; "cpus"; "mem"; "gpus"; "gpu-type"; "time"; "priority"; "workdir"; "owner"; "env"].

Definition setSubmitFlag (flag v : string) (f : SubmitFlags) : result SubmitFlags :=
  let '(mkSubmitFlags name part cpus mem gpus ty time prio wd owner env) := f in
  if decide (flag = "name") then Ok (mkSubmitFlags v part cpus mem gpus ty time prio wd owner env)
  else if decide (flag = "partition") then Ok (mkSubmitFlags name v cpus mem gpus ty time prio wd owner env)
  else if decide (flag = "cpus") then
    match ParseUint0 v with Ok n => Ok (mkSubmitFlags name part n mem gpus ty time prio wd owner env) | Err e => Err e end
  else if decide (flag = "mem") then Ok (mkSubmitFlags name part cpus v gpus ty time prio wd owner env)
  else if decide (flag = "gpus") then
    match ParseUint0 v with Ok n => Ok (mkSubmitFlags name part cpus mem n ty time prio wd owner env) | Err e => Err e end
  else if decide (flag = "gpu-type") then Ok (mkSubmitFlags name part cpus mem gpus v time prio wd owner env)
  else if decide (flag = "time") then Ok (mkSubmitFlags name part cpus mem gpus ty v prio wd owner env)
  else if decide (flag = "priority") then
    match ParseInt0 v with Ok n => Ok (mkSubmitFlags name part cpus mem gpus ty time n wd owner env) | Err e => Err e end
  else if decide (flag = "workdir") then Ok (mkSubmitFlags name part cpus mem gpus ty time prio v owner env)
  else if decide (flag = "owner") then Ok (mkSubmitFlags name part cpus mem gpus ty time prio wd v env)
  else Ok (mkSubmitFlags name part cpus mem gpus ty time prio wd owner (env ++ [v])).

Definition submitFlagSet : FlagSet SubmitFlags :=
  mkFlagSet (λ n, if decide (n ∈ submitFlagNames) then Some false else None) setSubmitFlag.

Definition submitWalltime (s : string) : result Z :=
  if decide (s ≠ "0" ∧ s ≠ "") then
    match ParseDuration s with
    | None => Err ("invalid --time: " +:+ ParseDuration_error s)
    | Some d => Ok (f2i (Seconds d))
    end
  else Ok 0.

(** The request of a command line. *)
Definition submitRequest (e : Env) (args : list string) : result pbSubmitJobRequest :=
  match flag_Parse submitFlagSet args submitDefaults with
  | Err err => Err err
  | Ok (f, words) =>
      let command := Join words " " in
      if decide (TrimSpace command = "") then Err "missing command (use: submit [flags] -- <command>)"
      else match skctl_parseSize (sf_mem f) with
           | Err err => Err ("invalid --mem: " +:+ err)
           | Ok memBytes =>
               match submitWalltime (sf_time f) with
               | Err err => Err err
               | Ok walltime =>
                   match parseEnv (sf_env f) with
                   | Err err => Err err
                   | Ok envMap =>
                       Ok (mkPbSubmitJobRequest (sf_name f) (ownerOrCurrent e (sf_owner f)) (sf_partition f)
                             (i32 (sf_priority f)) command envMap (sf_workdir f)
                             (Some (mkPbResourceRequest (u32 (sf_cpus f)) memBytes (u32 (sf_gpus f)) (sf_gpuType f) walltime)))
                   end
               end
           end
  end.
End parsing.

(** ** The commands

    [stub] is the result of dialling.  A command yields the lines it prints and its error. *)

Definition Out : Type := list string * option string.

Definition tab : string := String (ascii_of_nat 9) "".
Definition row (cells : list string) : string := Join cells tab.

Section commands.
Context {C : Type} (e : Env) (stub : result (Client C)).
Context `{FloatToInt, ErrorText, UnicodeCase}.

(** Dial, call, and go on with the response; an error is the command's. *)
Definition calling {A} (call : Client C → ST C (result A)) (k : A → Out) : ST C Out :=
  match stub with
  | Err err => st_ret ([], Some err)
  | Ok cl => r <- call cl ;; st_ret (match r with Err err => ([], Some err) | Ok a => k a end)
  end.

(** A header, a line per row, and a line if there is none. *)
Definition table (header : list string) (rows : list (list string)) (none : string) : Out :=
  (row header :: (row <$> rows) ++ (if decide (rows = []) then [none] else []), None).

Definition nodeRow (n : pbNode) : list string :=
  let r := pbNode_Resources n in
  let '(gpu, npu) := countDevices (get pbResources_Devices [] r) in
  [pbNode_Name n; pbNode_State n; pbNode_Partition n; itoa (get pbResources_Cpus 0 r);
   humanBytes (get pbResources_MemTotalBytes 0 r); itoa gpu; itoa npu; heartbeatAge e (pbNode_LastHeartbeatUnix n);
   pbNode_AgentVersion n].

Definition cmdNodes : ST C Out :=
  calling cl_ListNodes (λ resp,
    table ["NAME"; "STATE"; "PARTITION"; "CPUS"; "MEM"; "GPU"; "NPU"; "HEARTBEAT"; "VERSION"]
      (nodeRow <$> pbListNodesResponse_Nodes resp) "(no nodes registered)").

Definition topRow (nm : pbNodeMetrics) : list string :=
  let s := pbNodeMetrics_Snapshot nm in
  let cpu := get pbMetricsSnapshot_Cpu None s in
  let mem := get pbMetricsSnapshot_Mem None s in
  let '(gpu, npu) := countDeviceStats (get pbMetricsSnapshot_Devices [] s) in
  [pbNodeMetrics_NodeName nm; pbNodeMetrics_State nm; format_f 0 (get pbCPUStats_Utilization (f64 0) cpu);
   humanBytes (get pbMemStats_UsedBytes 0 mem) +:+ "/" +:+ humanBytes (get pbMemStats_TotalBytes 0 mem);
   format_f 0 (get pbMemStats_UsedPercent (f64 0) mem); format_f 2 (get pbCPUStats_Load1 (f64 0) cpu); itoa gpu; itoa npu].

Definition cmdTop : ST C Out :=
  calling cl_ListMetrics (λ resp,
    table ["NODE"; "STATE"; "CPU%"; "MEM"; "MEM%"; "LOAD1"; "GPU"; "NPU"]
      (topRow <$> pbListMetricsResponse_Nodes resp) "(no nodes registered)").

Definition deviceRow (node : string) (d : pbDeviceStats) : list string :=
  [node; itoa (pbDeviceStats_Index d); pbDeviceStats_Name d; format_f 0 (pbDeviceStats_Utilization d);
   humanBytes (pbDeviceStats_MemUsedBytes d) +:+ "/" +:+ humanBytes (pbDeviceStats_MemTotalBytes d);
   format_f 0 (pbDeviceStats_TemperatureC d) +:+ "°C"; format_f 0 (pbDeviceStats_PowerWatts d) +:+ "W"].

Definition cmdDevices (kind : string) : ST C Out :=
  calling cl_ListMetrics (λ resp,
    table ["NODE"; "IDX"; "NAME"; "UTIL%"; "MEM"; "TEMP"; "POWER"]
      (nm ← pbListMetricsResponse_Nodes resp;
       deviceRow (pbNodeMetrics_NodeName nm) <$>
         filter (λ d, pbDeviceStats_Kind d = kind) (get pbMetricsSnapshot_Devices [] (pbNodeMetrics_Snapshot nm)))
      ("(no " +:+ kind +:+ " devices reported)")).

Definition cmdSubmit (args : list string) : ST C Out :=
  match submitRequest e args with
  | Err err => st_ret ([], Some err)
  | Ok req => calling (λ cl, cl_SubmitJob cl req) (λ resp, (["submitted job " +:+ pbSubmitJobResponse_JobId resp], None))
  end.

Record QueueFlags := mkQueueFlags { qf_state : string; qf_owner : string; qf_me : bool }.
Definition queueFlagSet : FlagSet QueueFlags :=
  mkFlagSet (λ n, if decide (n = "state" ∨ n = "owner") then Some false else if decide (n = "me") then Some true else None)
    (λ n v f, if decide (n = "state") then Ok (mkQueueFlags v (qf_owner f) (qf_me f))
              else if decide (n = "owner") then Ok (mkQueueFlags (qf_state f) v (qf_me f))
              else match ParseBool v with Ok b => Ok (mkQueueFlags (qf_state f) (qf_owner f) b) | Err err => Err err end).

Definition jobRow (j : pbJob) : list string :=
  [shortID (pbJob_Id j); dash (pbJob_Name j); pbJob_Owner j; pbJob_State j; dash (pbJob_Partition j);
   dash (pbJob_NodeName j); itoa (pbJob_Priority j); itoa (get pbResourceRequest_Cpus 0 (pbJob_Request j));
   itoa (get pbResourceRequest_Gpus 0 (pbJob_Request j)); runtimeOf e j].

Definition cmdQueue (args : list string) : ST C Out :=
  match flag_Parse queueFlagSet args (mkQueueFlags "" "" false) with
  | Err err => st_ret ([], Some err)
  | Ok (f, _) =>
      let o := if qf_me f then ownerOrCurrent e "" else qf_owner f in
      calling (λ cl, cl_ListJobs cl (mkPbListJobsRequest (ToUpper (qf_state f)) o)) (λ resp,
        table ["JOBID"; "NAME"; "OWNER"; "STATE"; "PART"; "NODE"; "PRIO"; "CPUS"; "GPUS"; "RUNTIME"]
          (jobRow <$> pbListJobsResponse_Jobs resp) "(no jobs)")
  end.

Definition cmdCancel (args : list string) : ST C Out :=
  match args with
  | [] => st_ret ([], Some "usage: cancel <jobid>")
  | id :: _ =>
      calling (λ cl, cl_CancelJob cl (mkPbCancelJobRequest id)) (λ resp,
        (["job " +:+ id +:+ " -> " +:+ pbCancelJobResponse_State resp], None))
  end.

Definition logsFlagSet : FlagSet bool :=
  mkFlagSet (λ n, if decide (n = "f") then Some true else None) (λ _ v _, ParseBool v).

(** The chunks are written as they come, without line breaks of their own. *)
Definition cmdLogs (args : list string) : ST C Out :=
  match flag_Parse logsFlagSet args false with
  | Err err => st_ret ([], Some err)
  | Ok (_, []) => st_ret ([], Some "usage: logs [-f] <jobid>")
  | Ok (follow, id :: _) => calling (λ cl, cl_GetJobLogs cl (mkPbGetJobLogsRequest id follow)) (λ out, out)
  end.

Definition eventRow (ev : pbEvent) : list string :=
  [tsShort e (pbEvent_TimeUnix ev); pbEvent_Severity ev; pbEvent_Type ev; pbEvent_Source ev; pbEvent_Summary ev].

Definition cmdEvents : ST C Out :=
  calling (λ cl, cl_ListEvents cl (mkPbListEventsRequest 50)) (λ resp,
    table ["TIME"; "SEVERITY"; "TYPE"; "SOURCE"; "SUMMARY"] (eventRow <$> pbListEventsResponse_Events resp) "(no events)").

Definition notificationRow (n : pbNotification) : list string :=
  [tsShort e (pbNotification_TimeUnix n); pbNotification_EventType n; pbNotification_Channel n;
   dash (pbNotification_Recipients n); pbNotification_Status n; pbNotification_Summary n].

Definition cmdNotifications : ST C Out :=
  calling (λ cl, cl_ListNotifications cl (mkPbListNotificationsRequest 50)) (λ resp,
    table ["TIME"; "TYPE"; "CHANNEL"; "TO"; "STATUS"; "SUMMARY"]
      (notificationRow <$> pbListNotificationsResponse_Notifications resp) "(no notifications)").

(** The command of the arguments that follow the global flags; [None] is the usage message and exit
    status 2. *)
Definition dispatch (version : string) (args : list string) : option (ST C Out) :=
  match args with
  | [] => None
  | cmd :: args =>
      if decide (cmd = "nodes") then Some cmdNodes
      else if decide (cmd = "top") then Some cmdTop
      else if decide (cmd = "gpu") then Some (cmdDevices "gpu")
      else if decide (cmd = "npu") then Some (cmdDevices "npu")
      else if decide (cmd = "submit") then Some (cmdSubmit args)
      else if decide (cmd = "queue") then Some (cmdQueue args)
      else if decide (cmd = "cancel") then Some (cmdCancel args)
      else if decide (cmd = "logs") then Some (cmdLogs args)
      else if decide (cmd = "events") then Some cmdEvents
      else if decide (cmd = "notifications" ∨ cmd = "notify") then Some cmdNotifications
      else if decide (cmd = "version") then Some (st_ret (["skctl " +:+ version], None))
      else None
  end.
End commands.

(** [main]: the global flag, then the command; the lines printed and the exit status. *)
Definition mainFlagSet : FlagSet string :=
  mkFlagSet (λ n, if decide (n = "server") then Some false else None) (λ _ v _, Ok v).

Definition skctl_main {C} `{FloatToInt, ErrorText, UnicodeCase} (e : Env) (version : string) (dial : string → result (Client C))
    (args : list string) : ST C (list string * Z) :=
  match flag_Parse mainFlagSet args (envOr e "SKIPPER_SERVER_ADDR" "127.0.0.1:7443") with
  | Err err => st_ret ([], if decide (err = ErrHelp) then 0 else 2)
  | Ok (server, args) =>
      match dispatch e (dial server) version args with
      | None => st_ret ([], 2)
      | Some cmd => out <- cmd ;; st_ret (out.1, match out.2 with Some _ => 1 | None => 0 end)
      end
  end.

Definition ex_env : Env := mkEnv (λ _, "") (Ok "ana") (timeUnix 5000) (λ _, "12:00:00").

Example submitRequest_1 :
  @submitRequest amd64 some_wording ascii_case ex_env
    ["-cpus=4"; "--mem"; "64G"; "-gpus"; "2"; "-time"; "12h"; "-env"; "A=1"; "-env"; "A=2"; "--"; "python"; "train.py"; "-v"] =
  Ok (mkPbSubmitJobRequest "" "ana" "" 0 "python train.py -v" {["A" := "2"]} ""
        (Some (mkPbResourceRequest 4 (64 * 2 ^ 30) 2 "" 43200))).
Proof. vm_compute. reflexivity. Qed.
Example humanBytes_1 : humanBytes 1023 = "1023B" ∧ humanBytes 1536 = "1.5KiB" ∧ humanBytes (2 ^ 64 - 1) = "16.0EiB".
Proof. vm_compute. auto. Qed.
