(* ===== verification/SkctlTheorems.v ===== *)
(** * The command line says what the request holds *)
From Stdlib Require Import Ascii.
From S2P Require Import Prelude GoBase GoStrings GoFloat GoFormat GoParse FloatFacts GoFlag Event Proto Config ConfigTheorems JobLog Server Web WebTheorems Skctl.
Local Open Scope Z_scope.

(** ** Units for people *)

(** [n] is what is left of [b] after dividing by [div], a power of 1024. *)
Lemma humanScale_spec fuel b n exp :
  n = b / 1024 ^ (Z.of_nat exp + 1) → 1024 ^ (Z.of_nat exp + 1) ≤ b < 2 ^ 64 → n < 1024 ^ Z.of_nat fuel → (0 < fuel)%nat →
  ∃ k, humanScale fuel n (1024 ^ (Z.of_nat exp + 1)) exp = Some (1024 ^ (Z.of_nat k + 1), k) ∧
    1024 ^ (Z.of_nat k + 1) ≤ b < 1024 ^ (Z.of_nat k + 2).
Proof.
  revert n exp; induction fuel as [|fuel IH]; intros n exp Hn Hb Hlt Hf; [lia|]. cbn [humanScale].
  set (d := 1024 ^ (Z.of_nat exp + 1)) in *. assert (0 < d) by (unfold d; lia).
  assert (1024 ^ (Z.of_nat exp + 2) = d * 1024) as Ed.
  { unfold d. replace (Z.of_nat exp + 2) with (Z.succ (Z.of_nat exp + 1)) by lia. rewrite Z.pow_succ_r by lia. lia. }
  destruct (1024 <=? n) eqn:E; bool_to_prop.
  - assert (d * 1024 ≤ b) by (rewrite Hn in E; pose proof (Z.mul_div_le b d); nia).
    assert (0 < fuel)%nat by (destruct fuel; [simpl in Hlt; lia|lia]).
    rewrite u64_small by (unfold is_u64; lia). rewrite <-Ed.
    replace (Z.of_nat exp + 2) with (Z.of_nat (S exp) + 1) in * by lia. apply IH; [|lia| |done].
    + rewrite Ed, <-Z.div_div by lia. by rewrite Hn.
    + apply Z.div_lt_upper_bound; [lia|]. rewrite Nat2Z.inj_succ, Z.pow_succ_r in Hlt by lia. lia.
  - exists exp. split; [done|]. split; [lia|]. rewrite Ed. rewrite Hn in E.
    pose proof (Z.mul_succ_div_gt b d). nia.
Qed.

(** (termination, bounds) Sizes for people: for every 64-bit size from a KiB up, the loop ends within
    its rounds without overflow, the letter is one of the string's (the index never panics), and the
    size is at least one and less than 1024 of the unit that is printed. *)
Theorem humanBytes_scale b :
  1024 ≤ b < 2 ^ 64 →
  ∃ k c, humanUnit b = Some (1024 ^ (Z.of_nat k + 1), c) ∧ String.get k "KMGTPE" = Some c ∧
    1024 ^ (Z.of_nat k + 1) ≤ b < 1024 * 1024 ^ (Z.of_nat k + 1).
Proof.
  intros Hb. destruct (humanScale_spec 7 b (b / 1024) 0 eq_refl) as (k & Hk & Hr); [simpl; lia| |lia|].
  { apply Z.div_lt_upper_bound; [lia|]. change (1024 ^ Z.of_nat 7) with (2 ^ 70). lia. }
  assert (k < 6)%nat as Hk6.
  { apply Nat.nle_gt. intros Hle. pose proof (Z.pow_le_mono_r 1024 7 (Z.of_nat k + 1)) as Hp.
    change (1024 ^ 7) with (2 ^ 70) in Hp. lia. }
  assert (∃ c, String.get k "KMGTPE" = Some c) as [c Hc] by (do 6 (destruct k as [|k]; [by eexists|]); lia).
  exists k, c. unfold humanUnit. change 1024 with (1024 ^ (Z.of_nat 0 + 1)) at 2. rewrite Hk. cbn [mbind option_bind].
  rewrite Hc. split; [done|]. split; [done|]. split; [lia|].
  replace (Z.of_nat k + 2) with (Z.succ (Z.of_nat k + 1)) in Hr by lia. rewrite Z.pow_succ_r in Hr by lia. lia.
Qed.

Lemma humanBytes_scale_witness :
  (1024 ≤ 2 ^ 64 - 1 < 2 ^ 64) ∧ ∃ k c, humanUnit (2 ^ 64 - 1) = Some (1024 ^ (Z.of_nat k + 1), c).
Proof.
  assert (1024 ≤ 2 ^ 64 - 1 < 2 ^ 64) as H by by_decide. split; [exact H|].
  destruct (humanBytes_scale (2 ^ 64 - 1) H) as (k & c & E & _). exists k, c. exact E.
Defined.

(** ** Flags given as pairs *)

Fixpoint setAll {C} (f : FlagSet C) (kvs : list (string * string)) (c : C) : result C :=
  match kvs with
  | [] => Ok c
  | (k, v) :: kvs => match fl_set f k v c with Ok c => setAll f kvs c | Err e => Err e end
  end.

Definition pairArgs (kvs : list (string * string)) : list string := kvs ≫= (λ kv, ["-" +:+ kv.1; kv.2]).

(** Flags as a name and a value each, then the terminator: every flag is set in order, and what
    follows is left alone whatever it looks like. *)
Lemma parseArgs_pairs {C} (f : FlagSet C) kvs tail c c' fuel :
  Forall (λ kv, flagArgOf ("-" +:+ kv.1) = FlagArg kv.1 None ∧ fl_formal f kv.1 = Some false) kvs →
  setAll f kvs c = Ok c' → (length kvs < fuel)%nat →
  parseArgs f fuel (pairArgs kvs ++ "--" :: tail) c = Ok (c', tail).
Proof.
  revert c fuel; induction kvs as [|[k v] kvs IH]; intros c fuel Hk Hs Hf; (destruct fuel as [|fuel]; [simpl in Hf; lia|]).
  { injection Hs as <-. done. }
  apply Forall_cons in Hk as [[Ha Hb] Hk]. cbn [fst] in Ha, Hb. cbn [setAll] in Hs.
  destruct (fl_set f k v c) as [c1|] eqn:E; [|done].
  change (pairArgs ((k, v) :: kvs) ++ "--" :: tail) with (("-" +:+ k) :: v :: (pairArgs kvs ++ "--" :: tail)).
  cbn [parseArgs]. rewrite Ha, Hb, E. apply IH; [done..|simpl in Hf; lia].
Qed.

Lemma setAll_cons {C} (f : FlagSet C) k v kvs c c1 r :
  fl_set f k v c = Ok c1 → setAll f kvs c1 = r → setAll f ((k, v) :: kvs) c = r.
Proof. intros E <-. cbn [setAll]. by rewrite E. Qed.

Lemma setAll_app {C} (f : FlagSet C) a b c c1 : setAll f a c = Ok c1 → setAll f (a ++ b) c = setAll f b c1.
Proof.
  revert c; induction a as [|[k v] a IH]; intros c; [by intros [= ->]|]. simpl. destruct (fl_set f k v c); [apply IH|done].
Qed.

Lemma length_pairArgs kvs : length (pairArgs kvs) = (2 * length kvs)%nat.
Proof. induction kvs as [|kv kvs IH]; [done|]. change (pairArgs (kv :: kvs)) with (["-" +:+ kv.1; kv.2] ++ pairArgs kvs).
  rewrite length_app, IH. simpl. lia.
Qed.

(** ** submit *)

Lemma ParseInt0_itoa n : - 2 ^ 63 < n < 2 ^ 63 → ParseInt0 (itoa n) = Ok n.
Proof.
  intros Hn. unfold ParseInt0. destruct n as [|p|p]; [done|..].
  - destruct (itoa_lead (Zpos p)) as (c & s & E & _ & Hc); [lia|].
    assert (is_sign c = false ∧ hex_byte 45 c = false) as [H1 H2] by (unfold is_sign; rewrite !digit_not by (done || lia); done).
    assert (drop_sign (itoa (Zpos p)) = itoa (Zpos p)) as -> by (rewrite E; cbn [drop_sign]; by rewrite H1).
    rewrite ParseUint0_itoa by lia. rewrite E, H2. rewrite (proj2 (Z.leb_gt _ _)) by lia. done.
  - change (itoa (Zneg p)) with ("-" +:+ itoa (Zpos p)). change (drop_sign ("-" +:+ itoa (Zpos p))) with (itoa (Zpos p)).
    rewrite ParseUint0_itoa by lia. change (hex_byte 45 "-"%char) with true. cbn iota.
    change ("-" +:+ itoa (Zpos p)) with (String "-" (itoa (Zpos p))). cbn iota beta.
    change (hex_byte 45 "-") with true. cbn iota. rewrite (proj2 (Z.ltb_ge _ _)) by lia. done.
Qed.

(** Variables whose names can be given as K=V. *)
Definition env_ok (kv : string * string) : Prop := kv.1 ≠ "" ∧ str_exists (Ascii.eqb "=") kv.1 = false.

Definition envItem (kv : string * string) : string := kv.1 +:+ "=" +:+ kv.2.

Lemma parseEnv_items env : Forall env_ok env → parseEnv (envItem <$> env) = Ok (foldl (λ m kv, <[kv.1 := kv.2]> m) ∅ env).
Proof.
  unfold parseEnv. generalize (∅ : gmap string string). induction env as [|[k v] env IH]; intros m He; [done|].
  apply Forall_cons in He as [[Hk Hq] He]. csimpl in *. unfold envItem at 1. cbn [fst snd].
  change (k +:+ "=" +:+ v) with (k +:+ String "=" v). rewrite Cut_app by done. rewrite decide_False by done. by apply IH.
Qed.

Section submit.
Context `{FloatToInt, ErrorText, UnicodeCase}.

Lemma skctl_parseSize_web s v : Web.parseSize s = Ok v → skctl_parseSize s = Ok v.
Proof.
  unfold Web.parseSize, skctl_parseSize, sizeUnit. case_decide; [done|]. repeat case_match; congruence.
Qed.

(** The values of a submission, as people give them. *)
Record Submission := mkSubmission {
  su_name : string; su_partition : string; su_cpus : Z; su_memCount : Z; su_memUnit : string; su_memLog : Z; su_gpus : Z;
  su_gpuType : string; su_seconds : Z; su_priority : Z; su_workdir : string; su_owner : string;
  su_env : list (string * string); su_words : list string
}.

Definition submission_ok (u : Submission) : Prop :=
  is_u32 (su_cpus u) ∧ is_u32 (su_gpus u) ∧ is_i32 (su_priority u) ∧
  (su_memUnit u, su_memLog u) ∈ sizeUnits ∧ 0 ≤ su_memCount u < 2 ^ 53 ∧ su_memCount u * 2 ^ su_memLog u < 2 ^ 64 ∧
  0 ≤ su_seconds u ∧ su_seconds u * Second < 2 ^ 63 ∧ Forall env_ok (su_env u) ∧ TrimSpace (Join (su_words u) " ") ≠ "".

(** Its flags, each a name and a value. *)
Definition flagPairs (u : Submission) : list (string * string) :=
  [("name", su_name u); ("partition", su_partition u); ("cpus", itoa (su_cpus u));
    ("mem", itoa (su_memCount u) +:+ su_memUnit u); ("gpus", itoa (su_gpus u)); ("gpu-type", su_gpuType u);
    ("time", Duration_String (su_seconds u * Second)); ("priority", itoa (su_priority u));
    ("workdir", su_workdir u); ("owner", su_owner u)] ++ ((λ kv, ("env", envItem kv)) <$> su_env u).

(** Its command line. *)
Definition commandLine (u : Submission) : list string :=
  pairArgs (flagPairs u) ++
  "--" :: su_words u.

(** Its form in the web console. *)
Definition webForm (e : Env) (u : Submission) : submitReq :=
  mkSubmitReq (su_name u) (ownerOrCurrent e (su_owner u)) (su_partition u) (su_priority u) (Join (su_words u) " ")
    (su_workdir u) (su_cpus u) (itoa (su_memCount u) +:+ su_memUnit u) (su_gpus u) (su_gpuType u)
    (Duration_String (su_seconds u * Second)) (foldl (λ m kv, <[kv.1 := kv.2]> m) ∅ (su_env u)).

(** The request that it stands for. *)
Definition requestFor (e : Env) (u : Submission) : pbSubmitJobRequest :=
  mkPbSubmitJobRequest (su_name u) (ownerOrCurrent e (su_owner u)) (su_partition u) (su_priority u) (Join (su_words u) " ")
    (foldl (λ m kv, <[kv.1 := kv.2]> m) ∅ (su_env u)) (su_workdir u)
    (Some (mkPbResourceRequest (su_cpus u) (su_memCount u * 2 ^ su_memLog u) (su_gpus u) (su_gpuType u) (su_seconds u))).

Lemma setAll_env env f :
  setAll submitFlagSet ((λ kv, ("env", envItem kv)) <$> env) f =
  Ok (mkSubmitFlags (sf_name f) (sf_partition f) (sf_cpus f) (sf_mem f) (sf_gpus f) (sf_gpuType f) (sf_time f)
        (sf_priority f) (sf_workdir f) (sf_owner f) (sf_env f ++ (envItem <$> env))).
Proof.
  revert f; induction env as [|kv env IH]; intros f; [by destruct f; csimpl; rewrite app_nil_r|].
  csimpl. destruct f. cbn [submitFlagSet fl_set]. change (setSubmitFlag "env" (envItem kv) ?f) with (setSubmitFlag "env" (envItem kv) f).
  unfold setSubmitFlag. rewrite !decide_False by done. rewrite IH. csimpl. by rewrite <-app_assoc.
Qed.
Lemma set_cpus v n f :
  ParseUint0 v = Ok n → fl_set submitFlagSet "cpus" v f =
  Ok (mkSubmitFlags (sf_name f) (sf_partition f) n (sf_mem f) (sf_gpus f) (sf_gpuType f) (sf_time f)
        (sf_priority f) (sf_workdir f) (sf_owner f) (sf_env f)).
Proof.
  intros E. destruct f as [name part cpus mem gpus ty time prio wd owner env].
  transitivity (match ParseUint0 v with Ok n => Ok (mkSubmitFlags name part n mem gpus ty time prio wd owner env) | Err e => Err e end); [reflexivity|].
  by rewrite E.
Qed.

Lemma set_gpus v n f :
  ParseUint0 v = Ok n → fl_set submitFlagSet "gpus" v f =
  Ok (mkSubmitFlags (sf_name f) (sf_partition f) (sf_cpus f) (sf_mem f) n (sf_gpuType f) (sf_time f)
        (sf_priority f) (sf_workdir f) (sf_owner f) (sf_env f)).
Proof.
  intros E. destruct f as [name part cpus mem gpus ty time prio wd owner env].
  transitivity (match ParseUint0 v with Ok n => Ok (mkSubmitFlags name part cpus mem n ty time prio wd owner env) | Err e => Err e end); [reflexivity|].
  by rewrite E.
Qed.

Lemma set_priority v n f :
  ParseInt0 v = Ok n → fl_set submitFlagSet "priority" v f =
  Ok (mkSubmitFlags (sf_name f) (sf_partition f) (sf_cpus f) (sf_mem f) (sf_gpus f) (sf_gpuType f) (sf_time f)
        n (sf_workdir f) (sf_owner f) (sf_env f)).
Proof.
  intros E. destruct f as [name part cpus mem gpus ty time prio wd owner env].
  transitivity (match ParseInt0 v with Ok n => Ok (mkSubmitFlags name part cpus mem gpus ty time n wd owner env) | Err e => Err e end); [reflexivity|].
  by rewrite E.
Qed.

Lemma submitWalltime_String n : 0 ≤ n → n * Second < 2 ^ 63 → submitWalltime (Duration_String (n * Second)) = Ok n.
Proof.
  intros Hn Hlt. assert (n < 2 ^ 53) by (unfold Second in Hlt; lia). unfold submitWalltime.
  rewrite ParseDuration_String by (unfold Second in *; lia). rewrite Seconds_whole, f2i_f64 by done.
  case_decide as Hd; [done|]. exfalso. apply Hd. destruct (Z.eq_dec n 0) as [->|Hz]; [by vm_compute|].
  rewrite Duration_String_hms, (proj2 (Z.ltb_ge _ _)), Z.abs_eq by lia. destruct (hms_first n) as (c & t & -> & _ & Ht); [lia|].
  split; [intros [= -> ->]|]; done.
Qed.

Lemma flags_known u :
  Forall (λ kv, flagArgOf ("-" +:+ kv.1) = FlagArg kv.1 None ∧ fl_formal submitFlagSet kv.1 = Some false)
    (flagPairs u).
Proof.
  unfold flagPairs. apply Forall_app. split; [repeat constructor|]. apply Forall_fmap, Forall_true. intros kv. split; reflexivity.
Qed.

(** The flags of the command line, set. *)
Lemma setAll_submission u :
  submission_ok u →
  setAll submitFlagSet (flagPairs u) submitDefaults =
  Ok (mkSubmitFlags (su_name u) (su_partition u) (su_cpus u) (itoa (su_memCount u) +:+ su_memUnit u) (su_gpus u) (su_gpuType u)
        (Duration_String (su_seconds u * Second)) (su_priority u) (su_workdir u) (su_owner u) (envItem <$> su_env u)).
Proof.
  intros (Hc & Hg & Hp & _). unfold is_u32, is_i32 in *. unfold flagPairs. rewrite (setAll_app _ _ _ _
    (mkSubmitFlags (su_name u) (su_partition u) (su_cpus u) (itoa (su_memCount u) +:+ su_memUnit u) (su_gpus u) (su_gpuType u)
        (Duration_String (su_seconds u * Second)) (su_priority u) (su_workdir u) (su_owner u) [])).
  { exact (setAll_env (su_env u) _). }
  do 2 (eapply setAll_cons; [reflexivity|]). eapply setAll_cons; [apply set_cpus, ParseUint0_itoa; lia|].
  eapply setAll_cons; [reflexivity|]. eapply setAll_cons; [apply set_gpus, ParseUint0_itoa; lia|].
  do 2 (eapply setAll_cons; [reflexivity|]). eapply setAll_cons; [apply set_priority, ParseInt0_itoa; lia|].
  do 2 (eapply setAll_cons; [reflexivity|]). reflexivity.
Qed.

(** [C6] (equivalence, roundtrip) Three ways of submitting: the command line that spells out a submission
    with its flags, followed by -- and any words whatever, dashes included, is read as exactly the
    request for it, with every resource, limit, variable and the owner; and the web console's form
    of the same submission stands for the same request. *)
Theorem submitRequest_reads e u :
  submission_ok u →
  submitRequest e (commandLine u) = Ok (requestFor e u) ∧ accepted (Some (webForm e u)) = Some (requestFor e u).
Proof.
  intros Hu. pose proof Hu as (Hc & Hg & Hp & Hunit & Hn & Hm & Hs & Hst & Henv & Hcmd).
  pose proof (parseSize_units _ _ _ Hunit Hn Hm) as Hsize.
  pose proof (parseWalltime_String _ Hs Hst) as Hwall. split.
  - unfold submitRequest, flag_Parse, commandLine.
    rewrite (parseArgs_pairs _ _ _ _ _ _ (flags_known u) (setAll_submission u Hu)) by (rewrite (length_app (pairArgs _)), length_pairArgs; simpl; lia).
    cbn [sf_mem sf_time sf_env sf_owner sf_name sf_partition sf_cpus sf_gpus sf_gpuType sf_priority sf_workdir].
    rewrite decide_False, (skctl_parseSize_web _ _ Hsize), submitWalltime_String, parseEnv_items by done.
    unfold requestFor. unfold is_u32, is_i32 in *. rewrite (wrapS_small 32), !u32_small by (unfold is_u32; lia). done.
  - unfold accepted, webForm. cbn [submitReq_Command submitReq_Mem submitReq_Walltime].
    destruct (decide (TrimSpace (Join (su_words u) " ") = "")); [done|]. rewrite Hsize, Hwall. done.
Qed.
End submit.

(** ** Examples *)

Definition ex_submission : Submission :=
  mkSubmission "train" "gpu" 4 64 "Gi" 30 2 "A100" 43200 (-5) "/work" "ana" [("A", "1"); ("B", "x=y"); ("A", "2")]
    ["python"; "train.py"; "--epochs"; "3"].

Lemma submitRequest_reads_witness :
  commandLine ex_submission =
    ["-name"; "train"; "-partition"; "gpu"; "-cpus"; "4"; "-mem"; "64Gi"; "-gpus"; "2"; "-gpu-type"; "A100"; "-time"; "12h0m0s";
     "-priority"; "-5"; "-workdir"; "/work"; "-owner"; "ana"; "-env"; "A=1"; "-env"; "B=x=y"; "-env"; "A=2"; "--";
     "python"; "train.py"; "--epochs"; "3"] ∧
  @submitRequest amd64 some_wording ascii_case ex_env (commandLine ex_submission) = Ok (requestFor ex_env ex_submission).
Proof.
  split; [vm_compute; reflexivity|].
  assert (submission_ok ex_submission) as Hok.
  { unfold submission_ok, is_u32, is_i32. split_and!; try by_decide. }
  exact (proj1 (@submitRequest_reads amd64 some_wording ascii_case ex_env ex_submission Hok)).
Defined.

(** (bounds) A count of processors beyond 32 bits is cut without a word. *)
Lemma submit_cpus_cut :
  ∃ req, @submitRequest amd64 some_wording ascii_case ex_env ["-cpus"; "4294967297"; "--"; "true"] = Ok req ∧
    get pbResourceRequest_Cpus 0 (pbSubmitJobRequest_Request req) = 1.
Proof. eexists. split; [vm_compute; reflexivity|reflexivity]. Qed.

(** (error) A negative size is refused by the web console and accepted on the command line, as whatever the
    platform makes of the conversion. *)
Lemma submit_negative_mem `{FloatToInt, ErrorText} :
  @Web.parseSize _ _ ascii_case "-1G" = Err "negative size" ∧
  @skctl_parseSize _ _ ascii_case "-1G" = Ok (f2u_oob (fmul (f64 (-1)) (f64 (2 ^ 30)))).
Proof. split; vm_compute; reflexivity. Qed.
