(* ===== verification/Prometheus.v ===== *)
(** * internal/server/prometheus.go: the exported samples

    [Collect] sends one sample per gauge of each node, of each of its disks and of each of its
    devices; a sample is a metric name with its label names, the label values, and a value.  The pages
    of the metrics server (server.go) are at the end; rendering is the library's. *)
From S2P Require Import Prelude GoBase GoStrings GoFloat Event Proto Store World Config Notify Server.
Local Open Scope Z_scope.

(** A descriptor: the name of the metric and of its labels. *)
Record Desc := mkDesc { desc_name : string; desc_labels : list string }.
#[export] Instance Desc_eq_dec : EqDecision Desc.
Proof. solve_decision. Defined.

Definition descNodeUp : Desc := mkDesc "skipper_node_up" ["node"].
Definition descCPUUtil : Desc := mkDesc "skipper_node_cpu_utilization" ["node"].
Definition descLoad1 : Desc := mkDesc "skipper_node_load1" ["node"].
Definition descMemTotal : Desc := mkDesc "skipper_node_mem_total_bytes" ["node"].
Definition descMemUsed : Desc := mkDesc "skipper_node_mem_used_bytes" ["node"].

Definition diskLabels : list string := ["node"; "mount"].
Definition descDiskTotal : Desc := mkDesc "skipper_disk_total_bytes" diskLabels.
Definition descDiskUsed : Desc := mkDesc "skipper_disk_used_bytes" diskLabels.
Definition descDiskPct : Desc := mkDesc "skipper_disk_used_percent" diskLabels.

Definition devLabels : list string := ["node"; "kind"; "vendor"; "index"; "uuid"; "name"].
Definition descDevUtil : Desc := mkDesc "skipper_device_utilization" devLabels.
Definition descDevMemT : Desc := mkDesc "skipper_device_mem_total_bytes" devLabels.
Definition descDevMemU : Desc := mkDesc "skipper_device_mem_used_bytes" devLabels.
Definition descDevTemp : Desc := mkDesc "skipper_device_temperature_celsius" devLabels.
Definition descDevPower : Desc := mkDesc "skipper_device_power_watts" devLabels.

Definition Describe : list Desc :=
  [descNodeUp; descCPUUtil; descLoad1; descMemTotal; descMemUsed; descDiskTotal; descDiskUsed; descDiskPct;
   descDevUtil; descDevMemT; descDevMemU; descDevTemp; descDevPower].

(** A constant gauge. *)
Record Metric := mkMetric { metric_desc : Desc; metric_values : list string; metric_value : float64 }.

Definition cpuMetrics (node : string) (c : pbCPUStats) : list Metric :=
  [mkMetric descCPUUtil [node] (pbCPUStats_Utilization c); mkMetric descLoad1 [node] (pbCPUStats_Load1 c)].

Definition memMetrics (node : string) (m : pbMemStats) : list Metric :=
  [mkMetric descMemTotal [node] (f64 (pbMemStats_TotalBytes m)); mkMetric descMemUsed [node] (f64 (pbMemStats_UsedBytes m))].

Definition diskMetrics (node : string) (d : pbDiskStats) : list Metric :=
  let lv := [node; pbDiskStats_Mount d] in
  [mkMetric descDiskTotal lv (f64 (pbDiskStats_TotalBytes d)); mkMetric descDiskUsed lv (f64 (pbDiskStats_UsedBytes d));
   mkMetric descDiskPct lv (pbDiskStats_UsedPercent d)].

Definition devMetrics (node : string) (d : pbDeviceStats) : list Metric :=
  let lv := [node; pbDeviceStats_Kind d; pbDeviceStats_Vendor d; itoa (pbDeviceStats_Index d); pbDeviceStats_Uuid d;
             pbDeviceStats_Name d] in
  [mkMetric descDevUtil lv (pbDeviceStats_Utilization d); mkMetric descDevMemT lv (f64 (pbDeviceStats_MemTotalBytes d));
   mkMetric descDevMemU lv (f64 (pbDeviceStats_MemUsedBytes d)); mkMetric descDevTemp lv (pbDeviceStats_TemperatureC d);
   mkMetric descDevPower lv (pbDeviceStats_PowerWatts d)].

(** The body of the loop over the nodes. *)
Definition collectNode (metrics : MetricsStore) (n : Node) : list Metric :=
  let name := Node_Name n in
  mkMetric descNodeUp [name] (f64 (if decide (Node_State n = StateUp) then 1 else 0)) ::
  match metrics_Get (Node_ID n) metrics with
  | (Some snap, true) =>
      match pbMetricsSnapshot_Cpu snap with Some c => cpuMetrics name c | None => [] end ++
      match pbMetricsSnapshot_Mem snap with Some m => memMetrics name m | None => [] end ++
      (pbMetricsSnapshot_Disks snap ≫= diskMetrics name) ++
      (pbMetricsSnapshot_Devices snap ≫= devMetrics name)
  | _ => []
  end.

(** [Collect]: nothing is sent when the nodes cannot be listed. *)
Definition Collect {S} `{!Store S} : ST (Control S) (list Metric) :=
  nodes <- on_db store_ListNodes ;;
  match nodes with
  | Err _ => st_ret []
  | Ok nodes => λ c, (nodes ≫= collectNode (ct_metrics c), c)
  end.

(** ** The metrics server of server.go *)

(** An answer: the status and the body. *)
Definition page : Type := Z * string.

(** [promhttp.HandlerFor] over a registry with the collector: [gather] checks the samples and renders
    them, or says what is wrong with them. *)
Definition metricsPage {S} `{!Store S} (gather : list Metric → result string) : ST (Control S) page :=
  ms <- Collect ;;
  st_ret (match gather ms with Ok text => (200, text) | Err e => (500, e) end).

(** The mux of [startMetricsHTTP]. *)
Definition metricsMux {S} `{!Store S} (gather : list Metric → result string) (path : string) : ST (Control S) page :=
  if decide (path = "/metrics") then metricsPage gather
  else if decide (path = "/healthz") then st_ret (200, "ok")
  else st_ret (404, "404 page not found").
