(* ===== verification/PrometheusTheorems.v ===== *)
(** * Every exported sample has its own identity *)
From stdpp Require Import pretty.
From S2P Require Import Prelude GoBase GoStrings GoFloat Event Proto Store StoreSpec World Config Notify Server ServerTheorems Prometheus.
Local Open Scope Z_scope.

(** What identifies a sample: the registry refuses two samples with the same identity, and with them
    the whole scrape. *)
Definition series (m : Metric) : Desc * list string := (metric_desc m, metric_values m).

(** The labels of a device besides its node. *)
Definition devLabelsOf (d : pbDeviceStats) : string * string * Z * string * string :=
  (pbDeviceStats_Kind d, pbDeviceStats_Vendor d, pbDeviceStats_Index d, pbDeviceStats_Uuid d, pbDeviceStats_Name d).

(** Snapshots that name each mount point and each device once. *)
Definition snapshot_ok (snap : pbMetricsSnapshot) : Prop :=
  NoDup (pbDiskStats_Mount <$> pbMetricsSnapshot_Disks snap) ∧ NoDup (devLabelsOf <$> pbMetricsSnapshot_Devices snap).

Definition metrics_ok (m : MetricsStore) : Prop := ∀ id snap, m !! id = Some (Some snap) → snapshot_ok snap.

(** The kind of a descriptor: its labels and the part of the node it describes. *)
Definition group (d : Desc) : nat :=
  if decide (d = descNodeUp) then 0
  else if decide (d = descCPUUtil ∨ d = descLoad1) then 1
  else if decide (d = descMemTotal ∨ d = descMemUsed) then 2
  else if decide (desc_labels d = diskLabels) then 3 else 4.

(** Lists of samples of different groups do not share a series. *)
Lemma NoDup_groups (l1 l2 : list Metric) k :
  NoDup (series <$> l1) → NoDup (series <$> l2) →
  Forall (λ m, group (metric_desc m) = k) l1 → Forall (λ m, (k < group (metric_desc m))%nat) l2 →
  NoDup (series <$> (l1 ++ l2)).
Proof.
  intros H1 H2 F1 F2. rewrite fmap_app. apply NoDup_app. split_and!; [done| |done].
  intros x (m & -> & Hm)%list_elem_of_fmap (m' & E & Hm')%list_elem_of_fmap.
  rewrite Forall_forall in F1, F2. specialize (F1 _ Hm). specialize (F2 _ Hm'). unfold series in E.
  injection E as E _. rewrite E in F1. lia.
Qed.

Lemma NoDup_series_bind {A B} (key : A → B) (g : A → list Metric) l :
  NoDup (key <$> l) → (∀ x, NoDup (series <$> g x)) →
  (∀ x y a b, a ∈ g x → b ∈ g y → metric_values a = metric_values b → key x = key y) →
  NoDup (series <$> (l ≫= g)).
Proof.
  intros Hl Hg Hk. induction l as [|x l IH]; [constructor|]. csimpl in *. apply NoDup_cons in Hl as [Hx Hl].
  rewrite fmap_app. apply NoDup_app. split_and!; [done| |by apply IH].
  intros s (a & -> & Ha)%list_elem_of_fmap (b & E & Hb)%list_elem_of_fmap.
  apply list_elem_of_bind in Hb as (y & Hb & Hy). apply Hx. apply list_elem_of_fmap. exists y. split; [|done].
  injection E as _ E. by eapply Hk.
Qed.

Lemma diskMetrics_nodup name d : NoDup (series <$> diskMetrics name d).
Proof. csimpl. repeat (apply NoDup_cons; split; [set_solver|]). apply NoDup_nil_2. Qed.
Lemma devMetrics_nodup name d : NoDup (series <$> devMetrics name d).
Proof. csimpl. repeat (apply NoDup_cons; split; [set_solver|]). apply NoDup_nil_2. Qed.

Lemma Forall_groups {A} (g : A → list Metric) (P : Metric → Prop) l :
  (∀ x, Forall P (g x)) → Forall P (l ≫= g).
Proof. intros H. induction l as [|x l IH]; [constructor|]. csimpl. apply Forall_app. auto. Qed.

Definition described (m : Metric) : Prop :=
  metric_desc m ∈ Describe ∧ length (metric_values m) = length (desc_labels (metric_desc m)).

Lemma higher k k' l : (k < k')%nat → Forall (λ m, group (metric_desc m) = k') l → Forall (λ m, (k < group (metric_desc m))%nat) l.
Proof. intros Hk Hl. eapply Forall_impl; [exact Hl|]. by intros m ->. Qed.

(** A sample of the group [k] of a node. *)
Definition of_node (name : string) (k : nat) (m : Metric) : Prop :=
  group (metric_desc m) = k ∧ described m ∧ head (metric_values m) = Some name.

Lemma cpuMetrics_ok name c : Forall (of_node name 1) (cpuMetrics name c).
Proof. repeat constructor; set_solver. Qed.
Lemma memMetrics_ok name c : Forall (of_node name 2) (memMetrics name c).
Proof. repeat constructor; set_solver. Qed.
Lemma diskMetrics_ok name d : Forall (of_node name 3) (diskMetrics name d).
Proof. repeat constructor; set_solver. Qed.
Lemma devMetrics_ok name d : Forall (of_node name 4) (devMetrics name d).
Proof. repeat constructor; set_solver. Qed.

(** The device behind a sample of a device. *)
Lemma devMetrics_values name d a : a ∈ devMetrics name d →
  metric_values a = [name; pbDeviceStats_Kind d; pbDeviceStats_Vendor d; itoa (pbDeviceStats_Index d); pbDeviceStats_Uuid d;
                     pbDeviceStats_Name d].
Proof. unfold devMetrics. set_solver. Qed.
Lemma diskMetrics_values name d a : a ∈ diskMetrics name d → metric_values a = [name; pbDiskStats_Mount d].
Proof. unfold diskMetrics. set_solver. Qed.

(** The samples of one node. *)
Lemma collectNode_ok ms n :
  metrics_ok ms →
  NoDup (series <$> collectNode ms n) ∧ Forall (λ m, described m ∧ head (metric_values m) = Some (Node_Name n)) (collectNode ms n).
Proof.
  intros Hok. unfold collectNode. set (name := Node_Name n). set (up := mkMetric descNodeUp _ _).
  assert (of_node name 0 up) as G0 by (repeat constructor; set_solver).
  destruct (metrics_Get (Node_ID n) ms) as [[snap|] []] eqn:Eg.
  2-4: split; [apply NoDup_singleton|apply Forall_singleton, G0].
  assert (snapshot_ok snap) as [Hdisk Hdev].
  { apply (Hok (Node_ID n)). unfold metrics_Get in Eg. by destruct (ms !! Node_ID n) as [[]|]; simplify_eq. }
  set (cpu := match pbMetricsSnapshot_Cpu snap with Some c => cpuMetrics name c | None => [] end).
  set (mem := match pbMetricsSnapshot_Mem snap with Some c => memMetrics name c | None => [] end).
  set (disks := pbMetricsSnapshot_Disks snap ≫= diskMetrics name).
  set (devs := pbMetricsSnapshot_Devices snap ≫= devMetrics name).
  assert (Forall (of_node name 1) cpu) as G1 by (unfold cpu; destruct (pbMetricsSnapshot_Cpu snap); [apply cpuMetrics_ok|constructor]).
  assert (Forall (of_node name 2) mem) as G2 by (unfold mem; destruct (pbMetricsSnapshot_Mem snap); [apply memMetrics_ok|constructor]).
  assert (Forall (of_node name 3) disks) as G3 by (apply Forall_groups, diskMetrics_ok).
  assert (Forall (of_node name 4) devs) as G4 by (apply Forall_groups, devMetrics_ok).
  assert (∀ k l, Forall (of_node name k) l → Forall (λ m, group (metric_desc m) = k) l) as grp
    by (intros k l Hl; eapply Forall_impl; [exact Hl|]; by intros m [? _]).
  assert (∀ k l, Forall (of_node name k) l → Forall (λ m, described m ∧ head (metric_values m) = Some name) l) as shape
    by (intros k l Hl; eapply Forall_impl; [exact Hl|]; by intros m [_ ?]).
  split.
  - apply (NoDup_groups [up] _ 0); [apply NoDup_singleton| |by repeat constructor; apply G0|].
    2: { repeat (apply Forall_app; split). all: eapply higher; [|by apply grp]. all: lia. }
    apply (NoDup_groups _ _ 1); [| |by apply grp|].
    { unfold cpu. destruct (pbMetricsSnapshot_Cpu snap); [|constructor]. csimpl. repeat (apply NoDup_cons; split; [set_solver|]). apply NoDup_nil_2. }
    2: { repeat (apply Forall_app; split). all: eapply higher; [|by apply grp]. all: lia. }
    apply (NoDup_groups _ _ 2); [| |by apply grp|].
    { unfold mem. destruct (pbMetricsSnapshot_Mem snap); [|constructor]. csimpl. repeat (apply NoDup_cons; split; [set_solver|]). apply NoDup_nil_2. }
    2: { repeat (apply Forall_app; split). all: eapply higher; [|by apply grp]. all: lia. }
    apply (NoDup_groups _ _ 3); [| |by apply grp|eapply higher; [|by apply grp]; lia].
    + apply (NoDup_series_bind pbDiskStats_Mount); [done|apply diskMetrics_nodup|].
      intros x y a b ->%diskMetrics_values ->%diskMetrics_values. by intros [= ->].
    + apply (NoDup_series_bind devLabelsOf); [done|apply devMetrics_nodup|].
      intros x y a b ->%devMetrics_values ->%devMetrics_values. intros [= E1 E2 E3%(inj pretty) E4 E5].
      unfold devLabelsOf. congruence.
  - apply Forall_cons. split; [apply G0|]. repeat (apply Forall_app; split); by eapply shape.
Qed.

Section scrape.
Context {S : Type} `{!Store S, !StoreLaws S}.

Lemma Collect_facts (c : Control S) ms c' :
  inv (db_of c) → metrics_ok (ct_metrics c) → Collect c = (ms, c') →
  NoDup (series <$> ms) ∧ Forall described ms ∧
  ((∀ id n, v_nodes (view (db_of c)) !! id = Some n →
      mkMetric descNodeUp [Node_Name n] (f64 (if decide (Node_State n = StateUp) then 1 else 0)) ∈ ms) ∨
   ∃ e s', store_ListNodes (db_of c) = (Err e, s') ∧ ms = []).
Proof.
  intros Hi Hok. unfold Collect, st_bind. destruct (on_db store_ListNodes c) as [r c1] eqn:E.
  destruct (on_db_query _ _ _ _ _ lists_nodes Hi E) as (_ & _ & Hr).
  assert (ct_metrics c1 = ct_metrics c) as Em.
  { unfold on_db, on_proc in E. destruct (on_fst _ _) as [? ?]. by injection E as _ <-. }
  destruct r as [ns|e].
  2: { intros [= <- <-]. split; [constructor|]. split; [constructor|]. right.
       unfold on_db, on_proc, on_fst, on_store, db_of in *. destruct c as [[w eng] m l]. simpl in *.
       destruct (store_ListNodes (w_store w)) as [r s']. injection E as -> _. eauto. }
  destruct (Hr ns eq_refl) as [Hnd Hin]. rewrite Em. intros [= <- <-].
  assert (NoDup (Node_Name <$> ns)) as Hnames.
  { apply NoDup_fmap_2_strong; [|by apply (NoDup_fmap_1 Node_ID)].
    intros x y Hx%Hin Hy%Hin Exy. assert (Node_ID x = Node_ID y) as Eid by (by eapply view_names).
    rewrite Eid in Hx. congruence. }
  split; [|split].
  - apply (NoDup_series_bind Node_Name); [done|intros n; by apply collectNode_ok|].
    intros x y a b Ha Hb Ev. destruct (collectNode_ok (ct_metrics c) x Hok) as [_ Fx].
    destruct (collectNode_ok (ct_metrics c) y Hok) as [_ Fy]. rewrite Forall_forall in Fx, Fy.
    destruct (Fx _ Ha) as [_ Ex], (Fy _ Hb) as [_ Ey]. rewrite Ev in Ex. congruence.
  - apply Forall_groups. intros n. eapply Forall_impl; [by apply collectNode_ok|]. by intros m [? _].
  - left. intros id n Hn. pose proof (view_node_id _ _ _ Hi Hn) as <-. apply list_elem_of_bind. exists n.
    split; [by left|by apply Hin].
Qed.

(** (safety) A scrape is never refused for a duplicate: if the latest snapshots name each mount and
    each device once, every sample that [Collect] sends has a described metric with a value for
    each of its labels, and no two samples have the same metric and label values; every node of
    the store has its sample of being up, 1 or 0, unless the store fails to list the nodes. *)
Theorem Collect_series (c : Control S) ms c' :
  inv (db_of c) → metrics_ok (ct_metrics c) → Collect c = (ms, c') →
  NoDup (series <$> ms) ∧ Forall described ms ∧
  ((∀ id n, v_nodes (view (db_of c)) !! id = Some n →
      mkMetric descNodeUp [Node_Name n] (f64 (if decide (Node_State n = StateUp) then 1 else 0)) ∈ ms) ∨
   ∃ e s', store_ListNodes (db_of c) = (Err e, s') ∧ ms = []).
Proof. apply Collect_facts. Qed.

(** (error) The metrics page of a control plane with well-formed metrics is always served: if the
    registry takes samples of its descriptors with a value for each label and no two of one series,
    the answer has status 200, also when the store fails. *)
Theorem metrics_page_served (gather : list Metric → result string) (c : Control S) :
  (∀ ms, NoDup (series <$> ms) → Forall described ms → is_ok (gather ms) = true) →
  inv (db_of c) → metrics_ok (ct_metrics c) →
  ∃ text, (metricsMux gather "/metrics" c).1 = (200, text).
Proof.
  intros Hg Hi Hok. unfold metricsMux. rewrite decide_True by done. unfold metricsPage, st_bind.
  destruct (Collect c) as [ms c'] eqn:E. destruct (Collect_facts c ms c' Hi Hok E) as (Hn & Hd & _).
  specialize (Hg ms Hn Hd). simpl. destruct (gather ms) as [text|]; [by exists text|done].
Qed.
End scrape.

(** ** An example *)

From S2P Require Import SQLite SQLiteProofs StoreExample SQLiteRefines.

Definition ex_snapshot : pbMetricsSnapshot :=
  mkPbMetricsSnapshot 2000 None None [mkPbDiskStats "/" "ext4" 100 50 (f64 50) (f64 1)]
    [mkPbDeviceStats "gpu" "nvidia" 0 "GPU-0" "A100" (f64 0) 100 0 (f64 30) (f64 60);
     mkPbDeviceStats "gpu" "nvidia" 1 "GPU-1" "A100" (f64 0) 100 0 (f64 30) (f64 60)].

Definition ex_scraped : Control DB :=
  mkControl (ct_proc (ex_control ex_db)) {["n1" := Some ex_snapshot]} (ct_logs (ex_control ex_db)).

Example Collect_series_witness :
  length (Collect ex_scraped).1 = 15%nat ∧ NoDup (series <$> (Collect ex_scraped).1).
Proof.
  split; [vm_compute; reflexivity|]. destruct (Collect ex_scraped) as [ms c'] eqn:E.
  assert (metrics_ok (ct_metrics ex_scraped)) as Hok.
  { intros id snap H. cbn [ex_scraped ct_metrics] in H. apply lookup_singleton_Some in H as [_ [= <-]].
    split; by_decide. }
  exact (proj1 (Collect_series (S := DB) (StoreLaws0 := sqlite_laws) ex_scraped ms c' ex_db_ok Hok E)).
Defined.

(** A registry that refuses a series sent twice. *)
Definition ex_gather (ms : list Metric) : result string :=
  if decide (NoDup (series <$> ms)) then Ok (itoa (Z.of_nat (length ms)) +:+ " samples") else Err "collected before".

Lemma metrics_page_served_witness :
  (metricsMux ex_gather "/metrics" ex_scraped).1 = (200, "15 samples") ∧
  ∃ text, (metricsMux ex_gather "/metrics" ex_scraped).1 = (200, text).
Proof.
  split; [vm_compute; reflexivity|].
  assert (metrics_ok (ct_metrics ex_scraped)) as Hok.
  { intros id snap H. cbn [ex_scraped ct_metrics] in H. apply lookup_singleton_Some in H as [_ [= <-]].
    split; by_decide. }
  refine (metrics_page_served (S := DB) (StoreLaws0 := sqlite_laws) ex_gather ex_scraped _ ex_db_ok Hok).
  intros ms Hn _. unfold ex_gather. by rewrite decide_True.
Defined.
