(* ===== verification/Main.v ===== *)
(** * cmd/skipper-agent, cmd/skipper-server, internal/log and the wiring of server.Run

    The mains as far as the configuration they start with; what [server.Run] starts, from its
    configuration, and what it stops at the end. *)
From S2P Require Import Prelude GoBase GoStrings GoFloat GoFormat GoParse GoFlag Event Store Plan Scheduler World Config Notify JobLog Transport Server Reap.
Local Open Scope Z_scope.

(** ** internal/log *)

Inductive Level := LevelDebug | LevelInfo | LevelWarn | LevelError.

(** The level of the logger that [New] makes. *)
Definition levelOf `{UnicodeCase} (level : string) : Level :=
  let l := ToLower (TrimSpace level) in
  if decide (l = "debug") then LevelDebug
  else if decide (l = "warn" ∨ l = "warning") then LevelWarn
  else if decide (l = "error") then LevelError
  else LevelInfo.

(** ** How a program starts *)

(** It exits with a status, panics with an error, or goes on. *)
Inductive startup (A : Type) := Exit (status : Z) | Panic (err : string) | Started (a : A).
Arguments Exit {A} _.
Arguments Panic {A} _.
Arguments Started {A} _.

(** [flag.Parse] of the command line: an error is printed and ends the program. *)
Definition commandLine {C A} (f : FlagSet C) (args : list string) (c : C) (k : C → startup A) : startup A :=
  match flag_Parse f args c with
  | Err err => Exit (if decide (err = ErrHelp) then 0 else 2)
  | Ok (c, _) => k c
  end.

(** ** cmd/skipper-agent *)

Record AgentFlags := mkAgentFlags { af_config : string; af_server : string; af_name : string; af_partition : string }.

Definition agentFlagSet : FlagSet AgentFlags :=
  mkFlagSet (λ n, if decide (n = "config" ∨ n = "server" ∨ n = "name" ∨ n = "partition") then Some false else None)
    (λ n v f, Ok (if decide (n = "config") then mkAgentFlags v (af_server f) (af_name f) (af_partition f)
                  else if decide (n = "server") then mkAgentFlags (af_config f) v (af_name f) (af_partition f)
                  else if decide (n = "name") then mkAgentFlags (af_config f) (af_server f) v (af_partition f)
                  else mkAgentFlags (af_config f) (af_server f) (af_name f) v)).

(** [if *flag != "" { field = *flag }] *)
Definition given (flag field : string) : string := if decide (flag = "") then field else flag.

Definition withFlags (f : AgentFlags) (c : AgentConfig) : AgentConfig := {|
  Agent_Server_Addr := given (af_server f) (Agent_Server_Addr c);
  Agent_Node_Name := given (af_name f) (Agent_Node_Name c);
  Agent_Node_Partition := given (af_partition f) (Agent_Node_Partition c);
  Agent_Node_Labels := Agent_Node_Labels c;
  Agent_Collectors_Interval := Agent_Collectors_Interval c;
  Agent_Jobs_PollInterval := Agent_Jobs_PollInterval c;
  Agent_Log_Level := Agent_Log_Level c
|}.

(** The configuration that [agent.Run] is called with. *)
Definition agentMain (readFile : string → result string) (unmarshal : string → AgentConfig → AgentConfig * option string)
    (getenv : string → string) (args : list string) : startup AgentConfig :=
  commandLine agentFlagSet args (mkAgentFlags "" "" "" "") (λ f,
    match LoadAgent readFile unmarshal getenv (af_config f) with
    | (_, Some err) => Panic err
    | (c, None) => Started (withFlags f c)
    end).

(** ** cmd/skipper-server *)

Definition serverFlagSet : FlagSet string :=
  mkFlagSet (λ n, if decide (n = "config") then Some false else None) (λ _ v _, Ok v).

(** The state of the control plane that [server.New] makes over an open store. *)
Definition newServer {S} (cfg : ServerConfig) (st : S) (clock : nat → Time) (rand : nat → list Z) (logs : FS) : Control S :=
  mkControl (mkWorld st clock 0 rand 0, NewEngine (Server_Notify cfg)) ∅ logs.

(** [open] opens the store of a data source name. *)
Definition serverMain {S} (readFile : string → result string) (unmarshal : string → ServerConfig → ServerConfig * option string)
    (getenv : string → string) (open : string → result S) (args : list string) : startup (ServerConfig * S) :=
  commandLine serverFlagSet args "" (λ path,
    match LoadServer readFile unmarshal getenv path with
    | (_, Some err) => Panic err
    | (c, None) =>
        match open (Server_Store_DSN c) with
        | Err _ => Exit 1
        | Ok st => Started (c, st)
        end
    end).

(** ** server.Run *)

(** What it starts: the log store of the services, the scheduler, the detector, the tunnels with their
    targets and the nodes provisioned, the diagnoser, the reaper's interval and timeout, and the
    addresses of the HTTP servers. *)
Record Running := mkRunning {
  rn_grpc : string;
  rn_logs : jobLogStore;
  rn_scheduler : Scheduler;
  rn_detector : Detector;
  rn_tunnels : list (SSHConfig * string);
  rn_provisioned : list SSHNodeConfig;
  rn_diag : option Diagnoser;
  rn_reap : Duration * Duration;
  rn_metrics : option string;
  rn_web : option string
}.

(** An HTTP server is started when its address is configured. *)
Definition httpServer (addr : string) : option string := if decide (addr = "") then None else Some addr.

(** [listenErr] and [mkdirErr] are the errors of [net.Listen] and [os.MkdirAll]. *)
Definition Run (listenErr mkdirErr : option string) (cfg : ServerConfig) : result Running :=
  match listenErr with
  | Some err => Err err
  | None =>
      match newJobLogStore mkdirErr (Server_Jobs_LogsDir cfg) with
      | Err err => Err err
      | Ok logs =>
          let '(tunnels, provisioned) := startSSHTunnels (Server_SSHNodes cfg) (Server_Listen_GRPC cfg) in
          Ok (mkRunning (Server_Listen_GRPC cfg) logs
                (New (Server_Scheduler_Interval cfg) (mkPolicy (Server_Scheduler_Backfill cfg) (Server_Scheduler_AgeWeight cfg)))
                (NewDetector (Server_Notify cfg)) tunnels provisioned (startDiagnoser cfg)
                (Server_Heartbeat_ReapInterval cfg, Server_Heartbeat_Timeout cfg)
                (httpServer (Server_Metrics_HTTP cfg)) (httpServer (Server_Web_HTTP cfg)))
      end
  end.

(** What the end of the context stops, in order: the HTTP servers that were started, each within a
    limit, and then the gRPC server, without one. *)
Inductive stopAction := StopMetrics (limit : Duration) | StopWeb (limit : Duration) | StopGRPC.

Definition onCancel (r : Running) : list stopAction :=
  match rn_metrics r with Some _ => [StopMetrics (3 * Second)] | None => [] end ++
  match rn_web r with Some _ => [StopWeb (3 * Second)] | None => [] end ++ [StopGRPC].

(** How [grpc.Server.Serve] ends, and what [Run] returns. *)
Inductive serveEnd := ServeReturns | ServerStopped | ServeFails (err : string).

Definition served (e : serveEnd) : result unit := match e with ServeFails err => Err err | _ => Ok () end.

(** The status a main exits with once [server.Run] or [agent.Run] has returned. *)
Definition exitStatus (r : result unit) : Z := match r with Ok _ => 0 | Err _ => 1 end.

(** ** What becomes of the processes *)

Definition startup_bind {A B} (m : startup A) (k : A → startup B) : startup B :=
  match m with Exit status => Exit status | Panic err => Panic err | Started a => k a end.

(** [time.NewTicker] panics when its interval is not positive. *)
Definition NewTicker (d : Duration) : startup unit :=
  if decide (d ≤ 0) then Panic "non-positive interval for NewTicker" else Started ().

(** A panic in any goroutine ends the process: all the tickers have to start. *)
Fixpoint tickersStart (intervals : list Duration) : startup unit :=
  match intervals with
  | [] => Started ()
  | d :: intervals => startup_bind (NewTicker d) (λ _, tickersStart intervals)
  end.

(** The loops of the server's goroutines: the scheduler's, the detector's and the reaper's. *)
Definition serverTickers (r : Running) : list Duration :=
  [Scheduler_interval (rn_scheduler r); Notify_Interval (d_cfg (rn_detector r)); (rn_reap r).1].

(** The agent's loops, which start once it has registered: the poll loop's and the reports'. *)
Definition agentTickers (c : AgentConfig) : list Duration := [Agent_Jobs_PollInterval c; Agent_Collectors_Interval c].

(** The server process until all its goroutines are in their loops. *)
Definition serverProcess {S} (readFile : string → result string) (unmarshal : string → ServerConfig → ServerConfig * option string)
    (getenv : string → string) (open : string → result S) (listenErr mkdirErr : option string) (args : list string) :
    startup (ServerConfig * S * Running) :=
  startup_bind (serverMain readFile unmarshal getenv open args) (λ '(cfg, st),
    match Run listenErr mkdirErr cfg with
    | Err _ => Exit (exitStatus (Err ""))
    | Ok r => startup_bind (tickersStart (serverTickers r)) (λ _, Started (cfg, st, r))
    end).

(** The agent process, if it registers; [clientErr] is the error of [grpc.NewClient] for an address. *)
Definition agentProcess (readFile : string → result string) (unmarshal : string → AgentConfig → AgentConfig * option string)
    (getenv : string → string) (clientErr : string → option string) (args : list string) : startup AgentConfig :=
  startup_bind (agentMain readFile unmarshal getenv args) (λ cfg,
    match clientErr (Agent_Server_Addr cfg) with
    | Some _ => Exit (exitStatus (Err ""))
    | None => startup_bind (tickersStart (agentTickers cfg)) (λ _, Started cfg)
    end).
