(* ===== verification/Cluster.v ===== *)
(** * internal/agent/agent.go connected to internal/server: the cluster

    [agent.Run] is three kinds of goroutines: the reporting loop (which registers first), the poll
    loop and the runs of the executor.  An agent's state holds where each of them stands; the cluster
    is the control plane with its agents; a step is one turn of one goroutine, up to and
    including the call it makes to the control plane.  A call goes over gRPC, where the request or
    the reply can be lost. *)
From S2P Require Import Prelude GoBase GoStrings GoFloat GoFormat GoPath Event Proto Store Plan Scheduler World Collector Convert Config Notify JobLog Transport Agent Server ServerTheorems Reap.
Local Open Scope Z_scope.

(** [version.Version] *)
Definition Version : string := "0.0.1-m0".

(** ** The state of an agent *)

Inductive mainState :=
| Collecting                                                     (** about to take the snapshot to register with *)
| Registering (req : pbRegisterNodeRequest) (backoff : Duration) (** in the loop of [register] *)
| Reporting.                                                     (** in the loop of [Run] *)

(** The configuration, the host name, the address the server sees; the reporting loop and the node
    id it shares; whether the poll loop has been started, and what is left of the answer it is
    working through; the executor; the process groups on the host that earlier processes of the
    agent launched and left when they ended. *)
Record agent := mkAgent {
  ag_cfg : AgentConfig;
  ag_hostname : result string;
  ag_peer : option string;
  ag_main : mainState;
  ag_nref : string;
  ag_polling : bool;
  ag_todo : list event;
  ag_exec : executor;
  ag_orphans : list pbAssignment
}.

(** An agent's process when it starts, on a host that runs no job. *)
Definition newAgent (cfg : AgentConfig) (hostname : result string) (peer : option string) : agent :=
  mkAgent cfg hostname peer Collecting "" false [] newExecutor [].

(** The process ends, and is started again.  Everything it held is lost; its job processes are not:
    nothing kills them, and no executor knows them any more. *)
Definition restarted (a : agent) : agent :=
  mkAgent (ag_cfg a) (ag_hostname a) (ag_peer a) Collecting "" false [] newExecutor
    (ag_orphans a ++ groupsOf (ag_exec a)).

Definition nameOf (a : agent) : string := agentName (Agent_Node_Name (ag_cfg a)) (ag_hostname a).

Definition with_main (m : mainState) (a : agent) : agent :=
  mkAgent (ag_cfg a) (ag_hostname a) (ag_peer a) m (ag_nref a) (ag_polling a) (ag_todo a) (ag_exec a) (ag_orphans a).
(** The id is there; after the first time the poll loop runs. *)
Definition registered_as (id : string) (a : agent) : agent :=
  mkAgent (ag_cfg a) (ag_hostname a) (ag_peer a) Reporting id true (ag_todo a) (ag_exec a) (ag_orphans a).
Definition with_todo (t : list event) (a : agent) : agent :=
  mkAgent (ag_cfg a) (ag_hostname a) (ag_peer a) (ag_main a) (ag_nref a) (ag_polling a) t (ag_exec a) (ag_orphans a).
Definition with_exec (x : executor) (a : agent) : agent :=
  mkAgent (ag_cfg a) (ag_hostname a) (ag_peer a) (ag_main a) (ag_nref a) (ag_polling a) (ag_todo a) x (ag_orphans a).
Definition with_orphans (l : list pbAssignment) (a : agent) : agent :=
  mkAgent (ag_cfg a) (ag_hostname a) (ag_peer a) (ag_main a) (ag_nref a) (ag_polling a) (ag_todo a) (ag_exec a) l.

(** The request of [register], from a snapshot. *)
Definition registerRequest (cfg : AgentConfig) (name : string) (snap : option pbMetricsSnapshot) : pbRegisterNodeRequest :=
  mkPbRegisterNodeRequest name (Agent_Node_Partition cfg) (Some (ResourcesFromSnapshot snap))
    (Agent_Node_Labels cfg) Version.

(** What the poll loop does with an answer, in order. *)
Definition workOf (resp : pbPollAssignmentsResponse) : list event :=
  (EvStart <$> pbPollAssignmentsResponse_Run resp) ++ (EvCancel <$> pbPollAssignmentsResponse_CancelJobIds resp).

(** ** A call over the network *)

Inductive link := Delivered | RequestLost (err : string) | ReplyLost (err : string).

Section cluster.
Context {S : Type} `{!Store S, UnicodeCase}.

(** The caller sees the reply, the message of the status, or the error of the transport. *)
Definition over {B} (l : link) (h : ST (Control S) (rpc B)) : ST (Control S) (result B) := λ c,
  match l with
  | RequestLost err => (Err err, c)
  | ReplyLost err => (Err err, (h c).2)
  | Delivered => let '(r, c) := h c in (match r with Reply b => Ok b | Status _ msg => Err msg end, c)
  end.

(** ** The turns of an agent *)

(** One attempt of [register]: on an error the pause is slept and doubled. *)
Definition attemptRegister (l : link) (a : agent) : ST (Control S) (option agent) :=
  match ag_main a with
  | Registering req backoff =>
      resp <- over l (RegisterNode (ag_peer a) req) ;;
      st_ret (Some (match resp with
                    | Ok resp => registered_as (pbRegisterNodeResponse_NodeId resp) a
                    | Err _ => with_main (Registering req (backoffNext (16 * Second) backoff)) a
                    end))
  | _ => st_ret None
  end.

(** One turn of the loop of [Run], with the snapshot collected. *)
Definition reportMetrics (snap : option pbMetricsSnapshot) (l : link) (a : agent) : ST (Control S) (option agent) :=
  match ag_main a with
  | Reporting =>
      resp <- over l (ReportMetrics (mkPbReportMetricsRequest (ag_nref a) snap)) ;;
      st_ret (Some (match resp with
                    | Err _ => a
                    | Ok resp => if pbReportMetricsResponse_ShouldReregister resp then with_main Collecting a else a
                    end))
  | _ => st_ret None
  end.

(** One tick of [pollLoop], when the last answer has been worked through. *)
Definition pollTick (l : link) (a : agent) : ST (Control S) (option agent) :=
  if negb (ag_polling a) || bool_decide (ag_todo a ≠ []) then st_ret None
  else if decide (ag_nref a = "") then st_ret (Some a)
  else
    resp <- over l (PollAssignments (mkPbPollAssignmentsRequest (ag_nref a))) ;;
    st_ret (Some (match resp with Err _ => a | Ok resp => with_todo (workOf resp) a end)).

Definition sendReport (l : link) (r : Report) : ST (Control S) unit :=
  over l (UpdateJobStatus (mkPbUpdateJobStatusRequest (rp_job r) (rp_state r) (rp_code r) (rp_reason r))) ;;;
  st_ret tt.

(** A step of the executor, with the report it makes. *)
Definition execStep (ev : event) (l : link) (a : agent) : ST (Control S) (option agent) :=
  match step (ag_exec a) ev with
  | None => st_ret None
  | Some x =>
      st_for (drop (length (x_reports (ag_exec a))) (x_reports x)) (sendReport l) ;;;
      st_ret (Some (with_exec x a))
  end.

(** A read of the pump of a run whose process has been launched and has not been reported as ended. *)
Definition pumpChunk (logs : jobLogStore) (g : nat) (chunk : string) (l : link) (a : agent) : ST (Control S) (option agent) :=
  match x_runs (ag_exec a) !! g with
  | Some rj =>
      match rj_phase rj with
      | Unannounced | Announced | Started =>
          over l (AppendLogs logs (mkPbAppendLogsRequest (pbAssignment_JobId (rj_assignment rj)) chunk)) ;;;
          st_ret (Some a)
      | _ => st_ret None
      end
  | None => st_ret None
  end.

Inductive agentEvent :=
| AgCollect (snap : option pbMetricsSnapshot)                     (** the snapshot to register with *)
| AgRegister (l : link)                                           (** an attempt to register *)
| AgReport (snap : option pbMetricsSnapshot) (l : link)           (** a turn of the reporting loop *)
| AgPoll (l : link)                                               (** a tick of the poll loop *)
| AgWork                                                          (** the next item of the last answer *)
| AgExec (ev : event) (l : link)                                  (** a goroutine of the executor *)
| AgLogs (logs : jobLogStore) (g : nat) (chunk : string) (l : link) (** output of a job *)
| AgRestart                                                       (** the process ends and is started again *)
| AgOrphanExit (i : nat).                                         (** a process group left behind ends *)

(** The poll loop alone starts and cancels jobs. *)
Definition ofPollLoop (ev : event) : bool := match ev with EvStart _ | EvCancel _ => true | _ => false end.

Definition agentStep (ev : agentEvent) (a : agent) : ST (Control S) (option agent) :=
  match ev with
  | AgCollect snap =>
      st_ret (match ag_main a with
              | Collecting => Some (with_main (Registering (registerRequest (ag_cfg a) (nameOf a) snap) Second) a)
              | _ => None
              end)
  | AgRegister l => attemptRegister l a
  | AgReport snap l => reportMetrics snap l a
  | AgPoll l => pollTick l a
  | AgWork =>
      st_ret (match ag_todo a with
              | [] => None
              | ev :: todo => x ← step (ag_exec a) ev; Some (with_todo todo (with_exec x a))
              end)
  | AgExec ev l => if ofPollLoop ev then st_ret None else execStep ev l a
  | AgLogs logs g chunk l => pumpChunk logs g chunk l a
  | AgRestart => st_ret (Some (restarted a))
  | AgOrphanExit i => st_ret (_ ← ag_orphans a !! i; Some (with_orphans (delete i (ag_orphans a)) a))
  end.

(** ** The cluster *)

Record cluster := mkCluster {
  cl_control : Control S;
  cl_scheduler : Scheduler;
  cl_pass : passPhase;
  cl_reaper : reaper;
  cl_detector : Detector;
  cl_agents : list agent
}.

Definition with_control (c : Control S) (k : cluster) : cluster :=
  mkCluster c (cl_scheduler k) (cl_pass k) (cl_reaper k) (cl_detector k) (cl_agents k).
Definition with_pass (ph : passPhase) (k : cluster) : cluster :=
  mkCluster (cl_control k) (cl_scheduler k) ph (cl_reaper k) (cl_detector k) (cl_agents k).
Definition with_reaper (r : reaper) (k : cluster) : cluster :=
  mkCluster (cl_control k) (cl_scheduler k) (cl_pass k) r (cl_detector k) (cl_agents k).
Definition with_detector (d : Detector) (k : cluster) : cluster :=
  mkCluster (cl_control k) (cl_scheduler k) (cl_pass k) (cl_reaper k) d (cl_agents k).
Definition with_agents (l : list agent) (k : cluster) : cluster :=
  mkCluster (cl_control k) (cl_scheduler k) (cl_pass k) (cl_reaper k) (cl_detector k) l.

(** One tick of the detector, with the metrics as they are. *)
Definition detectorTick (d : Detector) : ST (Control S) Detector := λ c,
  let '(_, (d', p)) := detector_scan (ct_metrics c) (d, ct_proc c) in (d', mkControl p (ct_metrics c) (ct_logs c)).

(** A turn of an agent; a request of another client, handled; an operation of the scheduler's
    pass, which plans for the instant given; a turn of the reaper; a tick of the detector. *)
Inductive clusterEvent :=
| OfAgent (i : nat) (ev : agentEvent)
| OfClient (rq : request)
| OfScheduler (now : Time)
| OfReaper
| OfDetector.

(** [None] if the event cannot happen. *)
Definition clusterStep (ev : clusterEvent) (k : cluster) : option cluster :=
  match ev with
  | OfAgent i ev =>
      a ← cl_agents k !! i;
      let '(r, c) := agentStep ev a (cl_control k) in
      a' ← r; Some (with_agents (<[i := a']> (cl_agents k)) (with_control c k))
  | OfClient rq => Some (with_control (handle rq (cl_control k)).2 k)
  | OfScheduler now =>
      let '(ph, c) := on_db (passStep (cl_scheduler k) now (cl_pass k)) (cl_control k) in
      Some (with_pass ph (with_control c k))
  | OfReaper => let '(r, c) := on_proc (reapStep (cl_reaper k)) (cl_control k) in Some (with_reaper r (with_control c k))
  | OfDetector => let '(d, c) := detectorTick (cl_detector k) (cl_control k) in Some (with_detector d (with_control c k))
  end.

Definition clusterRun (evs : list clusterEvent) (k : cluster) : option cluster :=
  foldl (λ ok ev, k ← ok; clusterStep ev k) (Some k) evs.
End cluster.
Arguments cluster S : clear implicits.
