(* ===== verification/ClusterTheorems.v ===== *)
(** * The cluster: where jobs run, how agents come up, what is recorded of a job's end *)
From S2P Require Import Prelude GoBase GoStrings GoFloat GoFormat GoPath Event Proto Store StoreSpec Plan SQLite SQLiteProofs StoreExample SQLiteRefines Scheduler SchedulerProofs SchedulerTheorems World Collector Convert Config Notify JobLog Transport Agent AgentTheorems Server ServerTheorems Reap ServerClock Cluster.
Local Open Scope Z_scope.

(** ** What never goes back

    A node keeps its name, a job that has been placed keeps its node and what it runs. *)
Record forward (v v' : View) : Prop := {
  fw_node k n : v_nodes v !! k = Some n → ∃ n', v_nodes v' !! k = Some n' ∧ Node_Name n' = Node_Name n;
  fw_job x j : v_jobs v !! x = Some j → Job_State j ≠ JobPending →
    ∃ j', v_jobs v' !! x = Some j' ∧ Job_State j' ≠ JobPending ∧ Job_NodeID j' = Job_NodeID j ∧
      assignmentToProto j' = assignmentToProto j
}.

#[export] Instance forward_preorder : PreOrder forward.
Proof.
  split; [split; eauto|]. intros v1 v2 v3 [N1 J1] [N2 J2]. split.
  - intros k n (n' & H & E)%N1. apply N2 in H as (n'' & ? & ?). exists n''. split; [done|congruence].
  - intros x j Hx Hs. destruct (J1 x j Hx Hs) as (j' & H & Hs' & E1 & E2).
    destruct (J2 x j' H Hs') as (j'' & ? & ? & ? & ?). exists j''. split_and!; congruence.
Qed.

Lemma forward_nodes v m :
  (∀ k n, v_nodes v !! k = Some n → ∃ n', m !! k = Some n' ∧ Node_Name n' = Node_Name n) → forward v (set_nodes m v).
Proof. intros H. split; simpl; [done|]. intros x j Hx Hs. by exists j. Qed.

Lemma forward_job v x j j' :
  v_jobs v !! x = Some j →
  (Job_State j ≠ JobPending → Job_State j' ≠ JobPending ∧ Job_NodeID j' = Job_NodeID j ∧ assignmentToProto j' = assignmentToProto j) →
  forward v (set_jobs (<[x := j']> (v_jobs v)) v).
Proof.
  intros Hx Hj. split; simpl; [by eauto|]. intros y jy Hy Hs. destruct (decide (x = y)) as [<-|Hne].
  - rewrite lookup_insert_eq. exists j'. split; [done|]. rewrite Hx in Hy. injection Hy as <-. by apply Hj.
  - rewrite lookup_insert_ne by done. by exists jy.
Qed.

Lemma forward_alter_job v x (f : Job → Job) :
  (∀ j, Job_State j ≠ JobPending → Job_State (f j) ≠ JobPending ∧ Job_NodeID (f j) = Job_NodeID j ∧ assignmentToProto (f j) = assignmentToProto j) →
  forward v (set_jobs (alter f x (v_jobs v)) v).
Proof.
  intros Hf. destruct (v_jobs v !! x) as [j|] eqn:E.
  - rewrite (alter_as_insert _ _ _ _ E). eapply forward_job; [done|]. apply Hf.
  - rewrite alter_absent by done. destruct v. reflexivity.
Qed.

(** No job is ended as pending. *)
Definition settled (cl : call) : Prop := match cl with CallFinishJob _ st _ _ _ => st ≠ JobPending | _ => True end.

Lemma spec_call_forward cl v v' : settled cl → spec_call cl v = Some v' → forward v v'.
Proof.
  intros Hs. destruct cl as [n|n t|t|j|x nid nn ds|x t|x st cd re t|x now|e|n]; simpl in *.
  - destruct (named _ _) as [[id m]|] eqn:En.
    + intros [= <-]. apply forward_nodes. apply named_some in En as [Hid Hn]. intros k n0 Hk.
      destruct (decide (id = k)) as [<-|Hne]; [|rewrite lookup_insert_ne by done; by eauto].
      rewrite lookup_insert_eq. eexists. split; [done|]. simpl. congruence.
    + destruct (v_nodes v !! Node_ID n) eqn:Ei; [done|]. intros [= <-]. apply forward_nodes. intros k n0 Hk.
      rewrite lookup_insert_ne by congruence. by eauto.
  - intros [= <-]. apply forward_nodes. intros k n0 Hk. destruct (decide (Node_ID n = k)) as [<-|Hne].
    + rewrite lookup_alter_eq, Hk. by eexists.
    + rewrite lookup_alter_ne by done. by eauto.
  - intros [= <-]. apply forward_nodes. intros k n0 Hk. rewrite lookup_fmap, Hk. eexists. split; [done|]. by case_match.
  - destruct (v_jobs v !! Job_ID j) eqn:Ej; [done|]. intros [= <-]. split; simpl; [by eauto|]. intros x j0 Hx Hp.
    exists j0. rewrite lookup_insert_ne by congruence. done.
  - destruct (v_jobs v !! x) as [j|] eqn:Ej; [|done]. simpl. case_decide as Ep; [|done]. intros [= <-].
    by eapply forward_job.
  - intros [= <-]. apply forward_alter_job. intros j Hj. by case_decide.
  - intros [= <-]. apply forward_alter_job. by intros j Hj.
  - destruct (v_jobs v !! x) as [j|] eqn:Ej; [|done]. simpl. intros [= <-]. eapply forward_job; [done|].
    intros Hj. unfold job_cancelled. rewrite decide_False by done. by case_decide.
  - intros [= <-]. reflexivity.
  - intros [= <-]. reflexivity.
Qed.

Lemma call_of_settled rq id now cl : call_of rq id now = Some cl → settled cl.
Proof.
  destruct rq; simpl; try (by intros [= <-]). case_decide; [by intros [= <-]|].
  destruct (isTerminalState _) eqn:Et; [|done]. intros [= <-]. simpl. intros E. rewrite E in Et. vm_compute in Et. done.
Qed.

(** ** What the calls other than a placement do

    They go forward; typed nodes and jobs stay so, and no job becomes active. *)
Definition calm (v v' : View) : Prop := forward v v' ∧ (view_ok v → view_ok v' ∧ SchedulerProofs.quiet v v').

#[export] Instance calm_preorder : PreOrder calm.
Proof.
  split; [by split|]. intros v1 v2 v3 [F1 C1] [F2 C2]. split; [by etrans|]. intros (H2 & Q1)%C1.
  destruct (C2 H2) as [H3 Q2]. split; [done|]. by etrans.
Qed.

Lemma spec_call_calm cl v v' : settled cl → env_call cl → spec_call cl v = Some v' → calm v v'.
Proof. intros Hs He E. split; [by eapply spec_call_forward|]. intros Hv. by eapply spec_call_env. Qed.

(** A request whose numbers have the widths of its message and whose strings can be encoded; its
    devices are told apart. *)
Definition request_typed (rq : request) : Prop := ∀ id now cl, call_of rq id now = Some cl → env_call cl.

Lemma request_typed_ok rq : request_typed rq → request_ok rq.
Proof. intros H id now cl E. apply (H id now cl E). Qed.

Section cluster_facts.
Context {S : Type} `{StoreLaws S, UnicodeCase}.
Implicit Types (c : Control S) (k : cluster S).

(** What a computation of the control plane does to the store and to the clock. *)
Definition moved c c' : Prop := calm (view (db_of c)) (view (db_of c')) ∧ ticked world_of c c'.

#[export] Instance moved_preorder : PreOrder moved.
Proof.
  split; [split; reflexivity|]. intros c1 c2 c3 [F1 T1] [F2 T2]. split; [|by etrans].
  transitivity (view (db_of c2)); done.
Qed.

Lemma moved_forward c c' : moved c c' → forward (view (db_of c)) (view (db_of c')).
Proof. intros F. apply F. Qed.

Notation advances op := (keeps (λ c, inv (db_of c)) moved op).

Lemma advances_silent {A} (op : ST (Control S) A) : silent db_of op → ticks world_of op → advances op.
Proof.
  intros Hs Ht c Hi. destruct (Hs _ c (conj Hi eq_refl)) as [Hi' Hv]. destruct (Ht c I) as [_ T].
  split; [done|]. split; [by rewrite Hv|done].
Qed.

Lemma advances_request rq : request_typed rq → advances (handle rq).
Proof.
  intros Hok c Hi. pose proof (ticks_handle rq c I) as [_ T]. destruct (handle rq c) as [b c'] eqn:E. simpl in *.
  destruct (handle_effect rq c b c' Hi (request_typed_ok _ Hok) E) as (Hi' & id & Hv). split; [done|]. split; [|done].
  destruct b; [|by rewrite Hv]. destruct (call_of rq id (clock_next c)) as [cl|] eqn:Ec; [|by rewrite Hv].
  eapply spec_call_calm; [by eapply call_of_settled|by eapply Hok|done].
Qed.

(** A handler does what the request does, over the network too. *)
Lemma keeps_ran {B} P R (h : ST (Control S) (rpc B)) : keeps P R (ran h) → keeps P R h.
Proof. intros Ha c Hc. specialize (Ha c Hc). unfold ran in Ha. by destruct (h c). Qed.

Lemma keeps_over {B} P R `{!Reflexive R} l (h : ST (Control S) (rpc B)) : keeps P R h → keeps P R (over l h).
Proof.
  intros Hh c Hc. destruct l; simpl.
  - specialize (Hh c Hc). by destruct (h c).
  - by split.
  - by apply Hh.
Qed.

(** ** The reaper and the detector

    The clock shows an instant after the epoch by more than the timeout; the reading of a tick
    under way was made before. *)
Definition reaper_ok c (r : reaper) : Prop :=
  (∀ i, timeUnix 1 ≤ cutoffOf (rr_timeout r) (w_now (world_of c) i)) ∧
  match rr_phase r with
  | Waiting => True
  | Marking now _ => ∃ i, (i < w_tick (world_of c))%nat ∧ now = w_now (world_of c) i
  end.

Lemma reaper_ok_later c c' r : ticked world_of c c' → reaper_ok c r → reaper_ok c' r.
Proof.
  intros [E Ht] [Hc Hp]. unfold reaper_ok. rewrite E. split; [done|]. destruct (rr_phase r); [done|].
  destruct Hp as (i & ? & ?). exists i. split; [lia|done].
Qed.

Lemma reaper_turn r c r' c' :
  inv (db_of c) → reaper_ok c r → on_proc (reapStep r) c = (r', c') →
  inv (db_of c') ∧ moved c c' ∧ reaper_ok c' r'.
Proof.
  intros Hi [Hc Hp] E. pose proof (ticks_on_proc _ (ticks_reapStep r) c I) as [_ T]. rewrite E in T. simpl in T.
  pose proof (reapStep_timeout r (ct_proc c)) as Hto. unfold on_proc in E.
  destruct (rr_phase r) as [|now nodes] eqn:Ep.
  - destruct (reapStep r (ct_proc c)) as [r1 p1] eqn:Es. injection E as <- <-.
    destruct (reapStep_waiting r (ct_proc c) r1 p1 Ep Hi Es) as (Hi' & Hv & Hr). unfold moved, db_of in *. simpl in *. rewrite Hv.
    split; [done|]. split; [by split|]. destruct Hr as [->|(Ht & nodes & ->)].
    + apply (reaper_ok_later c); [done|]. split; [done|]. by rewrite Ep.
    + destruct T as [ET _]. unfold reaper_ok, world_of in *. simpl in *. rewrite ET. split; [done|]. by eexists.
  - destruct (reapStep_marking r now nodes (ct_proc c) Ep) as (res & s' & Em & Es & Er).
    destruct (reapStep r (ct_proc c)) as [r1 p1]. simpl in *. injection E as <- <-. destruct Hp as (i & _ & ->).
    set (cut := cutoffOf _ _) in Em. pose proof (Hc i) as Hok. fold cut in Hok.
    destruct (refines (CallMarkStaleDown cut) (db_of c) (is_ok res) s' Hi Hok) as [Hi' Hv]; [simpl; unfold db_of; by rewrite Em|].
    unfold moved, db_of in *. simpl in *. rewrite Es. split; [done|]. split.
    + split; [|done]. destruct (is_ok res); [|by rewrite Hv]. by eapply (spec_call_calm (CallMarkStaleDown cut)).
    + apply (reaper_ok_later c); [done|]. subst r1. by destruct (is_ok res).
Qed.

Lemma detector_advances d : advances (detectorTick d).
Proof.
  intros c Hi. unfold detectorTick, moved, ticked, world_of, db_of in *. set (m := ct_metrics c).
  destruct (silent_detector m (view (w_store (ct_proc c).1)) (d, ct_proc c) (conj Hi eq_refl)) as [Hi' Hv].
  destruct (ticks_detector m (d, ct_proc c) I) as [_ T]. destruct (detector_scan m (d, ct_proc c)) as [u [d' p]].
  unfold ticked in T. simpl in *. by rewrite Hv.
Qed.

(** ** The requests of an agent *)

(** A snapshot whose inventory the store can represent, with the widths of its message, and whose
    devices are told apart. *)
Definition snap_ok (snap : option pbMetricsSnapshot) : Prop :=
  let n := nodeFromSnapshot (bareNode "") snap in
  json_valid (Node_Devices n) = true ∧ 0 ≤ Node_MemTotalBytes n < 2 ^ 63 ∧ Node_wf n ∧ NoDup (device_key <$> Node_Devices n).

Lemma report_typed id snap : snap_ok snap → request_typed (RqReportMetrics (mkPbReportMetricsRequest id snap)).
Proof. intros (Hd & Hm & [] & Hk) i now cl [= <-]. by destruct snap as [[? [] [] ? ?]|]. Qed.

Lemma register_typed peer cfg name snap :
  json_valid (Agent_Node_Labels cfg) = true → snap_ok snap →
  request_typed (RqRegisterNode peer (registerRequest cfg name snap)).
Proof.
  intros Hl (Hd & Hm & Hw & Hk) i now cl [= <-]. destruct snap as [snap|].
  - set (n := mkNode i name (Agent_Node_Partition cfg) StateUp (peerAddr peer) 0 0 [] (Agent_Node_Labels cfg) Version now).
    change (env_call (CallRegisterNode (resourcesFromProto n (Some (ResourcesFromSnapshot (Some snap)))))).
    rewrite inventory_agrees by done. destruct Hw. by destruct snap as [? [] [] ? ?].
  - destruct Hw. by split; [split_and!|].
Qed.

Lemma status_typed jobID state code reason : request_typed (RqUpdateJobStatus (mkPbUpdateJobStatusRequest jobID state code reason)).
Proof.
  intros id now cl. simpl. case_decide; [by intros [= <-]|]. destruct (isTerminalState state) eqn:E; [|done]. intros [= <-].
  split; [done|]. split; intros ->; vm_compute in E; done.
Qed.

(** ** The invariant of an agent *)

(** The assignment is the one of a placed job, on the node of that name. *)
Definition placed (v : View) (name : string) (asg : pbAssignment) : Prop :=
  ∃ j n, v_jobs v !! pbAssignment_JobId asg = Some j ∧ Job_State j ≠ JobPending ∧ asg = assignmentToProto j ∧
    v_nodes v !! Job_NodeID j = Some n ∧ Node_Name n = name.

Lemma placed_forward v v' name asg : forward v v' → placed v name asg → placed v' name asg.
Proof.
  intros [N J] (j & n & Hj & Hs & -> & Hn & <-). destruct (J _ _ Hj Hs) as (j' & Hj' & Hs' & En & Ea).
  destruct (N _ _ Hn) as (n' & Hn' & Ename). exists j', n'. rewrite En. by split_and!.
Qed.

(** The node id is that of the node of the name. *)
Definition knows (v : View) (name id : string) : Prop := id = "" ∨ ∃ n, v_nodes v !! id = Some n ∧ Node_Name n = name.

Lemma knows_forward v v' name id : forward v v' → knows v name id → knows v' name id.
Proof.
  intros [N _] [->|(n & Hn & <-)]; [by left|]. right. destruct (N _ _ Hn) as (n' & ? & ?). by exists n'.
Qed.

Record agent_ok (v : View) (a : agent) : Prop := {
  ao_labels : json_valid (Agent_Node_Labels (ag_cfg a)) = true;
  ao_request req b : ag_main a = Registering req b → ∃ snap, snap_ok snap ∧ req = registerRequest (ag_cfg a) (nameOf a) snap;
  ao_nref : knows v (nameOf a) (ag_nref a);
  ao_todo asg : EvStart asg ∈ ag_todo a → placed v (nameOf a) asg;
  ao_runs g rj : x_runs (ag_exec a) !! g = Some rj → placed v (nameOf a) (rj_assignment rj);
  ao_orphans asg : asg ∈ ag_orphans a → placed v (nameOf a) asg;
  ao_exec : exec_ok (ag_exec a)
}.

Lemma agent_ok_forward v v' a : forward v v' → agent_ok v a → agent_ok v' a.
Proof.
  intros F [? ? ? Ht Hr Ho ?]. split; try done; [by eapply knows_forward|..].
  - intros asg Ha. eapply placed_forward; [done|by apply Ht].
  - intros g rj Hg. eapply placed_forward; [done|by eapply Hr].
  - intros asg Ha. eapply placed_forward; [done|by apply Ho].
Qed.

Lemma newAgent_ok v cfg hn peer : json_valid (Agent_Node_Labels cfg) = true → agent_ok v (newAgent cfg hn peer).
Proof.
  intros Hl. split; simpl; [done|done|by left| | | |apply newExecutor_ok].
  - by intros asg ?%elem_of_nil.
  - intros g rj. by rewrite lookup_empty.
  - by intros asg ?%elem_of_nil.
Qed.

(** A process group is that of a live run. *)
Lemma groupsOf_run asg x : asg ∈ groupsOf x → ∃ g rj, x_runs x !! g = Some rj ∧ rj_assignment rj = asg.
Proof.
  unfold groupsOf. intros ([g rj] & -> & [_ Hin]%list_elem_of_filter)%list_elem_of_fmap.
  apply elem_of_map_to_list in Hin. by exists g, rj.
Qed.

Lemma restarted_ok v a : agent_ok v a → agent_ok v (restarted a).
Proof.
  intros [? _ _ _ Hr Ho _]. split; simpl; [done|done|by left| | | |apply newExecutor_ok].
  - by intros asg ?%elem_of_nil.
  - intros g rj. by rewrite lookup_empty.
  - intros asg [Ha|(g & rj & Hg & <-)%groupsOf_run]%elem_of_app; [by apply Ho|by eapply Hr].
Qed.

Lemma with_orphans_ok v l a : l ⊆ ag_orphans a → agent_ok v a → agent_ok v (with_orphans l a).
Proof. intros Hl [? ? ? ? ? Ho ?]. split; try done. intros asg Ha. by apply Ho, Hl. Qed.

(** Only the executor's [EvStart] makes a run of a new assignment. *)
Definition inherits (x x' : executor) : Prop := ∀ g rj, x_runs x' !! g = Some rj →
  ∃ g0 rj0, x_runs x !! g0 = Some rj0 ∧ rj_assignment rj0 = rj_assignment rj.

Lemma inherits_set x g rj rj' :
  x_runs x !! g = Some rj → rj_assignment rj' = rj_assignment rj → inherits x (set_run g rj' x).
Proof.
  intros Hg Ha g1 r1. simpl. intros [[<- <-]|[_ H1]]%lookup_insert_Some; [by exists g, rj|by exists g1, r1].
Qed.

Lemma inherits_refl x : inherits x x.
Proof. intros g rj Hg. by exists g, rj. Qed.

Lemma inherits_kill p x x' : inherits x x' → inherits x (killGroup p x').
Proof. intros Hi. unfold killGroup. by case_step. Qed.

Lemma setReason_assignment r rj : rj_assignment (setReason r rj) = rj_assignment rj.
Proof. unfold setReason. by case_decide. Qed.

Lemma step_inherits x ev x' : step x ev = Some x' →
  inherits x x' ∨ ∃ asg, ev = EvStart asg ∧ ∀ g rj, x_runs x' !! g = Some rj → x_runs x !! g = Some rj ∨ rj_assignment rj = asg.
Proof.
  destruct ev as [asg|id|g|g l|g|g|g|g|g w|g|p|p]; simpl.
  - intros [= <-]. right. exists asg. split; [done|]. intros g rj. unfold start.
    destruct (x_running x !! _); [by left|]. simpl. intros [[<- <-]|[_ Hg]]%lookup_insert_Some; [by right|by left].
  - intros [= <-]. left. unfold cancel. destruct (x_running x !! id) as [g|]; [|apply inherits_refl].
    destruct (x_runs x !! g) as [rj|] eqn:E; [|apply inherits_refl]. eapply inherits_set; [done|]. apply setReason_assignment.
  - intros (rj & Hg & E)%step_run. left. destruct (rj_phase rj); try done. injection E as <-. by eapply inherits_set.
  - intros (rj & Hg & E)%step_run. left. destruct (rj_phase rj); try done. destruct l; injection E as <-; by apply (inherits_set x g rj).
  - intros (rj & Hg & E)%step_run. left. destruct (rj_phase rj); try done. injection E as <-. by apply (inherits_set x g rj).
  - intros (rj & Hg & E)%step_run. left. destruct (rj_phase rj); try done. injection E as <-. by apply (inherits_set x g rj).
  - intros (rj & Hg & E)%step_run. left. case_step_in E; [|done]. injection E as <-. by apply inherits_kill, (inherits_set x g rj).
  - intros (rj & Hg & E)%step_run. left. case_step_in E; [|done]. injection E as <-. by apply inherits_kill, (inherits_set x g rj).
  - intros (rj & Hg & E)%step_run. left. destruct (rj_phase rj); try done.
    destruct (classify w (rj_killReason rj) (rj_timedOut rj)) as [[s c] r]. injection E as <-. by apply (inherits_set x g rj).
  - intros (rj & Hg & E)%step_run. left. assert (x' = finish g rj x) as -> by (destruct (rj_phase rj); congruence).
    intros g1 r1. simpl. intros [_ H1]%lookup_delete_Some. by exists g1, r1.
  - destruct (list_find _ _) as [[i q]|]; [|done]. intros [= <-]. left. apply inherits_kill. intros g1 r1 H1. by exists g1, r1.
  - destruct (list_find _ _) as [[i q]|]; [|done]. intros [= <-]. left. intros g1 r1 H1. by exists g1, r1.
Qed.

(** The executor goes on. *)
Lemma with_exec_ok v a ev x :
  agent_ok v a → step (ag_exec a) ev = Some x → (∀ asg, ev = EvStart asg → placed v (nameOf a) asg) →
  agent_ok v (with_exec x a).
Proof.
  intros [? Hq ? ? Hr ? Hx] E Hst. split; simpl; [done..| |done|by eapply step_ok].
  intros g rj Hg. destruct (step_inherits _ _ _ E) as [Hi|(asg & -> & Hi)].
  - destruct (Hi g rj Hg) as (g0 & r0 & Hg0 & <-). by eapply Hr.
  - destruct (Hi g rj Hg) as [Hg0| ->]; [by eapply Hr|by apply Hst].
Qed.

(** ** The turns of an agent *)

Definition agentEvent_ok (ev : agentEvent) : Prop :=
  match ev with AgCollect snap | AgReport snap _ => snap_ok snap | _ => True end.

(** What a turn keeps. *)
Record turn (a : agent) (c : Control S) (a' : agent) (c' : Control S) : Prop := {
  tn_inv : inv (db_of c');
  tn_moved : moved c c';
  tn_agent : agent_ok (view (db_of c')) a';
  tn_name : nameOf a' = nameOf a
}.

(** A turn that calls the control plane and changes the agent by the answer. *)
Lemma turn_of {A} (op : ST (Control S) A) (f : A → agent) a c x c' :
  inv (db_of c) → advances op → op c = (x, c') →
  (agent_ok (view (db_of c')) (f x)) → nameOf (f x) = nameOf a → turn a c (f x) c'.
Proof. intros Hi Ha E Hx Hn. destruct (Ha c Hi) as [Hi' F]. rewrite E in Hi', F. by split. Qed.

Lemma RegisterNode_id peer req c resp c' :
  inv (db_of c) → request_ok (RqRegisterNode peer req) → RegisterNode peer req c = (Reply resp, c') →
  ∃ n, v_nodes (view (db_of c')) !! pbRegisterNodeResponse_NodeId resp = Some n ∧ Node_Name n = pbRegisterNodeRequest_Name req ∧ Node_State n = StateUp.
Proof.
  intros Hi Hok. unfold RegisterNode, required. case_decide; [done|]. unfold or_status, st_bind, st_ret.
  pose proof (silent_id _ c (conj Hi eq_refl)) as Hc1. destruct (id_ c) as [nid c1].
  pose proof (silent_now _ c1 Hc1) as Hc2. destruct (now_ c1) as [now c2]. destruct Hc2 as [Hi2 _]. simpl in Hi2.
  set (n := resourcesFromProto _ _). destruct (on_db (store_RegisterNode n) c2) as [r c3] eqn:E.
  unfold on_db, on_proc, on_fst, on_store in E. destruct c2 as [[w e] m l]. unfold db_of in *. simpl in *.
  destruct (store_RegisterNode n (w_store w)) as [r0 s'] eqn:E0. injection E as <- <-. destruct r0 as [id|]; [|done].
  intros [= <- <-]. simpl. pose proof (registers n _ id s' Hi2 (Hok nid now _ eq_refl) E0) as Hl. rewrite Hl.
  eexists. split; [done|]. by destruct req as [? ? [] ? ?].
Qed.

Lemma attemptRegister_turn l a c a' c' :
  inv (db_of c) → agent_ok (view (db_of c)) a → attemptRegister l a c = (Some a', c') → turn a c a' c'.
Proof.
  intros Hi Ha. unfold attemptRegister. destruct (ag_main a) as [|req b|] eqn:Em; try done.
  destruct (ao_request _ _ Ha _ _ Em) as (snap & Hs & ->).
  pose proof (register_typed (ag_peer a) _ (nameOf a) _ (ao_labels _ _ Ha) Hs) as Hok.
  assert (advances (over l (RegisterNode (ag_peer a) (registerRequest (ag_cfg a) (nameOf a) snap)))) as Hadv
    by (apply keeps_over; [apply _|]; apply keeps_ran, (advances_request (RqRegisterNode _ _)), Hok).
  unfold st_bind. destruct (over l _ c) as [resp c1] eqn:E. intros [= <- <-]. destruct (Hadv c Hi) as [_ F]. rewrite E in F. simpl in F.
  eapply (turn_of _ (λ resp, match resp with Ok resp => _ | Err _ => _ end)); [done..| |by destruct resp].
  pose proof (agent_ok_forward _ _ _ (moved_forward _ _ F) Ha) as [? Hq Hk Ht Hr ? ?]. destruct resp as [resp|]; split; simpl in *; try done.
  - right. destruct l; try done. unfold over in E. destruct (RegisterNode _ _ c) as [[r|] c2] eqn:Er; [|done].
    injection E as -> ->. destruct (RegisterNode_id _ _ _ _ _ Hi (request_typed_ok _ Hok) Er) as (n & Hn & En & _). by exists n.
  - intros req b0 [= <- _]. by exists snap.
Qed.

Lemma reportMetrics_turn snap l a c a' c' :
  inv (db_of c) → agent_ok (view (db_of c)) a → snap_ok snap → reportMetrics snap l a c = (Some a', c') → turn a c a' c'.
Proof.
  intros Hi Ha Hs. unfold reportMetrics. destruct (ag_main a) as [|req b|] eqn:Em; try done.
  assert (advances (over l (ReportMetrics (mkPbReportMetricsRequest (ag_nref a) snap)))) as Hadv
    by (apply keeps_over; [apply _|]; apply keeps_ran, (advances_request (RqReportMetrics _)), report_typed, Hs).
  unfold st_bind. destruct (over l _ c) as [resp c1] eqn:E. intros [= <- <-]. destruct (Hadv c Hi) as [_ F]. rewrite E in F. simpl in F.
  pose proof (agent_ok_forward _ _ _ (moved_forward _ _ F) Ha) as Ha1.
  eapply (turn_of _ (λ resp, match resp with Ok resp => _ | Err _ => _ end)); [done..| |].
  - destruct resp as [resp|]; [|done]. destruct (pbReportMetricsResponse_ShouldReregister resp); [|done].
    by destruct Ha1.
  - destruct resp as [resp|]; [|done]. by destruct (pbReportMetricsResponse_ShouldReregister resp).
Qed.

Lemma pollTick_turn l a c a' c' :
  inv (db_of c) → agent_ok (view (db_of c)) a → pollTick l a c = (Some a', c') → turn a c a' c'.
Proof.
  intros Hi Ha. unfold pollTick. destruct (negb _ || _) eqn:Eb; [done|]. case_decide as En.
  { intros [= <- <-]. split; [done|reflexivity|done|done]. }
  assert (advances (over l (PollAssignments (mkPbPollAssignmentsRequest (ag_nref a))))) as Hadv
    by (by apply keeps_over; [apply _|]; apply keeps_ran, (advances_request (RqPollAssignments _))).
  unfold st_bind. destruct (over l _ c) as [resp c1] eqn:E. intros [= <- <-]. destruct (Hadv c Hi) as [_ F]. rewrite E in F. simpl in F.
  pose proof (agent_ok_forward _ _ _ (moved_forward _ _ F) Ha) as Ha1.
  eapply (turn_of _ (λ resp, match resp with Ok resp => _ | Err _ => _ end)); [done..| |by destruct resp].
  destruct resp as [resp|]; [|done]. destruct Ha1 as [? Hq Hk Ht Hr ? ?]. split; try done. simpl. intros asg Hin.
  destruct l; try done. unfold over in E. destruct (PollAssignments _ c) as [[r|] c2] eqn:Er; [|done]. injection E as -> ->.
  destruct (PollAssignments_lists _ _ _ _ Hi Er) as (_ & Hv & Hrun). cbn [pbPollAssignmentsRequest_NodeId] in Hrun.
  rewrite Hv in Hk. destruct Hk as [?|(n & Hn & Ename)]; [done|]. rewrite Hn in Hrun.
  destruct Hrun as (run & can & [_ Hl] & _ & ->). unfold workOf in Hin. simpl in Hin.
  rewrite elem_of_app, !list_elem_of_fmap in Hin. destruct Hin as [(asg' & [= <-] & Hin)|(? & ? & _)]; [|done].
  apply list_elem_of_fmap in Hin as (j & -> & Hj). apply Hl in Hj as (Hj & Enid & Hst). simpl in Enid.
  rewrite Hv. exists j, n. rewrite Enid. split_and!; try done. by rewrite Hst.
Qed.

Lemma sendReport_advances l r : advances (sendReport l r).
Proof.
  apply keeps_bind; [apply _| |intros; apply keeps_ret, _].
  apply keeps_over; [apply _|]; apply keeps_ran, (advances_request (RqUpdateJobStatus _)), status_typed.
Qed.

Lemma execStep_turn ev l a c a' c' :
  inv (db_of c) → agent_ok (view (db_of c)) a → ofPollLoop ev = false → execStep ev l a c = (Some a', c') → turn a c a' c'.
Proof.
  intros Hi Ha Hev. unfold execStep. destruct (step (ag_exec a) ev) as [x|] eqn:Ex; [|done]. unfold st_bind.
  assert (advances (st_for (drop (length (x_reports (ag_exec a))) (x_reports x)) (sendReport l))) as Hadv
    by (apply keeps_for; [apply _|apply sendReport_advances]).
  destruct (st_for _ _ c) as [u c1] eqn:E. intros [= <- <-]. destruct (Hadv c Hi) as [_ F]. rewrite E in F. simpl in F.
  eapply (turn_of _ (λ _, with_exec x a)); [done..| |done].
  eapply with_exec_ok; [eapply agent_ok_forward; [exact (moved_forward _ _ F)|done]|done|]. by intros asg ->.
Qed.

(** The pump makes one call and leaves the agent as it is. *)
Lemma pumpChunk_call logs g chunk l a c a' c' :
  pumpChunk (S := S) logs g chunk l a c = (Some a', c') → a' = a ∧ ∃ req, c' = (over l (AppendLogs logs req) c).2.
Proof.
  unfold pumpChunk. destruct (x_runs (ag_exec a) !! g) as [rj|]; [|done]. destruct (rj_phase rj); try done; unfold st_bind, st_ret;
    (destruct (over l _ c) as [resp c1] eqn:E; intros [= <- <-]; split; [done|]; eexists; by rewrite E).
Qed.

Lemma pumpChunk_turn logs g chunk l a c a' c' :
  inv (db_of c) → agent_ok (view (db_of c)) a → pumpChunk logs g chunk l a c = (Some a', c') → turn a c a' c'.
Proof.
  intros Hi Ha (-> & req & Ec)%pumpChunk_call.
  assert (advances (over l (AppendLogs logs req))) as Hadv
    by (by apply keeps_over; [apply _|]; apply keeps_ran, (advances_request (RqAppendLogs logs req))).
  destruct (over l _ c) as [resp c1] eqn:E. simpl in Ec. subst c1. destruct (Hadv c Hi) as [_ F]. rewrite E in F. simpl in F.
  eapply (turn_of _ (λ _, a)); [done..| |done]. eapply agent_ok_forward; [exact (moved_forward _ _ F)|done].
Qed.

Lemma agentStep_turn ev a c a' c' :
  inv (db_of c) → agent_ok (view (db_of c)) a → agentEvent_ok ev → agentStep ev a c = (Some a', c') → turn a c a' c'.
Proof.
  intros Hi Ha Hev. destruct ev as [snap|l|snap l|l| |ev l|logs g chunk l| |n]; simpl.
  - unfold st_ret. intros E. destruct (ag_main a) eqn:Em; try done. injection E as <- <-. split; [done|reflexivity| |done].
    destruct Ha. split; try done. simpl. intros req b [= <- _]. by exists snap.
  - by apply attemptRegister_turn.
  - by apply reportMetrics_turn.
  - by apply pollTick_turn.
  - unfold st_ret. destruct (ag_todo a) as [|ev todo] eqn:Et; [done|]. destruct (step (ag_exec a) ev) as [x|] eqn:Ex; [|done].
    intros [= <- <-]. split; [done|reflexivity| |done].
    assert (agent_ok (view (db_of c)) (with_exec x a)) as [? ? ? Ht ? ? ?].
    { eapply with_exec_ok; [done..|]. intros asg ->. apply (ao_todo _ _ Ha). rewrite Et. left. }
    split; try done. simpl. intros asg Hin. apply Ht. simpl. rewrite Et. by right.
  - destruct (ofPollLoop ev) eqn:Ep; [done|]. by apply execStep_turn.
  - by apply pumpChunk_turn.
  - intros [= <- <-]. split; [done|reflexivity| |done]. by apply restarted_ok.
  - unfold st_ret. destruct (ag_orphans a !! n); [|done]. intros [= <- <-]. split; [done|reflexivity| |done].
    apply with_orphans_ok; [|done]. by intros asg ?%list_elem_of_delete_inv.
Qed.

(** ** The cluster *)

Definition clusterEvent_ok (ev : clusterEvent) : Prop :=
  match ev with
  | OfAgent _ ev => agentEvent_ok ev
  | OfClient rq => request_typed rq
  | OfScheduler _ => True
  | OfReaper | OfDetector => True
  end.

Definition cluster_view k : View := view (db_of (cl_control k)).

(** What a pass under way has read, and what of its plan has been recorded. *)
Definition nodes_seen (v1 v : View) (nodes : list Node) : Prop :=
  nodes_listed v1 nodes ∧ view_ok v1 ∧ (∀ n, n ∈ nodes → json_valid (Node_Devices n) = true) ∧ exclusive v1 ∧
  SchedulerProofs.quiet v1 v.
Definition active_seen (v2 v : View) (act : list Job) : Prop :=
  jobs_listed active v2 act ∧ view_ok v2 ∧ exclusive v2 ∧ (∀ x j, v_jobs v2 !! x = Some j → Job_ID j = x) ∧
  SchedulerProofs.quiet v2 v.

Definition pass_ok (c : Control S) (ph : passPhase) : Prop :=
  let v := view (db_of c) in
  match ph with
  | Idle => True
  | GotNodes nodes => ∃ v1, nodes_seen v1 v nodes
  | GotActive nodes act => ∃ v1 v2, nodes_seen v1 v2 nodes ∧ active_seen v2 v act
  | Deciding ds => ∃ v1 v2 v3 nodes act pend now policy done_,
      nodes_seen v1 v2 nodes ∧ active_seen v2 v3 act ∧ jobs_listed (λ j, Job_State j = JobPending) v3 pend ∧ view_ok v3 ∧
      Plan now nodes act pend policy = done_ ++ ds ∧ recorded act pend done_ (db_of c, [])
  end.

Record cluster_ok (names : list string) k : Prop := {
  co_inv : inv (db_of (cl_control k));
  co_view : view_ok (cluster_view k);
  co_exclusive : exclusive (cluster_view k);
  co_pass : pass_ok (cl_control k) (cl_pass k);
  co_agents : Forall (agent_ok (cluster_view k)) (cl_agents k);
  co_names : nameOf <$> cl_agents k = names;
  co_reaper : reaper_ok (cl_control k) (cl_reaper k)
}.

(** Calm steps of the others do not disturb a pass. *)
Lemma pass_ok_calm c c' ph :
  inv (db_of c') → view_ok (view (db_of c)) → calm (view (db_of c)) (view (db_of c')) → pass_ok c ph → pass_ok c' ph.
Proof.
  intros Hi Hv [_ Hc]. destruct (Hc Hv) as [Hv' Hq]. destruct ph as [|nodes|nodes act|ds]; simpl; [done|..].
  - intros (v1 & ? & ? & ? & ? & ?). exists v1. unfold nodes_seen. split_and!; try done. by etrans.
  - intros (v1 & v2 & Hn & ? & ? & ? & ? & ?). exists v1, v2. split; [done|]. unfold active_seen. split_and!; try done. by etrans.
  - intros (v1 & v2 & v3 & nodes & act & pend & now & policy & done_ & Hn & Ha & Hp & Hv3 & E & Hr).
    exists v1, v2, v3, nodes, act, pend, now, policy, done_. split_and!; try done.
    eapply (recorded_quiet act pend done_ (db_of c, [])); try done. by apply Forall_nil.
Qed.

(** A calm step of the control plane alone. *)
Lemma moved_ok names k c :
  cluster_ok names k → inv (db_of c) → moved (cl_control k) c → cluster_ok names (with_control c k).
Proof.
  intros [Hi Hv Hx Hp Hg Hn Hr] Hi' F. destruct (proj2 (proj1 F) Hv) as [Hv' Hq].
  split; simpl; [done|done|exact (exclusive_quiet _ _ Hq Hx)|exact (pass_ok_calm _ _ _ Hi' Hv (proj1 F) Hp)| |done|].
  - eapply Forall_impl; [exact Hg|]. intros a. exact (agent_ok_forward _ _ a (moved_forward _ _ F)).
  - exact (reaper_ok_later _ _ _ (proj2 F) Hr).
Qed.

Lemma control_step_ok {A} names k (op : ST (Control S) A) :
  advances op → cluster_ok names k → cluster_ok names (with_control (op (cl_control k)).2 k).
Proof. intros Ha Hk. destruct (Ha _ (co_inv _ _ Hk)) as [Hi' F]. by apply moved_ok. Qed.

Lemma with_reaper_ok names k r : cluster_ok names k → reaper_ok (cl_control k) r → cluster_ok names (with_reaper r k).
Proof. by intros []. Qed.

Lemma with_detector_ok names k d : cluster_ok names k → cluster_ok names (with_detector d k).
Proof. by intros []. Qed.

(** Acting on the database alone. *)
Lemma on_db_eq {A} (op : ST S A) c :
  ∃ c', on_db op c = ((op (db_of c)).1, c') ∧ db_of c' = (op (db_of c)).2 ∧ ticked world_of c c'.
Proof.
  pose proof (ticks_on_db op c I) as [_ T]. destruct c as [[w e] m l]. unfold on_db, on_proc, on_fst, on_store, db_of in *. simpl in *.
  destruct (op (w_store w)) as [a s]. by eexists.
Qed.

(** A step of the scheduler that leaves what the store holds alone. *)
Lemma same_view_ok names k c ph :
  cluster_ok names k → ticked world_of (cl_control k) c → inv (db_of c) → view (db_of c) = cluster_view k → pass_ok c ph →
  cluster_ok names (with_pass ph (with_control c k)).
Proof.
  intros [Hi Hv Hx Hp Hg Hn Hr] T Hi' E Hph. pose proof (reaper_ok_later _ _ _ T Hr).
  split; unfold cluster_view in *; simpl; rewrite ?E; done.
Qed.

(** Over the store alone or with nobody in between. *)
Lemma recordDecision_alone d (s : S) : recordDecision d (s, []) = (tt, ((recordDecision d s).2, [])).
Proof. unfold recordDecision, st_bind, st_ret. simpl. unfold during, interfere. simpl. by destruct (store_AssignJob _ _ _ _ s). Qed.

Lemma recordDecision_forward d (s : S) :
  inv s → json_valid (Decision_Devices d) = true → forward (view s) (view (recordDecision d s).2).
Proof.
  intros Hi Hd. unfold recordDecision, st_bind, st_ret.
  destruct (store_AssignJob _ _ _ _ s) as [r s'] eqn:E. simpl.
  destruct (refines (CallAssignJob (Decision_JobID d) (Decision_NodeID d) (Decision_NodeName d) (Decision_Devices d))
    s (is_ok r) s' Hi Hd) as [_ Hv]; [simpl; by rewrite E|].
  destruct (is_ok r); [|by rewrite Hv]. eapply spec_call_forward; [|exact Hv]. exact I.
Qed.

(** The plan starts to be recorded. *)
Lemma recorded_start v2 (s : S) act pend :
  inv s → view_ok (view s) → active_seen v2 (view s) act → jobs_listed (λ j, Job_State j = JobPending) (view s) pend →
  recorded act pend [] (s, []).
Proof.
  intros Hi Hv ([_ Ha] & _ & _ & Hid & [Hqa Hqd]) [_ Hp]. split; simpl; [done|by apply Forall_nil| |].
  - intros x j Hx Haj. left. destruct (Hqa x j Hx Haj) as (j0 & Hx0 & Ha0 & -> & ->). exists j0. pose proof (Hid _ _ Hx0) as Ej.
    split_and!; try done. apply Ha. by rewrite Ej.
  - intros p [Hin|Hin].
    + apply Ha in Hin as [Hin _]. by apply Hqd.
    + apply Hp in Hin as [Hin _]. by exists p.
Qed.

Lemma decision_encodable v1 v2 v3 v nodes act pend now policy d :
  nodes_seen v1 v nodes → active_seen v2 v3 act → jobs_listed (λ j, Job_State j = JobPending) v3 pend → view_ok v3 →
  d ∈ Plan now nodes act pend policy → json_valid (Decision_Devices d) = true.
Proof.
  intros (Hn & Hv1 & He & _) (Ha & Hv2 & _) Hp Hv3. revert d. apply Forall_forall.
  apply decisions_encodable; [apply Hn|exact (listed_nodes_wf _ _ Hv1 Hn)|exact (listed_wf _ _ _ Hv2 Ha)|exact (listed_wf _ _ _ Hv3 Hp)|done].
Qed.

Lemma scheduler_step_ok names now k ph c :
  cluster_ok names k → on_db (passStep (cl_scheduler k) now (cl_pass k)) (cl_control k) = (ph, c) →
  cluster_ok names (with_pass ph (with_control c k)).
Proof.
  intros Hk. pose proof Hk as [Hi Hv Hx Hp Hg Hn Hre]. destruct (on_db_eq (passStep (cl_scheduler k) now (cl_pass k)) (cl_control k)) as (c' & -> & Ec & T).
  intros [= <- <-]. unfold passStep in *. unfold st_bind, st_ret in *.
  destruct (cl_pass k) as [|nodes|nodes act|[|d ds]]; simpl in Hp.
  - destruct (store_ListNodes (db_of (cl_control k))) as [r s'] eqn:E. simpl in *.
    destruct (lists_nodes _ _ _ Hi E) as (Hi' & Hv' & Hl). rewrite <-Ec in Hi', Hv'. apply same_view_ok; try done.
    destruct r as [nodes|]; [|done]. simpl. exists (cluster_view k). rewrite Hv'. unfold nodes_seen.
    split_and!; [by apply Hl|done| |done|reflexivity]. intros n Hin. apply (Hl nodes eq_refl) in Hin.
    exact (view_encodable _ _ _ Hi Hin).
  - destruct Hp as (v1 & Hns). destruct (store_ListActiveJobs (db_of (cl_control k))) as [r s'] eqn:E. simpl in *.
    destruct (lists_active _ _ _ Hi E) as (Hi' & Hv' & Hl). rewrite <-Ec in Hi', Hv'. apply same_view_ok; try done.
    destruct r as [act|]; [|done]. simpl. exists v1, (cluster_view k). split; [done|]. rewrite Hv'. unfold active_seen.
    split_and!; [by apply Hl|done|done| |reflexivity]. intros x j. by apply view_job_id.
  - destruct Hp as (v1 & v2 & Hns & Has). destruct (store_ListPendingJobs (db_of (cl_control k))) as [r s'] eqn:E. simpl in *.
    destruct (lists_pending _ _ _ Hi E) as (Hi' & Hv' & Hl). rewrite <-Ec in Hi', Hv'. apply same_view_ok; try done.
    destruct r as [pend|]; [|done]. simpl. specialize (Hl pend eq_refl). unfold cluster_view in Hv. rewrite <-Hv' in Hv, Has, Hl.
    do 9 eexists. split_and!; [exact Hns|exact Has|exact Hl|exact Hv|by rewrite app_nil_l|]. by eapply recorded_start.
  - apply same_view_ok; [done|done|by rewrite Ec|by rewrite Ec|done].
  - destruct Hp as (v1 & v2 & v3 & nodes & act & pend & now0 & policy & done_ & Hns & Has & Hpl & Hv3 & EP & Hr).
    assert (d ∈ Plan now0 nodes act pend policy) as Hd by (rewrite EP; set_solver).
    pose proof (decision_encodable _ _ _ _ _ _ _ _ _ d Hns Has Hpl Hv3 Hd) as Hjson.
    pose proof (recordDecision_recorded act pend done_ d _ Hjson Hr) as Hr'. rewrite recordDecision_alone in Hr'. simpl in Hr'.
    pose proof (recordDecision_forward d _ Hi Hjson) as F.
    destruct (recordDecision d (db_of (cl_control k))) as [u s'] eqn:E. simpl in *. rewrite <-Ec in Hr', F.
    destruct (rec_good _ _ _ _ Hr') as [Hi' Hv']. split; simpl; [done|done| | | |done|by eapply reaper_ok_later].
    + destruct Hns as (? & ? & _), Has as (? & ? & ? & _).
      eapply (recorded_exclusive now0 policy nodes act pend v1 v2 v3 (done_ ++ [d]) (db_of c', [])); try done.
      rewrite EP. set_solver.
    + exists v1, v2, v3, nodes, act, pend, now0, policy, (done_ ++ [d]). split_and!; try done. by rewrite EP, <-app_assoc.
    + eapply Forall_impl; [exact Hg|]. intros a. by apply agent_ok_forward.
Qed.

Lemma clusterStep_ok names ev k k' :
  cluster_ok names k → clusterEvent_ok ev → clusterStep ev k = Some k' → cluster_ok names k'.
Proof.
  intros Hk Hev. destruct ev as [i ev|rq|now| |]; simpl in *.
  - destruct (cl_agents k !! i) as [a|] eqn:Ea; [|done]. simpl. destruct (agentStep ev a (cl_control k)) as [r c'] eqn:E.
    destruct r as [a'|]; [|done]. intros [= <-]. destruct Hk as [Hi Hv Hx Hp Hg Hn Hre].
    destruct (agentStep_turn ev a _ a' c' Hi ltac:(by eapply (Forall_lookup_1 _ _ _ _ Hg)) Hev E) as [Hi' F Ha' Hn'].
    destruct (proj2 (proj1 F) Hv) as [Hv' Hq].
    split; simpl; [done|done|exact (exclusive_quiet _ _ Hq Hx)|exact (pass_ok_calm _ _ _ Hi' Hv (proj1 F) Hp)| | |exact (reaper_ok_later _ _ _ (proj2 F) Hre)].
    + apply Forall_insert; [|done]. eapply Forall_impl; [exact Hg|]. intros b. exact (agent_ok_forward _ _ b (moved_forward _ _ F)).
    + rewrite list_fmap_insert, Hn', list_insert_id; [done|]. by rewrite list_lookup_fmap, Ea.
  - intros [= <-]. by apply control_step_ok; [apply advances_request|].
  - destruct (on_db (passStep (cl_scheduler k) now (cl_pass k)) (cl_control k)) as [ph c] eqn:E. intros [= <-].
    by eapply scheduler_step_ok.
  - destruct (on_proc (reapStep (cl_reaper k)) (cl_control k)) as [r c] eqn:E. intros [= <-].
    destruct (reaper_turn _ _ _ _ (co_inv _ _ Hk) (co_reaper _ _ Hk) E) as (Hi' & F & Hr). by apply with_reaper_ok; [apply moved_ok|].
  - pose proof (control_step_ok names k (detectorTick (cl_detector k)) (detector_advances _) Hk) as Hk'.
    destruct (detectorTick _ _) as [d c]. intros [= <-]. by apply with_detector_ok.
Qed.

(** An agent that has just been started, whose labels can be encoded. *)
Definition fresh_agent (a : agent) : Prop :=
  a = newAgent (ag_cfg a) (ag_hostname a) (ag_peer a) ∧ json_valid (Agent_Node_Labels (ag_cfg a)) = true.

(** The states of a cluster that starts from a well-formed store with agents of different names and
    loops just started, the clock past the epoch by the reaper's timeout. *)
Inductive reachable : cluster S → Prop :=
| reach_start k : inv (db_of (cl_control k)) → view_ok (cluster_view k) → exclusive (cluster_view k) → cl_pass k = Idle →
    rr_phase (cl_reaper k) = Waiting → (∀ i, timeUnix 1 ≤ cutoffOf (rr_timeout (cl_reaper k)) (w_now (world_of (cl_control k)) i)) →
    Forall fresh_agent (cl_agents k) → NoDup (nameOf <$> cl_agents k) → reachable k
| reach_step k ev k' : reachable k → clusterEvent_ok ev → clusterStep ev k = Some k' → reachable k'.

Lemma reachable_run evs k k' :
  reachable k → Forall clusterEvent_ok evs → clusterRun evs k = Some k' → reachable k'.
Proof.
  intros Hk Hevs. revert k'. induction evs as [|ev evs IH] using rev_ind; intros k'; [by intros [= <-]|].
  apply Forall_app in Hevs as [Hevs Hev]. rewrite Forall_singleton in Hev. unfold clusterRun in *. rewrite foldl_app. simpl.
  destruct (foldl _ _ evs) as [k1|]; [|done]. simpl. intros E. exact (reach_step k1 ev k' (IH Hevs k1 eq_refl) Hev E).
Qed.

Lemma reachable_ok k : reachable k → ∃ names, cluster_ok names k ∧ NoDup names.
Proof.
  induction 1 as [k Hi Hv Hx Hp Hw Hc Hf Hn|k ev k' _ (names & Hk & Hn) Hev E].
  - exists (nameOf <$> cl_agents k). split; [|done]. split; [done..|by rewrite Hp| |done|by split; [|rewrite Hw]]. eapply Forall_impl; [exact Hf|].
    intros a [-> Hl]. by apply newAgent_ok.
  - exists names. split; [|done]. by eapply clusterStep_ok.
Qed.

Lemma reachable_agent k i a : reachable k → cl_agents k !! i = Some a → agent_ok (cluster_view k) a.
Proof. intros (names & [] & _)%reachable_ok Ha. by eapply Forall_lookup_1. Qed.

(** The others leave the agents alone. *)
Lemma clusterStep_others ev k k' :
  clusterStep ev k = Some k' → (∀ i e, ev ≠ OfAgent i e) → cl_agents k' = cl_agents k.
Proof.
  intros E Hne. destruct ev as [i e|rq|now| |]; simpl in E; [by destruct (Hne i e)|by injection E as <-|..].
  - destruct (on_db _ _) as [ph c]. by injection E as <-.
  - destruct (on_proc _ _) as [r c]. by injection E as <-.
  - destruct (detectorTick _ _) as [d c]. by injection E as <-.
Qed.

Lemma clusterStep_length ev k k' : clusterStep ev k = Some k' → length (cl_agents k') = length (cl_agents k).
Proof.
  intros E. destruct ev as [i e| | | |]; [|by erewrite (clusterStep_others _ _ _ E)..]. simpl in E.
  destruct (cl_agents k !! i) as [a|]; [|done]. simpl in E. destruct (agentStep _ _ _) as [[a1|] c1]; [|done].
  injection E as <-. simpl. apply length_insert.
Qed.

(** What a step of the cluster does to an agent. *)
Lemma clusterStep_agent ev k k' i a :
  clusterStep ev k = Some k' → cl_agents k !! i = Some a →
  cl_agents k' !! i = Some a ∧ (∀ e, ev ≠ OfAgent i e) ∨
  ∃ e a' c', ev = OfAgent i e ∧ agentStep e a (cl_control k) = (Some a', c') ∧ cl_agents k' !! i = Some a' ∧ cl_control k' = c'.
Proof.
  intros Es Ha. destruct ev as [i' e| | | |]; [|left; split; [by erewrite clusterStep_others|done]..]. revert Es. simpl.
  destruct (cl_agents k !! i') as [a0|] eqn:E0; [|done]. simpl.
  destruct (agentStep e a0 (cl_control k)) as [[a'|] c'] eqn:E; [|done]. intros [= <-]. simpl.
  destruct (decide (i' = i)) as [->|Hne].
  - right. simplify_eq. exists e, a', c'. split; [done|]. split; [done|]. split; [|done].
    apply list_lookup_insert_eq. by eapply lookup_lt_Some.
  - left. rewrite list_lookup_insert_ne by done. split; [done|]. by intros e' [= <-].
Qed.

(** ** The processes of a job *)

(** A process group that an earlier process of the agent left behind appears only when one ends. *)
Lemma agentStep_orphans ev a c a' c' :
  agentStep (S := S) ev a c = (Some a', c') → ev ≠ AgRestart → ag_orphans a' ⊆ ag_orphans a.
Proof.
  destruct ev as [snap|l|snap l|l| |ev l|logs g chunk l| |n]; simpl; unfold st_ret; try done.
  - destruct (ag_main a); try done. by intros [= <- _] _.
  - unfold attemptRegister. destruct (ag_main a) as [|req b|]; try done. unfold st_bind.
    destruct (over l _ c) as [r c1]. intros [= <- _] _. by destruct r.
  - unfold reportMetrics. destruct (ag_main a) as [|req b|]; try done. unfold st_bind.
    destruct (over l _ c) as [r c1]. intros [= <- _] _. destruct r; [case_step|]; done.
  - unfold pollTick. destruct (negb _ || _); [done|]. case_decide; [by intros [= <- _] _|]. unfold st_bind.
    destruct (over l _ c) as [r c1]. intros [= <- _] _. by destruct r.
  - destruct (ag_todo a) as [|ev todo]; [done|]. destruct (step (ag_exec a) ev) as [x|]; [|done]. simpl. by intros [= <- _] _.
  - destruct (ofPollLoop ev); [done|]. unfold execStep. destruct (step (ag_exec a) ev) as [x|]; [|done].
    unfold st_bind, st_ret. destruct (st_for _ _ c) as [u c1]. by intros [= <- _] _.
  - by intros [-> _]%pumpChunk_call _.
  - destruct (ag_orphans a !! n); [|done]. intros [= <- _] _. intros asg. apply list_elem_of_delete_inv.
Qed.

Lemma run_orphans evs k k' i a a' :
  (∀ ev, ev ∈ evs → ev ≠ OfAgent i AgRestart) → clusterRun evs k = Some k' →
  cl_agents k !! i = Some a → cl_agents k' !! i = Some a' → ag_orphans a' ⊆ ag_orphans a.
Proof.
  intros Hev. revert k' a'. induction evs as [|ev evs IH] using rev_ind; intros k' a'; [intros [= <-]; by intros Ha [= <-]%(f_equal id)%(eq_trans (eq_sym Ha))|].
  unfold clusterRun in *. rewrite foldl_snoc. intros (k1 & E1 & E)%bind_Some Ha Ha'.
  assert (∃ a1, cl_agents k1 !! i = Some a1) as [a1 Ha1].
  { apply lookup_lt_is_Some. rewrite <-(clusterStep_length _ _ _ E). by eapply lookup_lt_Some. }
  assert (ag_orphans a1 ⊆ ag_orphans a) as H1 by (eapply IH; [|done..]; intros e He; apply Hev, elem_of_app; by left).
  destruct (clusterStep_agent ev k1 k' i a1 E Ha1) as [[Ha2 _]|(e & a2 & c2 & -> & Es & Ha2 & _)]; simplify_eq; [done|].
  etrans; [|exact H1]. eapply agentStep_orphans; [exact Es|]. intros ->. apply (Hev (OfAgent i AgRestart)); [set_solver|done].
Qed.

(** What runs for a job on an agent's host: the runs of its executor, and the process groups that its
    earlier processes left. *)
Definition held (a : agent) (asg : pbAssignment) : Prop :=
  (∃ g rj, x_runs (ag_exec a) !! g = Some rj ∧ rj_assignment rj = asg) ∨ asg ∈ ag_orphans a.

Lemma held_placed v a asg : agent_ok v a → held a asg → placed v (nameOf a) asg.
Proof. intros Ha [(g & rj & Hg & <-)|Ho]; [by eapply ao_runs|by eapply ao_orphans]. Qed.



(** [C9] (safety) Processes do not share a device: in every state that a cluster reaches, with the
    scheduler's operations in between everybody else's and whatever is lost, two live runs of an
    agent whose jobs the store holds as ASSIGNED or RUNNING have been given disjoint devices. *)
Theorem live_runs_share_no_device k i a g1 r1 j1 g2 r2 j2 :
  reachable k → cl_agents k !! i = Some a → x_runs (ag_exec a) !! g1 = Some r1 → x_runs (ag_exec a) !! g2 = Some r2 → g1 ≠ g2 →
  v_jobs (cluster_view k) !! job_of r1 = Some j1 → active j1 → v_jobs (cluster_view k) !! job_of r2 = Some j2 → active j2 →
  ∀ d1 d2, d1 ∈ pbAssignment_Devices (rj_assignment r1) → d2 ∈ pbAssignment_Devices (rj_assignment r2) → d1 ≠ d2.
Proof.
  intros Hk Ha R1 R2 Hne J1 A1 J2 A2 d1 d2 D1 D2.
  pose proof (reachable_agent k i a Hk Ha) as Hok. destruct (reachable_ok k Hk) as (names & [Hi _ Hx _ _ _ _] & _).
  destruct (ao_runs _ _ Hok g1 r1 R1) as (j1' & n1 & J1' & _ & E1 & N1 & M1).
  destruct (ao_runs _ _ Hok g2 r2 R2) as (j2' & n2 & J2' & _ & E2 & N2 & M2). unfold job_of in *. simplify_eq.
  assert (Job_NodeID j1 = Job_NodeID j2) as En by (eapply view_names; [exact Hi|exact N1|exact N2|congruence]).
  rewrite E1 in D1. rewrite E2 in D2. simpl in D1, D2. unfold allocDevicesToProto in D1, D2.
  apply list_elem_of_fmap in D1 as (x1 & -> & X1), D2 as (x2 & -> & X2).
  assert (pbAssignment_JobId (rj_assignment r1) ≠ pbAssignment_JobId (rj_assignment r2)) as Hid.
  { intros E. apply Hne. pose proof (xo_live _ (ao_exec _ _ Hok)) as Hl. pose proof (Hl _ _ R1). pose proof (Hl _ _ R2).
    unfold job_of in *. congruence. }
  pose proof (Hx _ _ j1 j2 Hid J1 J2 A1 A2 En x1 x2 X1 X2) as Hkey. unfold alloc_key in Hkey. congruence.
Qed.

(** ** The end of a job *)

(** What an accepted terminal report does. *)
Lemma report_ended jobID state code reason c resp c' :
  inv (db_of c) → isTerminalState state = true →
  UpdateJobStatus (mkPbUpdateJobStatusRequest jobID state code reason) c = (Reply resp, c') →
  view (db_of c') =
    set_jobs (alter (job_ended state code reason (whole_seconds (clock_next c))) jobID (v_jobs (view (db_of c)))) (view (db_of c)).
Proof.
  intros Hi Ht E. set (req := mkPbUpdateJobStatusRequest jobID state code reason) in *.
  pose proof (request_typed_ok _ (status_typed jobID state code reason)) as Hok. fold req in Hok.
  destruct (handle_effect (RqUpdateJobStatus req) c true c' Hi Hok) as (_ & id & Hv).
  { simpl. unfold ran. by rewrite E. }
  unfold call_of, req in Hv. cbn [pbUpdateJobStatusRequest_State] in Hv. rewrite Ht in Hv. case_decide as Er.
  { rewrite Er in Ht. vm_compute in Ht. done. }
  simpl in Hv. by injection Hv.
Qed.

Lemma is_final_terminal s : is_final s → isTerminalState s = true.
Proof. by intros [->|[->|[->| ->]]]. Qed.

(** ** Reports of an agent *)

(** What a report is answered, and what it does. *)
Lemma ReportMetrics_result id snap c r c' :
  inv (db_of c) → id ≠ "" → snap_ok snap → ReportMetrics (mkPbReportMetricsRequest id snap) c = (r, c') →
  (∃ cd msg e s', r = Status cd msg ∧ store_Heartbeat (nodeFromSnapshot (bareNode id) snap) (clock_next c) (db_of c) = (Err e, s')) ∨
  match v_nodes (view (db_of c)) !! id with
  | None => r = Reply (mkPbReportMetricsResponse false true) ∧ view (db_of c') = view (db_of c)
  | Some n =>
      r = Reply (mkPbReportMetricsResponse true false) ∧ ct_metrics c' = metrics_Put id snap (ct_metrics c) ∧
      v_nodes (view (db_of c')) !! id = Some (node_heard (nodeFromSnapshot (bareNode id) snap) (whole_seconds (clock_next c)) n) ∧
      v_jobs (view (db_of c')) = v_jobs (view (db_of c)) ∧
      (∀ id', id' ≠ id → v_nodes (view (db_of c')) !! id' = v_nodes (view (db_of c)) !! id')
  end.
Proof.
  intros Hi Hid Hs. destruct c as [[w e] m l]. unfold ReportMetrics, required, clock_next, db_of in *.
  cbn [pbReportMetricsRequest_NodeId pbReportMetricsRequest_Snapshot ct_proc ct_metrics fst w_store] in *. rewrite decide_False by done.
  set (n := nodeFromSnapshot (bareNode id) snap). unfold or_status, st_bind, st_ret, now_, on_db, on_proc, on_fst, on_store, time_Now.
  simpl. change (w_now w (w_tick w)) with (next_reading w). set (now := next_reading w).
  pose proof (proj1 (report_typed id snap Hs "" now _ eq_refl)) as Hok. cbn in Hok.
  destruct (store_Heartbeat n now (w_store w)) as [r0 s'] eqn:E0.
  destruct (refines (CallHeartbeat n now) (w_store w) (is_ok r0) s' Hi Hok) as [Hi2 Hv2]; [by simpl; rewrite E0|].
  assert (Node_ID n = id) as En by (by destruct snap). intros E. destruct r0 as [found|er].
  - right. pose proof (hears n now _ found s' Hi Hok E0) as Hf. simpl in Hv2. rewrite En in Hf, Hv2.
    destruct (v_nodes (view (w_store w)) !! id) as [old|] eqn:Eo;
      [rewrite bool_decide_eq_true_2 in Hf by eauto|rewrite bool_decide_eq_false_2 in Hf by (by intros [? ?])]; subst found; injection E as <- <-; simpl.
    + split; [done|]. split; [done|]. injection Hv2 as <-. simpl. rewrite lookup_alter_eq, Eo. split_and!; try done.
      intros id' Hne. by rewrite lookup_alter_ne.
    + split; [done|]. rewrite alter_absent, set_nodes_id in Hv2 by done. congruence.
  - left. injection E as <- <-. do 2 eexists. exists er, s'. by split.
Qed.

End cluster_facts.

(** ** With a store that is up *)

Section cluster_steady.
Context {S : Type} `{Steady S, UnicodeCase}.
Implicit Types (k : cluster S).

(** A terminal report of a job is accepted. *)
Lemma terminal_report_accepted jobID state code reason (c : Control S) :
  inv (db_of c) → steady (db_of c) → jobID ≠ "" → isTerminalState state = true →
  ∃ c', UpdateJobStatus (mkPbUpdateJobStatusRequest jobID state code reason) c = (Reply (mkPbUpdateJobStatusResponse true), c').
Proof.
  intros Hi Hs Hid Ht. unfold UpdateJobStatus, required.
  cbn [pbUpdateJobStatusRequest_JobId pbUpdateJobStatusRequest_State pbUpdateJobStatusRequest_ExitCode pbUpdateJobStatusRequest_Reason].
  rewrite decide_False by done. unfold st_bind at 1. destruct (now_ c) as [now c1] eqn:En.
  assert (db_of c1 = db_of c) as Ec1 by (destruct c as [[w e] m l]; unfold now_, on_proc in En; simpl in En; by injection En as <- <-).
  case_decide as Er; [rewrite Er in Ht; vm_compute in Ht; done|]. rewrite Ht. unfold or_status, st_bind.
  destruct (steady_finish (db_of c1) jobID state code reason now) as (s2 & Es2 & _); [by rewrite Ec1..|].
  destruct (on_db_store (store_FinishJob jobID state code reason now) c1) as (c2 & -> & _). rewrite Es2. cbn [fst].
  destruct (emitJobEvent _ _ _ c2) as [u c3]. by exists c3.
Qed.

(** [C10] (functional) How a job ended is what the store says: when the store is up, the process of a run
    ends and the agent's report is delivered, the store holds the job as ended, with the state, exit code
    and reason that the executor concluded from the way the process ended, the cancellation and
    the timer, and the instant the clock of the control plane shows, and nothing else has changed. *)
Theorem exit_recorded k i a g rj w k' :
  reachable k → steady (db_of (cl_control k)) → cl_agents k !! i = Some a → x_runs (ag_exec a) !! g = Some rj → job_of rj ≠ "" →
  clusterStep (OfAgent i (AgExec (EvExit g w) Delivered)) k = Some k' →
  ∃ j, v_jobs (cluster_view k) !! job_of rj = Some j ∧
    let '(state, code, reason) := classify w (rj_killReason rj) (rj_timedOut rj) in
    let now := whole_seconds (clock_next (cl_control k)) in
    cluster_view k' = set_jobs (<[job_of rj := job_ended state code reason now j]> (v_jobs (cluster_view k))) (cluster_view k).
Proof.
  intros Hk Hst Ha Hg Hid. pose proof (reachable_agent k i a Hk Ha) as Hok.
  destruct (reachable_ok k Hk) as (names & [Hi _ _ _ _ _ _] & _).
  destruct (ao_runs _ _ Hok g rj Hg) as (j & n & Hj & _).
  unfold clusterStep. rewrite Ha. cbn [mbind option_bind agentStep ofPollLoop]. unfold execStep. cbn [step]. rewrite Hg.
  cbn [mbind option_bind]. destruct (rj_phase rj); try done.
  destruct (classify w (rj_killReason rj) (rj_timedOut rj)) as [[state code] reason] eqn:Ec.
  pose proof (is_final_terminal _ (classify_terminal _ _ _ _ _ _ Ec)) as Ht.
  unfold report. cbn [x_reports set_run]. rewrite drop_app_length. cbn [st_for]. unfold st_bind, st_ret, sendReport.
  cbn [rp_job rp_state rp_code rp_reason over]. unfold st_bind, over.
  destruct (terminal_report_accepted (job_of rj) state code reason (cl_control k) Hi Hst Hid Ht) as (c1 & E). unfold job_of in E. rewrite E.
  intros [= <-]. unfold cluster_view. cbn [cl_control with_agents with_control].
  pose proof (report_ended _ _ _ _ _ _ _ Hi Ht E) as Hv. exists j. split; [done|]. rewrite Hv. by rewrite (alter_as_insert _ _ _ _ Hj).
Qed.

(** A device of the store is one that a snapshot shows. *)
Definition same_device (d : Device) (s : pbDeviceStats) : Prop :=
  Device_Kind d = pbDeviceStats_Kind s ∧ Device_Vendor d = pbDeviceStats_Vendor s ∧ Device_Index d = pbDeviceStats_Index s ∧
  Device_UUID d = pbDeviceStats_Uuid s ∧ Device_MemTotalBytes d = pbDeviceStats_MemTotalBytes s ∧ Device_Name d = pbDeviceStats_Name s.

(** The node [n] is what the store held before, UP, last heard of at [now], with the processors, the
    memory and the devices, one by one, of the snapshot (0 where it has no such part). *)
Definition node_reported (old : Node) (snap : pbMetricsSnapshot) (now : Time) (n : Node) : Prop :=
  Node_CPUs n = from_option pbCPUStats_Cores 0 (pbMetricsSnapshot_Cpu snap) ∧
  Node_MemTotalBytes n = from_option pbMemStats_TotalBytes 0 (pbMetricsSnapshot_Mem snap) ∧
  Forall2 same_device (Node_Devices n) (pbMetricsSnapshot_Devices snap) ∧
  Node_State n = StateUp ∧ Node_LastHeartbeat n = now ∧
  Node_ID n = Node_ID old ∧ Node_Name n = Node_Name old ∧ Node_Partition n = Node_Partition old ∧
  Node_Addr n = Node_Addr old ∧ Node_Labels n = Node_Labels old ∧ Node_AgentVersion n = Node_AgentVersion old.

Lemma heard_reported id snap now old :
  node_reported old snap now (node_heard (nodeFromSnapshot (bareNode id) (Some snap)) now old).
Proof.
  unfold node_reported, same_device. simpl. assert (∀ ds, Forall2 same_device ((λ d, mkDevice (pbDeviceStats_Kind d)
    (pbDeviceStats_Vendor d) (pbDeviceStats_Index d) (pbDeviceStats_Uuid d) (pbDeviceStats_MemTotalBytes d) (pbDeviceStats_Name d)) <$> ds) ds)
    as Hd by (intros ds; by apply Forall2_fmap_l, Forall_Forall2_diag, Forall_forall).
  split; [by destruct (pbMetricsSnapshot_Cpu snap)|]. split; [by destruct (pbMetricsSnapshot_Mem snap)|]. by split.
Qed.

(** [C25] (functional) A report keeps the node's record: in the reporting loop, when the store is up, a
    delivered report of an agent whose node the store knows makes that node UP and heard of now, with the
    snapshot's processors and memory and its devices field by field, and leaves its name, partition,
    address, labels and version, the other nodes and the jobs as they were; the snapshot becomes the
    node's latest metrics and the loop goes on.  If the store does not know the node, nothing
    changes and the agent goes back to register. *)
Theorem report_keeps_inventory k i a snap k' :
  reachable k → steady (db_of (cl_control k)) → cl_agents k !! i = Some a → ag_nref a ≠ "" → snap_ok (Some snap) →
  clusterStep (OfAgent i (AgReport (Some snap) Delivered)) k = Some k' →
  let id := ag_nref a in
  match v_nodes (cluster_view k) !! id with
  | None => cluster_view k' = cluster_view k ∧ cl_agents k' !! i = Some (with_main Collecting a)
  | Some old =>
      (∃ n, v_nodes (cluster_view k') !! id = Some n ∧ node_reported old snap (whole_seconds (clock_next (cl_control k))) n) ∧
      (∀ id', id' ≠ id → v_nodes (cluster_view k') !! id' = v_nodes (cluster_view k) !! id') ∧
      v_jobs (cluster_view k') = v_jobs (cluster_view k) ∧
      ct_metrics (cl_control k') = <[id := Some snap]> (ct_metrics (cl_control k)) ∧ cl_agents k' !! i = Some a
  end.
Proof.
  intros Hk Hst Ha Hid Hs. destruct (reachable_ok k Hk) as (names & [Hi _ _ _ _ _ _] & _).
  unfold clusterStep. rewrite Ha. cbn [mbind option_bind agentStep]. unfold reportMetrics.
  destruct (ag_main a) as [|req b|]; try done. unfold st_bind, over, st_ret.
  destruct (ReportMetrics _ (cl_control k)) as [r c'] eqn:E. pose proof (ReportMetrics_result _ _ _ _ _ Hi Hid Hs E) as Hr.
  unfold cluster_view in *. pose proof (lookup_lt_Some _ _ _ Ha) as Hlt.
  intros Hstep. destruct Hr as [(cd & msg & e & s' & -> & Hf)|Hr].
  - exfalso. set (n := nodeFromSnapshot (bareNode (ag_nref a)) (Some snap)) in Hf.
    destruct (steady_heartbeat (db_of (cl_control k)) n (clock_next (cl_control k)) Hi Hst) as (found & s2 & E2 & _); [|congruence].
    exact (proj1 (report_typed (ag_nref a) (Some snap) Hs "" (clock_next (cl_control k)) _ eq_refl)).
  - destruct (v_nodes (view (db_of (cl_control k))) !! ag_nref a) as [n|].
    + destruct Hr as (-> & Hm & Hn & Hj & Ho). cbn in Hstep. injection Hstep as <-. simpl. rewrite list_lookup_insert_eq by done.
      split_and!; try done. eexists. split; [exact Hn|]. apply heard_reported.
    + destruct Hr as (-> & Hv). cbn in Hstep. injection Hstep as <-. simpl. by rewrite list_lookup_insert_eq.
Qed.
End cluster_steady.

(** ** The scheduler's pass

    A pass whose steps nobody comes between is the [pass] of the scheduler. *)

Section scheduler_pass.
Context {S : Type} `{!Store S, UnicodeCase}.

Fixpoint passSteps (s : Scheduler) (now : Time) (n : nat) (ph : passPhase) : ST S passPhase :=
  match n with
  | O => st_ret ph
  | Datatypes.S n' => ph <- passStep s now ph ;; passSteps s now n' ph
  end.

Lemma passSteps_deciding s now ds st :
  passSteps s now (length ds + 1) (Deciding ds) st = (Idle, (st_for ds recordDecision st).2).
Proof.
  revert st; induction ds as [|d ds IH]; intros st; [done|]. cbn [length Nat.add passSteps passStep st_for].
  unfold st_bind, st_ret. destruct (recordDecision d st) as [u st1]. apply IH.
Qed.

(** One step, whose operation has the given outcome. *)
Ltac turn E := cbn [passSteps passStep]; unfold st_bind, st_ret; rewrite E; cbn iota beta.

(** Step by step without interruption is the pass. *)
Lemma passSteps_pass s now st : ∃ n, passSteps s now n Idle st = (Idle, (pass s now st).2).
Proof.
  unfold pass. unfold st_bind at 1. destruct (store_ListNodes st) as [[nodes|e] st1] eqn:E1.
  2: { exists 1%nat. by turn E1. }
  unfold st_bind at 1. destruct (store_ListActiveJobs st1) as [[act|e] st2] eqn:E2.
  2: { exists 2%nat. turn E1. by turn E2. }
  unfold st_bind at 1. destruct (store_ListPendingJobs st2) as [[pend|e] st3] eqn:E3.
  2: { exists 3%nat. turn E1. turn E2. by turn E3. }
  set (ds := Plan now nodes act pend (Scheduler_policy s)). exists (3 + (length ds + 1))%nat. cbn [Nat.add].
  turn E1. turn E2. turn E3. apply passSteps_deciding.
Qed.

End scheduler_pass.

(** ** Coming up *)

Section coming_up.
Context `{!Json (list Device), !JsonLaws (list Device)}.
Context `{!Json smap, !JsonLaws smap}.
Context `{!Json (list AllocDevice), !JsonLaws (list AllocDevice)}.
Context `{!Driver, !DriverLaws} `{UnicodeCase}.
Implicit Types (c : Control DB) (k : cluster DB).

(** The name is known, or the identifiers still to be drawn are new. *)
Definition registrable (name : string) c : Prop :=
  is_Some (named name (v_nodes (view (db_of c)))) ∨
  ∀ m, (w_drawn (ct_proc c).1 ≤ m)%nat → v_nodes (view (db_of c)) !! NewID (w_rand (ct_proc c).1 m) = None.

Definition failures c : list (option string) := db_faults (db_of c).

(** An attempt succeeds, or uses up a failure of the store. *)
Lemma RegisterNode_progress peer req c :
  inv (db_of c) → request_ok (RqRegisterNode peer req) → pbRegisterNodeRequest_Name req ≠ "" →
  registrable (pbRegisterNodeRequest_Name req) c →
  match Server.RegisterNode peer req c with
  | (Reply resp, c') =>
      ∃ id now n, n = stored_node (pbRegisterNodeResponse_NodeId resp) (resourcesFromProto
        (mkNode id (pbRegisterNodeRequest_Name req) (pbRegisterNodeRequest_Partition req) StateUp (peerAddr peer) 0 0 []
           (pbRegisterNodeRequest_Labels req) (pbRegisterNodeRequest_AgentVersion req) now) (pbRegisterNodeRequest_Resources req)) ∧
      v_nodes (view (db_of c')) !! pbRegisterNodeResponse_NodeId resp = Some n
  | (Status _ _, c') =>
      inv (db_of c') ∧ registrable (pbRegisterNodeRequest_Name req) c' ∧ ∃ e, failures c = Some e :: failures c'
  end.
Proof.
  intros Hi Hok Hne Hr. destruct c as [[w e] m l]. unfold Server.RegisterNode, required. rewrite decide_False by done.
  unfold or_status, st_bind, st_ret, id_, now_, on_db, on_proc, on_fst, on_store, newID, time_Now. simpl.
  set (id := NewID _). set (now := w_now w _). set (n := resourcesFromProto _ _).
  pose proof (Hok id now _ eq_refl) as Hcall. fold n in Hcall. unfold registrable, failures, db_of in *. simpl in *.
  assert (Node_ID n = id ∧ Node_Name n = pbRegisterNodeRequest_Name req) as [Eid En] by (by destruct req as [? ? [] ? ?]).
  pose proof (RegisterNode_attempt n (w_store w) Hi Hcall) as Hat. rewrite Eid, En in Hat. specialize (Hat ltac:(naive_solver)).
  assert (∀ id' db', SQLite.RegisterNode n (w_store w) = (Ok id', db') →
    ∃ id0 now0 n0, n0 = stored_node id' (resourcesFromProto
        (mkNode id0 (pbRegisterNodeRequest_Name req) (pbRegisterNodeRequest_Partition req) StateUp (peerAddr peer) 0 0 []
           (pbRegisterNodeRequest_Labels req) (pbRegisterNodeRequest_AgentVersion req) now0) (pbRegisterNodeRequest_Resources req)) ∧
      v_nodes (db_view db') !! id' = Some n0) as Hdone.
  { intros id' db' E. exists id, now. eexists. split; [done|]. by eapply registered_node. }
  destruct (db_faults (w_store w)) as [|[er|] fs] eqn:Ef.
  - destruct Hat as (id' & db' & E). rewrite E. simpl. by apply Hdone.
  - destruct Hat as (e' & E). rewrite E. simpl. split; [by eapply DB_ok_same; [apply with_faults_tables|]|].
    split; [|by exists er]. destruct Hr as [Hr|Hr]; [by left|right]. intros i Hle. apply Hr. lia.
  - destruct Hat as (id' & db' & E). rewrite E. simpl. by apply Hdone.
Qed.

(** The inventory of a node. *)
Definition inventory (n : Node) : pbResources :=
  mkPbResources (Node_CPUs n) (Node_MemTotalBytes n) (deviceToProto <$> Node_Devices n).

Lemma inventory_read (r : option pbResources) id n0 :
  is_Some r → Some (inventory (stored_node id (resourcesFromProto n0 r))) = r.
Proof.
  intros [[cpus mem ds] ->]. unfold inventory. simpl. rewrite <-list_fmap_compose. do 2 f_equal.
  induction ds as [|[] ds IH]; [done|]. csimpl. by rewrite IH.
Qed.

Lemma clusterRun_cons {S} `{!Store S, UnicodeCase} ev evs (k : cluster S) : clusterRun (ev :: evs) k = k ← clusterStep ev k; clusterRun evs k.
Proof.
  unfold clusterRun. simpl. destruct (clusterStep ev k) as [k1|]; [done|]. simpl. by induction evs.
Qed.

(** An attempt of an agent: done, or one failure of the store fewer. *)
Lemma attempt_progress k i a req b :
  inv (db_of (cl_control k)) → agent_ok (cluster_view k) a → cl_agents k !! i = Some a → ag_main a = Registering req b →
  nameOf a ≠ "" → registrable (nameOf a) (cl_control k) →
  ∃ k', clusterStep (OfAgent i (AgRegister Delivered)) k = Some k' ∧
  ((∃ id n, cl_agents k' !! i = Some (registered_as id a) ∧ v_nodes (cluster_view k') !! id = Some n ∧
      Node_Name n = nameOf a ∧ Node_State n = StateUp ∧
      pbRegisterNodeRequest_Resources req = Some (inventory n)) ∨
   (cl_agents k' = <[i := with_main (Registering req (backoffNext (16 * Second) b)) a]> (cl_agents k) ∧
      inv (db_of (cl_control k')) ∧ registrable (nameOf a) (cl_control k') ∧
      ∃ e, failures (cl_control k) = Some e :: failures (cl_control k'))).
Proof.
  intros Hi Hok Ha Em Hn Hr. destruct (ao_request _ _ Hok _ _ Em) as (snap & Hs & ->).
  pose proof (register_typed (ag_peer a) _ (nameOf a) _ (ao_labels _ _ Hok) Hs) as Hrq.
  pose proof (RegisterNode_progress (ag_peer a) (registerRequest (ag_cfg a) (nameOf a) snap) (cl_control k) Hi (request_typed_ok _ Hrq) Hn Hr) as Hp.
  unfold clusterStep. rewrite Ha. cbn [mbind option_bind agentStep]. unfold attemptRegister. rewrite Em. unfold st_bind, over, st_ret.
  destruct (Server.RegisterNode _ _ (cl_control k)) as [[resp|cd msg] c']; cbn [mbind option_bind].
  - eexists. split; [done|]. left. destruct Hp as (id & now & n & -> & Hl). do 2 eexists. simpl.
    rewrite list_lookup_insert_eq by (exact (lookup_lt_Some _ _ _ Ha)). split; [done|]. split; [exact Hl|]. split_and!; try done.
    by rewrite (inventory_read (Some (ResourcesFromSnapshot snap))).
  - eexists. split; [done|]. right. by destruct Hp as (? & ? & ?).
Qed.

(** [C13] (liveness) An agent comes up: an agent that is registering, whose name is known to the store
    or for which new identifiers are drawn, and whose calls get through, is registered after at
    most one attempt more than the store has failures to come; then it is in the reporting loop
    under the identifier of a node of its name, which is UP and has the processors, memory and devices
    of the request, and its poll loop runs. *)
Theorem agent_comes_up k i a req b :
  reachable k → cl_agents k !! i = Some a → ag_main a = Registering req b →
  nameOf a ≠ "" → registrable (nameOf a) (cl_control k) →
  ∃ m k' id n, (m ≤ length (failures (cl_control k)))%nat ∧
    clusterRun (replicate (S m) (OfAgent i (AgRegister Delivered))) k = Some k' ∧
    cl_agents k' !! i = Some (registered_as id a) ∧ v_nodes (cluster_view k') !! id = Some n ∧
    Node_Name n = nameOf a ∧ Node_State n = StateUp ∧ pbRegisterNodeRequest_Resources req = Some (inventory n).
Proof.
  intros Hk. remember (length (failures (cl_control k))) as len eqn:El. revert k a b El Hk.
  induction len as [|len IH]; intros k a b El Hk Ha Em Hn Hr;
    destruct (reachable_ok k Hk) as (names & [Hi _ _ _ _ _ _] & _);
    destruct (attempt_progress k i a req b Hi (reachable_agent k i a Hk Ha) Ha Em Hn Hr)
      as (k1 & E1 & [(id & n & Hag & Hnode & Hnm & Hup & Hinv)|(Eag & Hi1 & Hr1 & e & Ef)]).
  1, 3: exists 0%nat, k1, id, n; split; [lia|]; rewrite replicate_S, clusterRun_cons, E1; done.
  { rewrite Ef in El. done. }
  rewrite Ef in El. injection El as El.
  set (a1 := with_main (Registering req (backoffNext (16 * Second) b)) a) in *.
  destruct (IH k1 a1 (backoffNext (16 * Second) b) El) as (m & k' & id & n & Hm & Erun & Hrest); [|by rewrite Eag, list_lookup_insert_eq by (exact (lookup_lt_Some _ _ _ Ha))|done..|].
  { by apply (reach_step k (OfAgent i (AgRegister Delivered))). }
  exists (Datatypes.S m), k', id, n. split; [lia|]. by rewrite replicate_S, clusterRun_cons, E1.
Qed.
End coming_up.

(** ** A cluster of two agents *)

#[local] Existing Instance ascii_case.

Definition ex_snap : option pbMetricsSnapshot :=
  Some (mkPbMetricsSnapshot 2000 (Some (mkPbCPUStats (f64 0) (f64 0) (f64 0) (f64 0) 64)) (Some (mkPbMemStats 68719476736 0 0 (f64 0))) []
    [mkPbDeviceStats "gpu" "nvidia" 0 "GPU-1" "A100" (f64 0) 42949672960 0 (f64 30) (f64 50);
     mkPbDeviceStats "gpu" "nvidia" 1 "GPU-2" "A100" (f64 0) 42949672960 0 (f64 30) (f64 50)]).

Definition ex_agent (name : string) : agent :=
  newAgent (mkAgentConfig "127.0.0.1:7443" name "gpu" ∅ (10 * Second) (2 * Second) "info") (Ok name) (Some "10.0.0.1:5000").

Definition ex_reaping : reaper := mkReaper (30 * Second) None Waiting.

Definition ex_cluster : cluster DB :=
  mkCluster (ex_control emptyDB) (New Second (mkPolicy true (f64 1))) Idle ex_reaping (NewDetector (Server_Notify DefaultServer)) [ex_agent "alpha"; ex_agent "beta"].

Lemma ex_clock_ok (i : nat) : timeUnix 1 ≤ cutoffOf (30 * Second) (timeUnix (2000 + Z.of_nat i)).
Proof.
  unfold cutoffOf, Add. replace (i64 (- (30 * Second))) with (- (30 * Second)) by (vm_compute; reflexivity).
  unfold timeUnix, Second. lia.
Qed.

(** The identifiers drawn: the nodes' and the job's. *)
Definition ex_alpha : string := "0001020304050607".
Definition ex_job : string := "0201020304050607".

(** The agents register, a job is submitted, placed on the first, and polled. *)
Definition ex_placed : list clusterEvent :=
  [OfAgent 0 (AgCollect ex_snap); OfAgent 1 (AgCollect ex_snap); OfAgent 0 (AgRegister (RequestLost "unavailable"));
   OfAgent 0 (AgRegister Delivered); OfAgent 1 (AgRegister Delivered); OfAgent 0 (AgReport ex_snap Delivered);
   OfClient (RqSubmitJob ex_submit); OfAgent 0 (AgPoll Delivered);
   OfScheduler (timeUnix 2100); OfScheduler (timeUnix 2100); OfScheduler (timeUnix 2100); OfScheduler (timeUnix 2100);
   OfAgent 1 (AgPoll Delivered); OfAgent 0 (AgPoll Delivered); OfAgent 0 AgWork; OfAgent 0 (AgExec (EvPrepare 0) Delivered)].

(** The run launches the process, reports it (over the link given) and creates its guards. *)
Definition ex_launch (l : link) : list clusterEvent :=
  [OfAgent 0 (AgExec (EvLaunch 0 (Launched 4242)) Delivered); OfAgent 0 (AgExec (EvAnnounce 0) l); OfAgent 0 (AgExec (EvGuard 0) Delivered)].
Lemma ex_launch_ok l : Forall clusterEvent_ok (ex_launch l).
Proof. repeat (apply Forall_cons; split); try exact I. by apply Forall_nil. Qed.

Definition ex_exit (l : link) : clusterEvent := OfAgent 0 (AgExec (EvExit 0 WaitNil) l).

Definition ex_state (k : cluster DB) : option string := Job_State <$> (v_jobs (cluster_view k) !! ex_job).

(** The runs of an agent. *)
Definition ex_runs (i : nat) (k : cluster DB) : list (nat * string) :=
  match cl_agents k !! i with
  | Some a => (λ p, (p.1, job_of p.2)) <$> map_to_list (x_runs (ag_exec a))
  | None => []
  end.
Definition ex_reports (i : nat) (k : cluster DB) : list string :=
  match cl_agents k !! i with Some a => states_of ex_job (ag_exec a) | None => [] end.

Example ex_placed_1 : (λ k, (ex_state k, ex_runs 0 k, ex_runs 1 k)) <$> clusterRun (ex_placed ++ ex_launch Delivered) ex_cluster
  = Some (Some JobRunning, [(0%nat, ex_job)], []).
Proof. vm_compute. reflexivity. Qed.

Lemma ex_snap_ok : snap_ok ex_snap.
Proof. unfold snap_ok. cbv zeta. by_decide. Qed.

Lemma ex_submit_typed : request_typed (RqSubmitJob ex_submit).
Proof. intros id now cl [= <-]. split; [split_and!; [reflexivity|reflexivity|simpl; lia..]|]. split; [by_decide|reflexivity]. Qed.

Lemma ex_placed_ok : Forall clusterEvent_ok ex_placed.
Proof.
  repeat (apply Forall_cons; split); try exact I; try exact ex_snap_ok; try reflexivity; [exact ex_submit_typed|by apply Forall_nil].
Qed.

Lemma ex_reachable evs k : Forall clusterEvent_ok evs → clusterRun evs ex_cluster = Some k → reachable k.
Proof.
  destruct emptyDB_start as (H1 & H2 & H3). apply reachable_run, reach_start; [exact H1|exact H2|exact H3|reflexivity|reflexivity|exact (λ i, ex_clock_ok i)| |].
  - by repeat (apply Forall_cons; split); [split|split|apply Forall_nil].
  - vm_compute. repeat constructor; set_solver.
Qed.

Lemma ex_exec_ok evs' : Forall clusterEvent_ok evs' → Forall clusterEvent_ok (ex_placed ++ evs').
Proof. intros H. apply Forall_app. split; [exact ex_placed_ok|exact H]. Qed.

(** The first agent and its first run after the given events. *)
Definition ex_view (evs : list clusterEvent) : option (cluster DB * agent * runningJob) :=
  k ← clusterRun (ex_placed ++ evs) ex_cluster; a ← cl_agents k !! 0%nat; rj ← x_runs (ag_exec a) !! 0%nat; Some (k, a, rj).

Lemma ex_view_some evs k a rj : ex_view evs = Some (k, a, rj) →
  clusterRun (ex_placed ++ evs) ex_cluster = Some k ∧ cl_agents k !! 0%nat = Some a ∧ x_runs (ag_exec a) !! 0%nat = Some rj.
Proof.
  unfold ex_view. destruct (clusterRun _ _) as [k'|]; [|done]. simpl. destruct (cl_agents k' !! 0%nat) as [a'|] eqn:Ea; [|done].
  simpl. destruct (x_runs (ag_exec a') !! 0%nat) as [rj'|] eqn:Er; [|done]. simpl. by intros [= <- <- <-].
Qed.

Lemma ex_fmap {A B} (f : A → B) o t b : o = Some t → f <$> o = Some b → f t = b.
Proof. intros -> E. by injection E. Qed.

(** The process of the first run ends. *)
Definition ex_ended : option (cluster DB * agent * runningJob * cluster DB) :=
  t ← ex_view (ex_launch Delivered); k' ← clusterStep (ex_exit Delivered) t.1.1; Some (t, k').

Example ex_ended_1 : (λ '(k, _, rj, k'), (db_faults (db_of (cl_control k)), job_of rj, ex_state k')) <$> ex_ended =
  Some ([], ex_job, Some JobCompleted).
Proof. vm_compute. reflexivity. Qed.

Lemma exit_recorded_witness :
  ∃ k a rj k', ex_ended = Some (k, a, rj, k') ∧ ex_state k' = Some JobCompleted ∧
    ∃ j, v_jobs (cluster_view k) !! job_of rj = Some j ∧
      let '(state, code, reason) := classify WaitNil (rj_killReason rj) (rj_timedOut rj) in
      let now := whole_seconds (clock_next (cl_control k)) in
      cluster_view k' = set_jobs (<[job_of rj := job_ended state code reason now j]> (v_jobs (cluster_view k))) (cluster_view k).
Proof.
  destruct ex_ended as [[[[k a] rj] k']|] eqn:E; [|exfalso; vm_compute in E; discriminate].
  pose proof (ex_fmap _ _ _ _ E ex_ended_1) as X. apply pair_equal_spec in X as [X Hend]. apply pair_equal_spec in X as [Hs Hid].
  unfold ex_ended in E. apply bind_Some in E as ([[k0 a0] rj0] & E & E'). apply bind_Some in E' as (k1 & Ek & E'). injection E' as -> -> -> ->.
  destruct (ex_view_some _ _ _ _ E) as (E1 & E2 & E3). exists k, a, rj, k'. split; [reflexivity|]. split; [exact Hend|].
  refine (exit_recorded (S := DB) (H := sqlite_laws) (H0 := sqlite_steady) k 0 a 0 rj WaitNil k'
    (ex_reachable _ k (ex_exec_ok _ (ex_launch_ok Delivered)) E1) Hs E2 E3 _ Ek).
  rewrite Hid. discriminate.
Defined.

Lemma ex_run_agent evs k a : Forall clusterEvent_ok evs → clusterRun evs ex_cluster = Some k → cl_agents k !! 0%nat = Some a →
  reachable k ∧ agent_ok (cluster_view k) a.
Proof. intros H1 H2 H3. pose proof (ex_reachable _ _ H1 H2) as Hk. split; [exact Hk|]. by eapply reachable_agent. Qed.

(** After the registration the store knows the node. *)
Definition ex_shown : pbMetricsSnapshot := default (mkPbMetricsSnapshot 0 None None [] []) ex_snap.

Definition ex_inventory : option (cluster DB * agent * Node * cluster DB) :=
  k ← clusterRun (take 5 ex_placed) ex_cluster; a ← cl_agents k !! 0%nat; n ← v_nodes (cluster_view k) !! ag_nref a;
  k' ← clusterStep (OfAgent 0 (AgReport (Some ex_shown) Delivered)) k; Some (k, a, n, k').

Example ex_inventory_1 : (λ '(k, a, _, _), (db_faults (db_of (cl_control k)), ag_nref a)) <$> ex_inventory = Some ([], ex_alpha).
Proof. vm_compute. reflexivity. Qed.

Lemma ex_inventory_some k a n k' : ex_inventory = Some (k, a, n, k') →
  clusterRun (take 5 ex_placed) ex_cluster = Some k ∧ cl_agents k !! 0%nat = Some a ∧ v_nodes (cluster_view k) !! ag_nref a = Some n ∧
  clusterStep (OfAgent 0 (AgReport (Some ex_shown) Delivered)) k = Some k'.
Proof.
  unfold ex_inventory. generalize (clusterRun (take 5 ex_placed) ex_cluster). intros o (k1 & Ek & E)%bind_Some.
  apply bind_Some in E as (a1 & Ea & E). apply bind_Some in E as (n1 & En & E). apply bind_Some in E as (k2 & Es & E).
  by injection E as <- <- <- <-.
Qed.

Lemma report_keeps_inventory_witness :
  ∃ k a old k' n, ex_inventory = Some (k, a, old, k') ∧ v_nodes (cluster_view k') !! ag_nref a = Some n ∧
    node_reported old ex_shown (whole_seconds (clock_next (cl_control k))) n.
Proof.
  destruct ex_inventory as [[[[k a] old] k']|] eqn:E; [|vm_compute in E; discriminate].
  pose proof (ex_fmap _ _ _ _ E ex_inventory_1) as X. apply pair_equal_spec in X as [Hs Hid].
  destruct (ex_inventory_some _ _ _ _ E) as (E1 & E2 & E3 & Ek).
  assert (ag_nref a <> "") as Hne by (rewrite Hid; discriminate).
  pose proof (report_keeps_inventory (S := DB) (H := sqlite_laws) (H0 := sqlite_steady) k 0 a ex_shown k'
    (ex_reachable _ k (Forall_take _ 5 _ ex_placed_ok) E1) Hs E2 Hne ex_snap_ok Ek) as Hr. cbv zeta in Hr. rewrite E3 in Hr.
  destruct Hr as [(n & Hn & Hr) _]. exists k, a, old, k', n. exact (conj eq_refl (conj Hn Hr)).
Defined.

(** A store that fails twice before the first registration. *)
Definition ex_failing : cluster DB :=
  mkCluster (ex_control (with_faults [Some "disk I/O error"; Some "database is locked"] emptyDB)) (New Second (mkPolicy true (f64 1))) Idle ex_reaping
    (NewDetector (Server_Notify DefaultServer)) [ex_agent "alpha"].

Lemma agent_comes_up_witness :
  ∃ k, clusterStep (OfAgent 0 (AgCollect ex_snap)) ex_failing = Some k ∧
    ∃ m k' id n, (m ≤ 2)%nat ∧ clusterRun (replicate (S m) (OfAgent 0 (AgRegister Delivered))) k = Some k' ∧
      cl_agents k' !! 0%nat = Some (registered_as id (with_main (Registering (registerRequest (ag_cfg (ex_agent "alpha")) "alpha" ex_snap) Second) (ex_agent "alpha"))) ∧
      v_nodes (cluster_view k') !! id = Some n ∧ Node_State n = StateUp.
Proof.
  destruct (clusterStep (OfAgent 0 (AgCollect ex_snap)) ex_failing) as [k|] eqn:E; [|vm_compute in E; discriminate].
  exists k. split; [reflexivity|]. injection E as <-.
  assert (reachable ex_failing) as H0.
  { destruct emptyDB_start as (_ & H2 & H3).
    apply reach_start; [eapply DB_ok_same; [apply with_faults_tables|exact emptyDB_ok]|exact H2|exact H3|reflexivity|reflexivity|exact (λ i, ex_clock_ok i)| |vm_compute; repeat constructor; set_solver].
    apply Forall_cons; split; [split; reflexivity|apply Forall_nil; exact I]. }
  set (k := with_agents _ _). set (a := with_main _ _) in k.
  assert (reachable k) as Hk by (exact (reach_step ex_failing (OfAgent 0 (AgCollect ex_snap)) k H0 ex_snap_ok eq_refl)).
  destruct (agent_comes_up k 0 a _ Second Hk eq_refl eq_refl ltac:(discriminate)) as (m & k' & id & n & H1 & H2 & H3 & H4 & _ & H5 & _).
  - right. intros m _. change (v_nodes (view (db_of (cl_control k)))) with (scanNode <$> (∅ : gmap string NodeRow)). by rewrite fmap_empty.
  - exists m, k', id, n. exact (conj H1 (conj H2 (conj H3 (conj H4 H5)))).
Defined.

(** (safety) The agent reports once and does not try again.  When the report of a job's end is lost,
    the store holds the job as RUNNING though no run of it is left, and polling does not change that;
    when both its reports are lost, the next poll starts the job again after it has ended: the
    executor's own reports say that it ran to its end and is running. *)
Theorem lost_reports :
  ((λ k, (ex_state k, ex_runs 0 k, ex_reports 0 k)) <$>
     clusterRun (ex_placed ++ ex_launch Delivered ++ [ex_exit (RequestLost "unavailable"); OfAgent 0 (AgExec (EvDone 0) Delivered);
       OfAgent 0 (AgPoll Delivered)]) ex_cluster) = Some (Some JobRunning, [], [JobRunning; JobCompleted]) ∧
  ((λ k, (ex_state k, ex_runs 0 k, ex_reports 0 k)) <$>
     clusterRun (ex_placed ++ ex_launch (RequestLost "unavailable") ++ [ex_exit (RequestLost "unavailable"); OfAgent 0 (AgExec (EvDone 0) Delivered);
       OfAgent 0 (AgPoll Delivered); OfAgent 0 AgWork; OfAgent 0 (AgExec (EvPrepare 1) Delivered);
       OfAgent 0 (AgExec (EvLaunch 1 (Launched 4243)) Delivered); OfAgent 0 (AgExec (EvAnnounce 1) Delivered)]) ex_cluster)
    = Some (Some JobRunning, [(1%nat, ex_job)], [JobRunning; JobCompleted; JobRunning]).
Proof. split; vm_compute; reflexivity. Qed.

(** The jobs of the process groups that run on an agent's host: those of its executor and those left
    by its crashes. *)
Definition ex_groups (i : nat) (k : cluster DB) : list string * list string :=
  match cl_agents k !! i with
  | Some a => (pbAssignment_JobId <$> groupsOf (ag_exec a), pbAssignment_JobId <$> ag_orphans a)
  | None => ([], [])
  end.

(** The agent crashes, registers again, polls and works the answer through. *)
Definition ex_crash : list clusterEvent :=
  [OfAgent 0 AgRestart; OfAgent 0 (AgCollect ex_snap); OfAgent 0 (AgRegister Delivered); OfAgent 0 (AgPoll Delivered)].

(** (safety) A crash of the agent leaves its jobs running without anyone to watch them.  A job
    reported RUNNING stays so in the store, and nobody is told to cancel it or to wait for it; a job
    whose report of RUNNING was lost is still ASSIGNED, and the agent starts it a second time beside
    the group that was left. *)
Theorem crash_leaves_groups :
  ((λ k, (ex_state k, ex_groups 0 k)) <$>
     clusterRun (ex_placed ++ ex_launch Delivered ++ ex_crash) ex_cluster) = Some (Some JobRunning, ([], [ex_job])) ∧
  ((λ k, (ex_state k, ex_groups 0 k)) <$>
     clusterRun (ex_placed ++ ex_launch (RequestLost "unavailable") ++ ex_crash ++
       [OfAgent 0 AgWork; OfAgent 0 (AgExec (EvPrepare 0) Delivered)] ++ ex_launch Delivered) ex_cluster)
    = Some (Some JobRunning, ([ex_job], [ex_job])).
Proof. split; vm_compute; reflexivity. Qed.

Lemma ex_crash_ok : Forall clusterEvent_ok ex_crash.
Proof. repeat (apply Forall_cons; split); try exact I; [exact ex_snap_ok|by apply Forall_nil]. Qed.

(** The first agent after a crash, with what was left of a job. *)
Definition ex_left : option (cluster DB * agent * pbAssignment) :=
  k ← clusterRun (ex_placed ++ ex_launch Delivered ++ ex_crash) ex_cluster; a ← cl_agents k !! 0%nat; asg ← ag_orphans a !! 0%nat; Some (k, a, asg).

Lemma ex_left_some k a asg : ex_left = Some (k, a, asg) →
  clusterRun (ex_placed ++ ex_launch Delivered ++ ex_crash) ex_cluster = Some k ∧ cl_agents k !! 0%nat = Some a ∧ ag_orphans a !! 0%nat = Some asg.
Proof.
  unfold ex_left. generalize (clusterRun (ex_placed ++ ex_launch Delivered ++ ex_crash) ex_cluster). intros o (k' & Ek & E)%bind_Some.
  apply bind_Some in E as (a' & Ea & E). apply bind_Some in E as (n' & En & E). by injection E as <- <- <-.
Qed.


(** A second job, placed by the next pass while the first is starting. *)
Definition ex_second : list clusterEvent :=
  [OfScheduler (timeUnix 2101); OfScheduler (timeUnix 2101); OfClient (RqSubmitJob ex_submit); OfScheduler (timeUnix 2101)]
  ++ ex_launch Delivered ++
  [OfScheduler (timeUnix 2101); OfScheduler (timeUnix 2101); OfAgent 0 (AgPoll Delivered); OfAgent 0 AgWork].

Definition ex_two : option (cluster DB * agent * (runningJob * Job) * (runningJob * Job)) :=
  k ← clusterRun (ex_placed ++ ex_second) ex_cluster; a ← cl_agents k !! 0%nat;
  r1 ← x_runs (ag_exec a) !! 0%nat; j1 ← v_jobs (cluster_view k) !! job_of r1;
  r2 ← x_runs (ag_exec a) !! 1%nat; j2 ← v_jobs (cluster_view k) !! job_of r2; Some (k, a, (r1, j1), (r2, j2)).

Example ex_two_1 : (λ t, (Job_State t.1.2.2, Job_State t.2.2, pbAssignment_Devices (rj_assignment t.1.2.1), pbAssignment_Devices (rj_assignment t.2.1))) <$> ex_two
  = Some (JobRunning, JobAssigned, [mkPbDeviceAssignment "gpu" 0], [mkPbDeviceAssignment "gpu" 1]).
Proof. vm_compute. reflexivity. Qed.

Lemma ex_two_some k a r1 j1 r2 j2 : ex_two = Some (k, a, (r1, j1), (r2, j2)) →
  clusterRun (ex_placed ++ ex_second) ex_cluster = Some k ∧ cl_agents k !! 0%nat = Some a ∧
  x_runs (ag_exec a) !! 0%nat = Some r1 ∧ x_runs (ag_exec a) !! 1%nat = Some r2 ∧
  v_jobs (cluster_view k) !! job_of r1 = Some j1 ∧ v_jobs (cluster_view k) !! job_of r2 = Some j2.
Proof.
  unfold ex_two. generalize (clusterRun (ex_placed ++ ex_second) ex_cluster). intros o (k0 & Ek & E)%bind_Some. apply bind_Some in E as (a0 & Ea & E). apply bind_Some in E as (r10 & E1 & E).
  apply bind_Some in E as (j10 & Ej1 & E). apply bind_Some in E as (r20 & E2 & E). apply bind_Some in E as (j20 & Ej2 & E).
  by injection E as <- <- <- <- <- <-.
Qed.

Lemma ex_second_ok : Forall clusterEvent_ok (ex_placed ++ ex_second).
Proof.
  apply ex_exec_ok. repeat (apply Forall_cons; split); try exact I; [|by apply Forall_nil].
  intros id now cl [= <-]. split; [split_and!; [reflexivity|reflexivity|simpl; lia..]|]. split; [by_decide|reflexivity].
Qed.

Lemma live_runs_share_no_device_witness :
  ∃ k a r1 j1 r2 j2, ex_two = Some (k, a, (r1, j1), (r2, j2)) ∧
    ∀ d1 d2, d1 ∈ pbAssignment_Devices (rj_assignment r1) → d2 ∈ pbAssignment_Devices (rj_assignment r2) → d1 ≠ d2.
Proof.
  destruct ex_two as [[[[k a] [r1 j1]] [r2 j2]]|] eqn:E; [|exfalso; vm_compute in E; discriminate].
  exists k, a, r1, j1, r2, j2. split; [reflexivity|].
  assert (Job_State j1 = JobRunning ∧ Job_State j2 = JobAssigned) as [S1 S2].
  { pose proof (ex_fmap _ _ _ _ E ex_two_1) as Ex. apply pair_equal_spec in Ex as [Ex _]. apply pair_equal_spec in Ex as [Ex _].
    apply pair_equal_spec in Ex as [Ex1 Ex2]. exact (conj Ex1 Ex2). }
  destruct (ex_two_some _ _ _ _ _ _ E) as (E1 & E2 & E3 & E4 & E5 & E6).
  exact (live_runs_share_no_device (S := DB) (H := sqlite_laws) k 0 a 0 r1 j1 1 r2 j2 (ex_reachable _ k ex_second_ok E1) E2 E3 E4
    ltac:(discriminate) E5 (or_intror S1) E6 (or_introl S2)).
Defined.

