(* ===== verification/ServerInterleaved.v ===== *)
(** * The services among other goroutines

    A handler makes several calls of the store, and the goroutines of other requests, of the scheduler and
    of the loops make theirs in between ([interleaved]).  What a request changes it changes at one
    instant all the same: each request takes effect as one call of the contract somewhere between
    its arrival and its answer.  This is what allows the cluster to handle a request in one step. *)
From S2P Require Import Prelude GoBase GoStrings GoFloat GoFormat GoPath Event Proto Store StoreSpec SQLite SQLiteProofs StoreExample SQLiteRefines Scheduler World Convert Config Notify EngineFacts JobLog Transport Agent Server ServerTheorems Reap ServerClock Cluster ClusterTheorems.
Local Open Scope Z_scope.

(** ** What other goroutines may do *)

(** Calls made one after the other: each takes effect or is refused or fails. *)
Inductive drives : list call → View → View → Prop :=
| drives_nil v : drives [] v v
| drives_done cl cs v v1 v2 : spec_call cl v = Some v1 → drives cs v1 v2 → drives (cl :: cs) v v2
| drives_none cl cs v v2 : drives cs v v2 → drives (cl :: cs) v v2.

Lemma drives_app cs1 cs2 v1 v2 v3 : drives cs1 v1 v2 → drives cs2 v2 v3 → drives (cs1 ++ cs2) v1 v3.
Proof. induction 1; intros; simpl; [done|eapply drives_done; [done|auto]|apply drives_none; auto]. Qed.

Section interleaving.
Context {S : Type} `{StoreLaws S}.
Notation shared := (S * list (list call))%type.
Implicit Types (st : shared) (c : Control shared).

(** A well-formed store and calls within what it represents. *)
Definition others_ok st : Prop := inv st.1 ∧ Forall (Forall call_ok) st.2.

(** From [st] to [st'] the others have made some of their calls, and nobody else has. *)
Definition drifts st st' : Prop := ∃ used, st.2 = used ++ st'.2 ∧ drives (concat used) (view st.1) (view st'.1).

#[export] Instance drifts_preorder : PreOrder drifts.
Proof.
  split; [intros st; exists []; split; [done|constructor]|]. intros st1 st2 st3 (u1 & E1 & D1) (u2 & E2 & D2).
  exists (u1 ++ u2). split; [by rewrite E1, E2, app_assoc|]. rewrite concat_app. by eapply drives_app.
Qed.

Lemma exec_drives cs (s : S) :
  inv s → Forall call_ok cs → inv (exec_calls cs s) ∧ drives cs (view s) (view (exec_calls cs s)).
Proof.
  intros Hi Hcs. revert s Hi. induction Hcs as [|cl cs Hc _ IH]; intros s Hi; [split; [done|constructor]|].
  change (exec_calls (cl :: cs) s) with (exec_calls cs (exec_call cl s).2).
  destruct (exec_call cl s) as [ok s1] eqn:E. simpl snd. destruct (refines cl s ok s1 Hi Hc E) as [Hi1 Hs].
  destruct (IH s1 Hi1) as [Hi2 D]. split; [done|]. destruct ok; [by eapply drives_done|]. rewrite <-Hs. by apply drives_none.
Qed.

Lemma interfere_drifts st : others_ok st → others_ok (interfere st) ∧ drifts st (interfere st).
Proof.
  destruct st as [s [|cs env]]; intros [Hi He]; simpl in *; [split; [done|reflexivity]|].
  apply Forall_cons in He as [Hcs He]. destruct (exec_drives cs s Hi Hcs) as [Hi' D]. split; [done|].
  exists [cs]. split; [done|]. simpl. by rewrite app_nil_r.
Qed.

Notation drifting := (keeps others_ok drifts).

(** A call that changes nothing. *)
Lemma drifting_silent {A} (op : ST S A) : silent id op → drifting (during op).
Proof.
  intros Hs st Hst. destruct (interfere_drifts st Hst) as [[Hi He] D]. unfold during.
  destruct (Hs _ (interfere st).1 (conj Hi eq_refl)) as [Hi' Hv]. destruct (op (interfere st).1) as [a s]. simpl in *.
  split; [done|]. etrans; [exact D|]. exists []. split; [done|]. unfold id in Hv. simpl. rewrite Hv. constructor.
Qed.

Lemma drifting_query {A} (q : ST S (result A)) Q : answers_with view inv q Q → drifting (during q).
Proof. intros Hq. by eapply drifting_silent, silent_query. Qed.

(** ** Handlers that change nothing *)

Notation calm_handler := (keeps (λ c, others_ok (db_of c)) (pulled drifts db_of)).

Lemma calm_on_db {A} (op : ST shared A) : drifting op → calm_handler (on_db op).
Proof.
  apply keeps_part. intros [[w e] m l]. unfold on_db, on_proc, on_fst, on_store, db_of. simpl. by destruct (op (w_store w)).
Qed.

Lemma calm_rest {A} (op : ST (Control shared) A) : (∀ c, db_of (op c).2 = db_of c) → calm_handler op.
Proof. apply keeps_rest, _. Qed.

Lemma calm_now : calm_handler now_.
Proof. apply calm_rest. by intros [[w e] m l]. Qed.
Lemma calm_id : calm_handler id_.
Proof. apply calm_rest. by intros [[w e] m l]. Qed.
Lemma calm_on_logs {A} (op : ST FS A) : calm_handler (on_logs op).
Proof. apply calm_rest. intros c. unfold on_logs. by destruct (op _). Qed.
Lemma calm_on_metrics f : calm_handler (on_metrics f).
Proof. by apply calm_rest. Qed.

Lemma calm_Emit ev : calm_handler (on_proc (Emit ev)).
Proof.
  assert (∀ A (op : ST shared A), drifting op → keeps (λ w, others_ok (w_store w)) (pulled drifts w_store) (on_store op)) as Hop.
  { intros A op. apply keeps_part. intros w. unfold on_store. by destruct (op (w_store w)). }
  apply (keeps_part (λ p : World shared * Engine, others_ok (w_store p.1)) (pulled (pulled drifts w_store) fst) ct_proc (Emit ev)).
  { intros c. unfold on_proc. by destruct (Emit ev (ct_proc c)). }
  apply (keeps_Emit (λ w, others_ok (w_store w)) (pulled drifts w_store)); intros.
  - apply keeps_rest; [apply _|done].
  - apply keeps_rest; [apply _|done].
  - apply Hop. by apply drifting_silent, (silent_CreateEvent ev0).
  - apply Hop. by apply drifting_silent, (silent_CreateNotification n).
Qed.

#[local] Hint Resolve calm_now calm_id calm_on_logs calm_on_metrics calm_Emit : engine.
#[local] Hint Extern 1 (keeps _ _ (on_db _)) => solve [eapply calm_on_db, drifting_query; eauto using gets_node, gets_job, lists_nodes, lists_by_node, lists_jobs, lists_events, lists_notifications] : engine.

Lemma calm_emitJobEvent jobID state cd : calm_handler (emitJobEvent jobID state cd).
Proof. unfold emitJobEvent. keeping. Qed.

(** ** Requests *)

(** From [c] to [c'] the call, if any, took effect once, the others being at work before and after. *)
Definition takes_effect (ocl : option call) c c' : Prop :=
  ∃ before after v1 v2, (db_of c).2 = before ++ after ++ (db_of c').2 ∧
    drives (concat before) (view (db_of c).1) v1 ∧
    match ocl with Some cl => spec_call cl v1 = Some v2 | None => v2 = v1 end ∧
    drives (concat after) v2 (view (db_of c').1).

Definition linear {B} (ocl : option call) (h : ST (Control shared) (rpc B)) : Prop := ∀ c, others_ok (db_of c) →
  let '(r, c') := h c in others_ok (db_of c') ∧ takes_effect (if replied r then ocl else None) c c'.

Lemma takes_effect_before ocl c c1 c' : drifts (db_of c) (db_of c1) → takes_effect ocl c1 c' → takes_effect ocl c c'.
Proof.
  intros (used & E & D) (before & after & v1 & v2 & E1 & D1 & Hcl & D2). exists (used ++ before), after, v1, v2.
  split; [by rewrite E, E1, <-app_assoc|]. rewrite concat_app. split; [by eapply drives_app|]. done.
Qed.

Lemma takes_effect_after ocl c c1 c' : takes_effect ocl c c1 → drifts (db_of c1) (db_of c') → takes_effect ocl c c'.
Proof.
  intros (before & after & v1 & v2 & E1 & D1 & Hcl & D2) (used & E & D). exists before, (after ++ used), v1, v2.
  split; [by rewrite E1, E, <-app_assoc|]. split; [done|]. split; [done|]. rewrite concat_app. by eapply drives_app.
Qed.

Lemma takes_effect_none c c' : drifts (db_of c) (db_of c') → takes_effect None c c'.
Proof.
  intros (used & E & D). exists used, [], (view (db_of c').1), (view (db_of c').1). split; [done|]. split; [done|]. split; [done|constructor].
Qed.

Lemma linear_calm {B} (h : ST (Control shared) (rpc B)) : calm_handler h → linear None h.
Proof.
  intros Hh c Hc. destruct (Hh c Hc) as [Hc' D]. destruct (h c) as [r c']. split; [done|].
  case_step; by apply takes_effect_none.
Qed.

Lemma linear_status {B} ocl cd msg : linear ocl (st_ret (Status cd msg) : ST (Control shared) (rpc B)).
Proof. intros c Hc. split; [done|]. apply takes_effect_none. reflexivity. Qed.

(** The call of the store, then a calm rest that replies. *)
Lemma linear_call {A B} cl cd msg (op : ST S (result A)) (k : A → ST (Control shared) (rpc B)) :
  (∀ s, exec_call cl s = (let '(r, s') := op s in (is_ok r, s'))) → call_ok cl →
  (∀ a, calm_handler (k a)) → (∀ a c, replied (k a c).1 = true) →
  linear (Some cl) (or_status cd msg (on_db (during op)) k).
Proof.
  intros He Hok Hk Hr c Hc. unfold or_status, st_bind, on_db, on_proc, on_fst, on_store, during.
  destruct c as [[w e] m l]. unfold db_of in Hc. simpl in Hc. destruct (interfere_drifts _ Hc) as [[Hi Henv] D].
  cbn [ct_proc ct_metrics ct_logs].
  destruct (op (interfere (w_store w)).1) as [r s'] eqn:E.
  destruct (refines cl _ (is_ok r) s' Hi Hok) as [Hi' Hv]; [by rewrite He, E|].
  set (c0 := mkControl (w, e) m l). set (w1 := mkWorld _ _ _ _ _). set (c1 := mkControl (w1, e) m l).
  assert (takes_effect (if is_ok r then Some cl else None) c0 c1) as Ht.
  { destruct D as (used & Eu & Du). exists used, [], (view (interfere (w_store w)).1), (view s').
    split; [exact Eu|]. split; [exact Du|]. split; [by destruct r|constructor]. }
  destruct r as [a|er]; [|by split].
  destruct (Hk a c1) as [Hc2 D2]; [done|]. pose proof (Hr a c1) as Hrep. destruct (k a c1) as [r2 c2]. simpl in *. rewrite Hrep.
  split; [done|]. by eapply takes_effect_after.
Qed.

(** The same, for the identifier that the handler drew, at the instant of the clock. *)
Definition linear_drawn {B} (cl : string → Time → option call) (h : ST (Control shared) (rpc B)) : Prop :=
  ∀ c, others_ok (db_of c) → ∃ id, let '(r, c') := h c in
    others_ok (db_of c') ∧ takes_effect (if replied r then cl id (clock_next c) else None) c c'.

Lemma linear_none {B} (h : ST (Control shared) (rpc B)) : calm_handler h → linear_drawn (λ _ _, None) h.
Proof. intros Hh c Hc. exists "". by apply (linear_calm h Hh). Qed.

Lemma linear_required {B} cl field msg (h : ST (Control shared) (rpc B)) :
  linear_drawn cl h → linear_drawn cl (required field msg h).
Proof.
  intros Hh. unfold required. case_decide; [|done]. intros c Hc. exists "". split; [done|]. apply takes_effect_none. reflexivity.
Qed.

Lemma linear_now {B} (cl : string → Time → option call) (k : Time → ST (Control shared) (rpc B)) :
  (∀ now id, linear (cl id now) (k now)) → linear_drawn cl (now <- now_ ;; k now).
Proof.
  intros Hk c Hc. exists "". destruct c as [[w e] m l].
  apply (Hk (next_reading w) "" (mkControl (mkWorld (w_store w) (w_now w) (Datatypes.S (w_tick w)) (w_rand w) (w_drawn w), e) m l) Hc).
Qed.

Lemma linear_id_now {B} (cl : string → Time → option call) (k : string → Time → ST (Control shared) (rpc B)) :
  (∀ id now, linear (cl id now) (k id now)) → linear_drawn cl (id <- id_ ;; now <- now_ ;; k id now).
Proof.
  intros Hk c Hc. destruct c as [[w e] m l]. exists (NewID (w_rand w (w_drawn w))).
  apply (Hk (NewID (w_rand w (w_drawn w))) (next_reading w)
    (mkControl (mkWorld (w_store w) (w_now w) (Datatypes.S (w_tick w)) (w_rand w) (Datatypes.S (w_drawn w)), e) m l) Hc).
Qed.

Ltac calmly := cbv beta delta [required or_status] zeta; keeping.

(** [C7] (refinement) Requests are linearizable: let other goroutines make any calls of the store
    between the operations of a handler, whichever statements fail.  What the store holds when the
    handler returns is what those calls made of it, with the request's own call, for the
    identifier drawn and the instant at which it was handled, taking effect in one piece
    somewhere among them if there was a reply, and nothing of the request's if there was none. *)
Theorem requests_linearizable rq c b c' :
  others_ok (db_of c) → request_ok rq → handle rq c = (b, c') →
  others_ok (db_of c') ∧ ∃ id, takes_effect (if b then call_of rq id (clock_next c) else None) c c'.
Proof.
  intros Hc Hok E.
  assert (∀ B (h : ST (Control shared) (rpc B)), linear_drawn (call_of rq) h → ran h c = (b, c') →
    others_ok (db_of c') ∧ ∃ id, takes_effect (if b then call_of rq id (clock_next c) else None) c c') as Hran.
  { intros B h Hh. unfold ran. destruct (Hh c Hc) as (id & Hd). destruct (h c) as [r c1]. intros [= <- <-]. destruct Hd. by eauto. }
  destruct rq; cbn [handle] in E; (eapply Hran; [|exact E]); clear E Hran.
  - apply linear_required, linear_id_now. intros id now.
    apply (linear_call _ _ _ (store_RegisterNode _)); [done|by eapply Hok|intros; apply keeps_ret, _|done].
  - apply linear_required, linear_now. intros now id.
    apply (linear_call _ _ _ (store_Heartbeat _ _)); [done|by eapply (Hok id)|intros []; apply keeps_ret, _|by intros []].
  - apply linear_required, linear_now. intros now id.
    apply (linear_call _ _ _ (store_Heartbeat _ _)); [done|by eapply (Hok id)| |by intros []]. intros []; keeping.
  - apply linear_none. unfold PollAssignments. calmly.
  - apply linear_required, linear_now. intros now id. specialize (Hok id now). unfold call_of in *.
    case_decide as Er; [|destruct (isTerminalState (pbUpdateJobStatusRequest_State req)); [|apply linear_status]].
    + apply (linear_call _ _ _ (store_MarkJobRunning _ _)); [done|by apply Hok|intros; apply keeps_ret, _|done].
    + apply (linear_call _ _ _ (store_FinishJob _ _ _ _ _)); [done|by apply Hok| |].
      * intros u. apply keeps_bind; [apply _|apply calm_emitJobEvent|intros; apply keeps_ret, _].
      * intros u c1. unfold st_bind. by destruct (emitJobEvent _ _ _ c1).
  - apply linear_none. unfold AppendLogs. calmly.
  - apply linear_none. unfold ListNodes. calmly.
  - apply linear_none. unfold ListMetrics. calmly.
  - apply linear_required, linear_id_now. intros id now.
    apply (linear_call _ _ _ (store_CreateJob _)); [done|by eapply Hok|intros; apply keeps_ret, _|done].
  - apply linear_none. unfold ListJobs. calmly.
  - apply linear_none. unfold GetJob. calmly.
  - apply linear_required, linear_now. intros now id c1 Hc1.
    pose proof (linear_call (CallCancelJob (pbCancelJobRequest_JobId req) now) NotFound ""
      (store_CancelJob (pbCancelJobRequest_JobId req) now)
      (λ x, st_ret (Reply (mkPbCancelJobResponse true x))) ltac:(done) ltac:(done) ltac:(intros; apply keeps_ret, _) ltac:(done) c1 Hc1) as Hd.
    unfold or_status, st_bind in *. change (store_CancelJob ?x ?t) with (during (S := S) (store_CancelJob x t)).
    destruct (on_db _ c1) as [[x|e] c2]; exact Hd.
  - apply linear_none. unfold ListEvents. calmly.
  - apply linear_none. unfold ListNotifications. calmly.
Qed.

(** ** A poll reads three times *)

(** A query answers from what the store holds when it is made. *)
Lemma among_query {A} (q : ST S (result A)) Q c r c' :
  answers_with view inv q Q → others_ok (db_of c) → on_db (during q) c = (r, c') →
  others_ok (db_of c') ∧ drifts (db_of c) (db_of c') ∧ ∀ a, r = Ok a → Q (view (db_of c').1) a.
Proof.
  intros Hq Hc E. destruct (calm_on_db (during q) (drifting_query q Q Hq) c Hc) as [Hc' D]. rewrite E in Hc', D.
  split; [done|]. split; [done|]. intros a ->. destruct c as [[w e] m l]. unfold on_db, on_proc, on_fst, on_store, during, db_of in *.
  simpl in *. destruct (interfere_drifts _ Hc) as [[Hi _] _]. destruct (q (interfere (w_store w)).1) as [r0 s'] eqn:Eq.
  injection E as -> <-. simpl in *. destruct (Hq _ _ _ Hi Eq) as (_ & -> & Ha). by apply Ha.
Qed.

Lemma drives_forward cs v v' : drives cs v v' → Forall settled cs → forward v v'.
Proof.
  induction 1 as [v|cl cs v v1 v2 E _ IH|cl cs v v2 _ IH]; intros Hs; [reflexivity|..]; apply Forall_cons in Hs as [Hcl Hs]; [|auto].
  etrans; [by eapply spec_call_forward|auto].
Qed.

Lemma drifts_forward st st' : drifts st st' → Forall (Forall settled) st.2 → forward (view st.1) (view st'.1) ∧ Forall (Forall settled) st'.2.
Proof.
  intros (used & E & D) Hs. rewrite E in Hs. apply Forall_app in Hs as [Hu Hs]. split; [|done].
  eapply drives_forward; [exact D|]. clear -Hu. induction Hu as [|cs used Hcs _ IH]; [constructor|]. simpl. by apply Forall_app.
Qed.

(** (safety) A poll that others come between hands out nothing wrong: whatever calls the other
    goroutines make between its three queries, each assignment it hands out is of a job that,
    when the poll is answered, is still placed on the polling node, with the command, environment
    and devices of the assignment. *)
Theorem poll_among_others req c resp c' :
  others_ok (db_of c) → Forall (Forall settled) (db_of c).2 → PollAssignments req c = (Reply resp, c') →
  ∀ asg, asg ∈ pbPollAssignmentsResponse_Run resp →
    ∃ j, v_jobs (view (db_of c').1) !! pbAssignment_JobId asg = Some j ∧ Job_State j ≠ JobPending ∧
      Job_NodeID j = pbPollAssignmentsRequest_NodeId req ∧ asg = assignmentToProto j.
Proof.
  intros Hc Hs. unfold PollAssignments, required. case_decide as En; [done|]. unfold or_status, st_bind, st_ret. simpl.
  set (nid := pbPollAssignmentsRequest_NodeId req) in *.
  destruct (on_db (during (store_GetNode nid)) c) as [r1 c1] eqn:E1.
  destruct (among_query _ _ _ _ _ (gets_node nid) Hc E1) as (Hc1 & D1 & _). destruct (drifts_forward _ _ D1 Hs) as [_ Hs1].
  destruct r1 as [[n|]|]; [|by intros [= <- <-] asg ?%elem_of_nil|done].
  destruct (on_db (during (store_ListJobsByNodeState nid JobAssigned)) c1) as [r2 c2] eqn:E2.
  destruct (among_query _ _ _ _ _ (lists_by_node nid JobAssigned) Hc1 E2) as (Hc2 & D2 & H2). destruct (drifts_forward _ _ D2 Hs1) as [_ Hs2].
  destruct r2 as [run|]; [|done]. destruct (H2 run eq_refl) as [_ Hrun].
  destruct (on_db (during (store_ListJobsByNodeState nid JobCancelling)) c2) as [r3 c3] eqn:E3.
  destruct (among_query _ _ _ _ _ (lists_by_node nid JobCancelling) Hc2 E3) as (Hc3 & D3 & _).
  destruct (drifts_forward _ _ D3 Hs2) as [F3 _]. destruct r3 as [can|]; [|done]. intros [= <- <-] asg Hin. simpl in Hin.
  apply list_elem_of_fmap in Hin as (j & -> & Hj). apply Hrun in Hj as (Hj & Enid & Hst).
  destruct (fw_job _ _ F3 (Job_ID j) j Hj) as (j' & Hj' & Hst' & En' & Ea); [by rewrite Hst|].
  exists j'. split; [exact Hj'|]. split; [done|]. split; [congruence|done].
Qed.
End interleaving.

(** ** An example: a report of the end of a job, with a cancellation coming first and a submission after *)

Definition ex_others : list (list call) :=
  [[CallCancelJob "j1" (timeUnix 1990)]; [CallCreateJob (StoreExample.ex_job "j9" 1 1009); CallCreateJob (StoreExample.ex_job "j9" 1 1009)]].

Definition ex_shared : Control (DB * list (list call)) :=
  mkControl (mkWorld (ex_assigned, ex_others) (λ i, timeUnix (2000 + Z.of_nat i)) 0 (λ i, [Z.of_nat i; 1; 2; 3; 4; 5; 6; 7]) 0,
             NewEngine (Server_Notify DefaultServer)) ∅ (mkFS ∅ []).

Definition ex_report : request := RqUpdateJobStatus (mkPbUpdateJobStatusRequest "j1" JobCompleted 0 "").

Lemma ex_shared_ok : others_ok (db_of ex_shared).
Proof. split; [exact ex_assigned_ok|]. by_decide. Qed.

Lemma ex_report_replied : (handle ex_report ex_shared).1 = true.
Proof. vm_compute. reflexivity. Qed.

Lemma requests_linearizable_witness :
  ∃ c', handle ex_report ex_shared = (true, c') ∧
    takes_effect (Some (CallFinishJob "j1" JobCompleted 0 "" (timeUnix 2000))) ex_shared c'.
Proof.
  exists (handle ex_report ex_shared).2.
  assert (handle ex_report ex_shared = (true, (handle ex_report ex_shared).2)) as E.
  { rewrite <-ex_report_replied. apply surjective_pairing. }
  split; [exact E|].
  assert (request_ok ex_report) as Hok by (intros id now cl [= <-]; exact I).
  destruct (requests_linearizable (S := DB) (H := sqlite_laws) ex_report ex_shared true _ ex_shared_ok Hok E) as (_ & id & Ht).
  exact Ht.
Defined.

Definition ex_polling : rpc pbPollAssignmentsResponse * Control (DB * list (list call)) :=
  PollAssignments (mkPbPollAssignmentsRequest "n1") ex_shared.

Lemma poll_among_others_witness :
  ∃ resp c', ex_polling = (Reply resp, c') ∧
    ∀ asg, asg ∈ pbPollAssignmentsResponse_Run resp →
      ∃ j, v_jobs (view (db_of c').1) !! pbAssignment_JobId asg = Some j ∧ Job_State j ≠ JobPending ∧
        Job_NodeID j = "n1" ∧ asg = assignmentToProto j.
Proof.
  assert (replied ex_polling.1 = true) as Hr by (vm_compute; reflexivity).
  destruct ex_polling as [[resp|] c'] eqn:E; [|discriminate Hr]. exists resp, c'. split; [reflexivity|].
  apply (poll_among_others (S := DB) (H := sqlite_laws) (mkPbPollAssignmentsRequest "n1") ex_shared resp c' ex_shared_ok); [|exact E].
  repeat constructor.
Defined.
