(* ===== verification/ClusterLiveness.v ===== *)
(** * The cluster goes on: what a node is told to run is started

    What the agent does with an answer to its poll, in any interleaving with its other goroutines and
    with the rest of the cluster. *)
From S2P Require Import Prelude GoBase GoStrings Event Proto Store StoreSpec Plan SQLite SQLiteProofs StoreExample SQLiteRefines Scheduler SchedulerProofs World Convert Config Notify JobLog Agent AgentTheorems Server ServerTheorems Cluster ClusterTheorems.
Local Open Scope Z_scope.

(** ** The executor *)

(** The end of a job has been reported, as far as the executor goes. *)
Definition reported_end (id : string) (x : executor) : Prop :=
  ∃ r, r ∈ x_reports x ∧ rp_job r = id ∧ is_final (rp_state r).

(** A run that is over has reported it. *)
Definition ends_reported (x : executor) : Prop :=
  ∀ g rj, x_runs x !! g = Some rj → rj_phase rj = Failed ∨ rj_phase rj = Ended → reported_end (job_of rj) x.

(** A job has a live run, or its end has been reported. *)
Definition taken_up (id : string) (x : executor) : Prop := is_Some (x_running x !! id) ∨ reported_end id x.

Lemma reports_kill p x : x_reports (killGroup p x) = x_reports x.
Proof. unfold killGroup. by case_step. Qed.
Lemma runs_kill p x : x_runs (killGroup p x) = x_runs x.
Proof. unfold killGroup. by case_step. Qed.
Lemma running_kill p x : x_running (killGroup p x) = x_running x.
Proof. unfold killGroup. by case_step. Qed.

(** Reports are only added. *)
Lemma change_reports x x' : change x x' → ∃ rs, x_reports x' = x_reports x ++ rs.
Proof.
  destruct 1; unfold lateWatch; rewrite ?reports_kill; simpl; try (exists []; by rewrite app_nil_r); [|by eexists].
  unfold start. destruct (x_running x !! _); exists []; by rewrite app_nil_r.
Qed.

Lemma reported_end_change x x' id : change x x' → reported_end id x → reported_end id x'.
Proof.
  intros [rs E]%change_reports (r & Hr & ? & ?). exists r. split; [|done]. rewrite E. apply elem_of_app. by left.
Qed.

(** A run updated without becoming over. *)
Lemma ends_reported_set x x' g rj' :
  ends_reported x → (∀ id, reported_end id x → reported_end id x') → x_runs x' = <[g := rj']> (x_runs x) →
  (rj_phase rj' = Failed ∨ rj_phase rj' = Ended → reported_end (job_of rj') x') → ends_reported x'.
Proof.
  intros H Hm Er Hg g1 r1. rewrite Er. intros [[<- <-]|[_ H1]]%lookup_insert_Some; [done|]. intros Hp. by apply Hm, (H g1).
Qed.

Lemma quiet_over rj rj' : quiet rj rj' → rj_phase rj' = Failed ∨ rj_phase rj' = Ended → rj_phase rj = Failed ∨ rj_phase rj = Ended.
Proof. intros [_ [->|Hm] _ _]; [done|]. destruct Hm; by intros [?|?]. Qed.

Lemma ends_reported_change x x' : ends_reported x → change x x' → ends_reported x'.
Proof.
  intros H Hc. pose proof (reported_end_change x x') as Hm. pose proof (λ id, Hm id Hc) as Hm'. clear Hm.
  destruct Hc as [|a Ha|g rj rj' Hg Hq _|g rj rj' Hg Hq|g rj rj' s c r Hg Hl|g rj Hg _|i p Hi|i p Hi].
  - done.
  - unfold start in *. rewrite Ha in *. eapply (ends_reported_set x _ (x_next x)); [done..|]. by intros [?|?].
  - apply (ends_reported_set x _ g rj'); [done..|]. intros Hp%(quiet_over _ _ Hq). rewrite (q_job _ _ Hq). by apply (H g).
  - apply (ends_reported_set x _ g rj'); [done..|by rewrite runs_kill|]. intros Hp%(quiet_over _ _ Hq).
    rewrite (q_job _ _ Hq). by apply Hm', (H g).
  - apply (ends_reported_set x _ g rj'); [done..|]. intros Hp. exists (mkReport (job_of rj) s c r). simpl.
    split; [apply elem_of_app; right; by left|]. split; [symmetry; by eapply loud_job|].
    destruct Hl; simpl in Hp; [right; by left|by destruct Hp|done].
  - intros g1 r1. simpl. intros [_ H1]%lookup_delete_Some. intros Hp. by apply Hm', (H g1).
  - intros g1 r1. unfold lateWatch. rewrite runs_kill. intros H1 Hp. by apply Hm', (H g1).
  - intros g1 r1 H1 Hp. by apply Hm', (H g1).
Qed.

(** A job that has been taken up stays so. *)
Lemma taken_up_change x x' id :
  exec_ok x → ends_reported x → change x x' → taken_up id x → taken_up id x'.
Proof.
  intros Hx He Hc [Hr|Hr]; [|right; by eapply reported_end_change].
  pose proof (reported_end_change x x' id Hc) as Hm.
  destruct Hc as [|a Ha|g rj rj' Hg Hq _|g rj rj' Hg Hq|g rj rj' s c r Hg Hl|g rj Hg Hp|i p Hi|i p Hi]; try (left; exact Hr).
  - left. unfold start. rewrite Ha. simpl. apply lookup_insert_is_Some'. by right.
  - left. by rewrite running_kill.
  - destruct (decide (job_of rj = id)) as [<-|E]; [right; by apply Hm, (He g)|].
    left. simpl. rewrite lookup_delete_ne; done.
  - left. unfold lateWatch. by rewrite running_kill.
Qed.

Lemma taken_up_start x a : taken_up (pbAssignment_JobId a) (start a x).
Proof.
  left. unfold start. destruct (x_running x !! pbAssignment_JobId a) eqn:E; [by eexists|]. simpl. rewrite lookup_insert_eq. by eexists.
Qed.

(** ** The poll loop *)

Section liveness.
Context {S : Type} `{StoreLaws S, UnicodeCase}.

Implicit Types (k : cluster S).

(** The answer being worked through holds starts and cancellations only. *)
Record agent_works (a : agent) : Prop := {
  aw_todo ev : ev ∈ ag_todo a → ofPollLoop ev = true;
  aw_exec : ends_reported (ag_exec a)
}.

(** A job is to be started, or has been taken up. *)
Definition underway (id : string) (a : agent) : Prop :=
  (∃ asg, EvStart asg ∈ ag_todo a ∧ pbAssignment_JobId asg = id) ∨ taken_up id (ag_exec a).

(** What a turn of an agent does to the answer it works through and to its executor. *)
Inductive worked (a a' : agent) : Prop :=
| wk_same : ag_exec a' = ag_exec a → ag_todo a' = ag_todo a → worked a a'
| wk_polled resp : ag_exec a' = ag_exec a → ag_todo a = [] → ag_todo a' = workOf resp → worked a a'
| wk_work ev : step (ag_exec a) ev = Some (ag_exec a') → ag_todo a = ev :: ag_todo a' → worked a a'
| wk_exec ev : step (ag_exec a) ev = Some (ag_exec a') → ag_todo a' = ag_todo a → worked a a'.

Lemma agentStep_worked ev a c a' c' :
  agentStep (S := S) ev a c = (Some a', c') → ev ≠ AgRestart → worked a a'.
Proof.
  destruct ev as [snap|l|snap l|l| |ev l|logs g chunk l| |n]; simpl; unfold st_ret; try done.
  - destruct (ag_main a); try done. intros [= <- _] _. by apply wk_same.
  - unfold attemptRegister. destruct (ag_main a) as [|req b|]; try done. unfold st_bind.
    destruct (over l _ c) as [r c1]. intros [= <- _] _. destruct r; by apply wk_same.
  - unfold reportMetrics. destruct (ag_main a) as [|req b|]; try done. unfold st_bind.
    destruct (over l _ c) as [r c1]. intros [= <- _] _. destruct r; [case_step|]; by apply wk_same.
  - unfold pollTick. destruct (ag_polling a); [|done]. simpl. case_bool_decide as Et; [done|]. simpl.
    case_decide; [intros [= <- _] _; by apply wk_same|]. unfold st_bind.
    destruct (over l _ c) as [r c1]. intros [= <- _] _. destruct r as [resp|]; [by eapply (wk_polled _ _ resp)|by apply wk_same].
  - destruct (ag_todo a) as [|ev todo] eqn:Et; [done|]. destruct (step (ag_exec a) ev) as [x|] eqn:E; [|done]. simpl.
    intros [= <- _] _. by apply (wk_work _ _ ev).
  - destruct (ofPollLoop ev); [done|]. unfold execStep. destruct (step (ag_exec a) ev) as [x|] eqn:E; [|done].
    unfold st_bind, st_ret. destruct (st_for _ _ c) as [u c1]. intros [= <- _] _. by apply (wk_exec _ _ ev).
  - intros [-> _]%pumpChunk_call _. by apply wk_same.
  - destruct (ag_orphans a !! n); [|done]. intros [= <- _] _. by apply wk_same.
Qed.

Lemma workOf_pollLoop resp ev : ev ∈ workOf resp → ofPollLoop ev = true.
Proof. unfold workOf. rewrite elem_of_app, !list_elem_of_fmap. intros [(? & -> & _)|(? & -> & _)]; done. Qed.

Lemma worked_works a a' : worked a a' → agent_works a → agent_works a'.
Proof.
  intros Hw [Ht He]. destruct Hw as [Ex Et|resp Ex E0 Et|ev Es Et|ev Es Et]; split; try by rewrite Ex.
  - intros ev. rewrite Et. apply Ht.
  - intros ev. rewrite Et. apply workOf_pollLoop.
  - intros ev' Hin. apply Ht. rewrite Et. by right.
  - exact (ends_reported_change _ _ He (step_change _ _ _ Es)).
  - intros ev' Hin. apply Ht. by rewrite <-Et.
  - exact (ends_reported_change _ _ He (step_change _ _ _ Es)).
Qed.

Lemma worked_underway a a' id :
  exec_ok (ag_exec a) → agent_works a → worked a a' → underway id a → underway id a'.
Proof.
  intros Hx [Ht He] Hw [(asg & Hin & Hid)|Hu]; destruct Hw as [Ex Et|resp Ex E0 Et|ev Es Et|ev Es Et].
  - left. exists asg. by rewrite Et.
  - rewrite E0 in Hin. by apply elem_of_nil in Hin.
  - rewrite Et in Hin. apply elem_of_cons in Hin as [<-|Hin]; [|left; by exists asg].
    right. simpl in Es. injection Es as <-. rewrite <-Hid. apply taken_up_start.
  - left. exists asg. by rewrite Et.
  - right. by rewrite Ex.
  - right. by rewrite Ex.
  - right. exact (taken_up_change _ _ _ Hx He (step_change _ _ _ Es) Hu).
  - right. exact (taken_up_change _ _ _ Hx He (step_change _ _ _ Es) Hu).
Qed.

(** ** In the cluster *)

Lemma fresh_works a : ag_todo a = [] → ag_exec a = newExecutor → agent_works a.
Proof. intros Ht Hx. split; rewrite ?Ht, ?Hx; [by intros ev ?%elem_of_nil|]. intros g rj. simpl. by rewrite lookup_empty. Qed.

Lemma agentStep_works ev a c a' c' : agentStep (S := S) ev a c = (Some a', c') → agent_works a → agent_works a'.
Proof.
  intros E Ha. assert (ev = AgRestart ∨ ev ≠ AgRestart) as [->|Hne] by (destruct ev; by (left + right)).
  - injection E as <- <-. by apply fresh_works.
  - exact (worked_works _ _ (agentStep_worked _ _ _ _ _ E Hne) Ha).
Qed.

Lemma reachable_works k : reachable k → Forall agent_works (cl_agents k).
Proof.
  induction 1 as [k _ _ _ _ _ _ Hf _|k ev k' _ IH _ E].
  - eapply Forall_impl; [exact Hf|]. intros a [-> _]. by apply fresh_works.
  - apply Forall_lookup. intros i a' Ha'. destruct (cl_agents k !! i) as [a|] eqn:Ea.
    + rewrite Forall_lookup in IH. destruct (clusterStep_agent ev k k' i a E Ea) as [[Ha _]|(e & a1 & c1 & _ & Es & Ha & _)].
      * simplify_eq. by apply (IH i).
      * simplify_eq. by eapply agentStep_works; [|apply (IH i)].
    + exfalso. apply lookup_ge_None in Ea. apply lookup_lt_Some in Ha'.
      pose proof (clusterStep_length _ _ _ E). lia.
Qed.

Lemma underway_run evs k k' i a id :
  reachable k → Forall clusterEvent_ok evs → (∀ ev, ev ∈ evs → ev ≠ OfAgent i AgRestart) →
  clusterRun evs k = Some k' → cl_agents k !! i = Some a → underway id a →
  ∃ a', cl_agents k' !! i = Some a' ∧ underway id a'.
Proof.
  intros Hk Hok Hev. revert k'. induction evs as [|ev evs IH] using rev_ind; intros k'.
  - intros [= <-] Ha Hu. by exists a.
  - apply Forall_app in Hok as [Hok Hoke]. unfold clusterRun in *. rewrite foldl_snoc. intros (k1 & E1 & E)%bind_Some Ha Hu.
    destruct (IH Hok ltac:(intros e He; apply Hev, elem_of_app; by left) k1 E1 Ha Hu) as (a1 & Ha1 & Hu1).
    pose proof (reachable_run evs k k1 Hk Hok E1) as Hk1.
    destruct (clusterStep_agent ev k1 k' i a1 E Ha1) as [[Ha' _]|(e & a' & c' & -> & Es & Ha' & _)]; [by exists a1|].
    exists a'. split; [done|].
    pose proof (reachable_agent k1 i a1 Hk1 Ha1) as Hag. pose proof (reachable_works k1 Hk1) as Hw. rewrite Forall_lookup in Hw.
    eapply (worked_underway a1); [apply Hag|by apply (Hw i)|eapply agentStep_worked; [exact Es|]|done].
    intros ->. apply (Hev (OfAgent i AgRestart)); [apply elem_of_app; right; by left|done].
Qed.

(** The answer to a poll becomes the work of the loop. *)
Lemma poll_answered k i a resp c1 k1 :
  cl_agents k !! i = Some a → ag_nref a ≠ "" →
  PollAssignments (mkPbPollAssignmentsRequest (ag_nref a)) (cl_control k) = (Reply resp, c1) →
  clusterStep (OfAgent i (AgPoll Delivered)) k = Some k1 →
  cl_agents k1 !! i = Some (with_todo (workOf resp) a).
Proof.
  intros Ha Hn E. simpl. rewrite Ha. simpl. unfold pollTick. destruct (ag_polling a); [|done]. simpl.
  destruct (bool_decide _); [done|]. rewrite decide_False by done. unfold st_bind, over. rewrite E. intros [= <-]. simpl.
  apply list_lookup_insert_eq. by eapply lookup_lt_Some.
Qed.

(** An answered poll is worked through. *)
Lemma assigned_start k i a resp c1 k1 evs k' a' id j :
  reachable k → cl_agents k !! i = Some a →
  PollAssignments (mkPbPollAssignmentsRequest (ag_nref a)) (cl_control k) = (Reply resp, c1) →
  clusterStep (OfAgent i (AgPoll Delivered)) k = Some k1 →
  Forall clusterEvent_ok evs → (∀ ev, ev ∈ evs → ev ≠ OfAgent i AgRestart) →
  clusterRun evs k1 = Some k' → cl_agents k' !! i = Some a' →
  v_jobs (cluster_view k) !! id = Some j → Job_NodeID j = ag_nref a → Job_State j = JobAssigned →
  (ag_todo a' ≠ [] → is_Some (clusterStep (OfAgent i AgWork) k')) ∧
  (ag_todo a' = [] → taken_up id (ag_exec a')).
Proof.
  intros Hk Ha Ep Es Hok Hev Er Ha' Hj Hnode Hst. destruct (reachable_ok k Hk) as (names & [Hi _ _ _ _ _] & _).
  destruct (PollAssignments_lists _ _ _ _ Hi Ep) as (Hne & _ & Hr). simpl in Hne, Hr.
  assert (reachable k1) as Hk1 by exact (reach_step k (OfAgent i (AgPoll Delivered)) k1 Hk I Es).
  pose proof (poll_answered k i a resp c1 k1 Ha Hne Ep Es) as Ha1.
  assert (underway id (with_todo (workOf resp) a)) as Hu.
  { destruct (ao_nref _ _ (reachable_agent k i a Hk Ha)) as [?|(n & Hn & _)]; [done|]. unfold cluster_view in Hn, Hj.
    rewrite Hn in Hr. destruct Hr as (run & can & [_ Hrun] & _ & ->). left. exists (assignmentToProto j).
    pose proof (view_job_id _ _ _ Hi Hj) as Hid. split; [|done]. simpl. unfold workOf. apply elem_of_app. left.
    apply list_elem_of_fmap. eexists. split; [done|]. simpl. apply list_elem_of_fmap. exists j. split; [done|].
    apply Hrun. by rewrite Hid. }
  destruct (underway_run evs k1 k' i _ id Hk1 Hok Hev Er Ha1 Hu) as (a2 & Ha2 & Hu2). simplify_eq.
  pose proof (reachable_works k' (reachable_run evs k1 k' Hk1 Hok Er)) as Hw. rewrite Forall_lookup in Hw.
  destruct (Hw i a' Ha') as [Ht _]. split.
  - intros Hne'. simpl. rewrite Ha'. simpl. unfold st_ret. destruct (ag_todo a') as [|ev todo]; [done|].
    specialize (Ht ev ltac:(by left)). destruct ev; try done; by eexists.
  - intros Hnil. destruct Hu2 as [(asg & Hin & _)|Hu2]; [|done]. rewrite Hnil in Hin. by apply elem_of_nil in Hin.
Qed.

(** (liveness) What a node is told to run is started: in every state a cluster reaches, when a
    delivered poll of an agent is answered, then whatever its runs, the other agents, the clients, the
    scheduler, the reaper and the network do meanwhile (short of the end of this agent's process), the
    poll loop can go on until the answer has been worked through, and then every job that was
    ASSIGNED to the node has a live run or its executor has reported its end. *)
Theorem assigned_jobs_start k i a resp c1 k1 evs k' a' id j :
  reachable k → cl_agents k !! i = Some a →
  PollAssignments (mkPbPollAssignmentsRequest (ag_nref a)) (cl_control k) = (Reply resp, c1) →
  clusterStep (OfAgent i (AgPoll Delivered)) k = Some k1 →
  Forall clusterEvent_ok evs → (∀ ev, ev ∈ evs → ev ≠ OfAgent i AgRestart) →
  clusterRun evs k1 = Some k' → cl_agents k' !! i = Some a' →
  v_jobs (cluster_view k) !! id = Some j → Job_NodeID j = ag_nref a → Job_State j = JobAssigned →
  (ag_todo a' ≠ [] → is_Some (clusterStep (OfAgent i AgWork) k')) ∧
  (ag_todo a' = [] → taken_up id (ag_exec a')).
Proof. apply assigned_start. Qed.
End liveness.

(** ** An example: the first agent of the example cluster polls and works *)

#[local] Existing Instance ascii_case.

Definition ex_polled (start : option (cluster DB)) : option (cluster DB * agent * pbPollAssignmentsResponse * Control DB * cluster DB * cluster DB * agent * Job) :=
  k ← start; a ← cl_agents k !! 0%nat;
  match PollAssignments (mkPbPollAssignmentsRequest (ag_nref a)) (cl_control k) with
  | (Reply resp, c1) =>
      k1 ← clusterStep (OfAgent 0 (AgPoll Delivered)) k; k' ← clusterRun [OfAgent 0 AgWork] k1; a' ← cl_agents k' !! 0%nat;
      j ← v_jobs (cluster_view k) !! ex_job; Some (k, a, resp, c1, k1, k', a', j)
  | _ => None
  end.

Lemma ex_polled_some start k a resp c1 k1 k' a' j :
  ex_polled start = Some (k, a, resp, c1, k1, k', a', j) →
  start = Some k ∧ cl_agents k !! 0%nat = Some a ∧
  PollAssignments (mkPbPollAssignmentsRequest (ag_nref a)) (cl_control k) = (Reply resp, c1) ∧
  clusterStep (OfAgent 0 (AgPoll Delivered)) k = Some k1 ∧ clusterRun [OfAgent 0 AgWork] k1 = Some k' ∧
  cl_agents k' !! 0%nat = Some a' ∧ v_jobs (cluster_view k) !! ex_job = Some j.
Proof.
  unfold ex_polled. destruct start as [k0|]; [|done]. intros E. cbn [mbind option_bind] in E. apply bind_Some in E as (a0 & Ea & E).
  destruct (PollAssignments _ _) as [[resp0|] c0] eqn:Ep; [|done].
  apply bind_Some in E as (k2 & Ek & E). apply bind_Some in E as (k3 & Er & E). apply bind_Some in E as (a3 & Ea3 & E).
  apply bind_Some in E as (j0 & Ej & E). injection E as <- <- <- <- <- <- <- <-. done.
Qed.

Definition ex_before : option (cluster DB) := clusterRun (take 13 ex_placed) ex_cluster.

Lemma ex_polled_1 :
  (λ '(_, a, _, _, _, _, a', j), (bool_decide (Job_NodeID j = ag_nref a), Job_State j, ag_todo a')) <$> ex_polled ex_before =
  Some (true, JobAssigned, []).
Proof. vm_compute. reflexivity. Qed.

Lemma assigned_jobs_start_witness :
  ∃ k a resp c1 k1 k' a' j, ex_polled ex_before = Some (k, a, resp, c1, k1, k', a', j) ∧
    ag_todo a' = [] ∧ taken_up ex_job (ag_exec a').
Proof.
  destruct (ex_polled ex_before) as [[[[[[[[k a] resp] c1] k1] k'] a'] j]|] eqn:E; [|vm_compute in E; discriminate].
  assert (Job_NodeID j = ag_nref a ∧ Job_State j = JobAssigned ∧ ag_todo a' = []) as (Hn & Hs & Ht).
  { pose proof (ex_fmap _ _ _ _ E ex_polled_1) as X. apply pair_equal_spec in X as [X Ht]. apply pair_equal_spec in X as [Hn Hs].
    apply bool_decide_eq_true in Hn. exact (conj Hn (conj Hs Ht)). }
  destruct (ex_polled_some _ _ _ _ _ _ _ _ _ E) as (E0 & Ea & Ep & Ek & Er & Ea' & Ej).
  exists k, a, resp, c1, k1, k', a', j. split; [reflexivity|]. split; [exact Ht|].
  refine (proj2 (assigned_jobs_start (S := DB) (H := sqlite_laws) k 0 a resp c1 k1 [OfAgent 0 AgWork] k' a' ex_job j
    (ex_reachable _ k (Forall_take _ 13 _ ex_placed_ok) E0) Ea Ep Ek _ _ Er Ea' Ej Hn Hs) Ht).
  - repeat constructor.
  - intros ev [->|[]%elem_of_nil]%elem_of_cons. discriminate.
Defined.
