(* ===== verification/ClusterProgress.v ===== *)
(** * From the queue to a run

    The pass of the scheduler and the poll loop of an agent put together: in a cluster whose store
    is up, a job that waits in the queue is started, unless there is no room for it. *)
From S2P Require Import Prelude GoBase GoStrings GoFloat Event Proto Store StoreSpec Plan PlanProofs SQLite SQLiteProofs StoreExample SQLiteRefines.
From S2P Require Import Scheduler SchedulerProofs SchedulerTheorems SchedulerProgress World Convert Config Notify JobLog Transport Agent AgentTheorems Server ServerTheorems Reap ServerClock Cluster ClusterTheorems ClusterLiveness.
Local Open Scope Z_scope.

Section progress.
Context {S : Type} `{Steady S, UnicodeCase}.
Implicit Types (c : Control S) (k : cluster S).

(** ** A pass that nobody comes between *)

(** Turns of the scheduler alone are steps of its pass. *)
Lemma scheduler_turns now n k : ∃ c,
  clusterRun (replicate n (OfScheduler now)) k =
    Some (with_pass (passSteps (cl_scheduler k) now n (cl_pass k) (db_of (cl_control k))).1 (with_control c k)) ∧
  db_of c = (passSteps (cl_scheduler k) now n (cl_pass k) (db_of (cl_control k))).2.
Proof.
  revert k. induction n as [|n IH]; intros k; [by exists (cl_control k); destruct k|].
  rewrite replicate_S, clusterRun_cons. simpl clusterStep. cbn [passSteps]. unfold st_bind.
  destruct (on_db_eq (passStep (cl_scheduler k) now (cl_pass k)) (cl_control k)) as (c1 & -> & E1 & _).
  destruct (passStep _ _ _ _) as [ph s1]. simpl in *. destruct (IH (with_pass ph (with_control c1 k))) as (c & -> & E).
  simpl in E. rewrite E1 in E. exists c. simpl. by rewrite E1.
Qed.

(** They come to the end of the pass. *)
Lemma scheduler_pass now k : cl_pass k = Idle → ∃ n c,
  clusterRun (replicate n (OfScheduler now)) k = Some (with_control c k) ∧ db_of c = (pass (cl_scheduler k) now (db_of (cl_control k))).2.
Proof.
  intros Hi. destruct (passSteps_pass (cl_scheduler k) now (db_of (cl_control k))) as [n En].
  destruct (scheduler_turns now n k) as (c & Er & Ec). rewrite Hi, En in *. exists n, c. split; [|done].
  rewrite Er. simpl. destruct k. simpl in *. by subst.
Qed.

(** What becomes of a job of the queue: it is given to an UP node that the store knows, or stays,
    as the plan could not place it. *)
Lemma pass_decides sched now (s : S) x j :
  inv s → view_ok (view s) → steady s → v_jobs (view s) !! x = Some j → Job_State j = JobPending →
  let s' := (pass sched now s).2 in
  steady s' ∧
  (v_jobs (view s') !! x = Some j ∨
   ∃ n ds, v_nodes (view s') !! Node_ID n = Some n ∧ Node_State n = StateUp ∧
     v_jobs (view s') !! x = Some (job_assigned (Node_ID n) (Node_Name n) ds j)).
Proof.
  intros Hi Hv Hs Hj Hp s'. assert (pass sched now s = (tt, s')) as E by (unfold s'; by destruct (pass sched now s) as [[] ?]).
  destruct (pass_steady sched now s s' Hi Hv Hs E) as (nodes & act & pend & Hn & Ha & Hpe & _ & Hs' & Hnodes & Hother & Hown).
  split; [done|]. destruct (decide (x ∈ Decision_JobID <$> Plan now nodes act pend (Scheduler_policy sched))) as [Hin|Hout].
  - right. apply list_elem_of_fmap in Hin as (d & -> & Hd).
    destruct (plan_placement now nodes act pend (Scheduler_policy sched) d) as (j' & n & _ & Hin & Hup & _ & Enid & Enn & _);
      [apply Hn|by eapply listed_nodes_wf|by eapply listed_wf|by eapply listed_wf|done|].
    exists n, (Decision_Devices d). rewrite Hnodes. split; [by apply Hn|]. split; [done|]. by rewrite Hown, Hj, Enid, Enn.
  - left. by rewrite Hother.
Qed.

(** ** A poll of a store that is up is answered *)

Lemma poll_answers id c :
  inv (db_of c) → steady (db_of c) → id ≠ "" → ∃ resp c', PollAssignments (mkPbPollAssignmentsRequest id) c = (Reply resp, c').
Proof.
  intros Hi Hs Hid. unfold PollAssignments, required. cbn [pbPollAssignmentsRequest_NodeId]. rewrite decide_False by done.
  unfold or_status, st_bind, st_ret.
  destruct (steady_get (db_of c) id Hi Hs) as (o & s1 & E1 & Hs1). destruct (gets_node id _ _ _ Hi E1) as (Hi1 & _ & _).
  destruct (on_db_eq (store_GetNode id) c) as (c1 & -> & Ec1 & _). rewrite E1 in *. simpl in *. destruct o as [n|]; [|by do 2 eexists].
  rewrite <-Ec1 in Hi1, Hs1. destruct (steady_by_node (db_of c1) id JobAssigned Hi1 Hs1) as (run & s2 & E2 & Hs2).
  destruct (lists_by_node id JobAssigned _ _ _ Hi1 E2) as (Hi2 & _ & _).
  destruct (on_db_eq (store_ListJobsByNodeState id JobAssigned) c1) as (c2 & -> & Ec2 & _). rewrite E2 in *. simpl in *.
  rewrite <-Ec2 in Hi2, Hs2. destruct (steady_by_node (db_of c2) id JobCancelling Hi2 Hs2) as (can & s3 & E3 & _).
  destruct (on_db_eq (store_ListJobsByNodeState id JobCancelling) c2) as (c3 & -> & _). rewrite E3. simpl. by do 2 eexists.
Qed.

(** The poll loop, when it has nothing to do, polls. *)
Lemma poll_happens k i a :
  reachable k → steady (db_of (cl_control k)) → cl_agents k !! i = Some a → ag_polling a = true → ag_todo a = [] → ag_nref a ≠ "" →
  ∃ resp c1 k1, PollAssignments (mkPbPollAssignmentsRequest (ag_nref a)) (cl_control k) = (Reply resp, c1) ∧
    clusterStep (OfAgent i (AgPoll Delivered)) k = Some k1.
Proof.
  intros Hk Hs Ha Hp Ht Hn. destruct (reachable_ok k Hk) as (names & Ho & _).
  destruct (poll_answers (ag_nref a) (cl_control k) (co_inv _ _ Ho) Hs Hn) as (resp & c1 & E). exists resp, c1.
  simpl. rewrite Ha. simpl. unfold pollTick. rewrite Hp, Ht. simpl. rewrite decide_False by done. unfold st_bind, over. rewrite E.
  by eexists.
Qed.

(** [C11] (liveness) A job of the queue is started: in every state a cluster reaches in which no pass is
    under way and the store is up, when the scheduler makes a pass that nobody comes between, each
    job that was PENDING is afterwards ASSIGNED to a node that is UP, or is still PENDING and no UP
    node has room for it beside what it runs then, or backfill holds it back behind a blocked job.
    If it is assigned, the agent of that node, once its poll loop has nothing left to do, can poll
    and is answered; and whatever then happens in the cluster, short of the end of the agent's
    process, the loop can go on until the answer is worked through, and when it is, the job has
    been taken up: it has a live run or its end has been reported. *)
Theorem queued_job_starts now k x j :
  reachable k → cl_pass k = Idle → steady (db_of (cl_control k)) →
  v_jobs (cluster_view k) !! x = Some j → Job_State j = JobPending →
  ∃ n k1, clusterRun (replicate n (OfScheduler now)) k = Some k1 ∧ cl_pass k1 = Idle ∧
  ((v_jobs (cluster_view k1) !! x = Some j ∧
    ((∀ nid m, v_nodes (cluster_view k1) !! nid = Some m → Node_State m = StateUp → ¬ room m (jobs_on nid (cluster_view k1)) j) ∨
     held_back (cl_scheduler k) now (cluster_view k) j)) ∨
   ∃ m ds, v_nodes (cluster_view k1) !! Node_ID m = Some m ∧ Node_State m = StateUp ∧
    v_jobs (cluster_view k1) !! x = Some (job_assigned (Node_ID m) (Node_Name m) ds j) ∧
    ∀ i a, cl_agents k1 !! i = Some a → ag_nref a = Node_ID m → ag_nref a ≠ "" → ag_polling a = true → ag_todo a = [] →
      ∃ k2, clusterStep (OfAgent i (AgPoll Delivered)) k1 = Some k2 ∧
      ∀ evs k3 a3, Forall clusterEvent_ok evs → (∀ ev, ev ∈ evs → ev ≠ OfAgent i AgRestart) →
        clusterRun evs k2 = Some k3 → cl_agents k3 !! i = Some a3 →
        (ag_todo a3 ≠ [] → is_Some (clusterStep (OfAgent i AgWork) k3)) ∧
        (ag_todo a3 = [] → taken_up x (ag_exec a3))).
Proof.
  intros Hk Hidle Hs Hj Hp. destruct (reachable_ok k Hk) as (names & Ho & _).
  destruct (scheduler_pass now k Hidle) as (n & c & Er & Ec). exists n, (with_control c k). split; [exact Er|]. split; [exact Hidle|].
  assert (reachable (with_control c k)) as Hk1.
  { apply (reachable_run _ k _ Hk) in Er; [done|]. by apply Forall_replicate. }
  unfold cluster_view in *. destruct (pass_decides (cl_scheduler k) now _ x j (co_inv _ _ Ho) (co_view _ _ Ho) Hs Hj Hp) as [Hs' Hd].
  change (db_of (cl_control (with_control c k))) with (db_of c). rewrite <-Ec in Hs', Hd.
  destruct Hd as [Hx|(m & ds & Hm & Hup & Hx)].
  - left. split; [exact Hx|].
    destruct (left_in_queue (cl_scheduler k) now _ (db_of c) x j (co_inv _ _ Ho) (co_view _ _ Ho) Hs) as [Hno|Hb];
      [rewrite Ec; by destruct (pass _ _ _) as [[] ?]|done|done|by left|by right].
  - right. exists m, ds. split; [exact Hm|]. split; [exact Hup|]. split; [exact Hx|]. intros i a Ha Enid Hne Hpol Htodo.
    destruct (poll_happens _ i a Hk1 Hs' Ha Hpol Htodo Hne) as (resp & c1 & k2 & Ep & E2). exists k2. split; [exact E2|].
    intros evs k3 a3 Hok Hno E3 Ha3.
    exact (assigned_start _ i a resp c1 k2 evs k3 a3 x _ Hk1 Ha Ep E2 Hok Hno E3 Ha3 Hx (eq_sym Enid) eq_refl).
Qed.
End progress.

(** ** An example: a job is submitted to a cluster of two agents *)

#[local] Existing Instance ascii_case.

Definition ex_queued : option (cluster DB * Job) :=
  k ← clusterRun (take 8 ex_placed) ex_cluster; j ← v_jobs (cluster_view k) !! ex_job; Some (k, j).

Lemma ex_queued_some k j : ex_queued = Some (k, j) →
  clusterRun (take 8 ex_placed) ex_cluster = Some k ∧ v_jobs (cluster_view k) !! ex_job = Some j.
Proof.
  unfold ex_queued. destruct (clusterRun _ _) as [k0|]; [|done]. intros E. cbn [mbind option_bind] in E.
  apply bind_Some in E as (j0 & Ej & E). injection E as <- <-. done.
Qed.

Lemma ex_queued_1 :
  (λ '(k, j), (match cl_pass k with Idle => true | _ => false end, bool_decide (db_faults (db_of (cl_control k)) = []), Job_State j))
    <$> ex_queued = Some (true, true, JobPending).
Proof. vm_compute. reflexivity. Qed.

Lemma queued_job_starts_witness :
  ∃ k j, ex_queued = Some (k, j) ∧ Job_State j = JobPending ∧
    ∃ n k1, clusterRun (replicate n (OfScheduler (timeUnix 2100))) k = Some k1 ∧ cl_pass k1 = Idle ∧
      ((v_jobs (cluster_view k1) !! ex_job = Some j ∧
        ((∀ nid m, v_nodes (cluster_view k1) !! nid = Some m → Node_State m = StateUp → ¬ room m (jobs_on nid (cluster_view k1)) j) ∨
         held_back (cl_scheduler k) (timeUnix 2100) (cluster_view k) j)) ∨
       ∃ m ds, v_nodes (cluster_view k1) !! Node_ID m = Some m ∧ Node_State m = StateUp ∧
         v_jobs (cluster_view k1) !! ex_job = Some (job_assigned (Node_ID m) (Node_Name m) ds j)).
Proof.
  destruct (proj1 (fmap_Some _ _ _) ex_queued_1) as ([k j] & E & X). symmetry in X. apply pair_equal_spec in X as [X Hp]. apply pair_equal_spec in X as [Hi Hf].
  apply bool_decide_eq_true in Hf. destruct (ex_queued_some _ _ E) as [E0 Ej].
  assert (cl_pass k = Idle) as Hidle by (revert Hi; clear; destruct (cl_pass k); [reflexivity|intros X; discriminate X..]).
  exists k, j. split; [exact E|]. split; [exact Hp|].
  destruct (queued_job_starts (S := DB) (H := sqlite_laws) (H0 := sqlite_steady) (timeUnix 2100) k ex_job j (ex_reachable _ k (Forall_take _ 8 _ ex_placed_ok) E0)
    Hidle Hf Ej Hp) as (n & k1 & H1 & H2 & H3). exists n, k1. split; [exact H1|]. split; [exact H2|].
  destruct H3 as [H3|(m & ds & Hm & Hup & Hx & _)]; [left; exact H3|right; exists m, ds; exact (conj Hm (conj Hup Hx))].
Defined.
