(* ===== verification/ClusterHeartbeat.v ===== *)
(** * The cluster: who is taken for lost

    The reaper takes a node for lost when it has not been heard of for the timeout, by the clock of
    the control plane.  A node whose report is answered stays UP for the timeout, whatever
    happens; one that keeps silent is marked by the first tick that finds it so. *)
From S2P Require Import Prelude GoBase GoStrings Event Proto Store StoreSpec Plan SQLite SQLiteProofs StoreExample SQLiteRefines Scheduler SchedulerProofs World Convert Config Notify JobLog Transport Agent AgentTheorems Server ServerTheorems Reap ServerClock Cluster ClusterTheorems.
Local Open Scope Z_scope.

(** ** Nodes heard of since an instant *)

(** UP, and heard of at [t] or later, by the second. *)
Definition heard_since (t : Time) (n : Node) : Prop := Node_State n = StateUp ∧ Unix t ≤ Unix (Node_LastHeartbeat n).

Definition vouched (x : string) (t : Time) (v : View) : Prop := ∃ n, v_nodes v !! x = Some n ∧ heard_since t n.

(** The instant a call carries is not before [t]; a cutoff not after it. *)
Definition timely (t : Time) (cl : call) : Prop :=
  match cl with
  | CallRegisterNode n => Node_State n = StateUp ∧ t ≤ Node_LastHeartbeat n
  | CallHeartbeat _ now => t ≤ now
  | CallMarkStaleDown cutoff => cutoff ≤ t
  | _ => True
  end.

Lemma Unix_le t t' : t ≤ t' → Unix t ≤ Unix t'.
Proof. intros Hle. unfold Unix. pose proof (Z.div_le_mono t t' Second ltac:(done) Hle). lia. Qed.

Lemma Unix_whole t t' : timeUnix 1 ≤ t → t ≤ t' → Unix t ≤ Unix (whole_seconds t').
Proof.
  intros H1 Hle. unfold whole_seconds. destruct (Z.ltb_spec t' (timeUnix 1)); [lia|].
  transitivity (Unix t'); [by apply Unix_le|]. unfold Unix.
  replace (t' - t' mod Second) with (t' / Second * Second) by (pose proof (Z.div_mod t' Second ltac:(done)); lia).
  rewrite Z.div_mul by done. done.
Qed.

Lemma spec_call_vouched x t cl v v' :
  timeUnix 1 ≤ t → timely t cl → spec_call cl v = Some v' → vouched x t v → vouched x t v'.
Proof.
  intros H1 Ht E (n & Hn & Hup & Hh). unfold vouched.
  destruct cl as [m|m now|cutoff|j|y nid nn ds|y now|y st cd re now|y now|e|m]; simpl in *.
  - assert (∀ id, heard_since t (stored_node id m)) as Hst by (destruct Ht; intros id; split; simpl; [done|by apply Unix_whole]).
    destruct (named _ _) as [[id old]|] eqn:En; [|destruct (v_nodes v !! Node_ID m) eqn:Ei; [done|]]; injection E as <-; simpl.
    + destruct (decide (id = x)) as [->|Hne]; [rewrite lookup_insert_eq|rewrite lookup_insert_ne by done]; by eexists.
    + rewrite lookup_insert_ne by congruence. by exists n.
  - injection E as <-. simpl. destruct (decide (Node_ID m = x)) as [->|Hne].
    + rewrite lookup_alter_eq, Hn. eexists. split; [done|]. split; [done|]. simpl. by apply Unix_whole.
    + rewrite lookup_alter_ne by done. by exists n.
  - injection E as <-. simpl. rewrite lookup_fmap, Hn. exists n. split; [|done]. simpl.
    assert (node_stale cutoff n = false) as ->; [|done]. unfold node_stale. apply Unix_le in Ht.
    apply andb_false_intro1, Z.ltb_ge. lia.
  - destruct (v_jobs v !! Job_ID j); [done|]. injection E as <-. by exists n.
  - destruct (v_jobs v !! y); [|done]. simpl in E. case_decide; [|done]. injection E as <-. by exists n.
  - injection E as <-. by exists n.
  - injection E as <-. by exists n.
  - destruct (v_jobs v !! y); [|done]. injection E as <-. by exists n.
  - injection E as <-. by exists n.
  - injection E as <-. by exists n.
Qed.

Lemma call_of_timely rq id now cl t : call_of rq id now = Some cl → t ≤ now → timely t cl.
Proof.
  intros E Ht. destruct rq; simpl in E; try (by injection E as <-); try done.
  - injection E as <-. by destruct req as [? ? [] ? ?].
  - case_decide; [by injection E as <-|]. destruct (isTerminalState _); [by injection E as <-|done].
Qed.

Section heartbeat.
Context {S : Type} `{StoreLaws S, UnicodeCase}.
Implicit Types (c : Control S) (k : cluster S).

Notation clock k := (clock_next (cl_control k)).

(** ** The clock *)

(** The store is well formed, the clock does not go back and shows [t] or later. *)
Definition running_since (t : Time) c : Prop := inv (db_of c) ∧ monotone_clock (world_of c) ∧ t ≤ clock_next c.

Lemma clock_later c c' : ticked world_of c c' → monotone_clock (world_of c) → clock_next c ≤ clock_next c'.
Proof. intros [E Ht] Hm. unfold clock_next, next_reading, world_of in *. rewrite E. by apply Hm. Qed.

Lemma running_later t c c' : inv (db_of c') → ticked world_of c c' → running_since t c → running_since t c'.
Proof.
  intros Hi T (_ & Hm & Ht). split; [done|]. split; [by eapply later_monotone|]. pose proof (clock_later _ _ T Hm). lia.
Qed.

Definition vouches (x : string) (t : Time) c c' : Prop := vouched x t (view (db_of c)) → vouched x t (view (db_of c')).

#[export] Instance vouches_preorder x t : PreOrder (vouches x t).
Proof. split; [by intros c Hc|]. intros c1 c2 c3 F1 F2 Hc. apply F2, F1, Hc. Qed.

Lemma request_vouches x t rq :
  timeUnix 1 ≤ t → request_typed rq → keeps (running_since t) (vouches x t) (handle rq).
Proof.
  intros H1 Hok c Hc. pose proof (ticks_handle rq c I) as [_ T]. destruct (handle rq c) as [b c'] eqn:E. simpl in *.
  destruct (handle_effect rq c b c' (proj1 Hc) (request_typed_ok _ Hok) E) as (Hi' & id & Hv).
  split; [by eapply running_later|]. unfold vouches. destruct b; [|by rewrite Hv].
  destruct (call_of rq id (clock_next c)) as [cl|] eqn:Ec; [|by rewrite Hv].
  eapply spec_call_vouched; [done|eapply call_of_timely; [exact Ec|apply Hc]|exact Hv].
Qed.

(** ** A turn of an agent does what its requests do *)

Lemma agentStep_keeps P R `{!PreOrder R} v ev a :
  (∀ rq, request_typed rq → keeps P R (handle rq)) → agent_ok v a → agentEvent_ok ev → keeps P R (agentStep (S := S) ev a).
Proof.
  intros Hrq Ha Hev.
  assert (∀ X l (h : ST (Control S) (rpc X)) rq, request_typed rq → handle rq = ran h → keeps P R (over l h)) as Hcall.
  { intros X l h rq Ht E. apply keeps_over; [apply _|]. apply keeps_ran. rewrite <-E. by apply Hrq. }
  assert (∀ X (x : X), keeps P R (st_ret (S := Control S) x)) as Hret by (intros; apply keeps_ret, _).
  destruct ev as [snap|l|snap l|l| |ev l|logs g chunk l| |n]; simpl; [done|..|done|done].
  - unfold attemptRegister. destruct (ag_main a) as [|req b|] eqn:Em; try done.
    destruct (ao_request _ _ Ha _ _ Em) as (snap & Hs & ->). apply keeps_bind; [apply _| |done].
    apply (Hcall _ _ _ (RqRegisterNode (ag_peer a) (registerRequest (ag_cfg a) (nameOf a) snap))); [|done]. apply register_typed; [apply (ao_labels _ _ Ha)|done].
  - unfold reportMetrics. destruct (ag_main a); try done. apply keeps_bind; [apply _| |done].
    apply (Hcall _ _ _ (RqReportMetrics (mkPbReportMetricsRequest (ag_nref a) snap))); [|done]. by apply report_typed.
  - unfold pollTick. destruct (negb _ || _); [done|]. case_decide; [done|]. apply keeps_bind; [apply _| |done].
    by apply (Hcall _ _ _ (RqPollAssignments (mkPbPollAssignmentsRequest (ag_nref a)))).
  - done.
  - destruct (ofPollLoop ev); [done|]. unfold execStep. destruct (step _ _) as [x|]; [|done]. apply keeps_bind; [apply _| |done].
    apply keeps_for; [apply _|]. intros r. apply keeps_bind; [apply _| |done].
    apply (Hcall _ _ _ (RqUpdateJobStatus (mkPbUpdateJobStatusRequest (rp_job r) (rp_state r) (rp_code r) (rp_reason r)))); [|done]. apply status_typed.
  - unfold pumpChunk. destruct (_ !! g) as [rj|]; [|done]. destruct (rj_phase rj); try done; (apply keeps_bind; [apply _| |done]);
      by apply (Hcall _ _ _ (RqAppendLogs logs (mkPbAppendLogsRequest (pbAssignment_JobId (rj_assignment rj)) chunk))).
Qed.

(** ** Steps of the cluster *)

Lemma clusterStep_ticked ev k k' :
  reachable k → clusterEvent_ok ev → clusterStep ev k = Some k' → ticked world_of (cl_control k) (cl_control k').
Proof.
  intros Hk Hev. destruct ev as [i ev|rq|now| |]; simpl.
  - destruct (cl_agents k !! i) as [a|] eqn:Ea; [|done]. simpl.
    destruct (agentStep_keeps (λ _, True) (ticked world_of) _ ev a (λ rq _, ticks_handle rq) (reachable_agent k i a Hk Ea) Hev (cl_control k) I) as [_ T].
    destruct (agentStep ev a (cl_control k)) as [[a'|] c']; [|done]. by intros [= <-].
  - intros [= <-]. by apply ticks_handle.
  - pose proof (ticks_on_db (passStep (cl_scheduler k) now (cl_pass k)) (cl_control k) I) as [_ T].
    destruct (on_db _ _) as [ph c]. by intros [= <-].
  - pose proof (ticks_on_proc _ (ticks_reapStep (cl_reaper k)) (cl_control k) I) as [_ T].
    destruct (on_proc _ _) as [r c]. by intros [= <-].
  - destruct (reachable_ok k Hk) as (names & Ho & _).
    destruct (detector_advances (cl_detector k) (cl_control k) (co_inv _ _ Ho)) as [_ [_ T]].
    destruct (detectorTick _ _) as [d c]. by intros [= <-].
Qed.

Lemma clusterStep_timeout ev k k' : clusterStep ev k = Some k' → rr_timeout (cl_reaper k') = rr_timeout (cl_reaper k).
Proof.
  destruct ev as [i ev|rq|now| |]; simpl.
  - destruct (cl_agents k !! i) as [a|]; [|done]. simpl. destruct (agentStep _ _ _) as [[a'|] c']; [|done]. by intros [= <-].
  - by intros [= <-].
  - destruct (on_db _ _) as [ph c]. by intros [= <-].
  - unfold on_proc. pose proof (reapStep_timeout (cl_reaper k) (ct_proc (cl_control k))) as Ht.
    destruct (reapStep _ _) as [r p]. by intros [= <-].
  - destruct (detectorTick _ _) as [d c]. by intros [= <-].
Qed.

(** The scheduler places jobs and touches no node. *)
Lemma passStep_nodes names k now ph c :
  cluster_ok names k → on_db (passStep (cl_scheduler k) now (cl_pass k)) (cl_control k) = (ph, c) →
  v_nodes (view (db_of c)) = v_nodes (cluster_view k).
Proof.
  intros Hk. pose proof (co_inv _ _ Hk) as Hi. pose proof (co_pass _ _ Hk) as Hp. unfold cluster_view.
  destruct (on_db_eq (passStep (cl_scheduler k) now (cl_pass k)) (cl_control k)) as (c' & -> & Ec & _). intros [= _ <-]. rewrite Ec.
  unfold passStep, st_bind, st_ret in *. destruct (cl_pass k) as [|nodes|nodes act|[|d ds]]; simpl in Hp.
  - destruct (store_ListNodes _) as [r s'] eqn:E. destruct (lists_nodes _ _ _ Hi E) as (_ & Hv & _). simpl. by rewrite Hv.
  - destruct (store_ListActiveJobs _) as [r s'] eqn:E. destruct (lists_active _ _ _ Hi E) as (_ & Hv & _). simpl. by rewrite Hv.
  - destruct (store_ListPendingJobs _) as [r s'] eqn:E. destruct (lists_pending _ _ _ Hi E) as (_ & Hv & _). simpl. by rewrite Hv.
  - done.
  - destruct Hp as (v1 & v2 & v3 & nodes & act & pend & now0 & policy & done_ & Hns & Has & Hpl & Hv3 & EP & _).
    assert (json_valid (Decision_Devices d) = true) as Hd.
    { eapply (decision_encodable v1 v2 v3 _ nodes act pend now0 policy); try done. rewrite EP. set_solver. }
    unfold recordDecision, st_bind, st_ret. destruct (store_AssignJob _ _ _ _ _) as [r s'] eqn:E. simpl.
    destruct (refines (CallAssignJob (Decision_JobID d) (Decision_NodeID d) (Decision_NodeName d) (Decision_Devices d))
      _ (is_ok r) s' Hi Hd) as [_ Hv]; [simpl; by rewrite E|]. destruct (is_ok r); [|by rewrite Hv]. simpl in Hv.
    destruct (_ !! Decision_JobID d) as [j|]; [|done]. simpl in Hv. case_decide; [|done]. by injection Hv as <-.
Qed.

(** While the clock has not passed [t] by the timeout, no step takes a node heard of since [t] for lost. *)
Lemma clusterStep_vouched x t ev k k' :
  reachable k → clusterEvent_ok ev → clusterStep ev k = Some k' → monotone_clock (world_of (cl_control k)) →
  timeUnix 1 ≤ t → t ≤ clock k → cutoffOf (rr_timeout (cl_reaper k)) (clock k) ≤ t →
  vouched x t (cluster_view k) → vouched x t (cluster_view k').
Proof.
  intros Hk Hev E Hm H1 Ht Hcut Hx. destruct (reachable_ok k Hk) as (names & Ho & _).
  assert (running_since t (cl_control k)) as Hrun by (split; [apply Ho|done]). unfold cluster_view in *.
  destruct ev as [i ev|rq|now| |]; simpl in E.
  - destruct (cl_agents k !! i) as [a|] eqn:Ea; [|done]. simpl in E.
    destruct (agentStep_keeps (running_since t) (vouches x t) _ ev a (λ rq, request_vouches x t rq H1) (reachable_agent k i a Hk Ea)
      Hev (cl_control k) Hrun) as [_ F].
    destruct (agentStep ev a (cl_control k)) as [[a'|] c']; [|done]. injection E as <-. by apply F.
  - injection E as <-. by apply (request_vouches x t rq H1 Hev _ Hrun).
  - destruct (on_db _ _) as [ph c] eqn:Ep. injection E as <-. unfold vouched. simpl. by rewrite (passStep_nodes names k now ph c Ho Ep).
  - destruct (co_reaper _ _ Ho) as [Hc Hp]. unfold on_proc in E. destruct (rr_phase (cl_reaper k)) as [|now nodes] eqn:Er.
    + destruct (reapStep _ _) as [r p] eqn:Es. injection E as <-.
      destruct (reapStep_waiting _ _ _ _ Er (co_inv _ _ Ho) Es) as (_ & Hv & _). unfold vouched, db_of in *. simpl. by rewrite Hv.
    + destruct (reapStep_marking _ now nodes (ct_proc (cl_control k)) Er) as (res & s' & Em & Es & _).
      destruct (reapStep _ _) as [r p]. injection E as <-. destruct Hp as (i & Hlt & ->). simpl in *. unfold db_of. simpl. rewrite Es.
      destruct (refines (CallMarkStaleDown (cutoffOf (rr_timeout (cl_reaper k)) (w_now (world_of (cl_control k)) i)))
        (db_of (cl_control k)) (is_ok res) s' (co_inv _ _ Ho) (Hc i)) as [_ Hv]; [simpl; unfold db_of; by rewrite Em|].
      destruct (is_ok res); [|by rewrite Hv]. eapply spec_call_vouched; [done| |exact Hv|done]. simpl.
      transitivity (cutoffOf (rr_timeout (cl_reaper k)) (clock k)); [|done]. unfold cutoffOf, Add.
      apply Zplus_le_compat_r, Hm, Nat.lt_le_incl, Hlt.
  - destruct (silent_detector (ct_metrics (cl_control k)) (view (db_of (cl_control k))) (cl_detector k, ct_proc (cl_control k)) (conj (co_inv _ _ Ho) eq_refl)) as [_ Hv].
    unfold detectorTick in E. destruct (detector_scan _ _) as [u [d p]]. injection E as <-. unfold vouched, db_of in *. simpl in *. by rewrite Hv.
Qed.

Lemma clusterRun_ticked evs k k' :
  reachable k → Forall clusterEvent_ok evs → clusterRun evs k = Some k' →
  ticked world_of (cl_control k) (cl_control k') ∧ rr_timeout (cl_reaper k') = rr_timeout (cl_reaper k).
Proof.
  intros Hk Hok. revert k'. induction evs as [|ev evs IH] using rev_ind; intros k'; [by intros [= <-]|].
  apply Forall_app in Hok as [Hok Hoke]. rewrite Forall_singleton in Hoke. unfold clusterRun in *. rewrite foldl_snoc.
  intros (k1 & E1 & E)%bind_Some. destruct (IH Hok k1 E1) as [T1 <-].
  pose proof (reachable_run evs k k1 Hk Hok E1) as Hk1. split; [|by eapply clusterStep_timeout].
  transitivity (cl_control k1); [done|]. by eapply clusterStep_ticked.
Qed.

Lemma clusterRun_vouched x t evs k k' :
  reachable k → Forall clusterEvent_ok evs → clusterRun evs k = Some k' → monotone_clock (world_of (cl_control k)) →
  timeUnix 1 ≤ t → t ≤ clock k → cutoffOf (rr_timeout (cl_reaper k)) (clock k') ≤ t →
  vouched x t (cluster_view k) → vouched x t (cluster_view k').
Proof.
  intros Hk Hok E Hm H1 Ht. revert k' E. induction evs as [|ev evs IH] using rev_ind; intros k'; [by intros [= <-]|].
  apply Forall_app in Hok as [Hok Hoke]. rewrite Forall_singleton in Hoke. unfold clusterRun in *. rewrite foldl_snoc.
  intros (k1 & E1 & E)%bind_Some Hcut Hx. destruct (clusterRun_ticked evs k k1 Hk Hok E1) as [T1 Eto].
  pose proof (reachable_run evs k k1 Hk Hok E1) as Hk1. pose proof (later_monotone _ _ T1 Hm) as Hm1.
  pose proof (clock_later _ _ T1 Hm) as Hle1. pose proof (clock_later _ _ (clusterStep_ticked ev k1 k' Hk1 Hoke E) Hm1) as Hle2.
  assert (cutoffOf (rr_timeout (cl_reaper k)) (clock k1) ≤ t) as Hcut1 by (unfold cutoffOf, Add in *; lia).
  eapply (clusterStep_vouched x t ev k1); [done..|lia|by rewrite Eto|]. by apply (IH Hok k1 E1).
Qed.

(** [C12] (safety) A node that reports in time is not taken for lost: when the report of an agent has been
    answered, at an instant [t] of the clock of the control plane, then as long as that clock, which
    does not go back, has not passed [t] by more than the reaper's timeout, the node is UP and
    last heard of at [t] or later (by the second): whatever agents, clients, scheduler, reaper
    and detector have done in the meantime, with ticks of the reaper under way, failing
    statements and lost messages. *)
Theorem reporting_node_stays_up k i a snap resp c1 k1 evs k' :
  reachable k → cl_agents k !! i = Some a → snap_ok snap →
  ReportMetrics (mkPbReportMetricsRequest (ag_nref a) snap) (cl_control k) = (Reply resp, c1) →
  pbReportMetricsResponse_Ok resp = true → clusterStep (OfAgent i (AgReport snap Delivered)) k = Some k1 →
  Forall clusterEvent_ok evs → clusterRun evs k1 = Some k' → monotone_clock (world_of (cl_control k)) →
  let t := clock k in let timeout := rr_timeout (cl_reaper k) in
  0 ≤ timeout < 2 ^ 63 → clock k' ≤ t + timeout →
  ∃ n, v_nodes (cluster_view k') !! ag_nref a = Some n ∧ Node_State n = StateUp ∧ Unix t ≤ Unix (Node_LastHeartbeat n).
Proof.
  intros Hk Ha Hs Er Hr Es Hok E Hm t timeout Hto Hend. destruct (reachable_ok k Hk) as (names & Ho & _).
  assert (i64 (- timeout) = - timeout) as Ei by (apply i64_small; unfold is_i64; lia).
  assert (timeUnix 1 ≤ t) as H1.
  { destruct (co_reaper _ _ Ho) as [Hc _]. specialize (Hc (w_tick (world_of (cl_control k)))). unfold cutoffOf, Add in Hc.
    fold timeout in Hc. rewrite Ei in Hc. unfold t, clock_next, next_reading. fold (world_of (cl_control k)). lia. }
  pose proof (clusterStep_ticked (OfAgent i (AgReport snap Delivered)) k k1 Hk Hs Es) as T1. pose proof (clusterStep_timeout _ _ _ Es) as Eto.
  apply (clusterRun_vouched (ag_nref a) t evs k1 k'); try done.
  - exact (reach_step k (OfAgent i (AgReport snap Delivered)) k1 Hk Hs Es).
  - by eapply later_monotone.
  - by eapply clock_later.
  - rewrite Eto. unfold cutoffOf, Add. fold timeout. rewrite Ei. lia.
  - assert (ag_nref a ≠ "") as Hne.
    { intros En. unfold ReportMetrics, required in Er. simpl in Er. rewrite En, decide_True in Er by done. done. }
    destruct (ReportMetrics_result _ _ _ _ _ (co_inv _ _ Ho) Hne Hs Er) as [(? & ? & ? & ? & [=] & _)|Hres].
    destruct (v_nodes (view (db_of (cl_control k))) !! ag_nref a) as [n|]; [|by destruct Hres as ([= ->] & _)].
    destruct Hres as (_ & _ & Hn & _ & _). assert (cl_control k1 = c1) as Ec.
    { simpl in Es. rewrite Ha in Es. simpl in Es. unfold reportMetrics in Es. destruct (ag_main a); try done.
      unfold st_bind, over in Es. rewrite Er in Es. simpl in Es. by injection Es as <-. }
    unfold vouched, cluster_view. rewrite Ec, Hn. eexists. split; [done|]. split; [done|]. simpl. by apply Unix_whole.
Qed.

Lemma node_down_idem n : Node_State n = StateDown → node_down n = n.
Proof. intros E. unfold node_down. rewrite <-E. by destruct n. Qed.

(** (liveness) A node that keeps silent is marked: when the reaper makes its statement in a tick that
    began, by the clock, the timeout and a second after the node was last heard of, the node is
    DOWN, unless the statement fails; everything else about it stays as it was. *)
Theorem silent_node_goes_down k now nodes k' x n :
  reachable k → rr_phase (cl_reaper k) = Marking now nodes → clusterStep OfReaper k = Some k' →
  v_nodes (cluster_view k) !! x = Some n →
  let timeout := rr_timeout (cl_reaper k) in
  0 ≤ timeout < 2 ^ 63 → Node_LastHeartbeat n + timeout + Second ≤ now →
  (cluster_view k' = cluster_view k ∧ ∃ e s', store_MarkStaleDown (cutoffOf timeout now) (db_of (cl_control k)) = (Err e, s')) ∨
  v_nodes (cluster_view k') !! x = Some (node_down n).
Proof.
  intros Hk Er E Hx timeout Hto Hle. destruct (reachable_ok k Hk) as (names & Ho & _). unfold cluster_view in *.
  destruct (co_reaper _ _ Ho) as [Hc Hp]. rewrite Er in Hp. destruct Hp as (i & _ & ->).
  simpl in E. unfold on_proc in E. destruct (reapStep_marking _ _ nodes (ct_proc (cl_control k)) Er) as (res & s' & Em & Es & _).
  destruct (reapStep _ _) as [r p]. injection E as <-. simpl in *. unfold db_of. simpl. rewrite Es.
  fold timeout in Em, Hc. set (cut := cutoffOf timeout _) in *.
  destruct (refines (CallMarkStaleDown cut) (db_of (cl_control k)) (is_ok res) s' (co_inv _ _ Ho) (Hc i)) as [_ Hv];
    [simpl; unfold db_of; by rewrite Em|].
  destruct res as [m|e]; simpl in Hv; [right|left; split; [done|by exists e, s']].
  injection Hv as <-. simpl. rewrite lookup_fmap, Hx. simpl. f_equal. unfold node_stale.
  assert (Unix (Node_LastHeartbeat n) < Unix cut) as Hlt.
  { unfold cut, cutoffOf, Add. rewrite i64_small by (unfold is_i64; lia). apply (Z.lt_le_trans _ (Unix (Node_LastHeartbeat n + Second))).
    - unfold Unix. rewrite <-(Z.mul_1_l Second) at 2. rewrite Z.div_add by done. lia.
    - apply Unix_le. lia. }
  apply Z.ltb_lt in Hlt. rewrite Hlt. simpl. case_bool_decide as Hd; [done|]. symmetry. apply node_down_idem. by destruct (decide (Node_State n = StateDown)).
Qed.
End heartbeat.

(** ** An example: a report, then ticks of the reaper *)

#[local] Existing Instance ascii_case.

Definition ex_watching : list clusterEvent :=
  [OfReaper; OfDetector; OfAgent 1 (AgReport ex_snap (RequestLost "unavailable")); OfReaper; OfClient (RqSubmitJob ex_submit); OfReaper].

Lemma ex_watching_ok : Forall clusterEvent_ok ex_watching.
Proof. repeat (apply Forall_cons; split); [exact I|exact I|exact ex_snap_ok|exact I|exact ex_submit_typed|exact I|by apply Forall_nil]. Qed.

Definition ex_reported : option (cluster DB * agent * pbReportMetricsResponse * Control DB * cluster DB * cluster DB) :=
  k ← clusterRun (take 5 ex_placed) ex_cluster; a ← cl_agents k !! 0%nat;
  match ReportMetrics (mkPbReportMetricsRequest (ag_nref a) ex_snap) (cl_control k) with
  | (Reply resp, c1) =>
      k1 ← clusterStep (OfAgent 0 (AgReport ex_snap Delivered)) k; k' ← clusterRun ex_watching k1; Some (k, a, resp, c1, k1, k')
  | _ => None
  end.

Lemma ex_reported_some k a resp c1 k1 k' :
  ex_reported = Some (k, a, resp, c1, k1, k') →
  clusterRun (take 5 ex_placed) ex_cluster = Some k ∧ cl_agents k !! 0%nat = Some a ∧
  ReportMetrics (mkPbReportMetricsRequest (ag_nref a) ex_snap) (cl_control k) = (Reply resp, c1) ∧
  clusterStep (OfAgent 0 (AgReport ex_snap Delivered)) k = Some k1 ∧ clusterRun ex_watching k1 = Some k'.
Proof.
  unfold ex_reported. destruct (clusterRun _ _) as [k0|]; [|done]. intros E. cbn [mbind option_bind] in E. apply bind_Some in E as (a0 & Ea & E).
  destruct (ReportMetrics _ _) as [[resp0|] c0] eqn:Ep; [|done].
  apply bind_Some in E as (k2 & Ek & E). apply bind_Some in E as (k3 & Er & E). injection E as <- <- <- <- <- <-. done.
Qed.

Lemma ex_monotone : monotone_clock (world_of (cl_control ex_cluster)).
Proof. intros i j Hij. change (timeUnix (2000 + Z.of_nat i) ≤ timeUnix (2000 + Z.of_nat j)). unfold timeUnix, Second. lia. Qed.

(** The node's report is answered; the clock then goes on for less than the timeout. *)
Lemma ex_reported_1 :
  (λ '(k, _, resp, _, _, k'), (pbReportMetricsResponse_Ok resp, rr_timeout (cl_reaper k),
     bool_decide (clock_next (cl_control k') ≤ clock_next (cl_control k) + 30 * Second))) <$> ex_reported =
  Some (true, 30 * Second, true).
Proof. vm_compute. reflexivity. Qed.

Lemma reporting_node_stays_up_witness :
  ∃ k a resp c1 k1 k', ex_reported = Some (k, a, resp, c1, k1, k') ∧
    ∃ n, v_nodes (cluster_view k') !! ag_nref a = Some n ∧ Node_State n = StateUp ∧
      Unix (clock_next (cl_control k)) ≤ Unix (Node_LastHeartbeat n).
Proof.
  destruct ex_reported as [[[[[[k a] resp] c1] k1] k']|] eqn:E; [|vm_compute in E; discriminate].
  pose proof (ex_fmap _ _ _ _ E ex_reported_1) as X. apply pair_equal_spec in X as [X Hend]. apply pair_equal_spec in X as [Hr Hto].
  apply bool_decide_eq_true in Hend. destruct (ex_reported_some _ _ _ _ _ _ E) as (E0 & Ea & Er & Es & Ek).
  pose proof (Forall_take _ 5 _ ex_placed_ok) as Hok.
  pose proof (ex_reachable [] ex_cluster (Forall_nil_2 _) eq_refl) as H0.
  exists k, a, resp, c1, k1, k'. split; [reflexivity|].
  refine (reporting_node_stays_up (S := DB) (H := sqlite_laws) k 0 a ex_snap resp c1 k1 ex_watching k' (ex_reachable _ k Hok E0) Ea
    ex_snap_ok Er Hr Es ex_watching_ok Ek _ _ _).
  - exact (later_monotone _ _ (proj1 (clusterRun_ticked (S := DB) (H := sqlite_laws) _ _ _ H0 Hok E0)) ex_monotone).
  - rewrite Hto. unfold Second. lia.
  - rewrite Hto. exact Hend.
Defined.

(** A node that has registered once, and ticks of the reaper until the timeout is over. *)
Definition ex_silent : option (cluster DB * Time * list Node * Node * cluster DB) :=
  k ← clusterRun (take 5 ex_placed ++ replicate 59 OfReaper) ex_cluster;
  match rr_phase (cl_reaper k) with
  | Marking now nodes => n ← v_nodes (cluster_view k) !! ex_alpha; k' ← clusterStep OfReaper k; Some (k, now, nodes, n, k')
  | Waiting => None
  end.

Lemma ex_silent_some k now nodes n k' :
  ex_silent = Some (k, now, nodes, n, k') →
  clusterRun (take 5 ex_placed ++ replicate 59 OfReaper) ex_cluster = Some k ∧ rr_phase (cl_reaper k) = Marking now nodes ∧
  v_nodes (cluster_view k) !! ex_alpha = Some n ∧ clusterStep OfReaper k = Some k'.
Proof.
  unfold ex_silent. destruct (clusterRun _ _) as [k0|]; [|done]. intros E. cbn [mbind option_bind] in E.
  destruct (rr_phase (cl_reaper k0)) as [|now0 nodes0] eqn:Ep; [done|].
  apply bind_Some in E as (n0 & En & E). apply bind_Some in E as (k2 & Ek & E). injection E as <- <- <- <- <-. done.
Qed.

Lemma ex_silent_1 :
  (λ '(k, now, _, n, k'), (Node_State n, bool_decide (Node_LastHeartbeat n + 30 * Second + Second ≤ now), rr_timeout (cl_reaper k),
     Node_State <$> v_nodes (cluster_view k') !! ex_alpha)) <$> ex_silent = Some (StateUp, true, 30 * Second, Some StateDown).
Proof. vm_compute. reflexivity. Qed.

Lemma silent_node_goes_down_witness :
  ∃ k now nodes n k', ex_silent = Some (k, now, nodes, n, k') ∧ Node_State n = StateUp ∧
    ((cluster_view k' = cluster_view k ∧
        ∃ e s', store_MarkStaleDown (cutoffOf (rr_timeout (cl_reaper k)) now) (db_of (cl_control k)) = (Err e, s')) ∨
     v_nodes (cluster_view k') !! ex_alpha = Some (node_down n)).
Proof.
  destruct ex_silent as [[[[[k now] nodes] n] k']|] eqn:E; [|vm_compute in E; discriminate].
  pose proof (ex_fmap _ _ _ _ E ex_silent_1) as X. apply pair_equal_spec in X as [X _]. apply pair_equal_spec in X as [X Hto].
  apply pair_equal_spec in X as [Hup Hle]. apply bool_decide_eq_true in Hle.
  destruct (ex_silent_some _ _ _ _ _ E) as (E0 & Ep & En & Ek). exists k, now, nodes, n, k'. split; [reflexivity|]. split; [exact Hup|].
  refine (silent_node_goes_down (S := DB) (H := sqlite_laws) k now nodes k' ex_alpha n (ex_reachable _ k _ E0) Ep Ek En _ _).
  - apply Forall_app. split; [exact (Forall_take _ 5 _ ex_placed_ok)|]. apply Forall_replicate. exact I.
  - rewrite Hto. unfold Second. lia.
  - rewrite Hto. exact Hle.
Defined.
