(* ===== verification/MainTheorems.v ===== *)
(** * The programs' configuration; the agents that the control plane launches *)
From S2P Require Import Prelude GoBase GoStrings GoFloat GoFormat GoParse GoFlag GoNet Event Proto Store Plan Scheduler World Config Notify JobLog Transport TransportTheorems Agent Server Reap ReapTheorems Main Cluster.
Local Open Scope Z_scope.

(** ** Flags, environment, file, defaults *)

Section precedence.
Context (readFile : string → result string) (unmarshal : string → AgentConfig → AgentConfig * option string).
Context (getenv : string → string).

(** The first setting that is not empty. *)
Definition first_set (settings : list string) : string := default "" (head (filter (λ s, s ≠ "") settings)).

Lemma first_set_given flag env file :
  given flag (if decide (env = "") then file else env) = first_set [flag; env; file].
Proof.
  unfold given, first_set. destruct (decide (flag = "")) as [->|Hf]; [rewrite filter_cons_False by (by intros ?)|by rewrite filter_cons_True].
  destruct (decide (env = "")) as [->|He]; [rewrite filter_cons_False by (by intros ?)|by rewrite filter_cons_True].
  destruct (decide (file = "")) as [->|]; [by rewrite filter_cons_False by (by intros ?)|by rewrite filter_cons_True].
Qed.

(** (functional) Where an agent's settings come from: when the agent starts, its server address,
    its node name and its partition are each the first that is not empty of the flag, the environment
    variable and the configuration file applied over the defaults, and the other settings are those of
    the file and the environment; it does not start if the command line or the file is wrong. *)
Theorem agent_settings args :
  match flag_Parse agentFlagSet args (mkAgentFlags "" "" "" "") with
  | Err _ => ∃ status, agentMain readFile unmarshal getenv args = Exit status
  | Ok (f, _) =>
      let '(file, err) := loadFile readFile unmarshal (af_config f) DefaultAgent in
      match err with
      | Some e => agentMain readFile unmarshal getenv args = Panic e
      | None => ∃ cfg, agentMain readFile unmarshal getenv args = Started cfg ∧
          Agent_Server_Addr cfg = first_set [af_server f; getenv "SKIPPER_SERVER_ADDR"; Agent_Server_Addr file] ∧
          Agent_Node_Name cfg = first_set [af_name f; getenv "SKIPPER_NODE_NAME"; Agent_Node_Name file] ∧
          Agent_Node_Partition cfg = first_set [af_partition f; getenv "SKIPPER_NODE_PARTITION"; Agent_Node_Partition file] ∧
          Agent_Log_Level cfg = first_set [getenv "SKIPPER_LOG_LEVEL"; Agent_Log_Level file] ∧
          Agent_Node_Labels cfg = Agent_Node_Labels file ∧
          Agent_Collectors_Interval cfg = Agent_Collectors_Interval file ∧ Agent_Jobs_PollInterval cfg = Agent_Jobs_PollInterval file
      end
  end.
Proof.
  unfold agentMain, commandLine. destruct (flag_Parse agentFlagSet args _) as [[f rest]|err]; [|by eexists].
  unfold LoadAgent. destruct (loadFile readFile unmarshal (af_config f) DefaultAgent) as [file [e|]]; [done|].
  eexists. split; [done|]. unfold withFlags, agentEnv, overridden. simpl. rewrite <-!first_set_given. split_and!; try done.
  unfold first_set. case_decide as He; [rewrite He, filter_cons_False by (by intros ?)|by rewrite filter_cons_True].
  destruct (decide (Agent_Log_Level file = "")) as [->|]; [by rewrite filter_cons_False by (by intros ?)|by rewrite filter_cons_True].
Qed.
End precedence.

(** ** The agents launched over SSH *)

(** The words of the simple command at the front of a command line. *)
Fixpoint commandWords (ts : list token) : list string :=
  match ts with Word w :: ts' => w :: commandWords ts' | _ => [] end.

(** The arguments that [nohup] gives the agent: after its own name and the program's. *)
Definition agentArgv (ts : list token) : list string := drop 2 (commandWords ts).

Lemma flags_of_launch server name partition :
  flag_Parse agentFlagSet (["--server"; server; "--name"; name] ++ (if decide (partition = "") then [] else ["--partition"; partition]))
    (mkAgentFlags "" "" "" "") = Ok (mkAgentFlags "" server name partition, []).
Proof. unfold flag_Parse. case_decide as E; [rewrite E|]; reflexivity. Qed.

Lemma newDiagnoser_nodes cfg sn :
  NoDup (SSHNode_Name <$> Server_SSHNodes cfg) → sn ∈ Server_SSHNodes cfg → dg_nodes (newDiagnoser cfg) !! SSHNode_Name sn = Some sn.
Proof.
  unfold newDiagnoser. simpl. induction (Server_SSHNodes cfg) as [|s l IH] using rev_ind; [by intros _ ?%elem_of_nil|].
  rewrite fmap_app, foldl_app. simpl. intros (Hl & Hd & _)%NoDup_app [Hin|Hin]%elem_of_app.
  - rewrite lookup_insert_ne; [by apply IH|]. intros E. apply (Hd (SSHNode_Name sn)); [|rewrite <-E; by left].
    apply list_elem_of_fmap. by exists sn.
  - apply list_elem_of_singleton in Hin as ->. by rewrite lookup_insert_eq.
Qed.

(** [C39] (safety) A node launched over SSH is the node that is diagnosed: for a node of the
    configuration that has a name, no other node has this name, and no extra arguments for the agent
    (which could name it otherwise), the control plane's launch command, read by the shell, runs the agent with arguments
    from which it starts (if its environment's configuration loads) with the tunnel's end on the node as
    the server, under the configured name, whatever its host is called and whatever bytes the name has,
    and in the configured partition; under that name the diagnoser finds this very node. *)
Theorem launched_agent_is_diagnosed cfg sn readFile unmarshal getenv hostname peer c :
  sn ∈ Server_SSHNodes cfg → NoDup (SSHNode_Name <$> Server_SSHNodes cfg) → SSHNode_Name sn ≠ "" →
  TrimSpace (SSHNode_AgentArgs sn) = "" → LoadAgent readFile unmarshal getenv "" = (c, None) →
  ∃ ts acfg, lex LBlank (launchCommand (provisionSpec sn)) = Some ts ∧
    agentMain readFile unmarshal getenv (agentArgv ts) = Started acfg ∧
    Agent_Server_Addr acfg = SSH_RemoteListen (sshConfigFor sn) ∧
    nameOf (newAgent acfg hostname peer) = SSHNode_Name sn ∧
    (SSHNode_Partition sn ≠ "" → Agent_Node_Partition acfg = SSHNode_Partition sn) ∧
    dg_nodes (newDiagnoser cfg) !! nameOf (newAgent acfg hostname peer) = Some sn.
Proof.
  intros Hin Hnd Hne Hx Hl.
  assert (given (remoteListen sn) (Agent_Server_Addr c) = remoteListen sn) as Hr.
  { unfold given, remoteListen. destruct (decide (SSHNode_RemoteListen sn = "")); [done|]. by rewrite decide_False. }
  assert (given (SSHNode_Name sn) (Agent_Node_Name c) = SSHNode_Name sn) as Hg by (unfold given; by rewrite decide_False).
  assert (∀ acfg, Agent_Node_Name acfg = SSHNode_Name sn → nameOf (newAgent acfg hostname peer) = SSHNode_Name sn) as Hname.
  { intros acfg E. unfold nameOf, agentName. simpl. rewrite E. by rewrite decide_False. }
  eexists. exists (withFlags (mkAgentFlags "" (remoteListen sn) (SSHNode_Name sn) (SSHNode_Partition sn)) c).
  split; [by apply launchCommand_tokens|]. rewrite Hname by done. split; [|split_and!; [done|done| |by apply newDiagnoser_nodes]].
  - unfold agentMain, commandLine.
    match goal with |- context [agentArgv ?ts] => assert (agentArgv ts = ["--server"; remoteListen sn; "--name"; SSHNode_Name sn] ++
      (if decide (SSHNode_Partition sn = "") then [] else ["--partition"; SSHNode_Partition sn])) as -> end.
    { unfold agentArgv. cbn -[decide]. by case_decide. }
    rewrite flags_of_launch. cbn [af_config]. by rewrite Hl.
  - intros Hp. simpl. unfold given. by rewrite decide_False.
Qed.

Definition ex_node : SSHNodeConfig :=
  {| SSHNode_Name := "gpu '7'"; SSHNode_Addr := "10.0.0.7:22"; SSHNode_User := "root"; SSHNode_Key := "id"; SSHNode_KnownHost := "";
     SSHNode_RemoteListen := ""; SSHNode_Provision := true; SSHNode_AgentBin := "bin/agent"; SSHNode_RemotePath := "";
     SSHNode_Partition := "gpu"; SSHNode_AgentArgs := ""; SSHNode_AutoRestart := true |}.

Definition ex_server : ServerConfig :=
  mkServerConfig ":7443" "sqlite" "skipper.db" "" "" Second true (f64 1) "logs" (30 * Second) Second [ex_node]
    (Server_Diagnostics DefaultServer) (Server_Notify DefaultServer) "info".

Lemma launched_agent_is_diagnosed_witness :
  ∃ ts acfg, lex LBlank (launchCommand (provisionSpec ex_node)) = Some ts ∧
    agentMain (λ _, Err "") (λ _ c, (c, None)) (λ _, "") (agentArgv ts) = Started acfg ∧
    Agent_Server_Addr acfg = "127.0.0.1:7600" ∧
    dg_nodes (newDiagnoser ex_server) !! nameOf (newAgent acfg (Ok "host7") None) = Some ex_node.
Proof.
  destruct (launched_agent_is_diagnosed ex_server ex_node (λ _, Err "") (λ _ c, (c, None)) (λ _, "") (Ok "host7") None
    (agentEnv (λ _, "") DefaultAgent)) as (ts & acfg & H1 & H2 & H3 & _ & _ & H4).
  - apply list_elem_of_singleton. reflexivity.
  - apply NoDup_singleton.
  - discriminate.
  - vm_compute. reflexivity.
  - reflexivity.
  - exists ts, acfg. exact (conj H1 (conj H2 (conj H3 H4))).
Defined.

Example agentMain_1 :
  agentMain (λ _, Err "no such file") (λ _ c, (c, None)) (λ n, if decide (n = "SKIPPER_NODE_NAME") then "env" else "")
    ["-server"; "10.0.0.1:7443"; "--partition=gpu"] =
  Started (mkAgentConfig "10.0.0.1:7443" "env" "gpu" ∅ (10 * Second) (2 * Second) "info") ∧
  agentMain (λ _, Err "no such file") (λ _ c, (c, None)) (λ _, "") ["-config"; "a.yaml"] = Panic "read config: no such file" ∧
  agentMain (λ _, Err "") (λ _ c, (c, None)) (λ _, "") ["-port"; "1"] = Exit 2.
Proof. split_and!; reflexivity. Qed.

Example levelOf_1 `{UnicodeCase} : levelOf "warning" = LevelWarn ∧ levelOf " error " = LevelError ∧ levelOf "" = LevelInfo.
Proof. split_and!; reflexivity. Qed.
