(* ===== verification/Startup.v ===== *)
(** * The programs come up: which configurations start, and the cluster they make

    The processes of Main.v until their goroutines are in their loops, and the state of the cluster
    that the server and the agents that have started are in: it is one that the theorems of
    ClusterTheorems.v, ClusterLiveness.v, ClusterProgress.v and ClusterHeartbeat.v are about. *)
From S2P Require Import Prelude GoBase GoStrings GoFloat GoFormat GoParse GoFlag Event Proto Store StoreSpec Plan SQLite SQLiteProofs StoreExample SQLiteRefines Scheduler SchedulerProofs SchedulerTheorems World Config Notify JobLog Transport Agent Server ServerTheorems Reap Main Cluster ClusterTheorems.
Local Open Scope Z_scope.

(** ** The tickers *)

Lemma startup_bind_started {A B} (m : startup A) (k : A → startup B) b :
  startup_bind m k = Started b ↔ ∃ a, m = Started a ∧ k a = Started b.
Proof. destruct m; simpl; split; first [done|by intros (? & ? & ?)|intros ?; by eexists|by intros (? & [= ->] & ?)]. Qed.

Lemma tickersStart_spec ds :
  (tickersStart ds = Started () ∧ Forall (λ d, 0 < d) ds) ∨
  (tickersStart ds = Panic "non-positive interval for NewTicker" ∧ Exists (λ d, d ≤ 0) ds).
Proof.
  induction ds as [|d ds IH]; simpl; [by left|]. unfold NewTicker. destruct (decide (d ≤ 0)) as [Hd|Hd]; simpl.
  - right. split; [done|by left].
  - destruct IH as [[-> F]|[-> E]]; [left|right]; (split; [done|]); [constructor; [lia|done]|by right].
Qed.

Lemma Run_tickers cfg r mkdirErr listenErr :
  Main.Run listenErr mkdirErr cfg = Ok r →
  serverTickers r = [Server_Scheduler_Interval cfg; Notify_Interval (Server_Notify cfg); Server_Heartbeat_ReapInterval cfg].
Proof.
  unfold Main.Run. destruct listenErr; [done|]. destruct (newJobLogStore _ _); [|done].
  destruct (startSSHTunnels _ _). by intros [= <-].
Qed.

Section server.
Context {S : Type} (readFile : string → result string) (unmarshal : string → ServerConfig → ServerConfig * option string).
Context (getenv : string → string) (open : string → result S).

(** (error) Whether the server comes up: once the command line, the configuration and the store are
    accepted and the server listens, its process stays up if the intervals of the scheduler, the
    detector and the reaper are all positive; if one of them is not, whatever the other settings, it
    dies with the panic of [time.NewTicker], because loading checks no interval. *)
Theorem server_comes_up args cfg st r :
  serverMain readFile unmarshal getenv open args = Started (cfg, st) → Main.Run None None cfg = Ok r →
  let intervals := [Server_Scheduler_Interval cfg; Notify_Interval (Server_Notify cfg); Server_Heartbeat_ReapInterval cfg] in
  (serverProcess readFile unmarshal getenv open None None args = Started (cfg, st, r) ∧ Forall (λ d, 0 < d) intervals) ∨
  (serverProcess readFile unmarshal getenv open None None args = Panic "non-positive interval for NewTicker" ∧
   Exists (λ d, d ≤ 0) intervals).
Proof.
  intros Hm Hr. cbv zeta. rewrite <-(Run_tickers _ _ _ _ Hr). unfold serverProcess. rewrite Hm. cbn [startup_bind]. rewrite Hr.
  destruct (tickersStart_spec (serverTickers r)) as [[-> F]|[-> E]]; [by left|by right].
Qed.

Lemma serverProcess_started listenErr mkdirErr args cfg st r :
  serverProcess readFile unmarshal getenv open listenErr mkdirErr args = Started (cfg, st, r) →
  serverMain readFile unmarshal getenv open args = Started (cfg, st) ∧ Main.Run listenErr mkdirErr cfg = Ok r.
Proof.
  unfold serverProcess. intros ([cfg' st'] & Hm & Hk)%startup_bind_started.
  destruct (Main.Run listenErr mkdirErr cfg') as [r'|] eqn:Hr; [|done].
  apply startup_bind_started in Hk as (_ & _ & [= <- <- <-]). done.
Qed.

(** The store a server runs over is one that [open] gave. *)
Lemma serverMain_opens args cfg st :
  serverMain readFile unmarshal getenv open args = Started (cfg, st) → open (Server_Store_DSN cfg) = Ok st.
Proof.
  unfold serverMain, commandLine. destruct (flag_Parse _ _ _) as [[path rest]|]; [|done].
  destruct (LoadServer _ _ _ _) as [c [e|]]; [done|]. destruct (open (Server_Store_DSN c)) eqn:E; [|done].
  by intros [= <- <-].
Qed.
End server.

(** ** The cluster that the started programs make *)

(** An agent as it is started: what its process reads and is called with, the name of its host, the
    address it appears under. *)
Record launched := mkLaunched {
  la_readFile : string → result string;
  la_unmarshal : string → AgentConfig → AgentConfig * option string;
  la_getenv : string → string;
  la_clientErr : string → option string;
  la_args : list string;
  la_hostname : result string;
  la_peer : option string
}.

Definition la_process (l : launched) : startup AgentConfig :=
  agentProcess (la_readFile l) (la_unmarshal l) (la_getenv l) (la_clientErr l) (la_args l).

(** The agents whose processes stay up. *)
Definition agentsUp (ls : list launched) : list agent :=
  omap (λ l, match la_process l with Started cfg => Some (newAgent cfg (la_hostname l) (la_peer l)) | _ => None end) ls.

(** What [server.Run] has started over the store, with the agents that are up. *)
Definition startCluster {S} (cfg : ServerConfig) (st : S) (r : Running) (clock : nat → Time) (rand : nat → list Z) (logs : FS)
    (agents : list agent) : cluster S :=
  mkCluster (newServer cfg st clock rand logs) (rn_scheduler r) Idle (mkReaper (rn_reap r).2 (rn_diag r) Waiting) (rn_detector r) agents.

Lemma agentsUp_fresh ls :
  Forall (λ a, json_valid (Agent_Node_Labels (ag_cfg a)) = true) (agentsUp ls) → Forall fresh_agent (agentsUp ls).
Proof.
  rewrite !Forall_forall. intros Hl a Ha. split; [|by apply Hl].
  apply list_elem_of_omap in Ha as (l & _ & E). destruct (la_process l); by simplify_eq.
Qed.

Section started.
Context {S : Type} `{StoreLaws S, UnicodeCase}.
Context (readFile : string → result string) (unmarshal : string → ServerConfig → ServerConfig * option string).
Context (getenv : string → string) (open : string → result S).

(** (safety) The programs start in a safe state: if opening the store gives one that is well-formed
    and the clock of the machine is past the epoch by the configured heartbeat timeout, then the
    server whose process came up, and the agents whose processes came up, of different names and with
    labels that JSON can hold, make a cluster from which every event leads to the states that the
    theorems on the cluster are about; in it no two active jobs hold a device, and no pass, tick or
    run is under way. *)
Theorem started_cluster_reachable listenErr mkdirErr args cfg st r clock rand logs ls :
  serverProcess readFile unmarshal getenv open listenErr mkdirErr args = Started (cfg, st, r) →
  (∀ dsn s, open dsn = Ok s → inv s ∧ view_ok (view s) ∧ exclusive (view s)) →
  (∀ i, timeUnix 1 ≤ cutoffOf (Server_Heartbeat_Timeout cfg) (clock i)) →
  Forall (λ a, json_valid (Agent_Node_Labels (ag_cfg a)) = true) (agentsUp ls) →
  NoDup (nameOf <$> agentsUp ls) →
  let k := startCluster cfg st r clock rand logs (agentsUp ls) in
  reachable k ∧
  ∀ evs k', Forall clusterEvent_ok evs → clusterRun evs k = Some k' → reachable k' ∧ exclusive (cluster_view k').
Proof.
  intros Hp Hopen Hclock Hlabels Hnames. cbv zeta.
  apply serverProcess_started in Hp as [Hm Hr]. apply serverMain_opens, Hopen in Hm as (Hi & Hv & Hx).
  assert ((rn_reap r).2 = Server_Heartbeat_Timeout cfg) as Ht.
  { revert Hr. unfold Main.Run. destruct listenErr; [done|]. destruct (newJobLogStore _ _); [|done].
    destruct (startSSHTunnels _ _). by intros [= <-]. }
  match goal with |- reachable ?k ∧ _ => assert (reachable k) as Hk end.
  { apply reach_start; simpl; try done; [by rewrite Ht|by apply agentsUp_fresh]. }
  split; [done|]. intros evs k' Hevs E. pose proof (reachable_run _ _ _ Hk Hevs E) as Hk'. split; [done|].
  destruct (reachable_ok _ Hk') as (names & Hok & _). exact (co_exclusive _ _ Hok).
Qed.
End started.

(** ** Witnesses: the defaults, and an interval of zero *)

#[local] Existing Instance ascii_case.

Definition ex_launched (args : list string) : launched :=
  mkLaunched (λ _, Err "no such file") (λ _ c, (c, None)) (λ _, "") (λ _, None) args (Ok "host7") (Some "10.0.0.1:5000").

(** The second agent is called with a flag that there is not, and does not come up. *)
Definition ex_launches : list launched := [ex_launched ["-name"; "alpha"]; ex_launched ["-port"; "1"]; ex_launched []].

(** A file that sets [heartbeat.reap_interval] to zero. *)
Definition no_reaping (_ : string) (c : ServerConfig) : ServerConfig * option string :=
  (mkServerConfig (Server_Listen_GRPC c) (Server_Store_Driver c) (Server_Store_DSN c) (Server_Metrics_HTTP c) (Server_Web_HTTP c)
     (Server_Scheduler_Interval c) (Server_Scheduler_Backfill c) (Server_Scheduler_AgeWeight c) (Server_Jobs_LogsDir c)
     (Server_Heartbeat_Timeout c) 0 (Server_SSHNodes c) (Server_Diagnostics c) (Server_Notify c) (Server_Log_Level c), None).

Lemma server_comes_up_witness :
  ∃ cfg r, serverMain (λ _, Ok "") no_reaping (λ _, "") (λ _, Ok emptyDB) ["-config"; "server.yaml"] = Started (cfg, emptyDB) ∧
    Main.Run None None cfg = Ok r ∧
    serverProcess (λ _, Ok "") no_reaping (λ _, "") (λ _, Ok emptyDB) None None ["-config"; "server.yaml"] =
      Panic "non-positive interval for NewTicker".
Proof.
  eexists _, _. split; [reflexivity|]. split; [reflexivity|].
  destruct (server_comes_up (λ _, Ok "") no_reaping (λ _, "") (λ _, Ok emptyDB) ["-config"; "server.yaml"] _ _ _ eq_refl eq_refl) as [[_ F]|[E _]].
  - exfalso. revert F. rewrite !Forall_cons. intros (_ & _ & F & _). exact (Z.lt_irrefl 0 F).
  - exact E.
Defined.

Lemma started_cluster_reachable_witness :
  ∃ cfg r, serverProcess (λ _, Err "") (λ _ c, (c, None)) (λ _, "") (λ _, Ok emptyDB) None None [] = Started (cfg, emptyDB, r) ∧
    nameOf <$> agentsUp ex_launches = ["alpha"; "host7"] ∧
    reachable (startCluster cfg emptyDB r (λ i, timeUnix (2000 + Z.of_nat i)) (λ i, [Z.of_nat i]) (mkFS ∅ []) (agentsUp ex_launches)).
Proof.
  eexists _, _. split; [reflexivity|]. split; [reflexivity|].
  refine (proj1 (started_cluster_reachable (S := DB) (H := sqlite_laws) (λ _, Err "") (λ _ c, (c, None)) (λ _, "") (λ _, Ok emptyDB)
    None None [] _ emptyDB _ _ _ _ ex_launches eq_refl _ _ _ _)).
  - intros dsn s [= <-]. exact emptyDB_start.
  - exact ex_clock_ok.
  - repeat (apply Forall_cons; split); [reflexivity|reflexivity|apply Forall_nil; exact I].
  - change (nameOf <$> agentsUp ex_launches) with ["alpha"; "host7"]. repeat constructor; set_solver.
Defined.
